(** * js-message: the message pool of [globals/message.js]

    A shallow embedding of the [cMessagePool] class and of the
    [Synchronization] session built on it, and of the class [MessagePool] of
    the earlier module, followed by the properties of the specification that
    were checked against it and by further properties of the code.

    Conventions of the embedding.

    - A JavaScript function object is a reference; two references are the same
      function exactly when they are equal ([Function] below).  The body of an
      application callable is a straight-line sequence of calls of the pool's
      public methods ([Cmd]), chosen from the arguments it receives.
    - Everything the module does to the outside world is appended to a trace
      of [Effect]s: calls of the log function, applications of handlers,
      [postMessage] calls, [bindEvent] calls.
    - [oMessages] holds references into a store of arrays, because [recv]
      iterates over the array of a name while the handlers it applies can
      reach the same array through [this.oMessages[sMessage]].
    - The module-level conditional that defines [postMessage] is taken in its
      first branch ([platform.postMessage] is defined, as in a browser
      window).
    - The objects [oMessages] and [oMessagesOnce] are object literals used as
      maps from event names to arrays; a name they have no array for reads
      the member of that name inherited from [Object.prototype], if there is
      one ([inherited] below).
    - Text is kept in UTF-8; [aMessage[0]] on a string is its first UTF-16
      code unit ([first_unit] below). *)

From Stdlib Require Import ZArith Ascii String List Lia.
From stdpp Require Import base tactics option list gmap strings pretty.

Local Open Scope string_scope.
Local Open Scope list_scope.
Local Open Scope nat_scope.

(** ** JavaScript values that travel in messages *)

(** The values [JSON.parse] produces, and [undefined] (a missing argument or
    a missing property).  A number is kept as the text that denotes it. *)
#[warnings="-register-all"]
Inductive value : Type :=
| VUndefined
| VNull
| VBool (b : bool)
| VNum (lexeme : string)
| VStr (s : string)
| VArr (elems : list value)
| VObj (members : list (string * value)).

(** [s[0]] for a string that starts with byte [c0], followed by [rest]: the
    first UTF-16 code unit of the string, as a string.  A character up to
    U+007F is one byte, up to U+07FF two, up to U+FFFF three, and each of
    these is one code unit.  A character beyond U+FFFF is four bytes and two
    code units, the first of which is its high surrogate; a surrogate on its
    own is kept as the three bytes its code gives.  Bytes that start no
    character are taken one by one. *)
Definition first_unit (c0 : ascii) (rest : string) : string :=
  let b0 := N_of_ascii c0 in
  if (b0 <? 192)%N then String c0 ""
  else if (b0 <? 224)%N then String c0 (substring 0 1 rest)
  else if (b0 <? 240)%N then String c0 (substring 0 2 rest)
  else
    match rest with
    | String c1 (String c2 _) =>
        let hi := (55296 + (b0 mod 8) * 256 + (N_of_ascii c1 mod 64) * 4
                   + (N_of_ascii c2 mod 64) / 16 - 64)%N in
        String (ascii_of_N (224 + hi / 4096))
          (String (ascii_of_N (128 + (hi / 64) mod 64))
             (String (ascii_of_N (128 + hi mod 64)) ""))
    | _ => String c0 ""
    end.

(** [typeof v === 'string'] *)
Definition is_string (v : value) : bool :=
  match v with VStr _ => true | _ => false end.

(** Truthiness of [v] for the values above, except that every number counts
    as truthy; the module tests truthiness only in [aMessage[0] || null],
    whose result is then required to be a string. *)
Definition truthy (v : value) : bool :=
  match v with
  | VUndefined | VNull => false
  | VBool b => b
  | VStr s => negb (String.eqb s "")
  | VNum _ | VArr _ | VObj _ => true
  end.

(** The last member named [k] of an object literal, as [JSON.parse] keeps
    it. *)
Fixpoint member (k : string) (kv : list (string * value)) : option value :=
  match kv with
  | [] => None
  | (k', v) :: kv' =>
      match member k kv' with
      | Some v' => Some v'
      | None => if String.eqb k k' then Some v else None
      end
  end.

(** ** Function references *)

Inductive Function : Type :=
| FnUser (id : nat)      (* a callable of the application *)
| FnPing                 (* cMessagePool: this.evPing = this.onPing.bind(this) *)
| FnPong (session : nat) (* Synchronization: this.evPong = this.onPong.bind(this) *)
| FnSync (session : nat) (* Synchronization: this.evSync = this.onSync.bind(this) *).

#[global] Instance Function_eq_dec : EqDecision Function.
Proof. solve_decision. Defined.

(** ** Arrays of handlers, with holes *)

(** [delete a[i]] leaves a hole: the length is unchanged and index [i] is no
    longer an own property. *)
Abbreviation Array := (list (option Function)).

(** [a.hasOwnProperty(i)] for an index [i] *)
Definition hasOwnProperty (a : Array) (i : nat) : bool :=
  match a !! i with Some (Some _) => true | _ => false end.

(** [a.indexOf(f)]: the first index holding [f]; holes are skipped.  [None]
    stands for -1. *)
Fixpoint indexOf (f : Function) (a : Array) : option nat :=
  match a with
  | [] => None
  | x :: a' =>
      if decide (x = Some f) then Some 0 else S <$> indexOf f a'
  end.

(** [a.lastIndexOf(f)] *)
Fixpoint lastIndexOf (f : Function) (a : Array) : option nat :=
  match a with
  | [] => None
  | x :: a' =>
      match lastIndexOf f a' with
      | Some i => Some (S i)
      | None => if decide (x = Some f) then Some 0 else None
      end
  end.

(** An array has at most 2^32 - 1 elements. *)
Definition full (a : Array) : bool := (2 ^ 32 - 1 <=? Z.of_nat (length a))%Z.

(** [a.push(f)], on an array that is not full *)
Definition push (f : Function) (a : Array) : Array := a ++ [Some f].

(** [delete a[i]] *)
Definition delete_index (i : nat) (a : Array) : Array := <[i := None]> a.

(** The keys a [for (i in a)] loop starts with: the indices that are own
    properties, in ascending order. *)
Definition keys (a : Array) : list nat :=
  filter (fun i => hasOwnProperty a i = true) (seq 0 (length a)).

(** The functions an array holds, in index order. *)
Definition present (a : Array) : list Function := omap id a.

(** [i | 0]: the index converted to a signed 32-bit integer. *)
Definition to_int32 (i : nat) : Z :=
  let m := (Z.of_nat i mod 2 ^ 32)%Z in
  if (m <? 2 ^ 31)%Z then m else (m - 2 ^ 32)%Z.

(** [a[z]] for an integer [z]: a negative key or a hole reads [undefined]. *)
Definition get_index (a : Array) (z : Z) : option Function :=
  if (z <? 0)%Z then None else mjoin (a !! Z.to_nat z).

(** ** Objects used as maps

    [this.oMessages] and [this.oMessagesOnce] are object literals.  Reading
    [o[k]] for a key [k] the object has no property of its own for gives the
    member of that name of [Object.prototype], if there is one: one of the
    functions below, or, for [__proto__], the object [Object.prototype]
    itself.  None of these is [undefined]; none has a method [indexOf] or
    [lastIndexOf]; none has an enumerable property, so that a [for-in] loop
    over it visits nothing; the functions have a [length], the number of
    their parameters, and [Object.prototype] has none.  [delete o[k]] for
    such a key removes nothing and succeeds. *)
Inductive Inherited : Type :=
| builtin_function (length : nat)
| prototype_object.

Definition Object_prototype : list (string * Inherited) :=
  [("constructor", builtin_function 1);
   ("hasOwnProperty", builtin_function 1);
   ("isPrototypeOf", builtin_function 1);
   ("propertyIsEnumerable", builtin_function 1);
   ("toLocaleString", builtin_function 0);
   ("toString", builtin_function 0);
   ("valueOf", builtin_function 0);
   ("__defineGetter__", builtin_function 2);
   ("__defineSetter__", builtin_function 2);
   ("__lookupGetter__", builtin_function 1);
   ("__lookupSetter__", builtin_function 1);
   ("__proto__", prototype_object)].

(** The member of [Object.prototype] named [k] *)
Definition inherited (k : string) : option Inherited :=
  snd <$> List.find (fun p => String.eqb (fst p) k) Object_prototype.

(** [x.length > 0] for such a member: [undefined > 0] is false. *)
Definition length_positive (x : Inherited) : bool :=
  match x with
  | builtin_function n => (0 <? n)%nat
  | prototype_object => false
  end.

(** ** The host

    What the module takes from its environment: the JSON codec and the
    coercions of the language, the global [platform] object, and the bodies
    of the application's callables. *)

(** [Window | null] resolved: a window is named by a number. *)
Abbreviation Window := nat.

(** [(HTMLIFrameElement | Window | null)] *)
Inductive Target : Type :=
| TNull
| TIFrame (contentWindow : option Window)
| TWindow (w : Window).

(** The calls an application callable can make on the pool. *)
Inductive Cmd : Type :=
| c_init (sName : string) (fnLog : option nat)
| c_has (sMessage : string)
| c_register (sMessage : string) (fnHandler : Function)
| c_registerOnce (sMessage : string) (fnHandler : Function)
| c_unregister (sMessage : string) (fnHandler : option Function)
| c_excludeLog (bReset : bool) (va_args : list string)
| c_post (arguments : list value)
| c_send (oTarget : Target) (arguments : list value)
| c_ready (bReady : option bool)
| c_log (oMessage : value)
| c_synchronize (oTarget : Target) (fnCallback : nat)
| c_cancel (session : nat)
| c_throw.

Class Host : Type := {
  (** [JSON.parse]; [None] when it throws a SyntaxError *)
  JSON_parse : string -> option value;
  (** [JSON.stringify] of an array of values *)
  JSON_stringify : list value -> string;
  (** the conversion of a value to a string, as in ['' + v] and [o[v]] *)
  ToString : value -> string;
  (** the length of an array-like object, from its [length] member *)
  ToLength : value -> nat;
  (** the global object, a window *)
  platform : Window;
  (** [platform.parent] *)
  platform_parent : option Window;
  (** the body of application callable [id] applied to [args] *)
  body : nat -> list value -> list Cmd
}.

(** ** State *)

(** [this.fnLog]: [console.log], the function given to [init], or the empty
    function [init] substitutes for a missing one.  A log function only
    receives its arguments; its call is recorded in the trace. *)
Inductive LogFn : Type :=
| console_log
| empty_function
| user_log (id : nat).

(** The fields of a [cMessagePool].  [oMessages] maps a name to a reference
    into the store of arrays of the [World]; [oMessagesOnce] maps a name to
    the array itself, which is sound because the only alias [recv] takes of
    such an array is taken together with the deletion of its key, after which
    no method can reach the array. *)
Record cMessagePool : Type := {
  oMessages : gmap string nat;
  oMessagesOnce : gmap string Array;
  aExcludeLog : list string;
  sName : string;
  fnLog : LogFn;
  bReady : option bool   (* [None] is [undefined], which [ready()] stores *)
}.

Record Synchronization : Type := {
  oTarget : Target;
  fnCallback : nat;
  iSync : option nat
}.

Record Timer : Type := {
  timer_id : nat;
  timer_due : nat;
  timer_fn : Function
}.

Inductive Effect : Type :=
| Log (f : LogFn) (args : list value)       (* this.fnLog.apply(null, args) *)
| Call (f : Function) (args : list value)   (* f.apply(null, args), f() *)
| PostMessage (oWindow : Window) (sMessage : string)
                                            (* oWindow.postMessage(sMessage, '*') *)
| BindEvent                                 (* bindEvent(platform, 'message', ...) *).

Record World : Type := {
  pool : cMessagePool;             (* the exported MessagePool *)
  arrays : list Array;             (* the arrays [oMessages] refers to *)
  sessions : list Synchronization; (* the Synchronization objects created *)
  timers : list Timer;             (* pending timeouts *)
  iTimer : nat;                    (* the next timeout id *)
  now : nat;                       (* clock, in milliseconds *)
  trace : list Effect              (* effects so far, oldest first *)
}.

Definition set_pool (f : cMessagePool -> cMessagePool) (w : World) : World :=
  {| pool := f (pool w); arrays := arrays w; sessions := sessions w;
     timers := timers w; iTimer := iTimer w; now := now w; trace := trace w |}.

Definition set_arrays (f : list Array -> list Array) (w : World) : World :=
  {| pool := pool w; arrays := f (arrays w); sessions := sessions w;
     timers := timers w; iTimer := iTimer w; now := now w; trace := trace w |}.

Definition set_sessions (f : list Synchronization -> list Synchronization)
    (w : World) : World :=
  {| pool := pool w; arrays := arrays w; sessions := f (sessions w);
     timers := timers w; iTimer := iTimer w; now := now w; trace := trace w |}.

Definition set_timers (f : list Timer -> list Timer) (w : World) : World :=
  {| pool := pool w; arrays := arrays w; sessions := sessions w;
     timers := f (timers w); iTimer := iTimer w; now := now w;
     trace := trace w |}.

Definition set_iTimer (n : nat) (w : World) : World :=
  {| pool := pool w; arrays := arrays w; sessions := sessions w;
     timers := timers w; iTimer := n; now := now w; trace := trace w |}.

Definition set_now (n : nat) (w : World) : World :=
  {| pool := pool w; arrays := arrays w; sessions := sessions w;
     timers := timers w; iTimer := iTimer w; now := n; trace := trace w |}.

Definition emit (e : Effect) (w : World) : World :=
  {| pool := pool w; arrays := arrays w; sessions := sessions w;
     timers := timers w; iTimer := iTimer w; now := now w;
     trace := trace w ++ [e] |}.

Definition set_oMessages (f : gmap string nat -> gmap string nat)
    (p : cMessagePool) : cMessagePool :=
  {| oMessages := f (oMessages p); oMessagesOnce := oMessagesOnce p;
     aExcludeLog := aExcludeLog p; sName := sName p; fnLog := fnLog p;
     bReady := bReady p |}.

Definition set_oMessagesOnce (f : gmap string Array -> gmap string Array)
    (p : cMessagePool) : cMessagePool :=
  {| oMessages := oMessages p; oMessagesOnce := f (oMessagesOnce p);
     aExcludeLog := aExcludeLog p; sName := sName p; fnLog := fnLog p;
     bReady := bReady p |}.

Definition set_aExcludeLog (l : list string) (p : cMessagePool) : cMessagePool :=
  {| oMessages := oMessages p; oMessagesOnce := oMessagesOnce p;
     aExcludeLog := l; sName := sName p; fnLog := fnLog p;
     bReady := bReady p |}.

Definition set_bReady (b : option bool) (p : cMessagePool) : cMessagePool :=
  {| oMessages := oMessages p; oMessagesOnce := oMessagesOnce p;
     aExcludeLog := aExcludeLog p; sName := sName p; fnLog := fnLog p;
     bReady := b |}.

(** The array a reference of [oMessages] denotes. *)
Definition array (w : World) (r : nat) : Array := default [] (arrays w !! r).

(** ** Completions *)

Inductive Exn : Type :=
| TypeError
| SyntaxError
| RangeError
| Thrown   (* thrown by an application callable *).

Inductive Completion (A : Type) : Type :=
| Normal (a : A)
| Throw (e : Exn).
Arguments Normal {A} a.
Arguments Throw {A} e.

(** A method: it changes the world and returns or throws. *)
Definition M (A : Type) : Type := World -> Completion A * World.

#[global] Instance M_ret : MRet M := fun A a w => (Normal a, w).
#[global] Instance M_bind : MBind M := fun A B f m w =>
  match m w with
  | (Normal a, w') => f a w'
  | (Throw e, w') => (Throw e, w')
  end.

Definition throw {A : Type} (e : Exn) : M A := fun w => (Throw e, w).
Definition modify (f : World -> World) : M unit := fun w => (Normal tt, f w).

(** ** The module [globals/message.js] *)

Definition evPing : string := "evPing".
Definition evPong : string := "evPong".
Definition defaultExcludeList : list string := [evPing; evPong].

Section MessageJs.
Context `{Host}.

(** The first branch of the module's [postMessage]:
    [oTarget.postMessage(sMessage, '*')]. *)
Definition postMessage (oTarget : Window) (sMessage : string) : M unit :=
  modify (emit (PostMessage oTarget sMessage)).

(** *** class cMessagePool *)

(** The pool the constructor leaves, before its [register] call. *)
Definition cMessagePool_fields : cMessagePool :=
  {| oMessages := ∅; oMessagesOnce := ∅;
     aExcludeLog := defaultExcludeList;
     sName := "MessagePool"; fnLog := console_log; bReady := Some false |}.

Definition init (sName' : string) (fnLog' : option nat) (w : World) : World :=
  set_pool (fun p =>
    {| oMessages := oMessages p; oMessagesOnce := oMessagesOnce p;
       aExcludeLog := aExcludeLog p; sName := sName';
       fnLog := match fnLog' with Some id => user_log id | None => empty_function end;
       bReady := bReady p |}) w.

(** [has]: the right operand of [||] is evaluated only when the left one is
    false, and reading [length] of [undefined] throws.  Both operands read
    an inherited member where the object has no array of its own. *)
Definition has (sMessage : string) (w : World) : Completion bool :=
  let once :=
    match oMessagesOnce (pool w) !! sMessage with
    | Some a => Normal (0 <? length a)%nat
    | None =>
        match inherited sMessage with
        | Some x => Normal (length_positive x)
        | None => Throw TypeError
        end
    end in
  match oMessages (pool w) !! sMessage with
  | Some r => if (0 <? length (array w r))%nat then Normal true else once
  | None =>
      match inherited sMessage with
      | Some x => if length_positive x then Normal true else once
      | None => Normal false
      end
  end.

(** [register]; the new array of a name is stored at a fresh reference.
    [push] on a full array throws a RangeError (it also leaves the function
    under a key that is not an index, which arrays here do not have).  For a
    name that reads an inherited member, [indexOf] is [undefined] and calling
    it throws a TypeError. *)
Definition register (sMessage : string) (fnHandler : Function) : M unit := fun w =>
  match oMessages (pool w) !! sMessage with
  | None =>
      match inherited sMessage with
      | Some _ => (Throw TypeError, w)
      | None =>
          (Normal tt,
           set_pool (set_oMessages <[sMessage := length (arrays w)]>)
             (set_arrays (fun s => s ++ [[Some fnHandler]]) w))
      end
  | Some r =>
      match indexOf fnHandler (array w r) with
      | None =>
          if full (array w r) then (Throw RangeError, w)
          else (Normal tt, set_arrays <[r := push fnHandler (array w r)]> w)
      | Some _ => (Normal tt, w)
      end
  end.

Definition registerOnce (sMessage : string) (fnHandler : Function) : M unit := fun w =>
  match oMessagesOnce (pool w) !! sMessage with
  | None =>
      match inherited sMessage with
      | Some _ => (Throw TypeError, w)
      | None =>
          (Normal tt, set_pool (set_oMessagesOnce <[sMessage := [Some fnHandler]]>) w)
      end
  | Some a =>
      match indexOf fnHandler a with
      | None =>
          if full a then (Throw RangeError, w)
          else (Normal tt, set_pool (set_oMessagesOnce <[sMessage := push fnHandler a]>) w)
      | Some _ => (Normal tt, w)
      end
  end.

(** What either half of [unregister] does for a name that reads an inherited
    member: without a handler, [delete] removes nothing and [bResult]
    becomes true; with one, [lastIndexOf] is [undefined] and calling it
    throws a TypeError. *)
Definition unregister_inherited (fnHandler : option Function) : M bool :=
  match fnHandler with
  | None => mret true
  | Some _ => throw TypeError
  end.

(** The first half of [unregister], on [oMessages]; it returns whether
    [bResult] is set. *)
Definition unregister_persistent (sMessage : string) (fnHandler : option Function)
    : M bool := fun w =>
  match oMessages (pool w) !! sMessage with
  | None =>
      match inherited sMessage with
      | Some _ => unregister_inherited fnHandler w
      | None => (Normal false, w)
      end
  | Some r =>
      match fnHandler with
      | None => (Normal true, set_pool (set_oMessages (delete sMessage)) w)
      | Some f =>
          match lastIndexOf f (array w r) with
          | Some i => (Normal true, set_arrays <[r := delete_index i (array w r)]> w)
          | None => (Normal false, w)
          end
      end
  end.

(** The second half of [unregister], on [oMessagesOnce]. *)
Definition unregister_once (sMessage : string) (fnHandler : option Function)
    : M bool := fun w =>
  match oMessagesOnce (pool w) !! sMessage with
  | None =>
      match inherited sMessage with
      | Some _ => unregister_inherited fnHandler w
      | None => (Normal false, w)
      end
  | Some a =>
      match fnHandler with
      | None => (Normal true, set_pool (set_oMessagesOnce (delete sMessage)) w)
      | Some f =>
          match lastIndexOf f a with
          | Some i =>
              (Normal true,
               set_pool (set_oMessagesOnce <[sMessage := delete_index i a]>) w)
          | None => (Normal false, w)
          end
      end
  end.

Definition unregister (sMessage : string) (fnHandler : option Function) : M bool :=
  b1 ← unregister_persistent sMessage fnHandler;
  b2 ← unregister_once sMessage fnHandler;
  mret (b1 || b2).

Definition excludeLog (bReset : bool) (va_args : list string) (w : World) : World :=
  let start := if bReset then defaultExcludeList else aExcludeLog (pool w) in
  set_pool (set_aExcludeLog
    (foldl (fun l a => if decide (a ∈ l) then l else l ++ [a]) start va_args)) w.

(** [aMessage[0]] for a value that is neither [null] nor [undefined] *)
Definition index0 (aMessage : value) : value :=
  match aMessage with
  | VArr l => default VUndefined (l !! 0)
  | VStr (String c0 rest) => VStr (first_unit c0 rest)
  | VObj kv => default VUndefined (member "0" kv)
  | _ => VUndefined
  end.

(** The first argument [messageLog] and [recv] give the log function. *)
Definition log_head (sName' sPrefix sMessage : string) (rest : list value) : value :=
  VStr ("[" +:+ sName' +:+ "]: " +:+ sPrefix +:+ sMessage +:+
        (if decide (length rest = 0) then "" else " :")).

Definition messageLog (aMessage : value) (sPrefix : string) : M unit := fun w =>
  match aMessage with
  | VNull | VUndefined => (Normal tt, w)
  | _ =>
      let sMessage := if truthy (index0 aMessage) then index0 aMessage else VNull in
      match sMessage with
      | VStr s =>
          if decide (s ∈ aExcludeLog (pool w)) then (Normal tt, w)
          else
            match aMessage with
            | VArr l =>
                (* aMessage.shift(); aMessage.unshift(...); this.fnLog.apply(null, aMessage) *)
                let rest := tail l in
                (Normal tt,
                 emit (Log (fnLog (pool w))
                         (log_head (sName (pool w)) sPrefix s rest :: rest)) w)
            | _ => (Throw TypeError, w)   (* aMessage.shift is not a function *)
            end
      | _ => (Normal tt, w)
      end
  end.

(** [post]: to the current window. *)
Definition post (arguments : list value) : M unit :=
  postMessage platform (JSON_stringify arguments).

(** The window [send] resolves its target to. *)
Definition resolve (oTarget' : Target) : option Window :=
  match oTarget' with
  | TNull => platform_parent
  | TIFrame contentWindow => contentWindow
  | TWindow oWindow => Some oWindow
  end.

(** [send(oTarget, sMessage, ...va_args)]; [arguments] are those after
    [oTarget]. *)
Definition send (oTarget' : Target) (arguments : list value) : M unit :=
  match resolve oTarget' with
  | None => messageLog (VArr arguments) "DROP "
  | Some oWindow => postMessage oWindow (JSON_stringify arguments)
  end.

Definition ready (bReady' : option bool) (w : World) : World :=
  if decide (bReady (pool w) = bReady') then w
  else
    let w' := set_pool (set_bReady bReady') w in
    if decide (bReady' = Some true) then emit BindEvent w' else w'.

Definition log (oMessage : value) (w : World) : World :=
  let aLog := [VStr ("[" +:+ sName (pool w) +:+ "]:")] in
  emit (Log (fnLog (pool w))
          (match oMessage with VUndefined => aLog | _ => aLog ++ [oMessage] end)) w.

Definition onPing : M unit := post [VStr evPong].

(** *** Timeouts *)

Definition setTimeout (f : Function) (delay : nat) : M nat := fun w =>
  (Normal (iTimer w),
   set_iTimer (S (iTimer w))
     (set_timers (fun ts => ts ++ [{| timer_id := iTimer w;
                                      timer_due := now w + delay;
                                      timer_fn := f |}]) w)).

(** [clearTimeout(id)]; [null] and unknown ids are ignored. *)
Definition clearTimeout (id : option nat) (w : World) : World :=
  match id with
  | None => w
  | Some i => set_timers (filter (fun t => timer_id t ≠ i)) w
  end.

(** *** class Synchronization

    Session [s] is the [s]-th object created; its bound methods are
    [FnPong s] and [FnSync s]. *)

Definition set_iSync (s : nat) (i : option nat) (w : World) : World :=
  set_sessions (alter (fun o =>
    {| oTarget := oTarget o; fnCallback := fnCallback o; iSync := i |}) s) w.

Definition onSync (s : nat) : M unit := fun w =>
  match sessions w !! s with
  | None => (Normal tt, w)
  | Some o =>
      (send (oTarget o) [VStr evPing];;
       i ← setTimeout (FnSync s) 1000;
       modify (set_iSync s (Some i))) w
  end.

(** The constructor; it returns the new session. *)
Definition new_Synchronization (oTarget' : Target) (fnCallback' : nat) : M nat :=
  fun w =>
    let s := length (sessions w) in
    (modify (set_sessions (fun l => l ++
       [{| oTarget := oTarget'; fnCallback := fnCallback'; iSync := None |}]));;
     registerOnce evPong (FnPong s);;
     onSync s;;
     mret s) w.

(** [cancel]; its [unregister] call returns, as ["evPong"] reads no
    inherited member. *)
Definition cancel (s : nat) (w : World) : World :=
  match sessions w !! s with
  | None => w
  | Some o =>
      match iSync o with
      | None => w
      | Some i =>
          set_iSync s None
            (snd (unregister evPong (Some (FnPong s)) (clearTimeout (Some i) w)))
      end
  end.

Definition synchronize (oTarget' : Target) (fnCallback' : nat) : M nat :=
  new_Synchronization oTarget' fnCallback'.

(** *** Application callables *)

Definition exec (c : Cmd) : M unit :=
  match c with
  | c_init sName' fnLog' => modify (init sName' fnLog')
  | c_has sMessage =>
      fun w => match has sMessage w with
               | Normal _ => (Normal tt, w)
               | Throw e => (Throw e, w)
               end
  | c_register sMessage fnHandler => register sMessage fnHandler
  | c_registerOnce sMessage fnHandler => registerOnce sMessage fnHandler
  | c_unregister sMessage fnHandler => unregister sMessage fnHandler;; mret tt
  | c_excludeLog bReset va_args => modify (excludeLog bReset va_args)
  | c_post arguments => post arguments
  | c_send oTarget' arguments => send oTarget' arguments
  | c_ready bReady' => modify (ready bReady')
  | c_log oMessage => modify (log oMessage)
  | c_synchronize oTarget' fnCallback' => synchronize oTarget' fnCallback';; mret tt
  | c_cancel s => modify (cancel s)
  | c_throw => throw Thrown
  end.

Fixpoint exec_all (cs : list Cmd) : M unit :=
  match cs with
  | [] => mret tt
  | c :: cs' => exec c;; exec_all cs'
  end.

(** [onPong]: [clearTimeout(this.iSync); this.fnCallback()] *)
Definition onPong (s : nat) : M unit := fun w =>
  match sessions w !! s with
  | None => (Normal tt, w)
  | Some o =>
      (modify (clearTimeout (iSync o));;
       modify (emit (Call (FnUser (fnCallback o)) []));;
       exec_all (body (fnCallback o) [])) w
  end.

(** What runs when function [f] is applied to [args]. *)
Definition apply_fn (f : Function) (args : list value) : M unit :=
  match f with
  | FnUser id => exec_all (body id args)
  | FnPing => onPing
  | FnPong s => onPong s
  | FnSync s => onSync s
  end.

(** [f.apply(null, args)] *)
Definition call (f : Function) (args : list value) : M unit :=
  modify (emit (Call f args));; apply_fn f args.

(** *** Receiving *)

(** [for (let i in list) if (list.hasOwnProperty(i)) list[i | 0].apply(null, aMessage)]

    The keys [ks] are those the array had when the loop started; a key
    deleted before its turn is skipped, and a key added during the loop is
    not visited (the language leaves the latter open; this is what the
    common engines do).  [lst w] is the array [list] as it is in world [w].
    Applying [undefined] throws a TypeError. *)
Fixpoint for_in (lst : World -> Array) (ks : list nat) (aMessage : list value)
    : M unit :=
  match ks with
  | [] => mret tt
  | i :: ks' => fun w =>
      if hasOwnProperty (lst w) i then
        match get_index (lst w) (to_int32 i) with
        | Some f => (call f aMessage;; for_in lst ks' aMessage) w
        | None => (Throw TypeError, w)
        end
      else for_in lst ks' aMessage w
  end.

(** A value used as a string: in a concatenation and as a property key. *)
Definition to_string (v : value) : string :=
  match v with VStr s => s | _ => ToString v end.

(** [this.aExcludeLog.indexOf(sMessage) < 0] is false *)
Definition excluded (sMessage : value) (l : list string) : bool :=
  match sMessage with VStr s => bool_decide (s ∈ l) | _ => false end.

Definition recv_log (sMessage : value) (aMessage : list value) : M unit := fun w =>
  if excluded sMessage (aExcludeLog (pool w)) then (Normal tt, w)
  else (Normal tt,
        emit (Log (fnLog (pool w))
                (log_head (sName (pool w)) "" (to_string sMessage) aMessage
                   :: aMessage)) w).

(** The two loops of [recv].  For a name that reads an inherited member the
    loop has nothing to visit, and the [delete] of the second half removes
    nothing. *)
Definition recv_persistent (sMessage : string) (aMessage : list value) : M unit :=
  fun w =>
    match oMessages (pool w) !! sMessage with
    | None => (Normal tt, w)
    | Some r => for_in (fun w' => array w' r) (keys (array w r)) aMessage w
    end.

Definition recv_once (sMessage : string) (aMessage : list value) : M unit :=
  fun w =>
    match oMessagesOnce (pool w) !! sMessage with
    | None => (Normal tt, w)
    | Some lst =>
        for_in (fun _ => lst) (keys lst) aMessage
          (set_pool (set_oMessagesOnce (delete sMessage)) w)
    end.

(** The key under which [recv] looks its first argument up. *)
Definition recv_key (arguments : list value) : string :=
  to_string (default VUndefined (arguments !! 0)).

(** [recv(sMessage, ...va_args)], given all its arguments. *)
Definition recv (arguments : list value) : M unit :=
  let sMessage := default VUndefined (arguments !! 0) in
  let aMessage := tail arguments in
  recv_log sMessage aMessage;;
  recv_persistent (recv_key arguments) aMessage;;
  recv_once (recv_key arguments) aMessage.

(** The arguments [f.apply(o, kv)] passes for an object [kv]. *)
Definition array_like (kv : list (string * value)) : list value :=
  (fun i : nat => default VUndefined (member (pretty i) kv)) <$>
    seq 0 (match member "length" kv with Some v => ToLength v | None => 0 end).

(** The arguments [f.apply(o, aMessage)] passes: none for [null], the
    elements of an array, those of an array-like object; any other value is
    refused with a TypeError. *)
Definition arguments_of (aMessage : value) : option (list value) :=
  match aMessage with
  | VNull | VUndefined => Some []
  | VArr l => Some l
  | VObj kv => Some (array_like kv)
  | VBool _ | VNum _ | VStr _ => None
  end.

(** [this.recv.apply(this, aMessage)] *)
Definition recv_apply (aMessage : value) : M unit :=
  match arguments_of aMessage with
  | Some arguments => recv arguments
  | None => throw TypeError
  end.

(** The event the transport hands to [onMessage]; the module reads only
    [data]. *)
Record MessageEvent : Type := {
  data : string;
  source : option Window
}.

Definition onMessage (event : MessageEvent) : M unit :=
  match JSON_parse (data event) with
  | None => throw SyntaxError
  | Some aMessage => fun w =>
      if decide (bReady (pool w) = Some true) then recv_apply aMessage w
      else messageLog aMessage "SKIP " w
  end.

(** *** The module's pool

    [export const MessagePool = new cMessagePool()] in a world where nothing
    has happened yet. *)
Definition new_cMessagePool : World :=
  snd (register evPing FnPing
         {| pool := cMessagePool_fields; arrays := []; sessions := [];
            timers := []; iTimer := 1; now := 0; trace := [] |}).

(** The name under which a ready pool dispatches an event, if it gets that
    far. *)
Definition message_name (event : MessageEvent) : option string :=
  aMessage ← JSON_parse (data event);
  arguments ← arguments_of aMessage;
  Some (recv_key arguments).

(** *** The host's event loop *)

(** A due timeout runs unless it was cleared meanwhile; what its function
    throws goes to the host. *)
Definition fire (t : Timer) (w : World) : World :=
  if decide (timer_id t ∈ timer_id <$> timers w) then
    snd (call (timer_fn t) [] (clearTimeout (Some (timer_id t)) w))
  else w.

(** One millisecond passes. *)
Definition tick (w : World) : World :=
  let w' := set_now (S (now w)) w in
  foldl (fun w t => fire t w) w'
    (filter (fun t => timer_due t ≤ now w') (timers w')).

(** What can happen to the pool: the application calls a method, the
    transport delivers a message to [onMessage], time passes.  An exception
    that reaches the host ends the turn. *)
Inductive Step : Type :=
| s_do (c : Cmd)
| s_message (event : MessageEvent)
| s_tick.

Definition step (st : Step) (w : World) : World :=
  match st with
  | s_do c => snd (exec c w)
  | s_message event => snd (onMessage event w)
  | s_tick => tick w
  end.

Definition run (steps : list Step) (w : World) : World :=
  foldl (fun w st => step st w) w steps.

End MessageJs.

(** ** The class [MessagePool] of the earlier module

    The module this one grew out of exports a class instead of one pool.  An
    instance has the six fields of a [cMessagePool] and a target of its own,
    [oTarget]; [register], [registerOnce], [unregister], [excludeLog],
    [messageLog] and [ready] read as they do above and are taken from there.
    What differs: the constructor takes the name and the log function and
    registers no ping handler; [recv] is what [post] is above, and the
    dispatch is called [callMessage]; [send] goes to the target set with
    [target]; [log] writes to the console; [synchronize] keeps its state in
    the variables of the call and cannot be cancelled. *)
Module MessagePool.

(** The variables of one call of [synchronize]: its argument, and
    [oPingPong].  In the [s]-th call, [FnSync s] is the function
    [fnPingPong] and [FnPong s] the function given to [registerOnce]; [FnPing]
    is [this.evPing]. *)
Record Closure : Type := {
  fnCallback : nat;
  oPingPong : option nat
}.

(** An instance in its world: the shared fields, the arrays, the timeouts,
    the clock and the trace are those of a [World], whose [sessions] stay
    empty; [oTarget] and the closures are added. *)
Record State : Type := {
  base : World;
  oTarget : option Window;
  closures : list Closure
}.

Definition set_base (f : World -> World) (st : State) : State :=
  {| base := f (base st); oTarget := oTarget st; closures := closures st |}.

Definition set_oTarget (o : option Window) (st : State) : State :=
  {| base := base st; oTarget := o; closures := closures st |}.

Definition set_closures (f : list Closure -> list Closure) (st : State) : State :=
  {| base := base st; oTarget := oTarget st; closures := f (closures st) |}.

(** A method of an instance. *)
Definition MO (A : Type) : Type := State -> Completion A * State.

#[global] Instance MO_ret : MRet MO := fun A a st => (Normal a, st).
#[global] Instance MO_bind : MBind MO := fun A B f m st =>
  match m st with
  | (Normal a, st') => f a st'
  | (Throw e, st') => (Throw e, st')
  end.

(** A method that only touches what the instance shares with the pool
    above. *)
Definition lift {A : Type} (m : M A) : MO A := fun st =>
  let '(c, w) := m (base st) in (c, set_base (fun _ => w) st).

Definition update (f : State -> State) : MO unit := fun st => (Normal tt, f st).
Definition raise {A : Type} (e : Exn) : MO A := fun st => (Throw e, st).

(** The calls an application callable can make on the instance. *)
Inductive Cmd : Type :=
| c_register (sMessage : string) (fnHandler : Function)
| c_registerOnce (sMessage : string) (fnHandler : Function)
| c_unregister (sMessage : string) (fnHandler : option Function)
| c_excludeLog (bReset : bool) (va_args : list string)
| c_recv (arguments : list value)
| c_target (oTarget : Target)
| c_send (arguments : list value)
| c_ready (bReady : option bool)
| c_log (oMessage : value)
| c_synchronize (fnCallback : nat)
| c_throw.

(** The bodies of the application's callables. *)
Class App : Type := {
  body : nat -> list value -> list Cmd
}.

Section Methods.
Context `{Host} `{App}.

(** [new MessagePool(sName, fnLog)]: a missing or empty name becomes
    ["Unknown"], a missing log function the empty function. *)
Definition constructor (sName' : option string) (fnLog' : option nat) : State :=
  {| base :=
       {| pool :=
            {| oMessages := ∅; oMessagesOnce := ∅;
               aExcludeLog := defaultExcludeList;
               sName := match sName' with
                        | Some s => if String.eqb s "" then "Unknown" else s
                        | None => "Unknown"
                        end;
               fnLog := match fnLog' with
                        | Some id => user_log id
                        | None => empty_function
                        end;
               bReady := Some false |};
          arrays := []; sessions := []; timers := []; iTimer := 1; now := 0;
          trace := [] |};
     oTarget := None;
     closures := [] |}.

Definition register (sMessage : string) (fnHandler : Function) : MO unit :=
  lift (register sMessage fnHandler).

Definition registerOnce (sMessage : string) (fnHandler : Function) : MO unit :=
  lift (registerOnce sMessage fnHandler).

Definition unregister (sMessage : string) (fnHandler : option Function) : MO bool :=
  lift (unregister sMessage fnHandler).

Definition excludeLog (bReset : bool) (va_args : list string) : MO unit :=
  lift (modify (excludeLog bReset va_args)).

Definition messageLog (aMessage : value) (sPrefix : string) : MO unit :=
  lift (messageLog aMessage sPrefix).

Definition ready (bReady' : option bool) : MO unit :=
  lift (modify (ready bReady')).

(** [recv]: [platform.postMessage(JSON.stringify(aMessage), '*')] *)
Definition recv (arguments : list value) : MO unit :=
  lift (modify (emit (PostMessage platform (JSON_stringify arguments)))).

(** [target(oTarget)]: nothing, a frame or a window. *)
Definition target (oTarget' : Target) : MO unit :=
  update (set_oTarget (match oTarget' with
                       | TNull => None
                       | TIFrame contentWindow => contentWindow
                       | TWindow oWindow => Some oWindow
                       end)).

Definition send (arguments : list value) : MO unit := fun st =>
  match oTarget st with
  | None => messageLog (VArr arguments) "DROP " st
  | Some oWindow =>
      lift (modify (emit (PostMessage oWindow (JSON_stringify arguments)))) st
  end.

(** [log]: [console.log('[' + this.sName + ']: ' + oMessage)] *)
Definition log (oMessage : value) : MO unit :=
  lift (fun w =>
    (Normal tt,
     emit (Log console_log
             [VStr ("[" +:+ sName (pool w) +:+ "]: " +:+ to_string oMessage)]) w)).

Definition onPing : MO unit := recv [VStr evPong].

Definition set_oPingPong (s : nat) (i : option nat) (st : State) : State :=
  set_closures (alter (fun c => {| fnCallback := fnCallback c; oPingPong := i |}) s) st.

(** [fnPingPong] of the [s]-th call of [synchronize] *)
Definition fnPingPong (s : nat) : MO unit :=
  send [VStr evPing];;
  i ← lift (setTimeout (FnSync s) 1000);
  update (set_oPingPong s (Some i)).

Definition synchronize (fnCallback' : nat) : MO unit := fun st =>
  let s := length (closures st) in
  (update (set_closures (fun l => l ++ [{| fnCallback := fnCallback';
                                            oPingPong := None |}]));;
   registerOnce evPong (FnPong s);;
   register evPing FnPing;;
   fnPingPong s) st.

Definition exec (c : Cmd) : MO unit :=
  match c with
  | c_register sMessage fnHandler => register sMessage fnHandler
  | c_registerOnce sMessage fnHandler => registerOnce sMessage fnHandler
  | c_unregister sMessage fnHandler => unregister sMessage fnHandler;; mret tt
  | c_excludeLog bReset va_args => excludeLog bReset va_args
  | c_recv arguments => recv arguments
  | c_target oTarget' => target oTarget'
  | c_send arguments => send arguments
  | c_ready bReady' => ready bReady'
  | c_log oMessage => log oMessage
  | c_synchronize fnCallback' => synchronize fnCallback'
  | c_throw => raise Thrown
  end.

Fixpoint exec_all (cs : list Cmd) : MO unit :=
  match cs with
  | [] => mret tt
  | c :: cs' => exec c;; exec_all cs'
  end.

(** The function given to [registerOnce] in the [s]-th call of
    [synchronize]: [clearTimeout(oPingPong); fnCallback()] *)
Definition onPong (s : nat) : MO unit := fun st =>
  match closures st !! s with
  | None => (Normal tt, st)
  | Some c =>
      (lift (modify (clearTimeout (oPingPong c)));;
       lift (modify (emit (Call (FnUser (fnCallback c)) [])));;
       exec_all (body (fnCallback c) [])) st
  end.

Definition apply_fn (f : Function) (args : list value) : MO unit :=
  match f with
  | FnUser id => exec_all (body id args)
  | FnPing => onPing
  | FnPong s => onPong s
  | FnSync s => fnPingPong s
  end.

Definition call (f : Function) (args : list value) : MO unit :=
  lift (modify (emit (Call f args)));; apply_fn f args.

(** The loop of [callMessage], as [for_in] above. *)
Fixpoint for_in (lst : State -> Array) (ks : list nat) (aMessage : list value)
    : MO unit :=
  match ks with
  | [] => mret tt
  | i :: ks' => fun st =>
      if hasOwnProperty (lst st) i then
        match get_index (lst st) (to_int32 i) with
        | Some f => (call f aMessage;; for_in lst ks' aMessage) st
        | None => (Throw TypeError, st)
        end
      else for_in lst ks' aMessage st
  end.

Definition call_persistent (sMessage : string) (aMessage : list value) : MO unit :=
  fun st =>
    match oMessages (pool (base st)) !! sMessage with
    | None => (Normal tt, st)
    | Some r =>
        for_in (fun st' => array (base st') r) (keys (array (base st) r)) aMessage st
    end.

Definition call_once (sMessage : string) (aMessage : list value) : MO unit :=
  fun st =>
    match oMessagesOnce (pool (base st)) !! sMessage with
    | None => (Normal tt, st)
    | Some lst =>
        for_in (fun _ => lst) (keys lst) aMessage
          (set_base (set_pool (set_oMessagesOnce (delete sMessage))) st)
    end.

(** [callMessage(sMessage, ...va_args)], given all its arguments. *)
Definition callMessage (arguments : list value) : MO unit :=
  let sMessage := default VUndefined (arguments !! 0) in
  let aMessage := tail arguments in
  lift (recv_log sMessage aMessage);;
  call_persistent (recv_key arguments) aMessage;;
  call_once (recv_key arguments) aMessage.

Definition onMessage (event : MessageEvent) : MO unit :=
  match JSON_parse (data event) with
  | None => raise SyntaxError
  | Some aMessage => fun st =>
      if decide (bReady (pool (base st)) = Some true) then
        match arguments_of aMessage with
        | Some arguments => callMessage arguments st
        | None => (Throw TypeError, st)
        end
      else messageLog aMessage "SKIP " st
  end.

(** The host's event loop, as above. *)
Definition fire (t : Timer) (st : State) : State :=
  if decide (timer_id t ∈ timer_id <$> timers (base st)) then
    snd (call (timer_fn t) [] (set_base (clearTimeout (Some (timer_id t))) st))
  else st.

Definition tick (st : State) : State :=
  let st' := set_base (set_now (S (now (base st)))) st in
  foldl (fun st t => fire t st) st'
    (filter (fun t => timer_due t ≤ now (base st')) (timers (base st'))).

Inductive Step : Type :=
| s_do (c : Cmd)
| s_message (event : MessageEvent)
| s_tick.

Definition step (s : Step) (st : State) : State :=
  match s with
  | s_do c => snd (exec c st)
  | s_message event => snd (onMessage event st)
  | s_tick => tick st
  end.

Definition run (steps : list Step) (st : State) : State :=
  foldl (fun st s => step s st) st steps.

End Methods.

End MessagePool.

(** ** A host for the examples

    A JSON codec written out, so that the examples below run on payloads as
    they are on the wire.  Numbers keep their text; [\u] escapes denote code
    points of the basic plane, stored in UTF-8. *)

Definition dquote : ascii := "034"%char.
Definition quoted (s : string) : string :=
  String dquote s +:+ String dquote "".

(** [s] without the prefix [p] *)
Fixpoint strip (p s : string) : option string :=
  match p, s with
  | "", _ => Some s
  | String a p', String b s' => if Ascii.eqb a b then strip p' s' else None
  | _, _ => None
  end.

Definition is_ws (c : ascii) : bool :=
  let n := nat_of_ascii c in
  (n =? 32) || (n =? 9) || (n =? 10) || (n =? 13).

Definition is_digit (c : ascii) : bool :=
  let n := nat_of_ascii c in (48 <=? n) && (n <=? 57).

Fixpoint skip_ws (s : string) : string :=
  match s with
  | String c r => if is_ws c then skip_ws r else s
  | "" => ""
  end.

Fixpoint take_digits (s : string) : string * string :=
  match s with
  | String c r =>
      if is_digit c then let '(ds, r') := take_digits r in (String c ds, r')
      else ("", s)
  | "" => ("", "")
  end.

(** A run of at least one digit *)
Definition digits1 (s : string) : option (string * string) :=
  match take_digits s with
  | ("", _) => None
  | (ds, r) => Some (ds, r)
  end.

(** number = [-] int [frac] [exp] *)
Definition lex_number (s : string) : option (string * string) :=
  let '(sign, s1) :=
    match s with String "-" r => ("-", r) | _ => ("", s) end in
  '(int, s2) ←
    match s1 with
    | String "0" r => Some ("0", r)
    | _ => digits1 s1
    end;
  '(frac, s3) ←
    match s2 with
    | String "." r => '(ds, r') ← digits1 r; Some ("." +:+ ds, r')
    | _ => Some ("", s2)
    end;
  '(exp, s4) ←
    match s3 with
    | String c r =>
        if Ascii.eqb c "e" || Ascii.eqb c "E" then
          let '(sg, r1) :=
            match r with
            | String "+" r' => ("+", r')
            | String "-" r' => ("-", r')
            | _ => ("", r)
            end in
          '(ds, r2) ← digits1 r1; Some (String c (sg +:+ ds), r2)
        else Some ("", s3)
    | "" => Some ("", s3)
    end;
  Some (sign +:+ int +:+ frac +:+ exp, s4).

Definition hex_digit (c : ascii) : option nat :=
  let n := nat_of_ascii c in
  if (48 <=? n) && (n <=? 57) then Some (n - 48)
  else if (65 <=? n) && (n <=? 70) then Some (n - 55)
  else if (97 <=? n) && (n <=? 102) then Some (n - 87)
  else None.

Definition utf8 (cp : nat) : string :=
  if cp <? 128 then String (ascii_of_nat cp) ""
  else if cp <? 2048 then
    String (ascii_of_nat (192 + cp / 64))
      (String (ascii_of_nat (128 + cp mod 64)) "")
  else
    String (ascii_of_nat (224 + cp / 4096))
      (String (ascii_of_nat (128 + (cp / 64) mod 64))
         (String (ascii_of_nat (128 + cp mod 64)) "")).

(** The characters of a string literal after its opening quote, and what
    follows the closing quote. *)
Fixpoint lex_string (s : string) : option (string * string) :=
  match s with
  | "" => None
  | String c r =>
      if Ascii.eqb c dquote then Some ("", r)
      else if Ascii.eqb c "\" then
        match r with
        | String "u" (String h1 (String h2 (String h3 (String h4 r')))) =>
            a ← hex_digit h1; b ← hex_digit h2; c' ← hex_digit h3; d ← hex_digit h4;
            '(str, rest) ← lex_string r';
            Some (utf8 (((a * 16 + b) * 16 + c') * 16 + d) +:+ str, rest)
        | String e r' =>
            ch ← (if Ascii.eqb e dquote then Some dquote
                  else if Ascii.eqb e "\" then Some "\"%char
                  else if Ascii.eqb e "/" then Some "/"%char
                  else if Ascii.eqb e "b" then Some "008"%char
                  else if Ascii.eqb e "f" then Some "012"%char
                  else if Ascii.eqb e "n" then Some "010"%char
                  else if Ascii.eqb e "r" then Some "013"%char
                  else if Ascii.eqb e "t" then Some "009"%char
                  else None);
            '(str, rest) ← lex_string r';
            Some (String ch str, rest)
        | "" => None
        end
      else if nat_of_ascii c <? 32 then None
      else '(str, rest) ← lex_string r; Some (String c str, rest)
  end.

Section Parser.
Variable parse_value : string -> option (value * string).

(** elements = value *( "," value ) "]" *)
Fixpoint parse_elements (fuel : nat) (s : string) : option (list value * string) :=
  match fuel with
  | 0 => None
  | S fuel' =>
      '(v, r) ← parse_value s;
      match skip_ws r with
      | String "," r' => '(vs, r'') ← parse_elements fuel' r'; Some (v :: vs, r'')
      | String "]" r' => Some ([v], r')
      | _ => None
      end
  end.

(** members = string ":" value *( "," string ":" value ) "}" *)
Fixpoint parse_members (fuel : nat) (s : string)
    : option (list (string * value) * string) :=
  match fuel with
  | 0 => None
  | S fuel' =>
      match skip_ws s with
      | String c r =>
          if Ascii.eqb c dquote then
            '(k, r1) ← lex_string r;
            match skip_ws r1 with
            | String ":" r2 =>
                '(v, r3) ← parse_value r2;
                match skip_ws r3 with
                | String "," r4 =>
                    '(kv, r5) ← parse_members fuel' r4; Some ((k, v) :: kv, r5)
                | String "}" r4 => Some ([(k, v)], r4)
                | _ => None
                end
            | _ => None
            end
          else None
      | "" => None
      end
  end.
End Parser.

Fixpoint parse_value (fuel : nat) (s : string) : option (value * string) :=
  match fuel with
  | 0 => None
  | S fuel' =>
      let s := skip_ws s in
      match s with
      | "" => None
      | String c r =>
          if Ascii.eqb c dquote then
            '(str, r') ← lex_string r; Some (VStr str, r')
          else if Ascii.eqb c "[" then
            match skip_ws r with
            | String "]" r' => Some (VArr [], r')
            | _ => '(vs, r') ← parse_elements (parse_value fuel') fuel' r;
                   Some (VArr vs, r')
            end
          else if Ascii.eqb c "{" then
            match skip_ws r with
            | String "}" r' => Some (VObj [], r')
            | _ => '(kv, r') ← parse_members (parse_value fuel') fuel' r;
                   Some (VObj kv, r')
            end
          else
            match strip "null" s, strip "true" s, strip "false" s with
            | Some r', _, _ => Some (VNull, r')
            | _, Some r', _ => Some (VBool true, r')
            | _, _, Some r' => Some (VBool false, r')
            | _, _, _ => '(lx, r') ← lex_number s; Some (VNum lx, r')
            end
      end
  end.

Definition demo_parse (s : string) : option value :=
  '(v, r) ← parse_value (S (String.length s)) s;
  match skip_ws r with "" => Some v | _ => None end.

Definition hex_char (n : nat) : ascii :=
  ascii_of_nat (if n <? 10 then 48 + n else 87 + n).

Fixpoint escape (s : string) : string :=
  match s with
  | "" => ""
  | String c r =>
      let n := nat_of_ascii c in
      (if Ascii.eqb c dquote then String "\" (String dquote "")
       else if Ascii.eqb c "\" then "\\"
       else if n =? 8 then "\b"
       else if n =? 12 then "\f"
       else if n =? 10 then "\n"
       else if n =? 13 then "\r"
       else if n =? 9 then "\t"
       else if n <? 32 then
         "\u00" +:+ String (hex_char (n / 16)) (String (hex_char (n mod 16)) "")
       else String c "") +:+ escape r
  end.

Definition join (sep : string) (l : list string) : string :=
  match l with
  | [] => ""
  | x :: l' => foldl (fun acc y => acc +:+ sep +:+ y) x l'
  end.

(** [JSON.stringify]; [undefined] inside an array is written [null], and a
    member whose value is [undefined] is left out. *)
Fixpoint stringify (v : value) : string :=
  match v with
  | VUndefined | VNull => "null"
  | VBool true => "true"
  | VBool false => "false"
  | VNum lx => lx
  | VStr s => quoted (escape s)
  | VArr l => "[" +:+ join "," (map stringify l) +:+ "]"
  | VObj kv =>
      "{" +:+ join ","
        (omap (fun p : string * value =>
                 match snd p with
                 | VUndefined => None
                 | _ => Some (quoted (escape (fst p)) +:+ ":" +:+ stringify (snd p))
                 end) kv) +:+ "}"
  end.

(** The conversion to a string; a number gives its text. *)
Fixpoint demo_ToString (v : value) : string :=
  match v with
  | VUndefined => "undefined"
  | VNull => "null"
  | VBool true => "true"
  | VBool false => "false"
  | VNum lx => lx
  | VStr s => s
  | VArr l =>
      join "," (map (fun x => match x with
                              | VUndefined | VNull => ""
                              | _ => demo_ToString x
                              end) l)
  | VObj _ => "[object Object]"
  end.

Fixpoint nat_of_digits (acc : nat) (s : string) : option nat :=
  match s with
  | "" => Some acc
  | String c r =>
      if is_digit c then nat_of_digits (10 * acc + (nat_of_ascii c - 48)) r
      else None
  end.

(** The length an unsigned integer literal denotes; any other value counts
    as 0. *)
Definition demo_ToLength (v : value) : nat :=
  match v with
  | VNum lx | VStr lx => default 0 (nat_of_digits 0 lx)
  | _ => 0
  end.

(** Window 0 embedded in window 1; the application's callables are given
    with the instance. *)
Definition demo_host (code : nat -> list value -> list Cmd) : Host :=
  {| JSON_parse := demo_parse;
     JSON_stringify := fun l => stringify (VArr l);
     ToString := demo_ToString;
     ToLength := demo_ToLength;
     platform := 0;
     platform_parent := Some 1;
     body := code |}.

(** The same window with no parent. *)
Definition top_host (code : nat -> list value -> list Cmd) : Host :=
  {| JSON_parse := demo_parse;
     JSON_stringify := fun l => stringify (VArr l);
     ToString := demo_ToString;
     ToLength := demo_ToLength;
     platform := 0;
     platform_parent := None;
     body := code |}.

(** ** Vocabulary of the properties *)

(** World [w] after further effects [es], and nothing else. *)
Definition emit_all (es : list Effect) (w : World) : World :=
  {| pool := pool w; arrays := arrays w; sessions := sessions w;
     timers := timers w; iTimer := iTimer w; now := now w;
     trace := trace w ++ es |}.

(** The applications of functions in a trace, in order. *)
Definition calls (es : list Effect) : list (Function * list value) :=
  omap (fun e => match e with Call f a => Some (f, a) | _ => None end) es.

(** The [postMessage] calls in a trace, in order. *)
Definition posts (es : list Effect) : list (Window * string) :=
  omap (fun e => match e with PostMessage o m => Some (o, m) | _ => None end) es.

(** The number of [bindEvent] calls in a trace. *)
Definition binds (es : list Effect) : nat :=
  length (omap (fun e => match e with BindEvent => Some tt | _ => None end) es).

(** Hosts whose application callables do nothing. *)
Definition plain_host : Host := demo_host (fun _ _ => []).
Definition plain_top_host : Host := top_host (fun _ _ => []).

Definition wire_ping : string := "[" +:+ quoted "evPing" +:+ "]".
Definition wire_pong : string := "[" +:+ quoted "evPong" +:+ "]".
Definition wire_greet : string :=
  "[" +:+ quoted "greet" +:+ "," +:+ quoted "world" +:+ "]".

(** An array short enough for every index [i] to survive [i | 0]. *)
Definition short (a : Array) : Prop := (Z.of_nat (length a) ≤ 2 ^ 31)%Z.

(** The handlers a name has, in index order. *)
Definition persistent_handlers (w : World) (n : string) : list Function :=
  match oMessages (pool w) !! n with
  | Some r => present (array w r)
  | None => []
  end.

Definition once_handlers (w : World) (n : string) : list Function :=
  match oMessagesOnce (pool w) !! n with
  | Some a => present a
  | None => []
  end.

(** A function that returns normally whatever it is applied to, leaves both
    registries as they are and applies no function itself. *)
Definition inert `{Host} (f : Function) : Prop :=
  ∀ args w, ∃ w' es,
    apply_fn f args w = (Normal tt, w') ∧
    oMessages (pool w') = oMessages (pool w) ∧
    oMessagesOnce (pool w') = oMessagesOnce (pool w) ∧
    arrays w' = arrays w ∧
    trace w' = trace w ++ es ∧ calls es = [].

(** The arrays of name [n] are short and hold inert functions only. *)
Definition quiet_name `{Host} (w : World) (n : string) : Prop :=
  (∀ r, oMessages (pool w) !! n = Some r →
        short (array w r) ∧ ∀ f, f ∈ present (array w r) → inert f) ∧
  (∀ a, oMessagesOnce (pool w) !! n = Some a →
        short a ∧ ∀ f, f ∈ present a → inert f).

(** A call that neither touches a registry nor throws. *)
Definition passive (c : Cmd) : bool :=
  match c with
  | c_init _ _ | c_excludeLog _ _ | c_post _ | c_send _ _ | c_ready _ | c_log _ => true
  | _ => false
  end.

(** The flag after each call of [ready] in turn. *)
Definition ready_all (flags : list (option bool)) (w : World) : World :=
  foldl (fun w b => ready b w) w flags.

(** How often a sequence of flags moves a flag that is [cur] to [true]. *)
Fixpoint rising_edges (cur : option bool) (flags : list (option bool)) : nat :=
  match flags with
  | [] => 0
  | b :: flags' =>
      (if decide (b = Some true ∧ cur ≠ Some true) then 1 else 0)
      + rising_edges b flags'
  end.

(** Worlds and events of the examples. *)
Definition greeting_pool : World := snd (register "greet" (FnUser 0) new_cMessagePool).
Definition ready_pool : World := ready (Some true) new_cMessagePool.
Definition greet_event : MessageEvent := {| data := wire_greet; source := Some 1 |}.
Definition ping_from_parent : MessageEvent := {| data := wire_ping; source := Some 1 |}.
Definition broken_event : MessageEvent := {| data := "{"; source := Some 1 |}.

(** *** Invariants

    [m] keeps [P], however it completes. *)
Definition preserves {A : Type} (P : World → Prop) (m : M A) : Prop :=
  ∀ w, P w → P (snd (m w)).

(** What is asked of a property [P] of worlds for every turn of the event
    loop to keep it, as long as the functions applied are among [okf], the
    calls made among [okc] and the names dispatched among [okk]. *)
Record Stable `{Host} (P : World → Prop) (okf : Function → Prop)
    (okc : Cmd → Prop) (okk : string → Prop) : Prop := {
  st_exec : ∀ c, okc c → preserves P (exec c);
  st_body : ∀ id args c, okf (FnUser id) → c ∈ body id args → okc c;
  st_emit : ∀ e w, (∀ f args, e = Call f args → okf f) → P w → P (emit e w);
  st_store : ∀ w r a f, P w → arrays w !! r = Some a → Some f ∈ a → okf f;
  st_once : ∀ w k a, P w → okk k → oMessagesOnce (pool w) !! k = Some a →
            P (set_pool (set_oMessagesOnce (delete k)) w) ∧
            ∀ f, Some f ∈ a → okf f;
  st_timer : ∀ w t, P w → t ∈ timers w → okf (timer_fn t);
  st_clear : ∀ w i, P w → P (clearTimeout i w);
  st_session : ∀ w s o, P w → okf (FnPong s) → sessions w !! s = Some o →
               okf (FnUser (fnCallback o));
  st_sync : ∀ s, okf (FnSync s) → preserves P (onSync s);
  st_now : ∀ w t, P w → P (set_now t w)
}.

(** A turn within the bounds of [okc] and [okk]. *)
Definition ok_step `{Host} (okc : Cmd → Prop) (okk : string → Prop) (st : Step) : Prop :=
  match st with
  | s_do c => okc c
  | s_message event => ∀ k, message_name event = Some k → okk k
  | s_tick => True
  end.

(** The arrays of a world the methods can produce: every array of
    [oMessages] was created with one element and never shrinks, every
    reference of [oMessages] denotes an array, and no array is longer than an
    array can be. *)
Definition shaped (w : World) : Prop :=
  (∀ r a, arrays w !! r = Some a →
          a ≠ [] ∧ (Z.of_nat (length a) ≤ 2 ^ 32 - 1)%Z) ∧
  (∀ n r, oMessages (pool w) !! n = Some r → r < length (arrays w)) ∧
  (∀ k a, oMessagesOnce (pool w) !! k = Some a →
          (Z.of_nat (length a) ≤ 2 ^ 32 - 1)%Z).

(** The names of a world the methods can produce: a name that either
    registry has an array for reads no inherited member, as [register] and
    [registerOnce] store no array under such a name. *)
Definition own_names (w : World) : Prop :=
  (∀ n r, oMessages (pool w) !! n = Some r → inherited n = None) ∧
  (∀ n a, oMessagesOnce (pool w) !! n = Some a → inherited n = None).

(** The registries of a world the methods can produce. *)
Definition well_formed (w : World) : Prop := shaped w ∧ own_names w.

(** The registries of [w'] are those of [w]. *)
Definition same_registry (w w' : World) : Prop :=
  arrays w' = arrays w ∧
  oMessages (pool w') = oMessages (pool w) ∧
  oMessagesOnce (pool w') = oMessagesOnce (pool w).

(** How often function [f] is applied in a trace. *)
Definition invocations (f : Function) (es : list Effect) : nat :=
  length (filter (fun c : Function * list value => c.1 = f) (calls es)).

(** Three handlers under one name. *)
Definition trio_pool : World :=
  snd (register "greet" (FnUser 2) (snd (register "greet" (FnUser 1) greeting_pool))).

(** *** A once-handler and its invocations

    The call [c] registers function [h], as a handler or as the callback of a
    session. *)
Definition mentions (h : Function) (c : Cmd) : Prop :=
  match c with
  | c_register _ f | c_registerOnce _ f => f = h
  | c_synchronize _ cb => FnUser cb = h
  | _ => False
  end.

(** Function [h] is in no array of [oMessages], in no array of
    [oMessagesOnce] except perhaps that of [n], is the callback of no session
    and the function of no timeout. *)
Definition elsewhere_absent (h : Function) (n : string) (w : World) : Prop :=
  (∀ r a, arrays w !! r = Some a → Some h ∉ a) ∧
  (∀ m a, oMessagesOnce (pool w) !! m = Some a → m ≠ n → Some h ∉ a) ∧
  (∀ s o, sessions w !! s = Some o → FnUser (fnCallback o) ≠ h) ∧
  (∀ t, t ∈ timers w → timer_fn t ≠ h).

(** How often [h] occurs among the once-handlers of [n]. *)
Definition occurrences (h : Function) (n : string) (w : World) : nat :=
  match oMessagesOnce (pool w) !! n with
  | Some a => length (filter (fun x => x = Some h) a)
  | None => 0
  end.

(** [h] has been applied [c] times and waits at most [t] times under [n]. *)
Definition armed (h : Function) (n : string) (c t : nat) (w : World) : Prop :=
  well_formed w ∧ elsewhere_absent h n w ∧
  invocations h (trace w) = c ∧ occurrences h n w ≤ t.

(** What of [w] the absence of [h] depends on is the same or less in [w']. *)
Definition no_more (w w' : World) : Prop :=
  arrays w' = arrays w ∧
  oMessagesOnce (pool w') = oMessagesOnce (pool w) ∧
  fnCallback <$> sessions w' = fnCallback <$> sessions w ∧
  (∀ t, t ∈ timers w' → t ∈ timers w) ∧
  calls (trace w') = calls (trace w).

(** [h] has been applied, and waits under [n], at most [T] times in all. *)
Definition guarded `{Host} (h : Function) (n : string) (T : nat) (w : World) : Prop :=
  ∃ c t, armed h n c t w ∧ c + t ≤ T.

(** The application makes no call that registers [h]. *)
Definition never_registers `{Host} (h : Function) : Prop :=
  ∀ id args cmd, cmd ∈ body id args → ¬ mentions h cmd.

(** An application whose callable 1 registers handlers and unregisters
    others while it runs. *)
Definition busy_code (id : nat) (args : list value) : list Cmd :=
  match id with
  | 1 => [c_registerOnce "greet" (FnUser 2); c_register "greet" (FnUser 3);
          c_unregister "other" None; c_post [VStr "greet"]]
  | _ => []
  end.
Definition busy_host : Host := demo_host busy_code.

(** A ready pool whose handler for ["greet"] is callable 1. *)
Definition busy_pool : World :=
  run (H := busy_host)
    [s_do (c_register "greet" (FnUser 1)); s_do (c_ready (Some true))]
    new_cMessagePool.

(** An application whose callable 0 registers callable 5 once for
    ["greet"]. *)
Definition relay_code (id : nat) (args : list value) : list Cmd :=
  match id with
  | 0 => [c_registerOnce "greet" (FnUser 5)]
  | _ => []
  end.
Definition relay_host : Host := demo_host relay_code.

(** A pool whose once-handler for ["greet"] is callable 0. *)
Definition relay_pool : World :=
  snd (registerOnce "greet" (FnUser 0) new_cMessagePool).

(** *** A session nobody answers

    The world [t] milliseconds after [synchronize(oTarget, fnCallback)] on
    the new pool, no message having arrived. *)
Definition waited `{Host} (oTarget' : Target) (fnCallback' : nat) (t : nat) : World :=
  run (replicate t s_tick) (snd (synchronize oTarget' fnCallback' new_cMessagePool)).

(** The only session has pinged window [win] [k + 1] times and pings again in
    [d] milliseconds. *)
Definition syncing `{Host} (oTarget' : Target) (fnCallback' : nat) (win : Window)
    (k d : nat) (w : World) : Prop :=
  pool w = pool (snd (synchronize oTarget' fnCallback' new_cMessagePool)) ∧
  arrays w = arrays new_cMessagePool ∧
  sessions w = [{| oTarget := oTarget'; fnCallback := fnCallback';
                   iSync := Some (S k) |}] ∧
  timers w = [{| timer_id := S k; timer_due := now w + d; timer_fn := FnSync 0 |}] ∧
  iTimer w = S (S k) ∧
  trace w = PostMessage win (JSON_stringify [VStr evPing])
            :: mjoin (replicate k [Call (FnSync 0) [];
                                   PostMessage win (JSON_stringify [VStr evPing])]) ∧
  1 ≤ d ≤ 1000.

(** Nothing is scheduled, the registries hold the ping handler only, and the
    functions [f] and [g] have been applied [c] and [k] times. *)
Definition idle (f g : Function) (c k : nat) (w : World) : Prop :=
  timers w = [] ∧
  (∀ r a x, arrays w !! r = Some a → Some x ∈ a → x = FnPing) ∧
  (∀ m a x, oMessagesOnce (pool w) !! m = Some a → Some x ∉ a) ∧
  invocations f (trace w) = c ∧ invocations g (trace w) = k.

(** *** The exclusion list

    The list [excludeLog] starts from. *)
Definition exclusions_from (bReset : bool) (w : World) : list string :=
  if bReset then defaultExcludeList else aExcludeLog (pool w).

(** Both control events are exempt from logging. *)
Definition controls_excluded (w : World) : Prop :=
  evPing ∈ aExcludeLog (pool w) ∧ evPong ∈ aExcludeLog (pool w).

(** The pool with ["greet"] exempt from logging as well. *)
Definition discreet_pool : World := excludeLog false ["greet"] greeting_pool.

(** *** Handlers that throw

    A function that throws [e] whatever it is applied to, having left both
    registries as they are and applied no function itself. *)
Definition failing `{Host} (f : Function) (e : Exn) : Prop :=
  ∀ args w, ∃ w' es,
    apply_fn f args w = (Throw e, w') ∧
    oMessages (pool w') = oMessages (pool w) ∧
    oMessagesOnce (pool w') = oMessagesOnce (pool w) ∧
    arrays w' = arrays w ∧
    trace w' = trace w ++ es ∧ calls es = [].

(** An application whose callable 9 logs and then throws. *)
Definition faulty_code (id : nat) (args : list value) : list Cmd :=
  match id with
  | 9 => [c_log (VStr "about to fail"); c_throw]
  | _ => []
  end.
Definition faulty_host : Host := demo_host faulty_code.

(** Callable 9 between two others, as persistent handlers of ["greet"] with
    a once-handler behind them, and as once-handlers of ["greet"]. *)
Definition faulty_pool : World :=
  snd (registerOnce "greet" (FnUser 2)
    (snd (register "greet" (FnUser 1)
       (snd (register "greet" (FnUser 9) greeting_pool))))).
Definition faulty_once_pool : World :=
  snd (registerOnce "greet" (FnUser 1)
    (snd (registerOnce "greet" (FnUser 9)
       (snd (registerOnce "greet" (FnUser 0) new_cMessagePool))))).

(** *** Sessions and the answers they get

    The milliseconds that pass in a sequence of turns. *)
Fixpoint elapsed (steps : list Step) : nat :=
  match steps with
  | [] => 0
  | s_tick :: steps' => S (elapsed steps')
  | _ :: steps' => elapsed steps'
  end.

(** The payload of the event is a pong. *)
Definition is_pong `{Host} (event : MessageEvent) : Prop :=
  JSON_parse (data event) = Some (VArr [VStr evPong]).

Definition pong_from_parent : MessageEvent := {| data := wire_pong; source := Some 1 |}.

(** The new pool after two [synchronize] calls and [ready(true)]. *)
Definition two_sessions `{Host} (oTarget1 : Target) (fnCallback1 : nat)
    (oTarget2 : Target) (fnCallback2 : nat) : World :=
  ready (Some true)
    (snd (synchronize oTarget2 fnCallback2
            (snd (synchronize oTarget1 fnCallback1 new_cMessagePool)))).

(** *** Handlers that unregister during a dispatch

    An application whose callable 0 unregisters callable 1 from ["greet"],
    and whose callable 2 unregisters ["greet"] altogether. *)
Definition jealous_code (id : nat) (args : list value) : list Cmd :=
  match id with
  | 0 => [c_unregister "greet" (Some (FnUser 1))]
  | 2 => [c_unregister "greet" None]
  | _ => []
  end.
Definition jealous_host : Host := demo_host jealous_code.

(** Callable [first] and then callable 1, as persistent handlers and as
    once-handlers of ["greet"]. *)
Definition pair_pool (first : nat) : World :=
  snd (register "greet" (FnUser 1)
         (snd (register "greet" (FnUser first) new_cMessagePool))).
Definition pair_once_pool (first : nat) : World :=
  snd (registerOnce "greet" (FnUser 1)
         (snd (registerOnce "greet" (FnUser first) new_cMessagePool))).

(** *** The earlier class

    An application of the earlier class whose callables do nothing, and an
    instance of it that is ready. *)
Definition plain_app : MessagePool.App := {| MessagePool.body := fun _ _ => [] |}.

Definition earlier_ready `{Host} `{MessagePool.App} (sName' : option string)
    (fnLog' : option nat) : MessagePool.State :=
  snd (MessagePool.ready (Some true) (MessagePool.constructor sName' fnLog')).

(** A ready instance of the earlier class whose target is window [win],
    after [synchronize(fnCallback)], and [t] milliseconds later, no message
    having arrived. *)
Definition earlier_started `{Host} `{MessagePool.App} (win : Window)
    (fnCallback' : nat) : MessagePool.State :=
  snd (MessagePool.synchronize fnCallback'
         (snd (MessagePool.target (TWindow win) (earlier_ready None None)))).

Definition earlier_waited `{Host} `{MessagePool.App} (win : Window)
    (fnCallback' : nat) (t : nat) : MessagePool.State :=
  MessagePool.run (replicate t MessagePool.s_tick) (earlier_started win fnCallback').

(** The ping loop has pinged window [win] [k + 1] times and pings again in
    [d] milliseconds. *)
Definition earlier_syncing `{Host} `{MessagePool.App} (win : Window)
    (fnCallback' : nat) (k d : nat) (st : MessagePool.State) : Prop :=
  MessagePool.oTarget st = Some win ∧
  MessagePool.closures st
    = [{| MessagePool.fnCallback := fnCallback';
          MessagePool.oPingPong := Some (S k) |}] ∧
  pool (MessagePool.base st) = pool (MessagePool.base (earlier_started win fnCallback')) ∧
  arrays (MessagePool.base st)
    = arrays (MessagePool.base (earlier_started win fnCallback')) ∧
  timers (MessagePool.base st)
    = [{| timer_id := S k; timer_due := now (MessagePool.base st) + d;
          timer_fn := FnSync 0 |}] ∧
  iTimer (MessagePool.base st) = S (S k) ∧
  trace (MessagePool.base st)
    = [BindEvent; PostMessage win (JSON_stringify [VStr evPing])]
      ++ mjoin (replicate k [Call (FnSync 0) [];
                             PostMessage win (JSON_stringify [VStr evPing])]) ∧
  1 ≤ d ≤ 1000.

(** *** Registries without duplicates

    No array of either registry holds a function twice. *)
Definition duplicate_free (w : World) : Prop :=
  (∀ r a, arrays w !! r = Some a → NoDup (present a)) ∧
  (∀ k a, oMessagesOnce (pool w) !! k = Some a → NoDup (present a)).

(** *** A session on a target that resolves to no window

    The only session has tried to ping [k + 1] times, in vain, and tries
    again in [d] milliseconds. *)
Definition muted `{Host} (oTarget' : Target) (fnCallback' : nat) (k d : nat)
    (w : World) : Prop :=
  pool w = pool (snd (synchronize oTarget' fnCallback' new_cMessagePool)) ∧
  arrays w = arrays new_cMessagePool ∧
  sessions w = [{| oTarget := oTarget'; fnCallback := fnCallback';
                   iSync := Some (S k) |}] ∧
  timers w = [{| timer_id := S k; timer_due := now w + d; timer_fn := FnSync 0 |}] ∧
  iTimer w = S (S k) ∧
  trace w = replicate k (Call (FnSync 0) []) ∧
  1 ≤ d ≤ 1000.

(** *** Names with arrays of their own

    No two names of [oMessages] refer to the same array. *)
Definition separate (w : World) : Prop :=
  ∀ n m r, oMessages (pool w) !! n = Some r → oMessages (pool w) !! m = Some r → n = m.

Definition tidy (w : World) : Prop := well_formed w ∧ separate w.

(** Name [m] has in [w'] the handlers it has in [w]. *)
Definition untouched (m : string) (w w' : World) : Prop :=
  persistent_handlers w' m = persistent_handlers w m ∧
  once_handlers w' m = once_handlers w m.

(** * Properties *)

(** ** The example codec on the wire format *)

Example demo_parse_ping : demo_parse wire_ping = Some (VArr [VStr "evPing"]).
Proof. reflexivity. Qed.
Example demo_parse_greet :
  demo_parse wire_greet = Some (VArr [VStr "greet"; VStr "world"]).
Proof. reflexivity. Qed.
Example demo_parse_nested :
  demo_parse ("  [ " +:+ quoted "saveState" +:+ " , {" +:+ quoted "count" +:+ ":3, "+:+ quoted "a\n" +:+ " : [true, null, -1.5e3]} ] ")
  = Some (VArr [VStr "saveState"; VObj [("count", VNum "3"); ("a" +:+ String "010"%char "", VArr [VBool true; VNull; VNum "-1.5e3"])]]).
Proof. reflexivity. Qed.
Example demo_parse_bad1 : demo_parse "{" = None.
Proof. reflexivity. Qed.
Example demo_parse_bad2 : demo_parse "hello" = None.
Proof. reflexivity. Qed.
Example demo_parse_bad3 : demo_parse "[1,]" = None.
Proof. reflexivity. Qed.
Example demo_parse_bad4 : demo_parse "01" = None.
Proof. reflexivity. Qed.
Example demo_parse_bad5 : demo_parse "" = None.
Proof. reflexivity. Qed.
Example demo_stringify_greet :
  stringify (VArr [VStr "greet"; VStr "world"]) = wire_greet.
Proof. reflexivity. Qed.

(** ** Traces *)

Lemma emit_emit_all e w : emit e w = emit_all [e] w.
Proof. reflexivity. Qed.

Lemma emit_all_nil w : emit_all [] w = w.
Proof. destruct w. unfold emit_all. simpl. by rewrite app_nil_r. Qed.

Lemma emit_all_app es1 es2 w :
  emit_all es2 (emit_all es1 w) = emit_all (es1 ++ es2) w.
Proof. unfold emit_all. simpl. by rewrite app_assoc. Qed.

Lemma calls_app es1 es2 : calls (es1 ++ es2) = calls es1 ++ calls es2.
Proof. apply omap_app. Qed.

Lemma posts_app es1 es2 : posts (es1 ++ es2) = posts es1 ++ posts es2.
Proof. apply omap_app. Qed.

Lemma binds_app es1 es2 : binds (es1 ++ es2) = binds es1 + binds es2.
Proof. unfold binds. by rewrite omap_app, length_app. Qed.

(** ** Strings and inherited members *)

Lemma first_unit_cons (c0 : ascii) (rest : string) :
  ∃ c s, first_unit c0 rest = String c s.
Proof. unfold first_unit. repeat case_match; eauto. Qed.

Lemma first_unit_ascii (c0 : ascii) (rest : string) :
  (N_of_ascii c0 < 128)%N → first_unit c0 rest = String c0 "".
Proof.
  intros Hc. unfold first_unit.
  destruct (N.ltb_spec (N_of_ascii c0) 192) as [_|Hge]; [done|lia].
Qed.

(** One byte, two bytes and three bytes are one code unit; of four bytes
    (here U+1F600) the first unit is the high surrogate (here U+D83D). *)
Example first_unit_examples :
  index0 (VStr "abc") = VStr "a" ∧
  index0 (VStr "élan") = VStr "é" ∧
  index0 (VStr "€5") = VStr "€" ∧
  index0 (VStr (String "240" (String "159" (String "152" (String "128" "x")))))
  = VStr (String "237" (String "160" (String "189" ""))) ∧
  index0 (VStr "") = VUndefined.
Proof. by vm_compute. Qed.

Example inherited_examples :
  inherited "constructor" = Some (builtin_function 1) ∧
  inherited "toString" = Some (builtin_function 0) ∧
  inherited "__proto__" = Some prototype_object ∧
  inherited "greet" = None ∧ inherited "length" = None.
Proof. by vm_compute. Qed.

Lemma inherited_evPing : inherited evPing = None.
Proof. reflexivity. Qed.

Lemma inherited_evPong : inherited evPong = None.
Proof. reflexivity. Qed.

(** ** Sending *)

Section Sending.
Context `{Host}.

Lemma messageLog_array (l : list value) (sPrefix : string) (w : World) :
  messageLog (VArr l) sPrefix w =
    (Normal tt,
     match l with
     | VStr s :: rest =>
         if decide (s = "" ∨ s ∈ aExcludeLog (pool w)) then w
         else emit (Log (fnLog (pool w))
                      (log_head (sName (pool w)) sPrefix s rest :: rest)) w
     | _ => w
     end).
Proof.
  unfold messageLog. destruct l as [|v rest]; [done|].
  destruct v as [| |[]| |s| |]; simpl; try done.
  destruct s as [|c s]; cbn [index0 truthy String.eqb negb lookup list_lookup default].
  - destruct (decide (_ ∨ _)) as [?|Hn]; [done|]. exfalso. apply Hn. by left.
  - destruct (decide (String c s ∈ aExcludeLog (pool w))) as [Hin|Hin];
      destruct (decide (_ ∨ _)) as [Hd|Hd]; try done.
    + exfalso. apply Hd. by right.
    + destruct Hd; done.
Qed.

(** C6.  A [send] whose target resolves to no window returns normally and
    leaves the world as it was but for the trace, to which it adds no
    [postMessage] call: it adds one call of the log function, whose first
    argument is ["[" + sName + "]: DROP " + sMessage], when the message has a
    name that is a non-empty string not on the exclusion list, and nothing
    otherwise. *)
Theorem send_unresolved_is_dropped (oTarget' : Target) (arguments : list value)
    (w : World) :
  resolve oTarget' = None →
  ∃ es : list Effect,
    send oTarget' arguments w = (Normal tt, emit_all es w) ∧
    posts es = [] ∧
    pool (emit_all es w) = pool w ∧ arrays (emit_all es w) = arrays w ∧
    (es = [] ∨
     ∃ s rest, arguments = VStr s :: rest ∧
       es = [Log (fnLog (pool w))
               (VStr ("[" +:+ sName (pool w) +:+ "]: " +:+ "DROP " +:+ s +:+
                      (if decide (length rest = 0) then "" else " :")) :: rest)]) ∧
    (∀ s rest, arguments = VStr s :: rest →
       s ≠ "" → s ∉ aExcludeLog (pool w) → es ≠ []).
Proof.
  intros Hres. unfold send. rewrite Hres, messageLog_array.
  destruct arguments as [|v rest].
  { exists []. rewrite emit_all_nil. repeat split; auto; intros; discriminate. }
  destruct v as [| |b| |s| |];
    try (exists []; rewrite emit_all_nil; repeat split; auto; intros; discriminate).
  destruct (decide (s = "" ∨ s ∈ aExcludeLog (pool w))) as [Hex|Hex].
  - exists []. rewrite emit_all_nil. repeat split; auto.
    intros s' rest' [= -> ->] ? ?. tauto.
  - eexists [_]. split; [reflexivity|]. repeat split; auto.
    right. by exists s, rest.
Qed.

End Sending.

(** A null target in a window without parent. *)
Lemma send_unresolved_is_dropped_witness :
  resolve (H := plain_top_host) TNull = None ∧
  ∃ es : list Effect,
    send (H := plain_top_host) TNull [VStr "greet"; VStr "world"] new_cMessagePool
    = (Normal tt, emit_all es new_cMessagePool) ∧
    es = [Log console_log [VStr "[MessagePool]: DROP greet :"; VStr "world"]].
Proof.
  split; [reflexivity|].
  destruct (send_unresolved_is_dropped (H := plain_top_host) TNull
              [VStr "greet"; VStr "world"] new_cMessagePool eq_refl)
    as (es & Hsend & _ & _ & _ & [Hes | (s & rest & Harg & Hes)] & Hlog).
  - exfalso. apply (Hlog "greet" [VStr "world"] eq_refl); [done| |done].
    intros Hin%list_elem_of_In. vm_compute in Hin. intuition discriminate.
  - exists es. split; [exact Hsend|]. injection Harg as <- <-. exact Hes.
Defined.

(** ** Arrays *)

Lemma to_int32_small (i : nat) : (Z.of_nat i < 2 ^ 31)%Z → to_int32 i = Z.of_nat i.
Proof.
  intros Hi. unfold to_int32.
  rewrite Z.mod_small by lia.
  destruct (Z.ltb_spec (Z.of_nat i) (2 ^ 31)); [done|lia].
Qed.

Lemma get_index_of_nat (a : Array) (i : nat) :
  get_index a (Z.of_nat i) = mjoin (a !! i).
Proof.
  unfold get_index. destruct (Z.ltb_spec (Z.of_nat i) 0); [lia|].
  by rewrite Nat2Z.id.
Qed.

Lemma hasOwnProperty_true (a : Array) (i : nat) :
  hasOwnProperty a i = true ↔ ∃ f, a !! i = Some (Some f).
Proof.
  unfold hasOwnProperty. destruct (a !! i) as [[f|]|]; split;
    try done; try (intros [? ?]; done). eauto.
Qed.

Lemma keys_lt (a : Array) (i : nat) : i ∈ keys a → i < length a.
Proof.
  unfold keys. rewrite list_elem_of_filter, elem_of_seq. lia.
Qed.

Lemma keys_owned (a : Array) (i : nat) : i ∈ keys a → hasOwnProperty a i = true.
Proof. unfold keys. rewrite list_elem_of_filter. tauto. Qed.

(** The functions met at the keys of an array are the functions it holds. *)
Lemma omap_keys_aux (a : Array) (pre : Array) :
  omap (fun i => mjoin ((pre ++ a) !! i))
       (filter (fun i => hasOwnProperty (pre ++ a) i = true)
               (seq (length pre) (length a)))
  = present a.
Proof.
  revert pre. induction a as [|x a IH]; intros pre; [done|].
  simpl seq. rewrite filter_cons.
  assert (Hx : (pre ++ x :: a) !! length pre = Some x).
  { by rewrite list_lookup_middle. }
  specialize (IH (pre ++ [x])).
  replace ((pre ++ [x]) ++ a) with (pre ++ x :: a) in IH
    by (by rewrite <- app_assoc).
  replace (length (pre ++ [x])) with (S (length pre)) in IH
    by (rewrite length_app; simpl; lia).
  destruct (decide (hasOwnProperty (pre ++ x :: a) (length pre) = true)) as [Hd|Hd];
    unfold hasOwnProperty in Hd; rewrite Hx in Hd; destruct x as [f|]; try done.
  simpl. rewrite Hx. simpl. unfold present in *. simpl. f_equal. exact IH.
Qed.

Lemma omap_keys (a : Array) : omap (fun i => mjoin (a !! i)) (keys a) = present a.
Proof. apply (omap_keys_aux a []). Qed.

Lemma elem_of_present (f : Function) (a : Array) : f ∈ present a ↔ Some f ∈ a.
Proof.
  unfold present. rewrite list_elem_of_omap. split.
  - intros (x & Hx & Hf). destruct x; simplify_eq/=. done.
  - intros Hin. exists (Some f). done.
Qed.

(** ** Dispatch to inert handlers *)

Section Dispatch.
Context `{Host}.

Lemma bind_run {A B : Type} (m : M A) (k : A → M B) (w : World) :
  (m ≫= k) w =
    match m w with
    | (Normal a, w') => k a w'
    | (Throw e, w') => (Throw e, w')
    end.
Proof. reflexivity. Qed.

Lemma call_inert (f : Function) (args : list value) (w : World) :
  inert f →
  ∃ w' es, call f args w = (Normal tt, w') ∧
    oMessages (pool w') = oMessages (pool w) ∧
    oMessagesOnce (pool w') = oMessagesOnce (pool w) ∧
    arrays w' = arrays w ∧
    trace w' = trace w ++ es ∧ calls es = [(f, args)].
Proof.
  intros Hf. destruct (Hf args (emit (Call f args) w))
    as (w' & es & Happ & Hm & Ho & Ha & Ht & Hc).
  exists w', (Call f args :: es). unfold call. rewrite bind_run. simpl.
  rewrite Happ. repeat split; try done.
  - rewrite Ht. simpl. by rewrite <- app_assoc.
  - simpl. by rewrite Hc.
Qed.

(** A loop over an array that stays as it is applies, in order, the
    functions found at its keys. *)
Lemma for_in_inert (lst : World → Array) (a : Array) (args : list value) :
  ∀ (ks : list nat) (w : World),
    (∀ w', arrays w' = arrays w → lst w' = a) →
    (∀ i, i ∈ ks → (Z.of_nat i < 2 ^ 31)%Z) →
    (∀ f, f ∈ present a → inert f) →
    ∃ w' es, for_in lst ks args w = (Normal tt, w') ∧
      oMessages (pool w') = oMessages (pool w) ∧
      oMessagesOnce (pool w') = oMessagesOnce (pool w) ∧
      arrays w' = arrays w ∧
      trace w' = trace w ++ es ∧
      calls es = (fun f => (f, args)) <$> omap (fun i => mjoin (a !! i)) ks.
Proof.
  induction ks as [|i ks IH]; intros w Hlst Hks Hin.
  { exists w, []. simpl. rewrite app_nil_r. done. }
  simpl for_in. rewrite (Hlst w eq_refl).
  assert (Hi : (Z.of_nat i < 2 ^ 31)%Z) by (apply Hks; left).
  assert (Hks' : ∀ j, j ∈ ks → (Z.of_nat j < 2 ^ 31)%Z)
    by (intros j Hj; apply Hks; by right).
  rewrite to_int32_small, get_index_of_nat by done.
  unfold hasOwnProperty. destruct (a !! i) as [[f|]|] eqn:Hai; simpl.
  - assert (inert f) as Hf.
    { apply Hin, elem_of_present. by eapply list_elem_of_lookup_2. }
    destruct (call_inert f args w Hf) as (w1 & es1 & Hcall & Hm1 & Ho1 & Ha1 & Ht1 & Hc1).
    rewrite bind_run, Hcall.
    destruct (IH w1) as (w2 & es2 & Hfor & Hm2 & Ho2 & Ha2 & Ht2 & Hc2); try done.
    { intros w' Hw'. apply Hlst. congruence. }
    exists w2, (es1 ++ es2). rewrite Hfor. repeat split; try congruence.
    + rewrite Ht2, Ht1. by rewrite app_assoc.
    + rewrite calls_app, Hc1, Hc2. simpl. by rewrite Hai.
  - simpl omap. rewrite Hai. apply IH; done.
  - simpl omap. rewrite Hai. apply IH; done.
Qed.

Lemma keys_small (a : Array) (i : nat) : short a → i ∈ keys a → (Z.of_nat i < 2 ^ 31)%Z.
Proof. unfold short. intros Ha Hi%keys_lt. lia. Qed.

Lemma recv_log_spec (sMessage : value) (aMessage : list value) (w : World) :
  ∃ es, recv_log sMessage aMessage w = (Normal tt, emit_all es w) ∧ calls es = [].
Proof.
  unfold recv_log. destruct (excluded _ _).
  - exists []. by rewrite emit_all_nil.
  - by eexists [_].
Qed.

Lemma recv_persistent_inert (n : string) (args : list value) (w : World) :
  (∀ r, oMessages (pool w) !! n = Some r →
        short (array w r) ∧ ∀ f, f ∈ present (array w r) → inert f) →
  ∃ w' es, recv_persistent n args w = (Normal tt, w') ∧
    oMessages (pool w') = oMessages (pool w) ∧
    oMessagesOnce (pool w') = oMessagesOnce (pool w) ∧
    arrays w' = arrays w ∧
    trace w' = trace w ++ es ∧
    calls es = (fun f => (f, args)) <$> persistent_handlers w n.
Proof.
  intros Hp. unfold recv_persistent, persistent_handlers.
  destruct (oMessages (pool w) !! n) as [r|] eqn:Hr.
  - destruct (Hp r eq_refl) as [Hshort Hin].
    destruct (for_in_inert (fun w' => array w' r) (array w r) args
                (keys (array w r)) w)
      as (w1 & es1 & Hfor & Hm1 & Ho1 & Ha1 & Ht1 & Hc1); try done.
    + intros w' Hw'. unfold array. by rewrite Hw'.
    + intros i Hi. by eapply keys_small.
    + exists w1, es1. rewrite omap_keys in Hc1. by repeat split.
  - exists w, []. rewrite app_nil_r. by repeat split.
Qed.

(** A dispatch of a name whose handlers are inert applies the persistent
    handlers and then the once-handlers, each once, in index order, and
    leaves the name without once-handlers. *)
Lemma recv_inert (n : string) (args : list value) (w : World) :
  quiet_name w n →
  ∃ w' es, recv (VStr n :: args) w = (Normal tt, w') ∧
    oMessages (pool w') = oMessages (pool w) ∧
    oMessagesOnce (pool w') = delete n (oMessagesOnce (pool w)) ∧
    arrays w' = arrays w ∧
    trace w' = trace w ++ es ∧
    calls es = (fun f => (f, args)) <$>
                 (persistent_handlers w n ++ once_handlers w n).
Proof.
  intros [Hp Ho]. unfold recv.
  change (recv_key (VStr n :: args)) with n. simpl.
  rewrite bind_run.
  destruct (recv_log_spec (VStr n) args w) as (es0 & -> & Hc0).
  rewrite bind_run.
  destruct (recv_persistent_inert n args (emit_all es0 w))
    as (w1 & es1 & -> & Hm1 & Ho1 & Ha1 & Ht1 & Hc1); [exact Hp|].
  simpl in Hm1, Ho1, Ha1, Ht1.
  change (persistent_handlers (emit_all es0 w) n) with (persistent_handlers w n) in Hc1.
  unfold recv_once, once_handlers. rewrite Ho1.
  destruct (oMessagesOnce (pool w) !! n) as [a|] eqn:Ha.
  - destruct (Ho a eq_refl) as [Hshort Hin].
    destruct (for_in_inert (fun _ => a) a args (keys a)
                (set_pool (set_oMessagesOnce (delete n)) w1))
      as (w2 & es2 & Hfor & Hm2 & Ho2 & Ha2 & Ht2 & Hc2); try done.
    { intros i Hi. by eapply keys_small. }
    exists w2, (es0 ++ es1 ++ es2). rewrite Hfor. simpl in *.
    rewrite omap_keys in Hc2.
    repeat split; try congruence.
    + rewrite Ht2, Ht1. by rewrite <- !app_assoc.
    + rewrite !calls_app, Hc0, Hc1, Hc2. simpl. by rewrite fmap_app.
  - exists w1, (es0 ++ es1). repeat split; try congruence.
    + rewrite Ho1. symmetry. by apply delete_id.
    + rewrite Ht1. by rewrite <- !app_assoc.
    + rewrite !calls_app, Hc0, Hc1. simpl. by rewrite app_nil_r.
Qed.

End Dispatch.

(** ** Passive callables are inert *)

Section Passive.
Context `{Host}.

(** No effect at all, with completion [c]. *)
Local Ltac no_effect c :=
  exists c, []; rewrite emit_all_nil; split; [reflexivity | left; reflexivity].

Lemma messageLog_effects (aMessage : value) (sPrefix : string) (w : World) :
  ∃ c es, messageLog aMessage sPrefix w = (c, emit_all es w) ∧
    (es = [] ∨
     ∃ s rest, aMessage = VArr (VStr s :: rest) ∧ c = Normal tt ∧
       s ≠ "" ∧ (s ∉ aExcludeLog (pool w)) ∧
       es = [Log (fnLog (pool w))
               (VStr ("[" +:+ sName (pool w) +:+ "]: " +:+ sPrefix +:+ s +:+
                      (if decide (length rest = 0) then "" else " :")) :: rest)]).
Proof.
  destruct aMessage as [| |b|lx|s|l|kv].
  1-4: no_effect (Normal tt).
  - (* a string: its first code unit is a name, and shift is missing *)
    unfold messageLog. destruct s as [|c s]; [simpl; no_effect (Normal tt)|].
    cbn [index0]. destruct (first_unit_cons c s) as (c' & s' & ->). simpl.
    destruct (decide _); [no_effect (Normal tt) | no_effect (@Throw unit TypeError)].
  - rewrite messageLog_array. destruct l as [|v rest]; [no_effect (Normal tt)|].
    destruct v as [| |b|lx|s|l|kv]; try no_effect (Normal tt).
    destruct (decide (s = "" ∨ s ∈ aExcludeLog (pool w))) as [Hex|Hex];
      [no_effect (Normal tt)|].
    eexists (Normal tt), [_]. split; [reflexivity|]. right.
    exists s, rest. repeat split; try done; intros ?; apply Hex; auto.
  - (* an object: its member 0 is a name, and shift is missing *)
    unfold messageLog.
    destruct (if truthy (index0 (VObj kv)) then index0 (VObj kv) else VNull);
      try no_effect (Normal tt).
    destruct (decide _); [no_effect (Normal tt) | no_effect (@Throw unit TypeError)].
Qed.

Lemma send_effects (oTarget' : Target) (arguments : list value) (w : World) :
  ∃ es, send oTarget' arguments w = (Normal tt, emit_all es w) ∧ calls es = [].
Proof.
  unfold send. destruct (resolve oTarget') as [o|].
  - by eexists [_].
  - rewrite messageLog_array. destruct arguments as [|[] rest];
      try (exists []; by rewrite emit_all_nil).
    destruct (decide _); [exists []; by rewrite emit_all_nil|by eexists [_]].
Qed.

Lemma exec_passive (c : Cmd) (w : World) :
  passive c = true →
  ∃ w' es, exec c w = (Normal tt, w') ∧
    oMessages (pool w') = oMessages (pool w) ∧
    oMessagesOnce (pool w') = oMessagesOnce (pool w) ∧
    arrays w' = arrays w ∧
    trace w' = trace w ++ es ∧ calls es = [].
Proof.
  destruct c; try discriminate; intros _; simpl.
  - eexists _, []. rewrite app_nil_r. by repeat split.
  - eexists _, []. rewrite app_nil_r. by repeat split.
  - eexists _, [_]. by repeat split.
  - destruct (send_effects oTarget0 arguments w) as (es & -> & Hc).
    by exists (emit_all es w), es.
  - unfold modify, ready. destruct (decide _).
    + exists w, []. rewrite app_nil_r. by repeat split.
    + destruct (decide _).
      * eexists _, [_]. by repeat split.
      * eexists _, []. rewrite app_nil_r. by repeat split.
  - eexists _, [_]. by repeat split.
Qed.

Lemma passive_inert (id : nat) :
  (∀ args, forallb passive (body id args) = true) → inert (FnUser id).
Proof.
  intros Hid args w. simpl. specialize (Hid args).
  revert w Hid. generalize (body id args). intros cs.
  induction cs as [|c cs IH]; intros w Hcs.
  { exists w, []. rewrite app_nil_r. by repeat split. }
  simpl in Hcs. apply andb_true_iff in Hcs as [Hc Hcs].
  destruct (exec_passive c w Hc) as (w1 & es1 & He & Hm1 & Ho1 & Ha1 & Ht1 & Hc1).
  destruct (IH w1 Hcs) as (w2 & es2 & He2 & Hm2 & Ho2 & Ha2 & Ht2 & Hc2).
  exists w2, (es1 ++ es2). simpl. rewrite bind_run, He, He2.
  repeat split; try congruence.
  - rewrite Ht2, Ht1. by rewrite app_assoc.
  - by rewrite calls_app, Hc1, Hc2.
Qed.

Lemma FnPing_inert : inert FnPing.
Proof. intros args w. eexists _, [_]. by repeat split. Qed.

End Passive.

(** ** Receiving: the readiness gate *)

Section Receiving.
Context `{Host}.

(** C1.  While the flag is not [true], [onMessage] applies no function,
    whatever arrives: the world stays as it was but for the trace, which gains
    at most one call of the log function, with the prefix ["SKIP "].  A
    message in the wire format is then skipped without an exception, and it
    is logged, by exactly that one call, when its name is not empty and not
    on the exclusion list.  Once the flag is [true], a message in the wire
    format is handed to [recv], which applies the handlers registered for its
    name: when they are inert, all of them, the persistent ones first, each
    once with the message's arguments. *)
Theorem readiness_gates_dispatch (event : MessageEvent) (w : World) :
  (bReady (pool w) ≠ Some true →
     ∃ c es, onMessage event w = (c, emit_all es w) ∧ calls es = [] ∧
       (es = [] ∨
        ∃ s rest, JSON_parse (data event) = Some (VArr (VStr s :: rest)) ∧
          es = [Log (fnLog (pool w))
                  (VStr ("[" +:+ sName (pool w) +:+ "]: " +:+ "SKIP " +:+ s +:+
                         (if decide (length rest = 0) then "" else " :")) :: rest)]) ∧
       (∀ s rest, JSON_parse (data event) = Some (VArr (VStr s :: rest)) →
          c = Normal tt ∧
          (s ≠ "" → s ∉ aExcludeLog (pool w) →
           es = [Log (fnLog (pool w))
                   (VStr ("[" +:+ sName (pool w) +:+ "]: " +:+ "SKIP " +:+ s +:+
                          (if decide (length rest = 0) then "" else " :"))
                      :: rest)]))) ∧
  (bReady (pool w) = Some true →
     ∀ n args, JSON_parse (data event) = Some (VArr (VStr n :: args)) →
       onMessage event w = recv (VStr n :: args) w ∧
       (quiet_name w n →
          ∃ w' es, onMessage event w = (Normal tt, w') ∧
            trace w' = trace w ++ es ∧
            calls es = (fun f => (f, args)) <$>
                         (persistent_handlers w n ++ once_handlers w n))).
Proof.
  split.
  - intros Hready. unfold onMessage.
    destruct (JSON_parse (data event)) as [aMessage|].
    + rewrite decide_False by done.
      assert (∀ c es s rest,
                messageLog aMessage "SKIP " w = (c, emit_all es w) →
                Some aMessage = Some (VArr (VStr s :: rest)) →
                c = Normal tt ∧
                (s ≠ "" → s ∉ aExcludeLog (pool w) →
                 es = [Log (fnLog (pool w))
                         (log_head (sName (pool w)) "SKIP " s rest :: rest)]))
        as Hforced.
      { intros c es s rest Hrun [= ->]. rewrite messageLog_array in Hrun.
        injection Hrun as <- Hw. split; [done|]. intros Hs Hex.
        rewrite decide_False in Hw by (intros [?|?]; done).
        apply (f_equal trace) in Hw. simpl in Hw.
        by apply app_inv_head in Hw. }
      destruct (messageLog_effects aMessage "SKIP " w)
        as (c & es & Hlog & [->|(s & rest & -> & _ & _ & _ & ->)]).
      * exists c, []. split; [done|]. split; [done|]. split; [by left|].
        intros s rest. by apply Hforced.
      * eexists c, [_]. split; [exact Hlog|]. split; [done|]. split.
        -- right. by exists s, rest.
        -- intros s' rest'. by apply Hforced.
    + exists (Throw SyntaxError), []. rewrite emit_all_nil.
      split; [done|]. split; [done|]. split; [by left|]. intros; discriminate.
  - intros Hready n args Hparse. unfold onMessage. rewrite Hparse.
    rewrite decide_True by done. simpl. split; [done|].
    intros Hq. destruct (recv_inert n args w Hq)
      as (w' & es & Hrecv & _ & _ & _ & Ht & Hc).
    by exists w', es.
Qed.

(** C5, as the code has it.  A payload that is not JSON makes [onMessage]
    throw the SyntaxError of [JSON.parse] to its caller; nothing is caught,
    nothing reaches the log function, no function is applied and the world is
    as it was. *)
Theorem malformed_payload_propagates (event : MessageEvent) (w : World) :
  JSON_parse (data event) = None →
  onMessage event w = (Throw SyntaxError, w).
Proof. intros Hparse. unfold onMessage. by rewrite Hparse. Qed.

(** *** Readiness and binding *)

Lemma ready_binds (b : option bool) (w : World) :
  binds (trace (ready b w)) =
    binds (trace w) + (if decide (b = Some true ∧ bReady (pool w) ≠ Some true) then 1 else 0).
Proof.
  unfold ready. destruct (decide (bReady (pool w) = b)) as [Heq|Hne].
  - rewrite decide_False; [lia|]. intros [-> ?]. done.
  - destruct (decide (b = Some true)) as [->|Hb].
    + rewrite decide_True by done. simpl. by rewrite binds_app.
    + rewrite decide_False; [simpl; lia|]. tauto.
Qed.

Lemma ready_sets (b : option bool) (w : World) : bReady (pool (ready b w)) = b.
Proof.
  unfold ready. destruct (decide (bReady (pool w) = b)); [done|].
  by destruct (decide (b = Some true)).
Qed.

Lemma ready_all_binds (flags : list (option bool)) (w : World) :
  binds (trace (ready_all flags w)) =
    binds (trace w) + rising_edges (bReady (pool w)) flags.
Proof.
  unfold ready_all. revert w. induction flags as [|b flags IH]; intros w; simpl.
  - lia.
  - rewrite IH, ready_binds, ready_sets. lia.
Qed.

(** C2, as the code has it.  [ready(true)] on a flag that is not [true] sets
    it and calls [bindEvent] once; on a flag that is [true] it does nothing;
    [ready] with another flag only stores the flag, without binding or
    unbinding.  Over a sequence of calls there are as many [bindEvent] calls
    as moves of the flag to [true]. *)
Theorem ready_binds_on_every_rise :
  (∀ w, bReady (pool w) ≠ Some true →
        ready (Some true) w = emit BindEvent (set_pool (set_bReady (Some true)) w)) ∧
  (∀ w, bReady (pool w) = Some true → ready (Some true) w = w) ∧
  (∀ w b, b ≠ Some true →
          trace (ready b w) = trace w ∧ bReady (pool (ready b w)) = b ∧
          arrays (ready b w) = arrays w ∧
          oMessages (pool (ready b w)) = oMessages (pool w) ∧
          oMessagesOnce (pool (ready b w)) = oMessagesOnce (pool w)) ∧
  (∀ flags w,
     binds (trace (ready_all flags w)) =
       binds (trace w) + rising_edges (bReady (pool w)) flags).
Proof.
  repeat split.
  - intros w Hw. unfold ready. rewrite decide_False by done.
    by rewrite decide_True.
  - intros w Hw. unfold ready. by rewrite decide_True.
  - unfold ready. destruct (decide _); [done|]. by rewrite decide_False.
  - apply ready_sets.
  - unfold ready. destruct (decide _); [done|]. by rewrite decide_False.
  - unfold ready. destruct (decide _); [done|]. by rewrite decide_False.
  - unfold ready. destruct (decide _); [done|]. by rewrite decide_False.
  - apply ready_all_binds.
Qed.

End Receiving.

(** ** The receiving properties at work *)

Lemma plain_inert (id : nat) : inert (H := plain_host) (FnUser id).
Proof. by apply (passive_inert (H := plain_host)). Defined.

(** A greeting arrives at a pool that is not ready, and at the same pool once
    it is ready. *)
Lemma readiness_gates_dispatch_witness :
  (∃ c es, onMessage (H := plain_host) greet_event greeting_pool
             = (c, emit_all es greeting_pool) ∧ calls es = [] ∧
     c = Normal tt ∧
     es = [Log console_log [VStr "[MessagePool]: SKIP greet :"; VStr "world"]]) ∧
  (∃ w' es, onMessage (H := plain_host) greet_event (ready (Some true) greeting_pool)
              = (Normal tt, w') ∧
      trace w' = trace (ready (Some true) greeting_pool) ++ es ∧
      calls es = [(FnUser 0, [VStr "world"])]).
Proof.
  split.
  - destruct (readiness_gates_dispatch (H := plain_host) greet_event greeting_pool)
      as [Hskip _].
    destruct Hskip as (c & es & Hrun & Hcalls & _ & Hlog); [by vm_compute|].
    destruct (Hlog "greet" [VStr "world"] eq_refl) as [Hc Hes].
    exists c, es. split; [exact Hrun|]. split; [exact Hcalls|]. split; [exact Hc|].
    apply Hes; [discriminate|].
    intros Hin%list_elem_of_In. vm_compute in Hin. intuition discriminate.
  - destruct (readiness_gates_dispatch (H := plain_host) greet_event
                (ready (Some true) greeting_pool)) as [_ Hrecv].
    destruct (Hrecv eq_refl "greet" [VStr "world"] eq_refl) as [_ Hquiet].
    destruct Hquiet as (w' & es & Hrun & Htrace & Hcalls).
    + split.
      * intros r Hr. vm_compute in Hr. injection Hr as <-.
        split; [by vm_compute|]. intros f Hf.
        change (f ∈ [FnUser 0]) in Hf.
        apply list_elem_of_singleton in Hf as ->. apply plain_inert.
      * intros a Ha. vm_compute in Ha. discriminate.
    + by exists w', es.
Defined.

(** The payload [{] is not JSON: [onMessage] throws, and the trace of the
    ready pool still holds its [bindEvent] call only. *)
Lemma malformed_payload_propagates_witness :
  @JSON_parse plain_host (data broken_event) = None ∧
  onMessage (H := plain_host) broken_event ready_pool = (Throw SyntaxError, ready_pool).
Proof.
  split; [reflexivity|].
  apply (malformed_payload_propagates (H := plain_host) broken_event ready_pool).
  reflexivity.
Defined.

(** Against C5 as stated: the failure is not caught (the completion is not
    normal) and nothing is reported (the trace has not grown). *)
Lemma malformed_payload_is_not_caught :
  @JSON_parse plain_host (data broken_event) = None ∧
  fst (onMessage (H := plain_host) broken_event ready_pool) = Throw SyntaxError ∧
  trace (snd (onMessage (H := plain_host) broken_event ready_pool)) = [BindEvent] ∧
  ¬ (∃ w' f args, onMessage (H := plain_host) broken_event ready_pool = (Normal tt, w') ∧
       Log f args ∈ trace w').
Proof.
  split; [reflexivity|]. split; [reflexivity|]. split; [reflexivity|].
  intros (w' & f & args & Hrun & _). vm_compute in Hrun. discriminate.
Qed.

(** Against C2 as stated: the flag goes up, down and up again, and
    [bindEvent] has been called twice. *)
Lemma toggling_binds_again :
  binds (trace (ready_all [Some true; Some false; Some true] new_cMessagePool)) = 2 ∧
  ¬ (binds (trace (ready_all [Some true; Some false; Some true] new_cMessagePool)) ≤ 1).
Proof. split; [reflexivity|]. vm_compute. lia. Qed.

Lemma ready_binds_on_every_rise_witness :
  ready (Some true) new_cMessagePool
    = emit BindEvent (set_pool (set_bReady (Some true)) new_cMessagePool) ∧
  ready (Some true) ready_pool = ready_pool ∧
  trace (ready (Some false) ready_pool) = trace ready_pool ∧
  binds (trace (ready_all [Some true; Some true; Some false; None; Some true]
                  new_cMessagePool)) = 0 + 2.
Proof.
  destruct ready_binds_on_every_rise as (Hrise & Hsame & Hfall & Hcount).
  split; [by apply Hrise|]. split; [by apply Hsame|].
  split; [by apply Hfall|]. apply Hcount.
Defined.

(** ** Invariants of the event loop *)

Section Traversal.
Context `{Host}.
Context (P : World → Prop) (okf : Function → Prop) (okc : Cmd → Prop)
        (okk : string → Prop).
Hypothesis stable : Stable P okf okc okk.

Lemma preserves_ret {A : Type} (a : A) : preserves P (mret a).
Proof. by intros w Hw. Qed.

Lemma preserves_throw {A : Type} (e : Exn) : preserves P (@throw A e).
Proof. by intros w Hw. Qed.

Lemma preserves_bind {A B : Type} (m : M A) (k : A → M B) :
  preserves P m → (∀ a, preserves P (k a)) → preserves P (m ≫= k).
Proof.
  intros Hm Hk w Hw. rewrite bind_run. specialize (Hm w Hw).
  destruct (m w) as [[a|e] w']; simpl in *; [by apply Hk|done].
Qed.

Lemma preserves_modify (f : World → World) :
  (∀ w, P w → P (f w)) → preserves P (modify f).
Proof. intros Hf w Hw. by apply Hf. Qed.

Lemma preserves_unregister (n : string) (fo : option Function) :
  preserves P (unregister_persistent n fo) → preserves P (unregister_once n fo) →
  preserves P (unregister n fo).
Proof.
  intros Hp Ho. unfold unregister. apply preserves_bind; [done|].
  intros b1. apply preserves_bind; [done|]. intros b2. apply preserves_ret.
Qed.

Lemma preserves_emit (e : Effect) :
  (∀ f args, e = Call f args → okf f) → preserves P (modify (emit e)).
Proof. intros He. apply preserves_modify. intros w. by apply (st_emit _ _ _ _ stable). Qed.

Lemma preserves_exec_all (cs : list Cmd) :
  (∀ c, c ∈ cs → okc c) → preserves P (exec_all cs).
Proof.
  induction cs as [|c cs IH]; intros Hcs; simpl.
  - apply preserves_ret.
  - apply preserves_bind.
    + apply (st_exec _ _ _ _ stable). apply Hcs. by left.
    + intros _. apply IH. intros c' Hc'. apply Hcs. by right.
Qed.

Lemma preserves_body (id : nat) (args : list value) :
  okf (FnUser id) → preserves P (exec_all (body id args)).
Proof.
  intros Hid. apply preserves_exec_all. intros c Hc.
  by apply (st_body _ _ _ _ stable id args).
Qed.

Lemma preserves_apply_fn (f : Function) (args : list value) :
  okf f → preserves P (apply_fn f args).
Proof.
  intros Hf. destruct f as [id| |s|s]; simpl.
  - by apply preserves_body.
  - apply preserves_emit. intros; discriminate.
  - intros w Hw. unfold onPong. destruct (sessions w !! s) as [o|] eqn:Hs; [|done].
    assert (okf (FnUser (fnCallback o))) as Hcb
      by (by eapply (st_session _ _ _ _ stable)).
    clear Hs. revert w Hw.
    change (preserves P (modify (clearTimeout (iSync o));;
                         modify (emit (Call (FnUser (fnCallback o)) []));;
                         exec_all (body (fnCallback o) []))).
    apply preserves_bind.
    { apply preserves_modify. intros w. apply (st_clear _ _ _ _ stable). }
    intros _. apply preserves_bind.
    { apply preserves_emit. by intros ? ? [= <- _]. }
    intros _. by apply preserves_body.
  - by apply (st_sync _ _ _ _ stable).
Qed.

Lemma preserves_call (f : Function) (args : list value) :
  okf f → preserves P (call f args).
Proof.
  intros Hf. apply preserves_bind.
  - apply preserves_emit. by intros ? ? [= <- _].
  - intros _. by apply preserves_apply_fn.
Qed.

Lemma get_index_elem (a : Array) (z : Z) (f : Function) :
  get_index a z = Some f → Some f ∈ a.
Proof.
  unfold get_index. destruct (z <? 0)%Z; [done|].
  destruct (a !! Z.to_nat z) as [[g|]|] eqn:Ha; simpl; try done.
  intros [= ->]. by eapply list_elem_of_lookup_2.
Qed.

Lemma preserves_for_in (lst : World → Array) (ks : list nat) (args : list value) :
  (∀ w f, P w → Some f ∈ lst w → okf f) → preserves P (for_in lst ks args).
Proof.
  intros Hlst. induction ks as [|i ks IH]; intros w Hw; simpl; [done|].
  destruct (hasOwnProperty (lst w) i); [|by apply IH].
  destruct (get_index (lst w) (to_int32 i)) as [f|] eqn:Hf; [|done].
  apply (preserves_bind (call f args) (fun _ => for_in lst ks args)); [| |done].
  - apply preserves_call. apply (Hlst w); [done|]. by eapply get_index_elem.
  - intros _. apply IH.
Qed.

Lemma preserves_recv_log (sMessage : value) (aMessage : list value) :
  preserves P (recv_log sMessage aMessage).
Proof.
  intros w Hw. unfold recv_log. destruct (excluded _ _); [done|].
  simpl. apply (st_emit _ _ _ _ stable); [|done]. intros; discriminate.
Qed.

Lemma preserves_recv_persistent (k : string) (aMessage : list value) :
  preserves P (recv_persistent k aMessage).
Proof.
  intros w Hw. unfold recv_persistent.
  destruct (oMessages (pool w) !! k) as [r|]; [|done].
  apply preserves_for_in; [|done].
  intros w' f Hw' Hf. unfold array in Hf.
  destruct (arrays w' !! r) as [a|] eqn:Ha; simpl in Hf.
  - by eapply (st_store _ _ _ _ stable).
  - by apply elem_of_nil in Hf.
Qed.

Lemma preserves_recv_once (k : string) (aMessage : list value) :
  okk k → preserves P (recv_once k aMessage).
Proof.
  intros Hk w Hw. unfold recv_once.
  destruct (oMessagesOnce (pool w) !! k) as [a|] eqn:Ha; [|done].
  destruct (st_once _ _ _ _ stable w k a Hw Hk Ha) as [Hdel Hok].
  apply preserves_for_in; [|done]. intros w' f _. apply Hok.
Qed.

Lemma preserves_recv (arguments : list value) :
  okk (recv_key arguments) → preserves P (recv arguments).
Proof.
  intros Hk. unfold recv. apply preserves_bind; [apply preserves_recv_log|].
  intros _. apply preserves_bind; [apply preserves_recv_persistent|].
  intros _. by apply preserves_recv_once.
Qed.

Lemma preserves_messageLog (aMessage : value) (sPrefix : string) :
  preserves P (messageLog aMessage sPrefix).
Proof.
  intros w Hw.
  destruct (messageLog_effects aMessage sPrefix w)
    as (c & es & -> & [->|(s & rest & _ & _ & _ & _ & ->)]); simpl.
  - by rewrite emit_all_nil.
  - apply (st_emit _ _ _ _ stable (Log _ _) w); [|done]. intros; discriminate.
Qed.

Lemma preserves_onMessage (event : MessageEvent) :
  (∀ k, message_name event = Some k → okk k) → preserves P (onMessage event).
Proof.
  intros Hk w Hw. unfold onMessage, message_name in *.
  destruct (JSON_parse (data event)) as [aMessage|]; [|done].
  destruct (decide _); [|by apply preserves_messageLog].
  unfold recv_apply. simpl in Hk.
  destruct (arguments_of aMessage) as [arguments|]; [|done].
  apply preserves_recv; [|done]. by apply Hk.
Qed.

Lemma preserves_fire (t : Timer) (w : World) :
  okf (timer_fn t) → P w → P (fire t w).
Proof.
  intros Ht Hw. unfold fire. destruct (decide _); [|done].
  apply preserves_call; [done|]. by apply (st_clear _ _ _ _ stable).
Qed.

Lemma preserves_tick (w : World) : P w → P (tick w).
Proof.
  intros Hw. unfold tick.
  assert (P (set_now (S (now w)) w)) as Hw' by (by apply (st_now _ _ _ _ stable)).
  assert (∀ t, t ∈ filter (fun t => timer_due t ≤ now (set_now (S (now w)) w))
                     (timers (set_now (S (now w)) w)) → okf (timer_fn t)) as Hdue.
  { intros t [_ Ht]%list_elem_of_filter. by eapply (st_timer _ _ _ _ stable). }
  revert Hdue. generalize (filter (fun t => timer_due t ≤ now (set_now (S (now w)) w))
                             (timers (set_now (S (now w)) w))).
  revert Hw'. generalize (set_now (S (now w)) w). clear w Hw.
  intros w Hw due. revert w Hw. induction due as [|t due IH]; intros w Hw Hdue; [done|].
  simpl. apply IH.
  - apply preserves_fire; [|done]. apply Hdue. by left.
  - intros t' Ht'. apply Hdue. by right.
Qed.

Lemma preserves_step (st : Step) (w : World) :
  ok_step okc okk st → P w → P (step st w).
Proof.
  destruct st as [c|event|]; simpl; intros Hst Hw.
  - by apply (st_exec _ _ _ _ stable).
  - by apply preserves_onMessage.
  - by apply preserves_tick.
Qed.

Lemma preserves_run (steps : list Step) (w : World) :
  (∀ st, st ∈ steps → ok_step okc okk st) → P w → P (run steps w).
Proof.
  unfold run. revert w. induction steps as [|st steps IH]; intros w Hsteps Hw; [done|].
  simpl. apply IH.
  - intros st' Hst'. apply Hsteps. by right.
  - apply preserves_step; [|done]. apply Hsteps. by left.
Qed.

End Traversal.

(** ** Well-formed registries *)

Section WellFormed.
Context `{Host}.

Lemma shaped_frame (w w' : World) :
  same_registry w w' → shaped w → shaped w'.
Proof.
  intros (Ha & Hm & Ho) (H1 & H2 & H3). unfold shaped.
  rewrite Ha, Hm, Ho. done.
Qed.

Lemma full_false (a : Array) :
  full a = false → (Z.of_nat (length a) < 2 ^ 32 - 1)%Z.
Proof. unfold full. intros Hf%Z.leb_gt. done. Qed.

Lemma length_push (f : Function) (a : Array) : length (push f a) = S (length a).
Proof. unfold push. rewrite length_app. simpl. lia. Qed.

Lemma array_lookup (w : World) (r : nat) :
  r < length (arrays w) → arrays w !! r = Some (array w r).
Proof.
  intros Hr. unfold array. destruct (arrays w !! r) eqn:Ha; [done|].
  apply lookup_ge_None in Ha. lia.
Qed.

Lemma register_shaped (n : string) (f : Function) :
  preserves shaped (register n f).
Proof.
  intros w (H1 & H2 & H3). unfold register.
  destruct (oMessages (pool w) !! n) as [r|] eqn:Hn; simpl.
  - destruct (indexOf f (array w r)); [done|].
    destruct (full (array w r)) eqn:Hfull; [done|]. simpl.
    apply full_false in Hfull.
    pose proof (H2 n r Hn) as Hr.
    split; [|split]; simpl.
    + intros r' a Ha. destruct (decide (r' = r)) as [->|Hne].
      * rewrite list_lookup_insert_eq in Ha by done. injection Ha as <-.
        rewrite length_push. split; [by destruct (array w r)|lia].
      * rewrite list_lookup_insert_ne in Ha by done. by apply (H1 r').
    + intros n' r' Hn'. rewrite length_insert. by apply (H2 n').
    + done.
  - destruct (inherited n); [done|]. split; [|split]; simpl.
    + intros r a Ha. apply lookup_app_Some in Ha as [Ha|[_ Ha]].
      * by apply (H1 r).
      * destruct (r - length (arrays w)); simpl in Ha; [|done].
        injection Ha as <-. split; [done|simpl; lia].
    + intros n' r' Hn'. rewrite length_app. simpl.
      destruct (decide (n = n')) as [->|Hne].
      * rewrite lookup_insert_eq in Hn'. injection Hn' as <-. lia.
      * rewrite lookup_insert_ne in Hn' by done. specialize (H2 n' r' Hn'). lia.
    + done.
Qed.

Lemma registerOnce_shaped (n : string) (f : Function) :
  preserves shaped (registerOnce n f).
Proof.
  intros w (H1 & H2 & H3). unfold registerOnce.
  destruct (oMessagesOnce (pool w) !! n) as [a|] eqn:Hn; simpl.
  - destruct (indexOf f a); [done|].
    destruct (full a) eqn:Hfull; [done|]. apply full_false in Hfull.
    split; [|split]; simpl; try done.
    intros k a' Hk. destruct (decide (n = k)) as [->|Hne].
    + rewrite lookup_insert_eq in Hk. injection Hk as <-. rewrite length_push. lia.
    + rewrite lookup_insert_ne in Hk by done. by apply (H3 k).
  - destruct (inherited n); [done|]. split; [|split]; simpl; try done.
    intros k a' Hk. destruct (decide (n = k)) as [->|Hne].
    + rewrite lookup_insert_eq in Hk. injection Hk as <-. simpl. lia.
    + rewrite lookup_insert_ne in Hk by done. by apply (H3 k).
Qed.

Lemma length_delete_index (i : nat) (a : Array) :
  length (delete_index i a) = length a.
Proof. apply length_insert. Qed.

Lemma unregister_shaped (n : string) (f : option Function) (w : World) :
  shaped w → shaped (snd (unregister n f w)).
Proof.
  revert w. apply (preserves_unregister shaped).
  { intros w (H1 & H2 & H3). unfold unregister_persistent.
    destruct (oMessages (pool w) !! n) as [r|] eqn:Hn;
      [|unfold unregister_inherited; by repeat case_match].
    destruct f as [f|]; simpl.
    - destruct (lastIndexOf f (array w r)) as [i|]; [|done]. simpl.
      pose proof (H2 n r Hn) as Hr.
      split; [|split]; simpl; try done.
      + intros r' a Ha. destruct (decide (r' = r)) as [->|Hne].
        * rewrite list_lookup_insert_eq in Ha by done. injection Ha as <-.
          rewrite length_delete_index.
          destruct (H1 r (array w r) (array_lookup w r Hr)) as [Hne Hlen].
          split; [|done]. intros Hnil. apply Hne.
          apply (f_equal length) in Hnil. rewrite length_delete_index in Hnil.
          by destruct (array w r).
        * rewrite list_lookup_insert_ne in Ha by done. by apply (H1 r').
      + intros n' r' Hn'. rewrite length_insert. by apply (H2 n').
    - split; [|split]; simpl; try done.
      intros n' r' Hn'. apply lookup_delete_Some in Hn' as [_ Hn'].
      by apply (H2 n'). }
  intros w1 (G1 & G2 & G3). unfold unregister_once.
  destruct (oMessagesOnce (pool w1) !! n) as [a|] eqn:Hn;
    [|unfold unregister_inherited; by repeat case_match].
  destruct f as [f|]; simpl.
  - destruct (lastIndexOf f a) as [i|]; [|done]. simpl.
    split; [|split]; simpl; try done.
    intros k a' Hk. destruct (decide (n = k)) as [->|Hne].
    + rewrite lookup_insert_eq in Hk. injection Hk as <-.
      rewrite length_delete_index. by apply (G3 k).
    + rewrite lookup_insert_ne in Hk by done. by apply (G3 k).
  - split; [|split]; simpl; try done.
    intros k a' Hk. apply lookup_delete_Some in Hk as [_ Hk]. by apply (G3 k).
Qed.

Lemma send_same_registry (oTarget' : Target) (arguments : list value) (w : World) :
  same_registry w (snd (send oTarget' arguments w)).
Proof. destruct (send_effects oTarget' arguments w) as (es & -> & _). done. Qed.

Lemma onSync_same_registry (s : nat) (w : World) :
  same_registry w (snd (onSync s w)).
Proof.
  unfold onSync. destruct (sessions w !! s) as [o|]; [|done].
  rewrite bind_run.
  destruct (send_effects (oTarget o) [VStr evPing] w) as (es & -> & _).
  done.
Qed.

Lemma ready_same_registry (b : option bool) (w : World) :
  same_registry w (ready b w).
Proof.
  unfold ready. destruct (decide _); [done|]. by destruct (decide _).
Qed.

Lemma onSync_shaped (s : nat) : preserves shaped (onSync s).
Proof. intros w. apply shaped_frame, onSync_same_registry. Qed.

Lemma synchronize_shaped (oTarget' : Target) (fnCallback' : nat) :
  preserves shaped (synchronize oTarget' fnCallback').
Proof.
  intros w Hw. unfold synchronize, new_Synchronization.
  apply preserves_bind; [| |done].
  { apply preserves_modify. intros w'. by apply shaped_frame. }
  intros _. apply preserves_bind; [apply registerOnce_shaped|].
  intros _. apply preserves_bind; [apply onSync_shaped|].
  intros _. apply preserves_ret.
Qed.

Lemma cancel_shaped (s : nat) (w : World) : shaped w → shaped (cancel s w).
Proof.
  intros Hw. unfold cancel.
  destruct (sessions w !! s) as [o|]; [|done].
  destruct (iSync o) as [i|]; [|done].
  eapply shaped_frame; [|apply unregister_shaped;
    eapply shaped_frame; [|exact Hw]]; done.
Qed.

Lemma exec_shaped (c : Cmd) : preserves shaped (exec c).
Proof.
  destruct c; simpl.
  - intros w. by apply shaped_frame.
  - intros w Hw. by destruct (has sMessage w).
  - apply register_shaped.
  - apply registerOnce_shaped.
  - apply preserves_bind; [intros w; apply unregister_shaped|].
    intros _. apply preserves_ret.
  - intros w. by apply shaped_frame.
  - intros w. by apply shaped_frame.
  - intros w. apply shaped_frame, send_same_registry.
  - intros w. apply shaped_frame, ready_same_registry.
  - intros w. by apply shaped_frame.
  - apply preserves_bind; [apply synchronize_shaped|].
    intros _. apply preserves_ret.
  - intros w. apply cancel_shaped.
  - by intros w Hw.
Qed.

Lemma shaped_stable :
  Stable shaped (fun _ => True) (fun _ => True) (fun _ => True).
Proof.
  split; try done.
  - intros c _. apply exec_shaped.
  - intros w k a (H1 & H2 & H3) _ Hk. split; [|done].
    split; [|split]; simpl; try done.
    intros k' a' Hk'. apply lookup_delete_Some in Hk' as [_ Hk'].
    by apply (H3 k').
  - intros w i. apply shaped_frame. by destruct i.
  - intros s _. apply onSync_shaped.
Qed.

Lemma new_cMessagePool_shaped : shaped new_cMessagePool.
Proof.
  apply register_shaped. split; [|split]; simpl.
  - intros r a Ha. by rewrite lookup_nil in Ha.
  - intros n r Hn. by rewrite lookup_empty in Hn.
  - intros k a Hk. by rewrite lookup_empty in Hk.
Qed.

Lemma reachable_shaped (steps : list Step) :
  shaped (run steps new_cMessagePool).
Proof.
  apply (preserves_run shaped _ _ _ shaped_stable).
  - intros st _. by destruct st.
  - apply new_cMessagePool_shaped.
Qed.

(** *** Names with arrays read no inherited member *)

Lemma own_names_frame (w w' : World) :
  same_registry w w' → own_names w → own_names w'.
Proof. intros (_ & Hm & Ho). unfold own_names. by rewrite Hm, Ho. Qed.

Lemma register_own_names (n : string) (f : Function) :
  preserves own_names (register n f).
Proof.
  intros w [H1 H2]. unfold register.
  destruct (oMessages (pool w) !! n) as [r|] eqn:Hn.
  - by repeat case_match.
  - destruct (inherited n) eqn:Hi; [done|]. split; simpl; [|done].
    intros n' r' Hn'. destruct (decide (n = n')) as [<-|Hne]; [done|].
    rewrite lookup_insert_ne in Hn' by done. by apply (H1 n' r').
Qed.

Lemma registerOnce_own_names (n : string) (f : Function) :
  preserves own_names (registerOnce n f).
Proof.
  intros w [H1 H2]. unfold registerOnce.
  destruct (oMessagesOnce (pool w) !! n) as [a|] eqn:Hn.
  - destruct (indexOf f a); [done|]. destruct (full a); [done|].
    split; simpl; [done|]. intros n' a' Hn'.
    destruct (decide (n = n')) as [<-|Hne]; [by apply (H2 n a)|].
    rewrite lookup_insert_ne in Hn' by done. by apply (H2 n' a').
  - destruct (inherited n) eqn:Hi; [done|]. split; simpl; [done|].
    intros n' a' Hn'. destruct (decide (n = n')) as [<-|Hne]; [done|].
    rewrite lookup_insert_ne in Hn' by done. by apply (H2 n' a').
Qed.

Lemma unregister_own_names (n : string) (fo : option Function) :
  preserves own_names (unregister n fo).
Proof.
  apply (preserves_unregister own_names).
  - intros w [H1 H2]. unfold unregister_persistent.
    destruct (oMessages (pool w) !! n) as [r|] eqn:Hn;
      [|unfold unregister_inherited; by repeat case_match].
    destruct fo as [f|]; [by destruct (lastIndexOf f (array w r))|].
    split; simpl; [|done]. intros n' r' Hn'.
    apply lookup_delete_Some in Hn' as [_ Hn']. by apply (H1 n' r').
  - intros w [H1 H2]. unfold unregister_once.
    destruct (oMessagesOnce (pool w) !! n) as [a|] eqn:Hn;
      [|unfold unregister_inherited; by repeat case_match].
    destruct fo as [f|].
    + destruct (lastIndexOf f a); [|done]. split; simpl; [done|].
      intros n' a' Hn'. destruct (decide (n = n')) as [<-|Hne]; [by apply (H2 n a)|].
      rewrite lookup_insert_ne in Hn' by done. by apply (H2 n' a').
    + split; simpl; [done|]. intros n' a' Hn'.
      apply lookup_delete_Some in Hn' as [_ Hn']. by apply (H2 n' a').
Qed.

Lemma exec_own_names (c : Cmd) : preserves own_names (exec c).
Proof.
  destruct c; simpl.
  - intros w. by apply own_names_frame.
  - intros w Hw. by destruct (has sMessage w).
  - apply register_own_names.
  - apply registerOnce_own_names.
  - apply preserves_bind; [apply unregister_own_names|]. intros _. apply preserves_ret.
  - intros w. by apply own_names_frame.
  - intros w. by apply own_names_frame.
  - intros w. apply own_names_frame, send_same_registry.
  - intros w. apply own_names_frame, ready_same_registry.
  - intros w. by apply own_names_frame.
  - apply preserves_bind; [|intros _; apply preserves_ret].
    unfold synchronize, new_Synchronization. intros w Hw.
    apply preserves_bind; [| |done].
    { apply preserves_modify. intros w'. by apply own_names_frame. }
    intros _. apply preserves_bind; [apply registerOnce_own_names|].
    intros _. apply preserves_bind; [|intros _; apply preserves_ret].
    intros w'. apply own_names_frame, onSync_same_registry.
  - intros w Hw. unfold modify, cancel. cbn [snd].
    destruct (sessions w !! session) as [o|]; [|done].
    destruct (iSync o) as [i|]; [|done].
    eapply own_names_frame; [|apply unregister_own_names;
      eapply own_names_frame; [|exact Hw]]; done.
  - by intros w Hw.
Qed.

Lemma own_names_stable :
  Stable own_names (fun _ => True) (fun _ => True) (fun _ => True).
Proof.
  split; try done.
  - intros c _. apply exec_own_names.
  - intros w k a [H1 H2] _ Hk. split; [|done]. split; simpl; [done|].
    intros n' a' Hn'. apply lookup_delete_Some in Hn' as [_ Hn']. by apply (H2 n' a').
  - intros w i. apply own_names_frame. by destruct i.
  - intros s _ w. apply own_names_frame, onSync_same_registry.
Qed.

Lemma new_cMessagePool_own_names : own_names new_cMessagePool.
Proof.
  apply register_own_names. split; simpl; intros n x Hn; by rewrite lookup_empty in Hn.
Qed.

Lemma reachable_own_names (steps : list Step) :
  own_names (run steps new_cMessagePool).
Proof.
  apply (preserves_run own_names _ _ _ own_names_stable).
  - intros st _. by destruct st.
  - apply new_cMessagePool_own_names.
Qed.

(** *** Both together *)

Lemma well_formed_frame (w w' : World) :
  same_registry w w' → well_formed w → well_formed w'.
Proof.
  intros Hsame [Hs Ho]. split; [by eapply shaped_frame|by eapply own_names_frame].
Qed.

Lemma register_well_formed (n : string) (f : Function) :
  preserves well_formed (register n f).
Proof.
  intros w [Hs Ho]. split; [by apply register_shaped|by apply register_own_names].
Qed.

Lemma registerOnce_well_formed (n : string) (f : Function) :
  preserves well_formed (registerOnce n f).
Proof.
  intros w [Hs Ho].
  split; [by apply registerOnce_shaped|by apply registerOnce_own_names].
Qed.

Lemma unregister_well_formed (n : string) (f : option Function) (w : World) :
  well_formed w → well_formed (snd (unregister n f w)).
Proof.
  intros [Hs Ho]. split; [by apply unregister_shaped|by apply unregister_own_names].
Qed.

Lemma exec_well_formed (c : Cmd) : preserves well_formed (exec c).
Proof.
  intros w [Hs Ho]. split; [by apply exec_shaped|by apply exec_own_names].
Qed.

Lemma synchronize_well_formed (oTarget' : Target) (fnCallback' : nat) :
  preserves well_formed (synchronize oTarget' fnCallback').
Proof.
  intros w Hw.
  pose proof (exec_well_formed (c_synchronize oTarget' fnCallback') w Hw) as Hex.
  simpl in Hex. rewrite bind_run in Hex.
  by destruct (synchronize oTarget' fnCallback' w) as [[s|e] w'].
Qed.

Lemma cancel_well_formed (s : nat) (w : World) : well_formed w → well_formed (cancel s w).
Proof. intros Hw. by apply (exec_well_formed (c_cancel s)). Qed.

Lemma well_formed_stable :
  Stable well_formed (fun _ => True) (fun _ => True) (fun _ => True).
Proof.
  split; try done.
  - intros c _. apply exec_well_formed.
  - intros w k a [Hs Ho] _ Hk. split; [|done]. split.
    + by apply (st_once _ _ _ _ shaped_stable w k a).
    + by apply (st_once _ _ _ _ own_names_stable w k a).
  - intros w i. apply well_formed_frame. by destruct i.
  - intros s _ w. apply well_formed_frame, onSync_same_registry.
Qed.

Lemma new_cMessagePool_well_formed : well_formed new_cMessagePool.
Proof. split; [apply new_cMessagePool_shaped|apply new_cMessagePool_own_names]. Qed.

Lemma reachable_well_formed (steps : list Step) :
  well_formed (run steps new_cMessagePool).
Proof. split; [apply reachable_shaped|apply reachable_own_names]. Qed.

Lemma well_formed_array (w : World) (n : string) (r : nat) :
  well_formed w → oMessages (pool w) !! n = Some r →
  arrays w !! r = Some (array w r) ∧ array w r ≠ [] ∧ inherited n = None.
Proof.
  intros [(H1 & H2 & _) [N1 _]] Hn.
  assert (arrays w !! r = Some (array w r)) as Ha
    by (apply array_lookup; by apply (H2 n)).
  split; [done|]. split; [by apply (H1 r)|by apply (N1 n r)].
Qed.

Lemma well_formed_inherited (n : string) (w : World) :
  well_formed w → inherited n ≠ None →
  oMessages (pool w) !! n = None ∧ oMessagesOnce (pool w) !! n = None.
Proof.
  intros [_ [N1 N2]] Hi. split.
  - destruct (oMessages (pool w) !! n) as [r|] eqn:Hr; [|done].
    by rewrite (N1 n r Hr) in Hi.
  - destruct (oMessagesOnce (pool w) !! n) as [a|] eqn:Ha; [|done].
    by rewrite (N2 n a Ha) in Hi.
Qed.

(** On a well-formed world [has] does not throw: for a name with an array
    the left operand of [||] decides, and for a name that reads an inherited
    member both operands read a [length] or [undefined]. *)
Lemma has_well_formed (n : string) (w : World) :
  well_formed w → ∃ b, has n w = Normal b.
Proof.
  intros [(H1 & H2 & _) _]. unfold has.
  destruct (oMessages (pool w) !! n) as [r|] eqn:Hn.
  - destruct (H1 r (array w r)) as [Hne _].
    { apply array_lookup. by apply (H2 n). }
    destruct (array w r); [done|]. cbn [length Nat.ltb Nat.leb]. by exists true.
  - destruct (inherited n) as [x|]; [|by exists false].
    destruct (length_positive x); [by exists true|].
    destruct (oMessagesOnce (pool w) !! n); eauto.
Qed.

(** What [has] returns where no name with an array reads an inherited
    member. *)
Lemma has_own_names (n : string) (w : World) :
  well_formed w →
  has n w = Normal (bool_decide (is_Some (oMessages (pool w) !! n))
                    || from_option length_positive false (inherited n)).
Proof.
  intros [(H1 & H2 & _) [N1 N2]]. unfold has.
  destruct (oMessages (pool w) !! n) as [r|] eqn:Hn.
  - destruct (H1 r (array w r)) as [Hne _].
    { apply array_lookup. by apply (H2 n). }
    destruct (array w r); [done|]. cbn [length Nat.ltb Nat.leb].
    by rewrite bool_decide_true.
  - rewrite bool_decide_false by (by intros [? ?]).
    destruct (inherited n) as [x|] eqn:Hi; [|done]. simpl.
    destruct (length_positive x); [done|].
    destruct (oMessagesOnce (pool w) !! n) as [a|] eqn:Ho; [|done].
    by rewrite (N2 n a Ho) in Hi.
Qed.

(** C9, as the code has it.  In every state the pool can reach, [has] returns
    a boolean and does not throw.  The array of a name in [oMessages] is never
    empty, so the left operand of [||] is true and the right one, which reads
    [oMessagesOnce], is not evaluated.  A name without an array reads
    [undefined], and [has] returns [false], unless it is the name of a member
    inherited from [Object.prototype]: then both operands read that member,
    and [has] returns whether its [length] is positive, though no handler can
    be registered under such a name.  So [has(n)] is true exactly when
    [oMessages] has an array for [n] or [n] names an inherited function with
    parameters, as ["constructor"] does and ["toString"] does not; and right
    after [register(n, h)] has returned, [has(n)] is true. *)
Theorem has_never_throws (steps : list Step) (sMessage : string) :
  has sMessage (run steps new_cMessagePool)
  = Normal (bool_decide
              (is_Some (oMessages (pool (run steps new_cMessagePool)) !! sMessage))
            || from_option length_positive false (inherited sMessage)) ∧
  (is_Some (oMessages (pool (run steps new_cMessagePool)) !! sMessage) →
   inherited sMessage = None) ∧
  (∀ h w1, register sMessage h (run steps new_cMessagePool) = (Normal tt, w1) →
           has sMessage w1 = Normal true) ∧
  has "constructor" (run steps new_cMessagePool) = Normal true ∧
  has "toString" (run steps new_cMessagePool) = Normal false.
Proof.
  pose proof (reachable_well_formed steps) as Hwf.
  pose proof (reachable_own_names steps) as Hown.
  split; [by apply has_own_names|]. split; [|split].
  - intros [r Hr]. by apply (proj1 Hown sMessage r).
  - intros h w1 Hreg.
    pose proof (register_well_formed sMessage h _ Hwf) as Hwf1. rewrite Hreg in Hwf1.
    rewrite has_own_names by done.
    assert (is_Some (oMessages (pool w1) !! sMessage)) as Hsome.
    { revert Hreg. unfold register.
      destruct (oMessages (pool (run steps new_cMessagePool)) !! sMessage)
        as [r|] eqn:Hr.
      - destruct (indexOf h _); [|destruct (full _)]; intros [= <-]; try done;
          cbn [pool set_arrays]; by rewrite Hr.
      - destruct (inherited sMessage); [done|]. intros [= <-]. simpl.
        by rewrite lookup_insert_eq. }
    by rewrite bool_decide_true.
  - assert (∀ n, inherited n ≠ None →
              oMessages (pool (run steps new_cMessagePool)) !! n = None) as Hnone.
    { intros n Hn. destruct (oMessages _ !! n) as [r|] eqn:Hr; [|done].
      by rewrite (proj1 Hown n r Hr) in Hn. }
    rewrite !has_own_names by done.
    rewrite !Hnone by done. done.
Qed.

End WellFormed.

(** Against C9 as stated: after [register("greet", h)] and no [registerOnce],
    [has("greet")] is [true]; and no sequence of turns leads to a state in
    which [has] throws. *)
Lemma has_after_register_is_true :
  oMessagesOnce (pool greeting_pool) !! "greet" = None ∧
  has "greet" greeting_pool = Normal true ∧
  ¬ (∃ (host : Host) (steps : list Step) (n : string) (e : Exn),
       has n (run (H := host) steps new_cMessagePool) = Throw e).
Proof.
  split; [reflexivity|]. split; [reflexivity|].
  intros (host & steps & n & e & Hthrow).
  destruct (has_well_formed n _ (reachable_well_formed (H := host) steps)) as [b Hb].
  by rewrite Hb in Hthrow.
Qed.

(** ** Searching and deleting in arrays *)

Lemma indexOf_None (f : Function) (a : Array) : indexOf f a = None ↔ Some f ∉ a.
Proof.
  induction a as [|x a IH]; simpl.
  - split; [intros _ Hin; by apply elem_of_nil in Hin|done].
  - destruct (decide (x = Some f)) as [->|Hne].
    + split; [done|]. intros Hn. exfalso. apply Hn. by left.
    + rewrite fmap_None, IH, not_elem_of_cons. split; [|tauto].
      intros Hn. split; [congruence|done].
Qed.

Lemma lastIndexOf_None (f : Function) (a : Array) :
  lastIndexOf f a = None ↔ Some f ∉ a.
Proof.
  induction a as [|x a IH]; simpl.
  - split; [intros _ Hin; by apply elem_of_nil in Hin|done].
  - destruct (lastIndexOf f a) as [i|].
    + split; [done|]. intros Hn. exfalso.
      apply not_elem_of_cons in Hn as [_ Hn]. by apply IH in Hn.
    + destruct (decide (x = Some f)) as [->|Hne].
      * split; [done|]. intros Hn. exfalso. apply Hn. by left.
      * rewrite not_elem_of_cons. split; [|done].
        intros _. split; [congruence|by apply IH].
Qed.

Lemma lastIndexOf_Some (f : Function) (a : Array) (i : nat) :
  lastIndexOf f a = Some i → a !! i = Some (Some f).
Proof.
  revert i. induction a as [|x a IH]; intros i; simpl; [done|].
  destruct (lastIndexOf f a) as [j|].
  - intros [= <-]. by apply IH.
  - destruct (decide (x = Some f)) as [->|]; [|done]. by intros [= <-].
Qed.

Lemma present_push (f : Function) (a : Array) : present (push f a) = present a ++ [f].
Proof. unfold present, push. by rewrite omap_app. Qed.

Lemma present_cons (x : option Function) (a : Array) :
  present (x :: a) = match x with Some f => f :: present a | None => present a end.
Proof. by destruct x. Qed.

Lemma filter_absent (f : Function) (l : list Function) :
  f ∉ l → filter (fun g => g ≠ f) l = l.
Proof.
  induction l as [|g l IH]; intros Hf; [done|].
  apply not_elem_of_cons in Hf as [Hne Hf].
  rewrite filter_cons_True by congruence. by rewrite IH.
Qed.

(** Deleting the last occurrence of a function that occurs once leaves the
    other functions, in their order. *)
Lemma present_delete_last (f : Function) (a : Array) (i : nat) :
  NoDup (present a) → lastIndexOf f a = Some i →
  present (delete_index i a) = filter (fun g => g ≠ f) (present a).
Proof.
  revert i. induction a as [|x a IH]; intros i Hnd; [done|].
  rewrite present_cons in Hnd. cbn [lastIndexOf].
  destruct (lastIndexOf f a) as [j|] eqn:Hlast.
  - intros [= <-].
    change (delete_index (S j) (x :: a)) with (x :: delete_index j a).
    rewrite !present_cons. destruct x as [g|].
    + apply NoDup_cons in Hnd as [Hg Hnd].
      rewrite (IH j Hnd eq_refl).
      destruct (decide (g = f)) as [->|Hne].
      * exfalso. apply Hg, elem_of_present.
        by eapply list_elem_of_lookup_2, lastIndexOf_Some.
      * by rewrite filter_cons_True.
    + by apply IH.
  - destruct (decide (x = Some f)) as [->|]; [|done]. intros [= <-].
    change (delete_index 0 (Some f :: a)) with (None :: a).
    rewrite !present_cons.
    apply NoDup_cons in Hnd as [Hf Hnd].
    rewrite filter_cons_False by (intros Hn; by apply Hn).
    by rewrite filter_absent.
Qed.

Lemma invocations_fmap (f : Function) (args : list value) (l : list Function) :
  length (filter (fun c : Function * list value => c.1 = f) ((fun g => (g, args)) <$> l))
  = length (filter (fun g => g = f) l).
Proof.
  induction l as [|g l IH]; [done|]. rewrite fmap_cons, !filter_cons. simpl.
  destruct (decide (g = f)); simpl; by rewrite IH.
Qed.

Lemma count_NoDup (f : Function) (l : list Function) :
  NoDup l → f ∈ l → length (filter (fun g => g = f) l) = 1.
Proof.
  induction l as [|g l IH]; intros Hnd Hin; [by apply elem_of_nil in Hin|].
  apply NoDup_cons in Hnd as [Hg Hnd]. rewrite filter_cons.
  destruct (decide (g = f)) as [->|Hne].
  - simpl. f_equal. apply length_zero_iff_nil.
    destruct (filter _ l) as [|x l'] eqn:Hfl; [done|].
    assert (x ∈ filter (fun g => g = f) l) as Hx by (rewrite Hfl; by left).
    apply list_elem_of_filter in Hx as [-> Hx]. done.
  - apply IH; [done|]. apply elem_of_cons in Hin as [->|]; done.
Qed.

Lemma count_absent (f : Function) (l : list Function) :
  f ∉ l → length (filter (fun g => g = f) l) = 0.
Proof.
  induction l as [|g l IH]; intros Hf; [done|].
  apply not_elem_of_cons in Hf as [Hne Hf].
  rewrite filter_cons_False by congruence. by apply IH.
Qed.

(** ** Registration *)

Section Registration.
Context `{Host}.

Lemma indexOf_push (f : Function) (a : Array) : indexOf f (push f a) ≠ None.
Proof.
  rewrite indexOf_None. intros Hn. apply Hn. unfold push.
  apply elem_of_app. right. by left.
Qed.

Lemma register_twice (n : string) (h : Function) (w : World) :
  (register n h ≫= fun _ => register n h) w = register n h w.
Proof.
  rewrite bind_run. unfold register at 1 3.
  destruct (oMessages (pool w) !! n) as [r|] eqn:Hn.
  - destruct (indexOf h (array w r)) as [i|] eqn:Hi.
    + unfold register. by rewrite Hn, Hi.
    + destruct (full (array w r)) eqn:Hfull; [done|].
      unfold register. simpl. rewrite Hn.
      destruct (decide (r < length (arrays w))) as [Hr|Hr].
      * replace (array (set_arrays <[r:=push h (array w r)]> w) r)
          with (push h (array w r))
          by (unfold array; simpl; by rewrite list_lookup_insert_eq).
        by destruct (indexOf h (push h (array w r))) eqn:Hp;
          [|apply indexOf_push in Hp].
      * assert (set_arrays <[r:=push h (array w r)]> w = w) as Hsame.
        { destruct w. unfold set_arrays. simpl in *. f_equal.
          apply list_insert_ge. lia. }
        rewrite !Hsame, Hi, Hfull. done.
  - destruct (inherited n); [done|].
    unfold register. simpl. rewrite lookup_insert_eq.
    replace (array _ (length (arrays w))) with [Some h]; [|].
    + simpl. by rewrite decide_True.
    + unfold array. simpl. by rewrite lookup_app_r, Nat.sub_diag.
Qed.

Lemma registerOnce_twice (n : string) (h : Function) (w : World) :
  (registerOnce n h ≫= fun _ => registerOnce n h) w = registerOnce n h w.
Proof.
  rewrite bind_run. unfold registerOnce at 1 3.
  destruct (oMessagesOnce (pool w) !! n) as [a|] eqn:Hn.
  - destruct (indexOf h a) as [i|] eqn:Hi.
    + unfold registerOnce. by rewrite Hn, Hi.
    + destruct (full a) eqn:Hfull; [done|].
      unfold registerOnce. simpl. rewrite lookup_insert_eq.
      by destruct (indexOf h (push h a)) eqn:Hp; [|apply indexOf_push in Hp].
  - destruct (inherited n); [done|].
    unfold registerOnce. simpl. rewrite lookup_insert_eq. simpl.
    by rewrite decide_True.
Qed.

(** What a registration that returns has done. *)
Lemma register_spec (n : string) (h : Function) (w w1 : World) :
  well_formed w → register n h w = (Normal tt, w1) →
  persistent_handlers w1 n =
    (if decide (h ∈ persistent_handlers w n) then persistent_handlers w n
     else persistent_handlers w n ++ [h]) ∧
  oMessagesOnce (pool w1) = oMessagesOnce (pool w) ∧
  trace w1 = trace w.
Proof.
  intros [(H1 & H2 & H3) Hown]. unfold register, persistent_handlers.
  destruct (oMessages (pool w) !! n) as [r|] eqn:Hn.
  - destruct (indexOf h (array w r)) as [i|] eqn:Hi.
    + intros [= <-]. rewrite Hn. split; [|done].
      rewrite decide_True; [done|]. apply elem_of_present.
      destruct (decide (Some h ∈ array w r)) as [|Hnot]; [done|].
      apply indexOf_None in Hnot. congruence.
    + destruct (full (array w r)); [done|]. intros [= <-]. simpl. rewrite Hn.
      split; [|done].
      replace (array (set_arrays <[r:=push h (array w r)]> w) r)
        with (push h (array w r)).
      * rewrite present_push, decide_False; [done|].
        rewrite elem_of_present. by apply indexOf_None.
      * unfold array. simpl. rewrite list_lookup_insert_eq; [done|]. by apply (H2 n).
  - destruct (inherited n); [done|].
    intros [= <-]. simpl. rewrite lookup_insert_eq. split; [|done].
    unfold array. simpl. by rewrite lookup_app_r, Nat.sub_diag.
Qed.

Lemma registerOnce_spec (n : string) (h : Function) (w w1 : World) :
  registerOnce n h w = (Normal tt, w1) →
  once_handlers w1 n =
    (if decide (h ∈ once_handlers w n) then once_handlers w n
     else once_handlers w n ++ [h]) ∧
  oMessages (pool w1) = oMessages (pool w) ∧ arrays w1 = arrays w ∧
  trace w1 = trace w.
Proof.
  unfold registerOnce, once_handlers.
  destruct (oMessagesOnce (pool w) !! n) as [a|] eqn:Hn.
  - destruct (indexOf h a) as [i|] eqn:Hi.
    + intros [= <-]. rewrite Hn. split; [|done].
      rewrite decide_True; [done|]. apply elem_of_present.
      destruct (decide (Some h ∈ a)) as [|Hnot]; [done|].
      apply indexOf_None in Hnot. congruence.
    + destruct (full a); [done|]. intros [= <-]. simpl. rewrite lookup_insert_eq.
      split; [|done].
      rewrite present_push, decide_False; [done|].
      rewrite elem_of_present. by apply indexOf_None.
  - destruct (inherited n); [done|].
    intros [= <-]. simpl. rewrite lookup_insert_eq. by split.
Qed.

Lemma registered_once (h : Function) (l l' : list Function) :
  NoDup l → l' = (if decide (h ∈ l) then l else l ++ [h]) →
  NoDup l' ∧ h ∈ l'.
Proof.
  intros Hnd ->. destruct (decide (h ∈ l)) as [Hin|Hin]; [done|]. split.
  - apply NoDup_app. split; [done|]. split; [|apply NoDup_singleton].
    intros x Hx ->%list_elem_of_singleton. done.
  - apply elem_of_app. right. by left.
Qed.

End Registration.

Section RegistrationClaims.
Context `{Host}.

Lemma invocations_dispatch (h : Function) (args : list value) (es : list Effect)
    (ps os : list Function) :
  calls es = (fun f => (f, args)) <$> (ps ++ os) →
  invocations h es =
    length (filter (fun g => g = h) ps) + length (filter (fun g => g = h) os).
Proof.
  intros Hc. unfold invocations. rewrite Hc, invocations_fmap, filter_app, length_app.
  done.
Qed.

(** C4, and where the code departs from it.  A second [register] (or
    [registerOnce]) of the same function under the same name changes nothing;
    when the registration returns, the function is then applied exactly once
    by a dispatch of the name, and a different function registered under the
    name is kept beside it.  The registration does return for a name that
    reads no inherited member, unless the array of the name is full.  For the
    name of a member inherited from [Object.prototype], as ["constructor"]
    and ["toString"] are, in a world the methods can produce, [register] and
    [registerOnce] throw a TypeError and register nothing: a dispatch of the
    name applies no function, the one just given included. *)
Theorem registration_is_idempotent (n : string) (h : Function) (w : World) :
  (register n h ≫= fun _ => register n h) w = register n h w ∧
  (registerOnce n h ≫= fun _ => registerOnce n h) w = registerOnce n h w ∧
  (∀ w1 args,
     well_formed w → NoDup (persistent_handlers w n) → h ∉ once_handlers w n →
     register n h w = (Normal tt, w1) → quiet_name w1 n →
     ∃ w2 es, recv (VStr n :: args) w1 = (Normal tt, w2) ∧
       trace w2 = trace w1 ++ es ∧ invocations h es = 1) ∧
  (∀ w1 args,
     NoDup (once_handlers w n) → h ∉ persistent_handlers w n →
     registerOnce n h w = (Normal tt, w1) → quiet_name w1 n →
     ∃ w2 es, recv (VStr n :: args) w1 = (Normal tt, w2) ∧
       trace w2 = trace w1 ++ es ∧ invocations h es = 1) ∧
  (∀ h' w1 w2,
     well_formed w → h' ≠ h →
     register n h w = (Normal tt, w1) → register n h' w1 = (Normal tt, w2) →
     h ∈ persistent_handlers w2 n ∧ h' ∈ persistent_handlers w2 n) ∧
  (∀ h' w1 w2,
     h' ≠ h →
     registerOnce n h w = (Normal tt, w1) → registerOnce n h' w1 = (Normal tt, w2) →
     h ∈ once_handlers w2 n ∧ h' ∈ once_handlers w2 n) ∧
  (inherited n = None →
     ((∀ r, oMessages (pool w) !! n = Some r → full (array w r) = false) →
      ∃ w1, register n h w = (Normal tt, w1)) ∧
     ((∀ a, oMessagesOnce (pool w) !! n = Some a → full a = false) →
      ∃ w1, registerOnce n h w = (Normal tt, w1))) ∧
  (inherited n ≠ None → well_formed w →
     register n h w = (Throw TypeError, w) ∧
     registerOnce n h w = (Throw TypeError, w) ∧
     ∀ args, ∃ w' es, recv (VStr n :: args) w = (Normal tt, w') ∧
       trace w' = trace w ++ es ∧ calls es = [] ∧ invocations h es = 0).
Proof.
  split; [apply register_twice|]. split; [apply registerOnce_twice|].
  split; [|split; [|split; [|split; [|split]]]].
  - intros w1 args Hwf Hnd Honce Hreg Hq.
    destruct (register_spec n h w w1 Hwf Hreg) as (Hp & Ho & _).
    destruct (registered_once h _ _ Hnd Hp) as [Hnd1 Hin1].
    destruct (recv_inert n args w1 Hq) as (w2 & es & Hrecv & _ & _ & _ & Ht & Hc).
    exists w2, es. split; [done|]. split; [done|].
    rewrite (invocations_dispatch _ _ _ _ _ Hc), count_NoDup by done.
    rewrite count_absent; [done|]. unfold once_handlers in *. by rewrite Ho.
  - intros w1 args Hnd Hpers Hreg Hq.
    destruct (registerOnce_spec n h w w1 Hreg) as (Ho & Hm & Ha & _).
    destruct (registered_once h _ _ Hnd Ho) as [Hnd1 Hin1].
    destruct (recv_inert n args w1 Hq) as (w2 & es & Hrecv & _ & _ & _ & Ht & Hc).
    exists w2, es. split; [done|]. split; [done|].
    rewrite (invocations_dispatch _ _ _ _ _ Hc), (count_NoDup h (once_handlers w1 n)) by done.
    rewrite count_absent; [done|]. unfold persistent_handlers, array in *. by rewrite Hm, Ha.
  - intros h' w1 w2 Hwf Hne Hreg1 Hreg2.
    destruct (register_spec n h w w1 Hwf Hreg1) as (Hp1 & _ & _).
    assert (well_formed w1) as Hwf1.
    { pose proof (register_well_formed n h w Hwf) as Hw1. by rewrite Hreg1 in Hw1. }
    destruct (register_spec n h' w1 w2 Hwf1 Hreg2) as (Hp2 & _ & _).
    assert (h ∈ persistent_handlers w1 n) as Hin1.
    { rewrite Hp1. destruct (decide _); [done|]. apply elem_of_app. right. by left. }
    rewrite Hp2. destruct (decide (h' ∈ persistent_handlers w1 n)); [done|].
    split; apply elem_of_app; [by left|right; by left].
  - intros h' w1 w2 Hne Hreg1 Hreg2.
    destruct (registerOnce_spec n h w w1 Hreg1) as (Hp1 & _ & _).
    destruct (registerOnce_spec n h' w1 w2 Hreg2) as (Hp2 & _ & _).
    assert (h ∈ once_handlers w1 n) as Hin1.
    { rewrite Hp1. destruct (decide _); [done|]. apply elem_of_app. right. by left. }
    rewrite Hp2. destruct (decide (h' ∈ once_handlers w1 n)); [done|].
    split; apply elem_of_app; [by left|right; by left].
  - intros Hi. split.
    + intros Hfull. unfold register.
      destruct (oMessages (pool w) !! n) as [r|] eqn:Hn; [|rewrite Hi; eauto].
      destruct (indexOf h (array w r)); [eauto|]. rewrite (Hfull r eq_refl). eauto.
    + intros Hfull. unfold registerOnce.
      destruct (oMessagesOnce (pool w) !! n) as [a|] eqn:Hn; [|rewrite Hi; eauto].
      destruct (indexOf h a); [eauto|]. rewrite (Hfull a eq_refl). eauto.
  - intros Hi Hwf. destruct (well_formed_inherited n w Hwf Hi) as [Hm Ho].
    destruct (inherited n) as [x|] eqn:Hx; [|done].
    split; [unfold register; by rewrite Hm, Hx|].
    split; [unfold registerOnce; by rewrite Ho, Hx|].
    intros args.
    destruct (recv_inert n args w) as (w' & es & Hrecv & _ & _ & _ & Ht & Hc).
    { split; intros x' Hx'; congruence. }
    unfold persistent_handlers, once_handlers in Hc. rewrite Hm, Ho in Hc.
    exists w', es. split; [done|]. split; [done|]. split; [done|].
    unfold invocations. by rewrite Hc.
Qed.

End RegistrationClaims.

(** ** Unregistering one handler *)

Section Unregistering.
Context `{Host}.

Lemma unregister_handler_spec (n : string) (h : Function) (w : World) (r : nat) :
  well_formed w → NoDup (persistent_handlers w n) → NoDup (once_handlers w n) →
  oMessages (pool w) !! n = Some r → Some h ∈ array w r →
  ∃ i w1, unregister n (Some h) w = (Normal true, w1) ∧
    array w r !! i = Some (Some h) ∧
    oMessages (pool w1) = oMessages (pool w) ∧
    arrays w1 = <[r := delete_index i (array w r)]> (arrays w) ∧
    persistent_handlers w1 n = filter (fun g => g ≠ h) (persistent_handlers w n) ∧
    once_handlers w1 n = filter (fun g => g ≠ h) (once_handlers w n) ∧
    (∀ a1, oMessagesOnce (pool w1) !! n = Some a1 →
           ∃ a, oMessagesOnce (pool w) !! n = Some a ∧ length a1 = length a) ∧
    trace w1 = trace w.
Proof.
  intros [(H1 & H2 & H3) [N1 N2]] Hndp Hndo Hn Hin.
  destruct (lastIndexOf h (array w r)) as [i|] eqn:Hlast;
    [|by apply lastIndexOf_None in Hlast].
  pose proof (H2 n r Hn) as Hr.
  unfold persistent_handlers in Hndp. rewrite Hn in Hndp.
  assert (persistent_handlers (set_arrays <[r:=delete_index i (array w r)]> w) n
          = filter (fun g => g ≠ h) (persistent_handlers w n)) as Hpers.
  { unfold persistent_handlers. simpl. rewrite Hn.
    unfold array at 1. simpl. rewrite list_lookup_insert_eq by done. simpl.
    by apply present_delete_last. }
  exists i. unfold unregister. rewrite bind_run.
  unfold unregister_persistent at 1. rewrite Hn, Hlast. rewrite bind_run.
  unfold unregister_once. cbn [pool set_arrays]. rewrite (N1 n r Hn).
  unfold once_handlers in *.
  destruct (oMessagesOnce (pool w) !! n) as [o|] eqn:Ho.
  - destruct (lastIndexOf h o) as [j|] eqn:Hj.
    + eexists. split; [reflexivity|]. split; [by apply lastIndexOf_Some|].
      split; [done|]. split; [done|]. split; [exact Hpers|]. simpl.
      rewrite lookup_insert_eq. split; [by apply present_delete_last|].
      split; [|done]. intros a1 [= <-]. exists o. by rewrite length_delete_index.
    + eexists. split; [reflexivity|]. split; [by apply lastIndexOf_Some|].
      split; [done|]. split; [done|]. split; [exact Hpers|]. simpl. rewrite Ho.
      split; [|split; [|done]].
      * symmetry. apply filter_absent. rewrite elem_of_present.
        by apply lastIndexOf_None.
      * intros a1 [= <-]. by exists o.
  - eexists. split; [reflexivity|]. split; [by apply lastIndexOf_Some|].
    split; [done|]. split; [done|]. split; [exact Hpers|]. simpl. rewrite Ho.
    split; [done|]. split; [|done]. intros; discriminate.
Qed.

(** [unregister(n, h)] for a name with once-handlers only. *)
Lemma unregister_once_only (n : string) (f : Function) (w : World) (a : Array)
    (i : nat) :
  inherited n = None → oMessages (pool w) !! n = None →
  oMessagesOnce (pool w) !! n = Some a → lastIndexOf f a = Some i →
  unregister n (Some f) w
  = (Normal true, set_pool (set_oMessagesOnce <[n := delete_index i a]>) w).
Proof.
  intros Hi Hm Ho Hl. unfold unregister. rewrite bind_run.
  unfold unregister_persistent at 1. rewrite Hm, Hi. rewrite bind_run.
  unfold unregister_once. by rewrite Ho, Hl.
Qed.

(** [unregister(n, h)] for a name with persistent handlers only. *)
Lemma unregister_persistent_only (n : string) (f : Function) (w : World) (r i : nat) :
  inherited n = None → oMessages (pool w) !! n = Some r →
  oMessagesOnce (pool w) !! n = None → lastIndexOf f (array w r) = Some i →
  unregister n (Some f) w
  = (Normal true, set_arrays <[r := delete_index i (array w r)]> w).
Proof.
  intros Hi Hm Ho Hl. unfold unregister. rewrite bind_run.
  unfold unregister_persistent at 1. rewrite Hm, Hl. rewrite bind_run.
  unfold unregister_once. cbn [pool set_arrays]. by rewrite Ho, Hi.
Qed.

(** [unregister] for a name without handlers that reads no inherited
    member. *)
Lemma unregister_absent (n : string) (fo : option Function) (w : World) :
  inherited n = None → oMessages (pool w) !! n = None →
  oMessagesOnce (pool w) !! n = None →
  unregister n fo w = (Normal false, w).
Proof.
  intros Hi Hm Ho. unfold unregister. rewrite bind_run.
  unfold unregister_persistent at 1. rewrite Hm, Hi. rewrite bind_run.
  unfold unregister_once. by rewrite Ho, Hi.
Qed.

(** [unregister(n)] for a name with handlers of both kinds. *)
Lemma unregister_all_both (n : string) (w : World) (r : nat) (a : Array) :
  oMessages (pool w) !! n = Some r → oMessagesOnce (pool w) !! n = Some a →
  unregister n None w
  = (Normal true,
     set_pool (set_oMessagesOnce (delete n)) (set_pool (set_oMessages (delete n)) w)).
Proof.
  intros Hm Ho. unfold unregister. rewrite bind_run.
  unfold unregister_persistent at 1. rewrite Hm. rewrite bind_run.
  unfold unregister_once. cbn [pool set_pool set_oMessages oMessagesOnce].
  by rewrite Ho.
Qed.

(** C10.  [unregister(n, h)] of a registered persistent handler leaves a hole
    at its index; the next dispatch of [n] returns normally and applies the
    remaining handlers, the persistent ones and then the once-handlers, each
    once, in their order, and does not apply [h]. *)
Theorem dispatch_skips_unregistered (n : string) (h : Function) (args : list value)
    (w : World) :
  well_formed w →
  NoDup (persistent_handlers w n) → NoDup (once_handlers w n) →
  h ∈ persistent_handlers w n →
  (∀ r, oMessages (pool w) !! n = Some r → short (array w r)) →
  (∀ a, oMessagesOnce (pool w) !! n = Some a → short a) →
  (∀ f, f ∈ persistent_handlers w n ++ once_handlers w n → f ≠ h → inert f) →
  ∃ r i w1 w2 es,
    unregister n (Some h) w = (Normal true, w1) ∧
    oMessages (pool w1) !! n = Some r ∧
    array w r !! i = Some (Some h) ∧
    array w1 r = <[i := None]> (array w r) ∧
    recv (VStr n :: args) w1 = (Normal tt, w2) ∧
    trace w2 = trace w ++ es ∧
    calls es = (fun f => (f, args)) <$>
                 (filter (fun g => g ≠ h) (persistent_handlers w n) ++
                  filter (fun g => g ≠ h) (once_handlers w n)) ∧
    invocations h es = 0.
Proof.
  intros Hwf Hndp Hndo Hin Hsp Hso Hinert.
  assert (∃ r, oMessages (pool w) !! n = Some r) as [r Hn].
  { unfold persistent_handlers in Hin.
    destruct (oMessages (pool w) !! n) as [r|]; [by exists r|].
    by apply elem_of_nil in Hin. }
  assert (Some h ∈ array w r) as Hh.
  { apply elem_of_present. unfold persistent_handlers in Hin. by rewrite Hn in Hin. }
  destruct (unregister_handler_spec n h w r Hwf Hndp Hndo Hn Hh)
    as (i & w1 & Hun & Hi & Hm1 & Ha1 & Hp1 & Ho1 & Hlen & Ht1).
  assert (r < length (arrays w)) as Hr by (destruct Hwf as [(_ & H2 & _) _]; by apply (H2 n)).
  assert (array w1 r = <[i := None]> (array w r)) as Harr.
  { unfold array at 1. rewrite Ha1, list_lookup_insert_eq by done. done. }
  assert (quiet_name w1 n) as Hq.
  { split.
    - intros r' Hr'. rewrite Hm1, Hn in Hr'. injection Hr' as <-. split.
      + unfold short. rewrite Harr, length_insert. by apply Hsp.
      + intros f Hf.
        assert (f ∈ persistent_handlers w1 n) as Hf'
          by (unfold persistent_handlers; by rewrite Hm1, Hn).
        rewrite Hp1 in Hf'. apply list_elem_of_filter in Hf' as [Hne Hf'].
        apply Hinert; [|done]. apply elem_of_app. by left.
    - intros a1 Ha. destruct (Hlen a1 Ha) as (a & Hoa & Hl). split.
      + unfold short. rewrite Hl. by apply Hso.
      + intros f Hf.
        assert (f ∈ once_handlers w1 n) as Hf'
          by (unfold once_handlers; by rewrite Ha).
        rewrite Ho1 in Hf'. apply list_elem_of_filter in Hf' as [Hne Hf'].
        apply Hinert; [|done]. apply elem_of_app. by right. }
  destruct (recv_inert n args w1 Hq) as (w2 & es & Hrecv & _ & _ & _ & Ht & Hc).
  rewrite Hp1, Ho1 in Hc.
  exists r, i, w1, w2, es. repeat split; try done.
  - by rewrite Hm1.
  - by rewrite Ht, Ht1.
  - rewrite (invocations_dispatch _ _ _ _ _ Hc), !count_absent; [done| |];
      rewrite list_elem_of_filter; tauto.
Qed.

End Unregistering.

(** ** Registration at work *)

Lemma plain_quiet (w : World) (n : string) :
  (∀ r, oMessages (pool w) !! n = Some r →
        short (array w r) ∧ ∀ f, f ∈ present (array w r) → ∃ id, f = FnUser id) →
  (∀ a, oMessagesOnce (pool w) !! n = Some a →
        short a ∧ ∀ f, f ∈ present a → ∃ id, f = FnUser id) →
  quiet_name (H := plain_host) w n.
Proof.
  intros Hp Ho. split.
  - intros r Hr. destruct (Hp r Hr) as [Hs Hf]. split; [done|].
    intros f Hin. destruct (Hf f Hin) as [id ->]. apply plain_inert.
  - intros a Ha. destruct (Ho a Ha) as [Hs Hf]. split; [done|].
    intros f Hin. destruct (Hf f Hin) as [id ->]. apply plain_inert.
Defined.

Lemma greeting_pool_quiet : quiet_name (H := plain_host) greeting_pool "greet".
Proof.
  apply plain_quiet.
  - intros r Hr. vm_compute in Hr. injection Hr as <-. split; [by vm_compute|].
    intros f Hf. change (f ∈ [FnUser 0]) in Hf.
    apply list_elem_of_singleton in Hf as ->. by exists 0.
  - intros a Ha. vm_compute in Ha. discriminate.
Defined.

Lemma registration_is_idempotent_witness :
  (register "greet" (FnUser 0) ≫= fun _ => register "greet" (FnUser 0)) new_cMessagePool
    = register "greet" (FnUser 0) new_cMessagePool ∧
  (∃ w2 es, recv (H := plain_host) [VStr "greet"; VStr "world"] greeting_pool
              = (Normal tt, w2) ∧
     trace w2 = trace greeting_pool ++ es ∧ invocations (FnUser 0) es = 1) ∧
  (FnUser 0 ∈ persistent_handlers
                (snd (register "greet" (FnUser 1) greeting_pool)) "greet" ∧
   FnUser 1 ∈ persistent_handlers
                (snd (register "greet" (FnUser 1) greeting_pool)) "greet") ∧
  register "constructor" (FnUser 0) new_cMessagePool
    = (Throw TypeError, new_cMessagePool).
Proof.
  destruct (registration_is_idempotent (H := plain_host) "greet" (FnUser 0)
              new_cMessagePool) as (Htwice & _ & Honce & _ & Hboth & _).
  split; [exact Htwice|]. split; [|split].
  3: { destruct (registration_is_idempotent (H := plain_host) "constructor" (FnUser 0)
                   new_cMessagePool) as (_ & _ & _ & _ & _ & _ & _ & Hrefused).
       apply Hrefused; [discriminate|apply new_cMessagePool_well_formed]. }
  - apply (Honce greeting_pool [VStr "world"]).
    + apply new_cMessagePool_well_formed.
    + change (NoDup (@nil Function)). constructor.
    + change (FnUser 0 ∉ @nil Function). apply not_elem_of_nil.
    + reflexivity.
    + apply greeting_pool_quiet.
  - apply (Hboth (FnUser 1) greeting_pool).
    + apply new_cMessagePool_well_formed.
    + discriminate.
    + reflexivity.
    + reflexivity.
Defined.

(** Where the code departs from C4: callable 0 is registered twice for
    ["constructor"] on the ready pool, and a message of that name arrives.
    Both registrations throw, the name has no handler, and the dispatch does
    not apply callable 0. *)
Lemma handler_of_constructor_is_not_applied :
  register "constructor" (FnUser 0) ready_pool = (Throw TypeError, ready_pool) ∧
  registerOnce "toString" (FnUser 0) ready_pool = (Throw TypeError, ready_pool) ∧
  persistent_handlers
    (run (H := plain_host)
       [s_do (c_register "constructor" (FnUser 0));
        s_do (c_register "constructor" (FnUser 0))] ready_pool) "constructor" = [] ∧
  invocations (FnUser 0)
    (trace (run (H := plain_host)
              [s_do (c_register "constructor" (FnUser 0));
               s_do (c_register "constructor" (FnUser 0));
               s_message {| data := "[" +:+ quoted "constructor" +:+ "]";
                            source := Some 1 |}] ready_pool)) = 0 ∧
  ¬ (invocations (FnUser 0)
       (trace (run (H := plain_host)
                 [s_do (c_register "constructor" (FnUser 0));
                  s_do (c_register "constructor" (FnUser 0));
                  s_message {| data := "[" +:+ quoted "constructor" +:+ "]";
                               source := Some 1 |}] ready_pool)) = 1).
Proof.
  split; [reflexivity|]. split; [reflexivity|]. split; [reflexivity|].
  assert (invocations (FnUser 0)
            (trace (run (H := plain_host)
                      [s_do (c_register "constructor" (FnUser 0));
                       s_do (c_register "constructor" (FnUser 0));
                       s_message {| data := "[" +:+ quoted "constructor" +:+ "]";
                                    source := Some 1 |}] ready_pool)) = 0) as Hnone
    by (by vm_compute).
  split; [exact Hnone|]. rewrite Hnone. discriminate.
Qed.

Lemma trio_pool_well_formed : well_formed trio_pool.
Proof.
  do 3 apply register_well_formed. apply new_cMessagePool_well_formed.
Qed.

(** Three handlers, the middle one unregistered: the first and the third are
    applied. *)
Lemma dispatch_skips_unregistered_witness :
  ∃ r i w1 w2 es,
    unregister "greet" (Some (FnUser 1)) trio_pool = (Normal true, w1) ∧
    oMessages (pool w1) !! "greet" = Some r ∧
    array trio_pool r !! i = Some (Some (FnUser 1)) ∧
    array w1 r = <[i := None]> (array trio_pool r) ∧
    recv (H := plain_host) [VStr "greet"; VStr "world"] w1 = (Normal tt, w2) ∧
    trace w2 = trace trio_pool ++ es ∧
    calls es = [(FnUser 0, [VStr "world"]); (FnUser 2, [VStr "world"])] ∧
    invocations (FnUser 1) es = 0.
Proof.
  apply (dispatch_skips_unregistered (H := plain_host) "greet" (FnUser 1)
           [VStr "world"] trio_pool).
  - apply trio_pool_well_formed.
  - change (NoDup [FnUser 0; FnUser 1; FnUser 2]).
    apply (bool_decide_unpack (NoDup [FnUser 0; FnUser 1; FnUser 2])). vm_compute. exact I.
  - change (NoDup (@nil Function)). constructor.
  - change (FnUser 1 ∈ [FnUser 0; FnUser 1; FnUser 2]). right. left.
  - intros r Hr. vm_compute in Hr. injection Hr as <-. by vm_compute.
  - intros a Ha. vm_compute in Ha. discriminate.
  - intros f Hf _. change (f ∈ [FnUser 0; FnUser 1; FnUser 2]) in Hf.
    apply list_elem_of_In in Hf. simpl in Hf.
    destruct Hf as [<-|[<-|[<-|[]]]]; apply plain_inert.
Defined.

(** ** A once-handler is applied at most once *)

Section AtMostOnce.
Context `{Host}.
Context (h : Function) (n : string).

Lemma invocations_app (es1 es2 : list Effect) :
  invocations h (es1 ++ es2) = invocations h es1 + invocations h es2.
Proof. unfold invocations. by rewrite calls_app, filter_app, length_app. Qed.

Lemma invocations_calls (es1 es2 : list Effect) :
  calls es1 = calls es2 → invocations h es1 = invocations h es2.
Proof. unfold invocations. by intros ->. Qed.

Lemma session_callbacks (w w' : World) (s : nat) (o : Synchronization) :
  fnCallback <$> sessions w' = fnCallback <$> sessions w →
  sessions w' !! s = Some o →
  ∃ o', sessions w !! s = Some o' ∧ fnCallback o' = fnCallback o.
Proof.
  intros Heq Hs. assert ((fnCallback <$> sessions w') !! s = Some (fnCallback o)) as Hl
    by (by rewrite list_lookup_fmap, Hs).
  rewrite Heq, list_lookup_fmap in Hl.
  destruct (sessions w !! s) as [o'|]; [|done]. exists o'. by injection Hl as ->.
Qed.

Lemma elsewhere_absent_frame (w w' : World) :
  no_more w w' → elsewhere_absent h n w → elsewhere_absent h n w'.
Proof.
  intros (Ha & Ho & Hs & Ht & _) (H1 & H2 & H3 & H4).
  unfold elsewhere_absent. rewrite Ha, Ho. repeat split; try done.
  - intros s o Hso. destruct (session_callbacks w w' s o Hs Hso) as (o' & Ho' & <-).
    by eapply H3.
  - intros t Hin. by apply H4, Ht.
Qed.

Lemma armed_frame (c t : nat) (w w' : World) :
  same_registry w w' → no_more w w' → armed h n c t w → armed h n c t w'.
Proof.
  intros Hreg Hno (Hwf & Habs & Hc & Ht). split; [by eapply well_formed_frame|].
  split; [by eapply elsewhere_absent_frame|].
  destruct Hno as (_ & Ho & _ & _ & Hcalls). split.
  - by rewrite (invocations_calls _ _ Hcalls).
  - unfold occurrences in *. by rewrite Ho.
Qed.

Lemma no_more_refl (w : World) : no_more w w.
Proof. by repeat split. Qed.

Lemma no_more_emit_all (es : list Effect) (w : World) :
  calls es = [] → no_more w (emit_all es w).
Proof.
  intros Hes. repeat split; try done. simpl. rewrite calls_app, Hes.
  by rewrite app_nil_r.
Qed.

Lemma same_registry_emit_all (es : list Effect) (w : World) :
  same_registry w (emit_all es w).
Proof. done. Qed.

Lemma armed_emit_all (c t : nat) (es : list Effect) (w : World) :
  calls es = [] → armed h n c t w → armed h n c t (emit_all es w).
Proof.
  intros Hes. apply armed_frame; [done|by apply no_more_emit_all].
Qed.

Lemma armed_emit (c t : nat) (e : Effect) (w : World) :
  (∀ f args, e = Call f args → f ≠ h) →
  armed h n c t w → armed h n c t (emit e w).
Proof.
  intros He (Hwf & Habs & Hc & Ht). split; [done|]. split; [done|].
  split; [|done]. simpl. rewrite invocations_app, Hc.
  destruct e as [| f args | |]; try (unfold invocations; simpl; lia).
  unfold invocations. simpl. rewrite filter_cons_False; [simpl; lia|].
  simpl. by apply (He f args).
Qed.
Lemma push_absent (f : Function) (a : Array) :
  f ≠ h → Some h ∉ a → Some h ∉ push f a.
Proof.
  intros Hf Ha. unfold push. rewrite elem_of_app, list_elem_of_singleton.
  intros [?|[= ?]]; [done|]. by apply Hf.
Qed.

Lemma delete_index_absent (i : nat) (a : Array) :
  Some h ∉ a → Some h ∉ delete_index i a.
Proof.
  intros Ha Hin. apply list_elem_of_lookup in Hin as [j Hj].
  unfold delete_index in Hj. destruct (decide (i = j)) as [->|Hne].
  - destruct (decide (j < length a)).
    + by rewrite list_lookup_insert_eq in Hj.
    + rewrite list_insert_ge in Hj by lia. apply Ha. by eapply list_elem_of_lookup_2.
  - rewrite list_lookup_insert_ne in Hj by done. apply Ha.
    by eapply list_elem_of_lookup_2.
Qed.

Lemma count_push (f : Function) (a : Array) :
  f ≠ h →
  length (filter (fun x => x = Some h) (push f a))
  = length (filter (fun x => x = Some h) a).
Proof.
  intros Hf. unfold push. rewrite filter_app, length_app.
  rewrite filter_cons_False by congruence. simpl. lia.
Qed.

Lemma count_delete_index (i : nat) (a : Array) :
  length (filter (fun x => x = Some h) (delete_index i a))
  ≤ length (filter (fun x => x = Some h) a).
Proof.
  unfold delete_index. revert i. induction a as [|x a IH]; intros i; [done|].
  destruct i as [|i]; simpl.
  - rewrite filter_cons_False by done. rewrite filter_cons.
    destruct (decide _); simpl; lia.
  - rewrite !filter_cons. specialize (IH i).
    destruct (decide _); simpl; lia.
Qed.

Lemma array_absent (w : World) (r : nat) :
  elsewhere_absent h n w → Some h ∉ array w r.
Proof.
  intros (H1 & _). unfold array. destruct (arrays w !! r) as [a|] eqn:Ha; simpl.
  - by apply (H1 r).
  - apply not_elem_of_nil.
Qed.

Lemma register_armed (c t : nat) (n' : string) (f : Function) :
  f ≠ h → preserves (armed h n c t) (register n' f).
Proof.
  intros Hf w (Hwf & Habs & Hc & Ht).
  split; [by apply register_well_formed|].
  pose proof (fun r => array_absent w r Habs) as Harr.
  destruct Habs as (H1 & H2 & H3 & H4).
  unfold register. destruct (oMessages (pool w) !! n') as [r|].
  - destruct (indexOf f (array w r)); [done|].
    destruct (full (array w r)); [done|]. simpl.
    split; [|done]. split; [|done]. simpl.
    intros r' a Ha. destruct (decide (r' = r)) as [->|Hne].
    + destruct (decide (r < length (arrays w))).
      * rewrite list_lookup_insert_eq in Ha by done. injection Ha as <-.
        apply push_absent; [done|]. by apply Harr.
      * rewrite list_insert_ge in Ha by lia. by apply (H1 r).
    + rewrite list_lookup_insert_ne in Ha by done. by apply (H1 r').
  - destruct (inherited n'); [done|].
    simpl. split; [|done]. split; [|done]. simpl.
    intros r a Ha. apply lookup_app_Some in Ha as [Ha|[_ Ha]]; [by apply (H1 r)|].
    destruct (r - length (arrays w)); simpl in Ha; [|done].
    injection Ha as <-. rewrite list_elem_of_singleton. congruence.
Qed.

Lemma registerOnce_armed (c t : nat) (n' : string) (f : Function) :
  f ≠ h → preserves (armed h n c t) (registerOnce n' f).
Proof.
  intros Hf w (Hwf & Habs & Hc & Ht).
  split; [by apply registerOnce_well_formed|].
  destruct Habs as (H1 & H2 & H3 & H4).
  unfold registerOnce, occurrences in *.
  destruct (oMessagesOnce (pool w) !! n') as [a|] eqn:Hn'.
  - destruct (indexOf f a); [done|]. destruct (full a); [done|]. simpl.
    split; [split; [done|split; [|done]]|split; [done|]]; simpl.
    + intros m a' Hm Hne. destruct (decide (n' = m)) as [->|Hnm].
      * rewrite lookup_insert_eq in Hm. injection Hm as <-.
        apply push_absent; [done|]. by apply (H2 m).
      * rewrite lookup_insert_ne in Hm by done. by apply (H2 m).
    + destruct (decide (n' = n)) as [->|Hne].
      * rewrite lookup_insert_eq, count_push by done. by rewrite Hn' in Ht.
      * by rewrite lookup_insert_ne.
  - destruct (inherited n'); [simpl; by repeat split|].
    simpl. split; [split; [done|split; [|done]]|split; [done|]]; simpl.
    + intros m a' Hm Hne. destruct (decide (n' = m)) as [->|Hnm].
      * rewrite lookup_insert_eq in Hm. injection Hm as <-.
        rewrite list_elem_of_singleton. congruence.
      * rewrite lookup_insert_ne in Hm by done. by apply (H2 m).
    + destruct (decide (n' = n)) as [->|Hne].
      * rewrite lookup_insert_eq. rewrite filter_cons_False by congruence. simpl. lia.
      * by rewrite lookup_insert_ne.
Qed.

Lemma unregister_armed (c t : nat) (n' : string) (f : option Function) (w : World) :
  armed h n c t w → armed h n c t (snd (unregister n' f w)).
Proof.
  intros (Hwf & Hrest).
  split; [by apply unregister_well_formed|].
  clear Hwf. revert w Hrest.
  apply (preserves_unregister
           (fun w => elsewhere_absent h n w ∧ invocations h (trace w) = c ∧
                     occurrences h n w ≤ t)).
  { intros w (Habs & Hc & Ht).
    pose proof (fun r => array_absent w r Habs) as Harr. destruct Habs as (H1 & H2 & H3 & H4).
    unfold unregister_persistent.
    destruct (oMessages (pool w) !! n') as [r|];
      [|destruct (inherited n'); [destruct f|]; simpl; by repeat split].
    destruct f as [f|]; [|by repeat split].
    destruct (lastIndexOf f (array w r)) as [j|]; [|by repeat split]. simpl.
    split; [|done]. split; [|done]. simpl.
    intros r' a Ha. destruct (decide (r' = r)) as [->|Hne].
    - destruct (decide (r < length (arrays w))).
      + rewrite list_lookup_insert_eq in Ha by done. injection Ha as <-.
        by apply delete_index_absent.
      + rewrite list_insert_ge in Ha by lia. by apply (H1 r).
    - rewrite list_lookup_insert_ne in Ha by done. by apply (H1 r'). }
  intros w1 ((H1 & H2 & H3 & H4) & Hc & Ht').
  unfold unregister_once, occurrences in *.
  destruct (oMessagesOnce (pool w1) !! n') as [a|] eqn:Hn';
    [|destruct (inherited n'); [destruct f|]; simpl; by repeat split].
  destruct f as [f|]; simpl.
  - destruct (lastIndexOf f a) as [j|]; simpl; [|by repeat split].
    split; [split; [done|split; [|done]]|split; [done|]]; simpl.
    + intros m a' Hm Hne. destruct (decide (n' = m)) as [->|Hnm].
      * rewrite lookup_insert_eq in Hm. injection Hm as <-.
        apply delete_index_absent. by apply (H2 m).
      * rewrite lookup_insert_ne in Hm by done. by apply (H2 m).
    + destruct (decide (n' = n)) as [->|Hne].
      * rewrite lookup_insert_eq. rewrite Hn' in Ht'.
        pose proof (count_delete_index j a). lia.
      * by rewrite lookup_insert_ne.
  - split; [split; [done|split; [|done]]|split; [done|]]; simpl.
    + intros m a' Hm Hne. apply lookup_delete_Some in Hm as [_ Hm]. by apply (H2 m).
    + destruct (decide (n' = n)) as [->|Hne].
      * rewrite lookup_delete_eq. lia.
      * by rewrite lookup_delete_ne.
Qed.

End AtMostOnce.

Section AtMostOnceUser.
Context `{Host}.
Context (i : nat) (n : string).
Local Abbreviation h := (FnUser i).

Lemma callbacks_alter (s : nat) (x : option nat) (l : list Synchronization) :
  fnCallback <$> alter (fun o => {| oTarget := oTarget o; fnCallback := fnCallback o;
                                    iSync := x |}) s l
  = fnCallback <$> l.
Proof.
  revert s. induction l as [|o l IH]; intros s; [done|].
  destruct s as [|s]; simpl; [done|]. f_equal. apply IH.
Qed.

Lemma no_more_set_iSync (s : nat) (x : option nat) (w : World) :
  no_more w (set_iSync s x w).
Proof. repeat split; try done. simpl. apply callbacks_alter. Qed.

Lemma no_more_clearTimeout (x : option nat) (w : World) :
  no_more w (clearTimeout x w).
Proof.
  destruct x as [id|]; [|apply no_more_refl]. repeat split; try done.
  simpl. intros t [_ Ht]%list_elem_of_filter. done.
Qed.

Lemma setTimeout_armed (c t : nat) (f : Function) (delay : nat) :
  f ≠ h → preserves (armed h n c t) (setTimeout f delay).
Proof.
  intros Hf w (Hwf & (H1 & H2 & H3 & H4) & Hc & Ht).
  split; [done|]. split; [|done]. repeat split; try done.
  simpl. intros t' [Ht'|Ht']%elem_of_app; [by apply H4|].
  apply list_elem_of_singleton in Ht' as ->. done.
Qed.

Lemma onSync_armed (c t : nat) (s : nat) : preserves (armed h n c t) (onSync s).
Proof.
  intros w Hw. unfold onSync. destruct (sessions w !! s) as [o|]; [|done].
  apply preserves_bind; [| |done].
  - intros w' Hw'. destruct (send_effects (oTarget o) [VStr evPing] w') as (es & -> & Hes).
    by apply armed_emit_all.
  - intros _. apply preserves_bind; [by apply setTimeout_armed|].
    intros id. apply preserves_modify. intros w'.
    apply armed_frame; [done|apply no_more_set_iSync].
Qed.

Lemma synchronize_armed (c t : nat) (oTarget' : Target) (cb : nat) :
  FnUser cb ≠ h → preserves (armed h n c t) (synchronize oTarget' cb).
Proof.
  intros Hcb w Hw. unfold synchronize, new_Synchronization.
  apply preserves_bind; [| |done].
  { apply preserves_modify.
    intros w' (Hwf & (H1 & H2 & H3 & H4) & Hc & Ht).
    split; [done|]. split; [|done]. repeat split; try done.
    simpl. intros s o Hs. apply lookup_app_Some in Hs as [Hs|[_ Hs]]; [by eapply H3|].
    destruct (s - length (sessions w')); simpl in Hs; [|done]. by injection Hs as <-. }
  intros _. apply preserves_bind; [by apply registerOnce_armed|].
  intros _. apply preserves_bind; [apply onSync_armed|].
  intros _. apply preserves_ret.
Qed.

Lemma cancel_armed (c t : nat) (s : nat) (w : World) :
  armed h n c t w → armed h n c t (cancel s w).
Proof.
  intros Hw. unfold cancel. destruct (sessions w !! s) as [o|]; [|done].
  destruct (iSync o) as [id|]; [|done].
  refine (armed_frame h n c t _ _ _ (no_more_set_iSync s None _) _); [done|].
  apply unregister_armed.
  refine (armed_frame h n c t _ _ _ (no_more_clearTimeout (Some id) w) Hw). done.
Qed.

Lemma ready_no_more (b : option bool) (w : World) : no_more w (ready b w).
Proof.
  unfold ready. destruct (decide _); [apply no_more_refl|].
  destruct (decide _); [|by repeat split].
  repeat split; try done. simpl. rewrite calls_app. simpl. by rewrite app_nil_r.
Qed.

Lemma exec_armed (c t : nat) (cmd : Cmd) :
  ¬ mentions h cmd → preserves (armed h n c t) (exec cmd).
Proof.
  destruct cmd; simpl; intros Hm.
  - intros w. apply armed_frame; by repeat split.
  - intros w Hw. by destruct (has sMessage w).
  - by apply register_armed.
  - by apply registerOnce_armed.
  - apply preserves_bind; [intros w; apply unregister_armed|].
    intros _. apply preserves_ret.
  - intros w. apply armed_frame; by repeat split.
  - intros w. apply (armed_emit_all h n c t [_] w). done.
  - intros w Hw. destruct (send_effects oTarget0 arguments w) as (es & -> & Hes).
    by apply armed_emit_all.
  - intros w. apply armed_frame; [apply ready_same_registry|apply ready_no_more].
  - intros w. apply (armed_emit_all h n c t [_] w). done.
  - apply preserves_bind; [by apply synchronize_armed|]. intros _. apply preserves_ret.
  - intros w. apply cancel_armed.
  - by intros w Hw.
Qed.

Lemma armed_stable (c t : nat) :
  (∀ id args cmd, cmd ∈ body id args → ¬ mentions h cmd) →
  Stable (armed h n c t) (fun f => f ≠ h) (fun cmd => ¬ mentions h cmd)
         (fun k => k ≠ n).
Proof.
  intros Hcode. split.
  - intros cmd. apply exec_armed.
  - intros id args cmd _. apply Hcode.
  - intros e w. apply armed_emit.
  - intros w r a f (_ & (H1 & _) & _) Ha Hf ->. by apply (H1 r a).
  - intros w k a (Hwf & (H1 & H2 & H3 & H4) & Hc & Ht) Hk Ha. split.
    + split; [|split; [|split; [done|]]].
      * by apply (st_once _ _ _ _ well_formed_stable w k a).
      * repeat split; try done. simpl. intros m a' Hm Hne.
        apply lookup_delete_Some in Hm as [_ Hm]. by apply (H2 m).
      * unfold occurrences in *. simpl. by rewrite lookup_delete_ne.
    + intros f Hf ->. by apply (H2 k a).
  - intros w t' (_ & (_ & _ & _ & H4) & _) Ht'. by apply H4.
  - intros w x. apply armed_frame; [by destruct x|apply no_more_clearTimeout].
  - intros w s o (_ & (_ & _ & H3 & _) & _) _ Hs. by eapply H3.
  - intros s _. apply onSync_armed.
  - intros w t'. apply armed_frame; by repeat split.
Qed.


Lemma count_seq (x : option Function) (a pre : Array) :
  length (filter (fun k => (pre ++ a) !! k = Some x) (seq (length pre) (length a)))
  = length (filter (fun y => y = x) a).
Proof.
  revert pre. induction a as [|y a IH]; intros pre; [done|].
  simpl seq. rewrite !filter_cons.
  assert ((pre ++ y :: a) !! length pre = Some y) as Hy by (by rewrite list_lookup_middle).
  specialize (IH (pre ++ [y])).
  replace ((pre ++ [y]) ++ a) with (pre ++ y :: a) in IH by (by rewrite <- app_assoc).
  replace (length (pre ++ [y])) with (S (length pre)) in IH
    by (rewrite length_app; simpl; lia).
  rewrite Hy. destruct (decide (Some y = Some x)) as [[= ->]|Hne].
  - rewrite decide_True by done. simpl. by rewrite IH.
  - rewrite decide_False by congruence. done.
Qed.

Lemma count_keys (x : option Function) (a : Array) :
  length (filter (fun k => a !! k = Some x) (keys a))
  ≤ length (filter (fun y => y = x) a).
Proof.
  rewrite <- (count_seq x a []). simpl. unfold keys.
  rewrite list_filter_filter.
  induction (seq 0 (length a)) as [|k l IH]; [done|].
  rewrite !filter_cons. destruct (decide (_ ∧ _)) as [[Hk _]|Hn].
  - rewrite decide_True by done. simpl. lia.
  - destruct (decide _); simpl; lia.
Qed.

Lemma get_index_wrapped (a : Array) (k : nat) (f : Function) :
  (Z.of_nat k < 2 ^ 32)%Z → get_index a (to_int32 k) = Some f →
  a !! k = Some (Some f).
Proof.
  intros Hk. unfold to_int32. rewrite Z.mod_small by lia.
  destruct (Z.ltb_spec (Z.of_nat k) (2 ^ 31)).
  - rewrite get_index_of_nat. by destruct (a !! k) as [[g|]|]; simpl; intros [= ->].
  - unfold get_index. destruct (Z.ltb_spec (Z.of_nat k - 2 ^ 32) 0); [done|lia].
Qed.

Section Loop.
Hypothesis code : never_registers h.

Lemma call_armed_h (c : nat) (args : list value) (w : World) :
  armed h n c 0 w → armed h n (S c) 0 (snd (call h args w)).
Proof.
  intros (Hwf & Habs & Hc & Ht). unfold call. rewrite bind_run.
  change (armed h n (S c) 0 (snd (exec_all (body i args) (emit (Call h args) w)))).
  apply (preserves_exec_all _ _ _ _ (armed_stable (S c) 0 code)).
  - intros cmd. apply code.
  - split; [done|]. split; [done|]. split; [|done]. simpl.
    rewrite invocations_app, Hc. unfold invocations. simpl.
    rewrite filter_cons_True by done. simpl. lia.
Qed.

(** The loop over the once-handlers of [n], taken out of the registry. *)
Lemma for_in_once_armed (a : Array) (args : list value) :
  ∀ (ks : list nat) (c : nat) (w : World),
    (∀ k, k ∈ ks → (Z.of_nat k < 2 ^ 32)%Z) →
    armed h n c 0 w →
    ∃ c', armed h n c' 0 (snd (for_in (fun _ => a) ks args w)) ∧
          c' ≤ c + length (filter (fun k => a !! k = Some (Some h)) ks).
Proof.
  induction ks as [|k ks IH]; intros c w Hks Hw.
  { exists c. split; [done|]. simpl. lia. }
  assert (∀ k', k' ∈ ks → (Z.of_nat k' < 2 ^ 32)%Z) as Hks'
    by (intros k' Hk'; apply Hks; by right).
  simpl for_in. rewrite filter_cons.
  destruct (hasOwnProperty a k) eqn:Hown.
  - destruct (get_index a (to_int32 k)) as [f|] eqn:Hf.
    + apply get_index_wrapped in Hf; [|apply Hks; by left].
      rewrite bind_run. destruct (decide (f = h)) as [->|Hne].
      * pose proof (call_armed_h c args w Hw) as Hcall.
        destruct (call h args w) as [[[]|e] w1]; simpl in *.
        -- destruct (IH (S c) w1 Hks' Hcall) as (c' & Hc' & Hle).
           exists c'. split; [done|]. rewrite decide_True by done. simpl. lia.
        -- exists (S c). split; [done|]. rewrite decide_True by done. simpl. lia.
      * pose proof (preserves_call _ _ _ _ (armed_stable c 0 code) f args Hne w Hw)
          as Hcall.
        destruct (call f args w) as [[[]|e] w1]; simpl in *.
        -- destruct (IH c w1 Hks' Hcall) as (c' & Hc' & Hle).
           exists c'. split; [done|]. destruct (decide _); simpl; lia.
        -- exists c. split; [done|]. lia.
    + exists c. split; [done|]. lia.
  - destruct (IH c w Hks' Hw) as (c' & Hc' & Hle).
    exists c'. split; [done|]. destruct (decide _); simpl; lia.
Qed.

Lemma recv_once_guarded (args : list value) (c t : nat) (w : World) :
  armed h n c t w →
  guarded h n (c + t) (snd (recv_once n args w)).
Proof.
  intros Hw. unfold recv_once.
  destruct (oMessagesOnce (pool w) !! n) as [a|] eqn:Ha; [|by exists c, t].
  destruct Hw as (Hwf & (H1 & H2 & H3 & H4) & Hc & Ht).
  assert (armed h n c 0 (set_pool (set_oMessagesOnce (delete n)) w)) as Hw'.
  { split; [by apply (st_once _ _ _ _ well_formed_stable w n a)|].
    split; [|split; [done|]].
    - repeat split; try done. simpl. intros m a' Hm Hne.
      apply lookup_delete_Some in Hm as [_ Hm]. by apply (H2 m).
    - unfold occurrences. simpl. by rewrite lookup_delete_eq. }
  destruct (for_in_once_armed a args (keys a) c
              (set_pool (set_oMessagesOnce (delete n)) w)) as (c' & Hc' & Hle);
    [|exact Hw'|].
  { intros k Hk%keys_lt. destruct Hwf as [(_ & _ & Hlen) _]. specialize (Hlen n a Ha). lia. }
  exists c', 0. split; [done|].
  pose proof (count_keys (Some h) a). unfold occurrences in Ht. rewrite Ha in Ht. lia.
Qed.

Lemma recv_guarded (arguments : list value) (T : nat) (w : World) :
  guarded h n T w → guarded h n T (snd (recv arguments w)).
Proof.
  intros (c & t & Hw & HT).
  destruct (decide (recv_key arguments = n)) as [Hkey|Hkey].
  - unfold recv. rewrite Hkey, bind_run.
    pose proof (preserves_recv_log _ _ _ _ (armed_stable c t code)
                  (default VUndefined (arguments !! 0)) (tail arguments) w Hw) as H1.
    destruct (recv_log _ _ w) as [[[]|e] w1]; simpl in *; [|by exists c, t].
    rewrite bind_run.
    pose proof (preserves_recv_persistent _ _ _ _ (armed_stable c t code)
                  n (tail arguments) w1 H1) as H2.
    destruct (recv_persistent _ _ w1) as [[[]|e] w2]; simpl in *; [|by exists c, t].
    destruct (recv_once_guarded (tail arguments) c t w2 H2) as (c' & t' & Hw' & Hle).
    exists c', t'. split; [done|lia].
  - exists c, t. split; [|done].
    by apply (preserves_recv _ _ _ _ (armed_stable c t code)).
Qed.

Lemma step_guarded (st : Step) (T : nat) (w : World) :
  (∀ cmd, st = s_do cmd → ¬ mentions h cmd) →
  guarded h n T w → guarded h n T (step st w).
Proof.
  intros Hst Hg. destruct st as [cmd|event|]; simpl.
  - destruct Hg as (c & t & Hw & HT). exists c, t. split; [|done].
    apply (st_exec _ _ _ _ (armed_stable c t code)); [|done]. by apply Hst.
  - unfold onMessage. destruct (JSON_parse (data event)) as [aMessage|]; [|done].
    destruct (decide _).
    + unfold recv_apply. destruct (arguments_of aMessage); [|done].
      by apply recv_guarded.
    + destruct Hg as (c & t & Hw & HT). exists c, t. split; [|done].
      by apply (preserves_messageLog _ _ _ _ (armed_stable c t code)).
  - destruct Hg as (c & t & Hw & HT). exists c, t. split; [|done].
    by apply (preserves_tick _ _ _ _ (armed_stable c t code)).
Qed.

Lemma run_guarded (steps : list Step) (T : nat) (w : World) :
  (∀ cmd, s_do cmd ∈ steps → ¬ mentions h cmd) →
  guarded h n T w → guarded h n T (run steps w).
Proof.
  unfold run. revert w. induction steps as [|st steps IH]; intros w Hsteps Hg; [done|].
  simpl. apply IH.
  - intros cmd Hcmd. apply Hsteps. by right.
  - apply step_guarded; [|done]. intros cmd ->. apply Hsteps. by left.
Qed.

Lemma registerOnce_arms (w w1 : World) :
  well_formed w → elsewhere_absent h n w → occurrences h n w = 0 →
  registerOnce n h w = (Normal tt, w1) →
  armed h n (invocations h (trace w)) 1 w1.
Proof.
  intros Hwf (H1 & H2 & H3 & H4) Hocc Hreg.
  pose proof (registerOnce_well_formed n h w Hwf) as Hwf1. rewrite Hreg in Hwf1.
  split; [done|]. revert Hreg. unfold registerOnce, occurrences in *.
  destruct (oMessagesOnce (pool w) !! n) as [a|] eqn:Ha.
  - destruct (indexOf h a).
    + intros [= <-]. split; [done|]. split; [done|]. rewrite Ha. lia.
    + destruct (full a); [done|]. intros [= <-]. simpl.
      split; [|split; [done|]].
      * repeat split; try done. simpl. intros m a' Hm Hne.
        rewrite lookup_insert_ne in Hm by done. by apply (H2 m).
      * rewrite lookup_insert_eq. unfold push. rewrite filter_app, length_app.
        rewrite filter_cons_True by done. simpl. lia.
  - destruct (inherited n); [done|].
    intros [= <-]. simpl. split; [|split; [done|]].
    + repeat split; try done. simpl. intros m a' Hm Hne.
      rewrite lookup_insert_ne in Hm by done. by apply (H2 m).
    + rewrite lookup_insert_eq. rewrite filter_cons_True by done. simpl. lia.
Qed.

(** Applied at most once, and not at all if [n] is not dispatched. *)
Lemma once_handler_at_most_once (steps : list Step) (w w1 : World) :
  well_formed w → elsewhere_absent h n w → occurrences h n w = 0 →
  (∀ cmd, s_do cmd ∈ steps → ¬ mentions h cmd) →
  registerOnce n h w = (Normal tt, w1) →
  invocations h (trace (run steps w1)) ≤ invocations h (trace w) + 1 ∧
  ((∀ event, s_message event ∈ steps → message_name event ≠ Some n) →
   invocations h (trace (run steps w1)) = invocations h (trace w)).
Proof.
  intros Hwf Habs Hocc Hsteps Hreg.
  pose proof (registerOnce_arms w w1 Hwf Habs Hocc Hreg) as Harmed. split.
  - destruct (run_guarded steps (invocations h (trace w) + 1) w1 Hsteps)
      as (c & t & (_ & _ & Hc & _) & Hle).
    { eexists _, _. split; [exact Harmed|lia]. }
    lia.
  - intros Hnames.
    apply (preserves_run _ _ _ _ (armed_stable (invocations h (trace w)) 1 code)
             steps w1); [|done].
    intros st Hst. destruct st as [cmd|event|]; simpl; [by apply Hsteps| |done].
    intros k Hk ->. by apply (Hnames event).
Qed.

End Loop.

End AtMostOnceUser.

(** ** A once-handler registered during a dispatch waits for the next one *)

Section Deferral.
Context `{Host}.
Context (i : nat) (n : string) (h2 : Function).
Hypothesis registers : ∀ args, body i args = [c_registerOnce n h2].
Hypothesis plain : inherited n = None.

Lemma call_registering (args : list value) (w : World) :
  oMessagesOnce (pool w) !! n = None ∨
  oMessagesOnce (pool w) !! n = Some [Some h2] →
  ∃ w', call (FnUser i) args w = (Normal tt, w') ∧
    oMessages (pool w') = oMessages (pool w) ∧ arrays w' = arrays w ∧
    trace w' = trace w ++ [Call (FnUser i) args] ∧
    oMessagesOnce (pool w') !! n = Some [Some h2].
Proof.
  intros Hstate. unfold call. rewrite bind_run. simpl. rewrite registers. simpl.
  rewrite bind_run. unfold registerOnce. simpl.
  destruct Hstate as [Hs | Hs]; rewrite Hs, ?plain.
  - eexists. split; [reflexivity|]. simpl. rewrite lookup_insert_eq. by repeat split.
  - simpl. rewrite decide_True by done. eexists. split; [reflexivity|].
    by repeat split.
Qed.

Lemma for_in_deferring (a : Array) (args : list value) :
  (∀ f, f ∈ present a → f ≠ FnUser i → inert f) →
  ∀ (ks : list nat) (w : World),
    (∀ k, k ∈ ks → (Z.of_nat k < 2 ^ 31)%Z) →
    oMessagesOnce (pool w) !! n = None ∨
    oMessagesOnce (pool w) !! n = Some [Some h2] →
    ∃ w' es, for_in (fun _ => a) ks args w = (Normal tt, w') ∧
      oMessages (pool w') = oMessages (pool w) ∧ arrays w' = arrays w ∧
      trace w' = trace w ++ es ∧
      calls es = (fun f => (f, args)) <$> omap (fun k => mjoin (a !! k)) ks ∧
      oMessagesOnce (pool w') !! n =
        (if decide (FnUser i ∈ omap (fun k => mjoin (a !! k)) ks)
         then Some [Some h2] else oMessagesOnce (pool w) !! n).
Proof.
  intros Hinert. induction ks as [|k ks IH]; intros w Hks Hstate.
  { exists w, []. simpl. rewrite app_nil_r. by repeat split. }
  assert (∀ k', k' ∈ ks → (Z.of_nat k' < 2 ^ 31)%Z) as Hks'
    by (intros k' Hk'; apply Hks; by right).
  simpl for_in. rewrite to_int32_small, get_index_of_nat by (apply Hks; by left).
  unfold hasOwnProperty. simpl omap.
  destruct (a !! k) as [[f|]|] eqn:Hak; simpl; [|by apply IH|by apply IH].
  rewrite bind_run. destruct (decide (f = FnUser i)) as [->|Hne].
  - destruct (call_registering args w Hstate) as (w1 & -> & Hm1 & Ha1 & Ht1 & Ho1).
    destruct (IH w1 Hks' (or_intror Ho1)) as (w2 & es & -> & Hm2 & Ha2 & Ht2 & Hc2 & Ho2).
    exists w2, (Call (FnUser i) args :: es). repeat split; try congruence.
    + rewrite Ht2, Ht1. by rewrite <- app_assoc.
    + simpl. by rewrite Hc2.
    + rewrite decide_True by (by left). rewrite Ho2. by destruct (decide _).
  - assert (inert f) as Hf.
    { apply Hinert; [|done]. apply elem_of_present. by eapply list_elem_of_lookup_2. }
    destruct (call_inert f args w Hf) as (w1 & es1 & -> & Hm1 & Ho1 & Ha1 & Ht1 & Hc1).
    destruct (IH w1 Hks') as (w2 & es & -> & Hm2 & Ha2 & Ht2 & Hc2 & Ho2).
    { by rewrite Ho1. }
    exists w2, (es1 ++ es). repeat split; try congruence.
    + rewrite Ht2, Ht1. by rewrite <- app_assoc.
    + rewrite calls_app, Hc1, Hc2. done.
    + rewrite Ho2, Ho1. destruct (decide (FnUser i ∈ omap _ ks)) as [Hin|Hin].
      * rewrite decide_True; [done|]. by right.
      * rewrite decide_False; [done|]. intros [?|?]%elem_of_cons; [congruence|done].
Qed.

(** The handler registered by a once-handler during the dispatch of [n] is
    not applied by that dispatch; it is the once-handler of [n] afterwards and
    is applied by the next dispatch. *)
Lemma once_registration_is_deferred (a : Array) (args : list value) (w : World) :
  oMessagesOnce (pool w) !! n = Some a → FnUser i ∈ present a → short a →
  (∀ r, oMessages (pool w) !! n = Some r →
        short (array w r) ∧ ∀ f, f ∈ present (array w r) → inert f) →
  (∀ f, f ∈ present a → f ≠ FnUser i → inert f) →
  inert h2 → h2 ∉ persistent_handlers w n ++ present a →
  ∃ w' es, recv (VStr n :: args) w = (Normal tt, w') ∧
    trace w' = trace w ++ es ∧
    calls es = (fun f => (f, args)) <$> (persistent_handlers w n ++ present a) ∧
    invocations h2 es = 0 ∧
    oMessagesOnce (pool w') !! n = Some [Some h2] ∧
    ∃ w'' es', recv (VStr n :: args) w' = (Normal tt, w'') ∧
      trace w'' = trace w' ++ es' ∧
      calls es' = (fun f => (f, args)) <$> (persistent_handlers w n ++ [h2]) ∧
      invocations h2 es' = 1.
Proof.
  intros Ha Hi Hshort Hp Hinert Hh2 Hfresh.
  (* the first dispatch *)
  assert (∃ w' es, recv (VStr n :: args) w = (Normal tt, w') ∧
            oMessages (pool w') = oMessages (pool w) ∧ arrays w' = arrays w ∧
            trace w' = trace w ++ es ∧
            calls es = (fun f => (f, args)) <$> (persistent_handlers w n ++ present a) ∧
            oMessagesOnce (pool w') !! n = Some [Some h2])
    as (w' & es & Hrecv & Hm & Harr & Ht & Hc & Ho).
  { unfold recv. change (recv_key (VStr n :: args)) with n. simpl. rewrite bind_run.
    destruct (recv_log_spec (VStr n) args w) as (es0 & -> & Hc0).
    rewrite bind_run.
    destruct (recv_persistent_inert n args (emit_all es0 w))
      as (w1 & es1 & -> & Hm1 & Ho1 & Ha1 & Ht1 & Hc1); [exact Hp|].
    simpl in Hm1, Ho1, Ha1, Ht1.
    change (persistent_handlers (emit_all es0 w) n) with (persistent_handlers w n) in Hc1.
    unfold recv_once. rewrite Ho1, Ha.
    destruct (for_in_deferring a args Hinert (keys a)
                (set_pool (set_oMessagesOnce (delete n)) w1))
      as (w2 & es2 & -> & Hm2 & Ha2 & Ht2 & Hc2 & Ho2).
    { intros k Hk. by eapply keys_small. }
    { left. simpl. by rewrite lookup_delete_eq. }
    rewrite omap_keys in Hc2, Ho2. rewrite decide_True in Ho2 by done.
    exists w2, (es0 ++ es1 ++ es2). simpl in *. repeat split; try congruence.
    - rewrite Ht2, Ht1. by rewrite <- !app_assoc.
    - rewrite !calls_app, Hc0, Hc1, Hc2. simpl. by rewrite fmap_app. }
  assert (persistent_handlers w' n = persistent_handlers w n) as Hpers
    by (unfold persistent_handlers, array; by rewrite Hm, Harr).
  (* the second dispatch *)
  destruct (recv_inert n args w') as (w'' & es' & Hrecv' & _ & _ & _ & Ht' & Hc').
  { split.
    - intros r Hr. rewrite Hm in Hr. unfold array. rewrite Harr. by apply Hp.
    - intros a' Ha'. rewrite Ho in Ha'. injection Ha' as <-. split.
      + unfold short. simpl. lia.
      + intros f ->%list_elem_of_singleton. done. }
  unfold once_handlers in Hc'. rewrite Ho, Hpers in Hc'.
  apply not_elem_of_app in Hfresh as [Hfp Hfa].
  exists w', es. repeat split; try done.
  { rewrite (invocations_dispatch _ _ _ _ _ Hc), !count_absent; done. }
  exists w'', es'. repeat split; try done.
  rewrite (invocations_dispatch _ _ _ _ _ Hc'), count_absent by done.
  change (present [Some h2]) with [h2].
  rewrite (count_NoDup h2 [h2]); [done|apply NoDup_singleton|by left].
Qed.

End Deferral.

Section OnceClaim.
Context `{Host}.

(** C3.  A function registered with [registerOnce(n, h)], and not registered
    by any call of the application again, is applied at most once in all,
    whatever is dispatched, posted or timed out afterwards, and not at all
    when no message named [n] arrives.  [recv] takes the once-handlers of [n]
    out of the registry before it applies the first of them: a handler that
    one of them registers once for [n] is not applied by that dispatch, is
    the only once-handler of [n] after it, and is applied by the next
    dispatch of [n].  Both hold in every world the methods can produce. *)
Theorem once_handler_runs_once (i : nat) (n : string) (w : World) :
  (∀ steps w1,
     well_formed w → elsewhere_absent (FnUser i) n w →
     occurrences (FnUser i) n w = 0 →
     never_registers (FnUser i) →
     (∀ cmd, s_do cmd ∈ steps → ¬ mentions (FnUser i) cmd) →
     registerOnce n (FnUser i) w = (Normal tt, w1) →
     invocations (FnUser i) (trace (run steps w1))
       ≤ invocations (FnUser i) (trace w) + 1 ∧
     ((∀ event, s_message event ∈ steps → message_name event ≠ Some n) →
      invocations (FnUser i) (trace (run steps w1))
        = invocations (FnUser i) (trace w))) ∧
  (∀ h2 a args,
     well_formed w →
     (∀ args', body i args' = [c_registerOnce n h2]) →
     oMessagesOnce (pool w) !! n = Some a → FnUser i ∈ present a → short a →
     (∀ r, oMessages (pool w) !! n = Some r →
           short (array w r) ∧ ∀ f, f ∈ present (array w r) → inert f) →
     (∀ f, f ∈ present a → f ≠ FnUser i → inert f) →
     inert h2 → h2 ∉ persistent_handlers w n ++ present a →
     ∃ w' es, recv (VStr n :: args) w = (Normal tt, w') ∧
       trace w' = trace w ++ es ∧
       calls es = (fun f => (f, args)) <$> (persistent_handlers w n ++ present a) ∧
       invocations h2 es = 0 ∧
       oMessagesOnce (pool w') !! n = Some [Some h2] ∧
       ∃ w'' es', recv (VStr n :: args) w' = (Normal tt, w'') ∧
         trace w'' = trace w' ++ es' ∧
         calls es' = (fun f => (f, args)) <$> (persistent_handlers w n ++ [h2]) ∧
         invocations h2 es' = 1).
Proof.
  split.
  - intros steps w1 Hwf Habs Hocc Hcode Hsteps Hreg.
    by apply once_handler_at_most_once.
  - intros h2 a args Hwf Hbody Ha Hin Hshort Hp Hinert Hh2 Hfresh.
    by apply (once_registration_is_deferred i n h2 Hbody
                (proj2 (proj2 Hwf) n a Ha) a args w).
Qed.

End OnceClaim.

(** ** Once-handlers at work *)

Lemma absent_concat (x : option Function) (l : list Array) :
  x ∉ mjoin l → ∀ r a, l !! r = Some a → x ∉ a.
Proof.
  intros Hx r a Ha Hin. apply Hx. apply list_elem_of_join.
  exists a. split; [done|]. by eapply list_elem_of_lookup_2.
Qed.

Lemma busy_never_registers : never_registers (H := busy_host) (FnUser 0).
Proof.
  intros id args cmd Hin. destruct id as [|[|id]]; simpl in Hin.
  - by apply elem_of_nil in Hin.
  - apply list_elem_of_In in Hin. simpl in Hin.
    destruct Hin as [<-|[<-|[<-|[<-|[]]]]]; simpl; congruence.
  - by apply elem_of_nil in Hin.
Qed.

Lemma busy_pool_absent : elsewhere_absent (FnUser 0) "greet" busy_pool.
Proof.
  split; [|split; [|split]].
  - apply absent_concat. intros Hin%list_elem_of_In. vm_compute in Hin.
    intuition discriminate.
  - intros m a Hm. vm_compute in Hm. discriminate.
  - intros s o Hs. vm_compute in Hs. by destruct s.
  - intros t Ht. by apply elem_of_nil in Ht.
Qed.

Lemma relay_inert (id : nat) : id ≠ 0 → inert (H := relay_host) (FnUser id).
Proof.
  intros Hid. apply (passive_inert (H := relay_host)). intros args.
  by destruct id.
Qed.

(** Callable 0 is registered once for ["greet"] on the busy pool, and two
    greetings, a tick and a post follow.  Callable 0 of the relay registers
    callable 5, which waits for the second greeting. *)
Lemma once_handler_runs_once_witness :
  invocations (FnUser 0)
    (trace (run (H := busy_host)
              [s_message greet_event; s_message greet_event; s_tick;
               s_do (c_post [VStr "greet"])]
              (snd (registerOnce "greet" (FnUser 0) busy_pool))))
    ≤ invocations (FnUser 0) (trace busy_pool) + 1 ∧
  ∃ w' es, recv (H := relay_host) [VStr "greet"; VStr "world"] relay_pool
             = (Normal tt, w') ∧
    calls es = [(FnUser 0, [VStr "world"])] ∧
    invocations (FnUser 5) es = 0 ∧
    oMessagesOnce (pool w') !! "greet" = Some [Some (FnUser 5)] ∧
    ∃ w'' es', recv (H := relay_host) [VStr "greet"; VStr "world"] w'
                 = (Normal tt, w'') ∧
      invocations (FnUser 5) es' = 1.
Proof.
  split.
  - destruct (once_handler_runs_once (H := busy_host) 0 "greet" busy_pool)
      as [Honce _].
    apply (Honce _ (snd (registerOnce "greet" (FnUser 0) busy_pool))).
    + apply (reachable_well_formed (H := busy_host)).
    + apply busy_pool_absent.
    + reflexivity.
    + apply busy_never_registers.
    + intros cmd Hin. apply list_elem_of_In in Hin. simpl in Hin.
      destruct Hin as [?|[?|[?|[[= <-]|[]]]]]; try discriminate. simpl. tauto.
    + reflexivity.
  - destruct (once_handler_runs_once (H := relay_host) 0 "greet" relay_pool)
      as [_ Hdefer].
    destruct (Hdefer (FnUser 5) [Some (FnUser 0)] [VStr "world"])
      as (w' & es & Hrecv & _ & Hc & H0 & Ho & w'' & es' & Hrecv' & _ & _ & H1).
    + apply registerOnce_well_formed, new_cMessagePool_well_formed.
    + reflexivity.
    + reflexivity.
    + by left.
    + by vm_compute.
    + intros r Hr. vm_compute in Hr. discriminate.
    + intros f Hf Hne. apply list_elem_of_singleton in Hf. congruence.
    + by apply relay_inert.
    + change (FnUser 5 ∉ [FnUser 0]). rewrite list_elem_of_singleton. discriminate.
    + exists w', es. split; [exact Hrecv|]. split; [exact Hc|]. split; [exact H0|].
      split; [exact Ho|]. by exists w'', es'.
Defined.

(** ** A session that is never answered *)

Section Session.
Context `{Host}.
Context (oTarget' : Target) (fnCallback' : nat) (win : Window).
Hypothesis resolved : resolve oTarget' = Some win.

Lemma run_app (l1 l2 : list Step) (w : World) :
  run (l1 ++ l2) w = run l2 (run l1 w).
Proof. unfold run. by rewrite foldl_app. Qed.

Lemma synchronize_run (w : World) :
  oMessagesOnce (pool w) !! evPong = None → sessions w = [] →
  synchronize oTarget' fnCallback' w =
    (Normal 0,
     set_iSync 0 (Some (iTimer w))
       (set_iTimer (S (iTimer w))
          (set_timers (fun ts => ts ++ [{| timer_id := iTimer w;
                                           timer_due := now w + 1000;
                                           timer_fn := FnSync 0 |}])
             (emit (PostMessage win (JSON_stringify [VStr evPing]))
                (set_pool (set_oMessagesOnce <[evPong := [Some (FnPong 0)]]>)
                   (set_sessions (fun l => l ++
                      [{| oTarget := oTarget'; fnCallback := fnCallback';
                          iSync := None |}]) w)))))).
Proof.
  intros Ho Hs. unfold synchronize, new_Synchronization.
  rewrite bind_run. unfold modify at 1. cbv beta iota.
  rewrite bind_run. unfold registerOnce. cbn [pool set_sessions].
  rewrite Ho, inherited_evPong.
  rewrite bind_run. unfold onSync. rewrite Hs.
  cbn [sessions set_sessions set_pool length app lookup list_lookup].
  rewrite Hs. cbn [app lookup list_lookup oTarget].
  rewrite !bind_run. unfold send. rewrite resolved.
  unfold postMessage, modify, setTimeout. cbn -[Nat.add]. done.
Qed.

Lemma synchronize_starts (w : World) :
  oMessagesOnce (pool w) !! evPong = None → sessions w = [] → timers w = [] →
  pool (snd (synchronize oTarget' fnCallback' w))
    = set_oMessagesOnce <[evPong := [Some (FnPong 0)]]> (pool w) ∧
  arrays (snd (synchronize oTarget' fnCallback' w)) = arrays w ∧
  sessions (snd (synchronize oTarget' fnCallback' w))
    = [{| oTarget := oTarget'; fnCallback := fnCallback'; iSync := Some (iTimer w) |}] ∧
  timers (snd (synchronize oTarget' fnCallback' w))
    = [{| timer_id := iTimer w; timer_due := now w + 1000; timer_fn := FnSync 0 |}] ∧
  iTimer (snd (synchronize oTarget' fnCallback' w)) = S (iTimer w) ∧
  now (snd (synchronize oTarget' fnCallback' w)) = now w ∧
  trace (snd (synchronize oTarget' fnCallback' w))
    = trace w ++ [PostMessage win (JSON_stringify [VStr evPing])].
Proof.
  intros Ho Hs Ht. rewrite (synchronize_run w Ho Hs). cbn -[Nat.add].
  rewrite Hs, Ht. by repeat split.
Qed.

Lemma synchronize_syncing :
  syncing oTarget' fnCallback' win 0 1000
    (snd (synchronize oTarget' fnCallback' new_cMessagePool)).
Proof.
  destruct (synchronize_starts new_cMessagePool)
    as (Hp & Ha & Hs & Ht & Hi & Hn & Htr); try reflexivity.
  unfold syncing. rewrite Ha, Hs, Ht, Hi, Hn, Htr.
  repeat split; try done; lia.
Qed.

Lemma tick_waiting (w : World) (t : Timer) :
  timers w = [t] → S (now w) < timer_due t → tick w = set_now (S (now w)) w.
Proof.
  intros Ht Hdue. unfold tick. cbn [timers set_now now]. rewrite Ht.
  rewrite filter_cons_False by lia. done.
Qed.

Lemma tick_due (w : World) (t : Timer) :
  timers w = [t] → timer_due t ≤ S (now w) →
  tick w = fire t (set_now (S (now w)) w).
Proof.
  intros Ht Hdue. unfold tick. cbn [timers set_now now]. rewrite Ht.
  rewrite filter_cons_True by lia. done.
Qed.

(** The timeout of the session fires: a ping, and the next timeout. *)
Lemma fire_onSync (w : World) (id due : nat) (o : Synchronization) :
  timers w = [{| timer_id := id; timer_due := due; timer_fn := FnSync 0 |}] →
  sessions w = [o] → oTarget o = oTarget' →
  fire {| timer_id := id; timer_due := due; timer_fn := FnSync 0 |} w =
    set_iSync 0 (Some (iTimer w))
      (set_iTimer (S (iTimer w))
         (set_timers (fun ts => ts ++ [{| timer_id := iTimer w;
                                          timer_due := now w + 1000;
                                          timer_fn := FnSync 0 |}])
            (emit (PostMessage win (JSON_stringify [VStr evPing]))
               (emit (Call (FnSync 0) []) (clearTimeout (Some id) w))))).
Proof.
  intros Ht Hs Ho. unfold fire. rewrite Ht. cbn [fmap list_fmap timer_id timer_fn].
  rewrite decide_True by (by apply list_elem_of_singleton).
  unfold call. rewrite bind_run. unfold modify. cbv beta iota.
  cbn [apply_fn]. unfold onSync.
  cbn [sessions emit clearTimeout set_timers]. rewrite Hs.
  cbn [lookup list_lookup]. rewrite !bind_run. unfold send. rewrite Ho, resolved.
  unfold postMessage, modify, setTimeout. cbn -[Nat.add]. done.
Qed.

Lemma tick_syncing_wait (k d : nat) (w : World) :
  syncing oTarget' fnCallback' win k (S (S d)) w →
  syncing oTarget' fnCallback' win k (S d) (tick w).
Proof.
  intros (Hp & Ha & Hs & Ht & Hi & Htr & Hd).
  rewrite (tick_waiting w _ Ht) by (simpl; lia).
  unfold syncing. cbn [pool arrays sessions timers iTimer trace now set_now].
  rewrite Ht. repeat split; try done; try lia. do 2 f_equal. lia.
Qed.

Lemma join_replicate_end {A : Type} (x : list A) (k : nat) :
  mjoin (replicate k x) ++ x = x ++ mjoin (replicate k x).
Proof.
  induction k as [|k IH]; simpl; [by rewrite app_nil_r|].
  by rewrite <- app_assoc, IH.
Qed.

Lemma tick_syncing_fire (k : nat) (w : World) :
  syncing oTarget' fnCallback' win k 1 w →
  syncing oTarget' fnCallback' win (S k) 1000 (tick w).
Proof.
  intros (Hp & Ha & Hs & Ht & Hi & Htr & Hd).
  rewrite (tick_due w _ Ht) by (simpl; lia).
  rewrite (fire_onSync _ (S k) (now w + 1) _) by done.
  unfold syncing. cbn -[Nat.add]. rewrite Hs, Ht, Hi, Htr.
  rewrite filter_cons_False by (intros Hn; by apply Hn).
  repeat split; try done; try lia.
  rewrite <- app_assoc. simpl. f_equal.
  apply (join_replicate_end [Call (FnSync 0) [];
                             PostMessage win (JSON_stringify [VStr evPing])] k).
Qed.

Lemma ticks_syncing (k d j : nat) (w : World) :
  j < d → syncing oTarget' fnCallback' win k d w →
  syncing oTarget' fnCallback' win k (d - j) (run (replicate j s_tick) w).
Proof.
  revert d w. induction j as [|j IH]; intros d w Hj Hw.
  - by rewrite Nat.sub_0_r.
  - destruct d as [|[|d]]; [lia|lia|].
    change (replicate (S j) s_tick) with ([s_tick] ++ replicate j s_tick).
    rewrite run_app. replace (S (S d) - S j) with (S d - j) by lia.
    apply IH; [lia|]. by apply tick_syncing_wait.
Qed.

Lemma interval_syncing (k : nat) (w : World) :
  syncing oTarget' fnCallback' win k 1000 w →
  syncing oTarget' fnCallback' win (S k) 1000 (run (replicate 1000 s_tick) w).
Proof.
  intros Hw. replace 1000 with (999 + 1) at 2 by lia.
  rewrite replicate_add, run_app.
  apply (tick_syncing_fire k). replace 1 with (1000 - 999) at 1 by lia.
  apply ticks_syncing; [lia|done].
Qed.

Lemma intervals_syncing (k : nat) (w : World) :
  syncing oTarget' fnCallback' win 0 1000 w →
  syncing oTarget' fnCallback' win k 1000 (run (replicate (1000 * k) s_tick) w).
Proof.
  intros Hw. induction k as [|k IH]; [done|].
  replace (1000 * S k) with (1000 * k + 1000) by lia.
  rewrite replicate_add, run_app. by apply interval_syncing.
Qed.

Lemma waited_syncing (k j : nat) :
  j < 1000 →
  syncing oTarget' fnCallback' win k (1000 - j)
    (waited oTarget' fnCallback' (1000 * k + j)).
Proof.
  intros Hj. unfold waited. rewrite replicate_add, run_app.
  apply ticks_syncing; [done|]. apply intervals_syncing, synchronize_syncing.
Qed.

Lemma posts_post (o : Window) (m : string) (es : list Effect) :
  posts (PostMessage o m :: es) = (o, m) :: posts es.
Proof. reflexivity. Qed.

Lemma posts_pings (o : Window) (m : string) (k : nat) :
  posts (mjoin (replicate k [Call (FnSync 0) []; PostMessage o m]))
  = replicate k (o, m).
Proof.
  induction k as [|k IH]; [done|]. simpl. by rewrite <- IH.
Qed.

Lemma invocations_pings (f : Function) (o : Window) (m : string) (k : nat) :
  invocations f (mjoin (replicate k [Call (FnSync 0) []; PostMessage o m]))
  = if decide (f = FnSync 0) then k else 0.
Proof.
  induction k as [|k IH]; [by destruct (decide _)|].
  change (replicate (S k) ?x) with ([x] ++ replicate k x).
  rewrite join_app, invocations_app, IH. unfold invocations. simpl.
  destruct (decide (f = FnSync 0)) as [->|Hne].
  - by rewrite filter_cons_True.
  - rewrite filter_cons_False; [done|]. simpl. congruence.
Qed.

Lemma invocations_post (f : Function) (o : Window) (m : string) (es : list Effect) :
  invocations f (PostMessage o m :: es) = invocations f es.
Proof. reflexivity. Qed.

Lemma tick_idle (w : World) : timers w = [] → tick w = set_now (S (now w)) w.
Proof. intros Ht. unfold tick. cbn [timers set_now]. by rewrite Ht. Qed.

Lemma ticks_idle (t : nat) (w : World) :
  timers w = [] → trace (run (replicate t s_tick) w) = trace w.
Proof.
  revert w. induction t as [|t IH]; intros w Ht; [done|].
  change (replicate (S t) s_tick) with ([s_tick] ++ replicate t s_tick).
  rewrite run_app. change (run [s_tick] w) with (tick w).
  rewrite (tick_idle w Ht). by rewrite IH.
Qed.

Lemma idle_frame (f g : Function) (c k : nat) (w w' : World) :
  arrays w' = arrays w → oMessagesOnce (pool w') = oMessagesOnce (pool w) →
  timers w' = timers w → calls (trace w') = calls (trace w) →
  idle f g c k w → idle f g c k w'.
Proof.
  intros Ha Ho Ht Hc (H1 & H2 & H3 & H4 & H5). unfold idle.
  rewrite Ha, Ho, Ht, (invocations_calls f _ _ Hc), (invocations_calls g _ _ Hc).
  done.
Qed.

Lemma idle_emit_all (f g : Function) (c k : nat) (es : list Effect) (w : World) :
  calls es = [] → idle f g c k w → idle f g c k (emit_all es w).
Proof.
  intros Hes. apply idle_frame; try done.
  simpl. by rewrite calls_app, Hes, app_nil_r.
Qed.

Lemma exec_idle (f g : Function) (c k : nat) (cmd : Cmd) :
  passive cmd = true → preserves (idle f g c k) (exec cmd).
Proof.
  destruct cmd; try discriminate; intros _ w; simpl.
  - by apply idle_frame.
  - by apply idle_frame.
  - by apply (idle_emit_all f g c k [_] w).
  - destruct (send_effects oTarget0 arguments w) as (es & -> & Hes).
    by apply idle_emit_all.
  - unfold ready. destruct (decide _); [done|]. destruct (decide _).
    + by apply (idle_emit_all f g c k [_] (set_pool (set_bReady bReady0) w)).
    + by apply idle_frame.
  - by apply (idle_emit_all f g c k [_] w).
Qed.

Lemma idle_stable (f g : Function) (c k : nat) :
  f ≠ FnPing → g ≠ FnPing →
  Stable (idle f g c k) (fun x => x = FnPing) (fun cmd => passive cmd = true)
         (fun _ => True).
Proof.
  intros Hf Hg. split.
  - intros cmd. apply exec_idle.
  - intros id args cmd Hid. discriminate Hid.
  - intros e w He (Ht & Ha & Ho & Hcf & Hcg).
    assert (∀ x, x ≠ FnPing → invocations x (trace (emit e w)) = invocations x (trace w)) as Hinv.
    { intros x Hx. cbn [trace emit]. rewrite invocations_app.
      destruct e as [|y args| |]; try (unfold invocations; simpl; lia).
      unfold invocations at 2. simpl.
      rewrite filter_cons_False; [simpl; lia|].
      simpl. rewrite (He y args eq_refl). congruence. }
    split; [done|]. split; [done|]. split; [done|].
    by rewrite !Hinv.
  - intros w r a x (_ & Ha & _) Hr Hx. by eapply Ha.
  - intros w m a (Ht & Ha & Ho & Hc) _ Hm. split.
    + split; [done|]. split; [done|]. split; [|done].
      simpl. intros m' a' x Hm'.
      apply lookup_delete_Some in Hm' as [_ Hm']. by eapply Ho.
    + intros x Hx. exfalso. by eapply Ho.
  - intros w t (Ht & _) Hin. rewrite Ht in Hin. by apply elem_of_nil in Hin.
  - intros w i (Ht & Ha & Ho & Hc).
    destruct i as [id|]; [|done]. split; [|done]. simpl. by rewrite Ht.
  - intros w s o _ Hs. discriminate Hs.
  - intros s Hs. discriminate Hs.
  - by intros w t (Ht & Ha & Ho & Hc).
Qed.

Lemma cancel_idle (k d : nat) (w : World) :
  syncing oTarget' fnCallback' win k d w →
  idle (FnUser fnCallback') (FnSync 0) 0 k (cancel 0 w) ∧
  trace (cancel 0 w) = trace w.
Proof.
  intros (Hp & Ha & Hs & Ht & Hi & Htr & Hd).
  destruct (synchronize_starts new_cMessagePool) as (Hp1 & _); try reflexivity.
  rewrite Hp1 in Hp.
  unfold cancel. rewrite Hs. cbn [lookup list_lookup iSync].
  rewrite (unregister_once_only evPong (FnPong 0) _ [Some (FnPong 0)] 0);
    [|reflexivity
     |cbn [pool clearTimeout set_timers]; by rewrite Hp
     |cbn [pool clearTimeout set_timers]; rewrite Hp; apply lookup_insert_eq
     |reflexivity].
  cbn [snd].
  split; [|done]. split; [|split; [|split; [|split]]].
  - cbn. rewrite Ht. rewrite filter_cons_False; [done|]. intros Hn. by apply Hn.
  - cbn. rewrite Ha. intros r a x Hr Hx. destruct r as [|r]; [|done].
    injection Hr as <-. apply list_elem_of_singleton in Hx. by injection Hx.
  - cbn. rewrite Hp. cbn. rewrite insert_insert_eq. intros m a x Hm Hx.
    apply lookup_insert_Some in Hm as [[_ <-]|[_ Hm]].
    + apply list_elem_of_singleton in Hx. discriminate.
    + change (oMessagesOnce (pool new_cMessagePool)) with (∅ : gmap string Array) in Hm.
      by rewrite lookup_empty in Hm.
  - change (invocations (FnUser fnCallback') (trace w) = 0).
    rewrite Htr, invocations_post, invocations_pings. by rewrite decide_False.
  - change (invocations (FnSync 0) (trace w) = k).
    rewrite Htr, invocations_post, invocations_pings. by rewrite decide_True.
Qed.

(** C7, as the code has it.  A session on a target that resolves to a window
    and never answers pings at once and then after every interval of 1000
    ms: [k] intervals and [j < 1000] further milliseconds after its creation
    it has sent exactly [k + 1] pings, and its callback has not been applied.
    [cancel()] then leaves no timeout pending: as time passes nothing at all
    happens, and whatever messages arrive later and whatever the application
    does short of registering handlers (it may call [ready], [post], [send],
    [log], [init] and [excludeLog]), the callback is never applied and the
    session's timeout function, the one that pings, never runs again. *)
Theorem retry_pings_until_cancelled (k j : nat) :
  j < 1000 →
  posts (trace (waited oTarget' fnCallback' (1000 * k + j)))
    = replicate (S k) (win, JSON_stringify [VStr evPing]) ∧
  invocations (FnUser fnCallback') (trace (waited oTarget' fnCallback' (1000 * k + j))) = 0 ∧
  timers (cancel 0 (waited oTarget' fnCallback' (1000 * k + j))) = [] ∧
  (∀ t, trace (run (replicate t s_tick)
                 (cancel 0 (waited oTarget' fnCallback' (1000 * k + j))))
        = trace (waited oTarget' fnCallback' (1000 * k + j))) ∧
  (∀ steps, (∀ cmd, s_do cmd ∈ steps → passive cmd = true) →
     invocations (FnUser fnCallback')
       (trace (run steps (cancel 0 (waited oTarget' fnCallback' (1000 * k + j))))) = 0 ∧
     invocations (FnSync 0)
       (trace (run steps (cancel 0 (waited oTarget' fnCallback' (1000 * k + j))))) = k).
Proof.
  intros Hj. pose proof (waited_syncing k j Hj) as Hw.
  destruct (cancel_idle k (1000 - j) _ Hw) as [Hidle Htrace].
  destruct Hw as (Hp & Ha & Hs & Ht & Hi & Htr & Hd).
  split; [|split; [|split; [|split]]].
  - by rewrite Htr, posts_post, posts_pings.
  - rewrite Htr, invocations_post, invocations_pings. by rewrite decide_False.
  - by destruct Hidle.
  - intros t. rewrite ticks_idle; [done|]. by destruct Hidle.
  - intros steps Hsteps.
    assert (idle (FnUser fnCallback') (FnSync 0) 0 k
              (run steps (cancel 0 (waited oTarget' fnCallback' (1000 * k + j)))))
      as (_ & _ & _ & Hc & Hk); [|done].
    refine (preserves_run _ _ _ _
              (idle_stable (FnUser fnCallback') (FnSync 0) 0 k _ _)
              steps _ _ Hidle); [done|done|].
    intros st Hst. destruct st as [cmd| |]; simpl; [|done|done].
    by apply Hsteps.
Qed.

End Session.

(** A session of window 0 on its parent, window 1, which never answers:
    three intervals after its creation. *)
Lemma retry_pings_until_cancelled_witness :
  posts (trace (waited (H := plain_host) TNull 7 (1000 * 3 + 0)))
    = replicate 4 (1, wire_ping) ∧
  invocations (FnUser 7) (trace (waited (H := plain_host) TNull 7 (1000 * 3 + 0))) = 0 ∧
  timers (cancel 0 (waited (H := plain_host) TNull 7 (1000 * 3 + 0))) = [] ∧
  ∀ steps, (∀ cmd, s_do cmd ∈ steps → passive cmd = true) →
    invocations (FnUser 7)
      (trace (run (H := plain_host) steps
                (cancel 0 (waited (H := plain_host) TNull 7 (1000 * 3 + 0))))) = 0.
Proof.
  destruct (retry_pings_until_cancelled (H := plain_host) TNull 7 1 eq_refl 3 0
              ltac:(lia)) as (Hposts & Hcb & Htimers & _ & Hlater).
  split; [exact Hposts|]. split; [exact Hcb|]. split; [exact Htimers|].
  intros steps Hsteps. by destruct (Hlater steps Hsteps).
Defined.

(** Against C7 as stated: the session pings when it is created, three times
    in all before the third interval has elapsed, and once more when it has. *)
Lemma fourth_ping_after_three_intervals :
  posts (trace (waited (H := plain_host) TNull 7 2999)) = replicate 3 (1, wire_ping) ∧
  posts (trace (waited (H := plain_host) TNull 7 3000)) = replicate 4 (1, wire_ping) ∧
  length (posts (trace (waited (H := plain_host) TNull 7 3000))) ≠ 3.
Proof.
  assert (posts (trace (waited (H := plain_host) TNull 7 3000))
          = replicate 4 (1, wire_ping)) as Hposts by (by vm_compute).
  split; [by vm_compute|]. split; [exact Hposts|]. by rewrite Hposts.
Qed.

(** ** The ping handler *)

Section PingHandler.
Context `{Host} `{MessagePool.App}.

Lemma recv_log_quiet (sMessage : value) (aMessage : list value) (w : World) :
  ∃ es, recv_log sMessage aMessage w = (Normal tt, emit_all es w) ∧
    calls es = [] ∧ posts es = [].
Proof.
  unfold recv_log. destruct (excluded _ _).
  - exists []. by rewrite emit_all_nil.
  - by eexists [_].
Qed.

Lemma ping_is_dispatched (event : MessageEvent) (st : MessagePool.State) :
  JSON_parse (data event) = Some (VArr [VStr evPing]) →
  bReady (pool (MessagePool.base st)) = Some true →
  ∃ es, calls es = [] ∧ posts es = [] ∧
    MessagePool.onMessage event st
    = (MessagePool.call_persistent evPing [];; MessagePool.call_once evPing [])
        (MessagePool.set_base (emit_all es) st).
Proof.
  intros Hparse Hready. unfold MessagePool.onMessage.
  rewrite Hparse, decide_True by done. cbn [arguments_of].
  unfold MessagePool.callMessage.
  change (default VUndefined ([VStr evPing] !! 0)) with (VStr evPing).
  change (recv_key [VStr evPing]) with evPing.
  change (tail [VStr evPing]) with (@nil value).
  unfold mbind at 1, MessagePool.MO_bind at 1. unfold MessagePool.lift at 1.
  destruct (recv_log_quiet (VStr evPing) [] (MessagePool.base st))
    as (es & -> & Hc & Hp).
  exists es. split; [done|]. split; [done|].
  by destruct st as [[] ? ?].
Qed.

Lemma fnPingPong_registry (s : nat) (st : MessagePool.State) :
  same_registry (MessagePool.base st)
    (MessagePool.base (snd (MessagePool.fnPingPong s st))).
Proof.
  unfold MessagePool.fnPingPong, MessagePool.send.
  unfold mbind at 1, MessagePool.MO_bind at 1.
  destruct (MessagePool.oTarget st) as [win|].
  - by vm_compute.
  - unfold MessagePool.messageLog, MessagePool.lift at 1.
    destruct (messageLog_effects (VArr [VStr evPing]) "DROP " (MessagePool.base st))
      as (c & es & -> & Hes).
    destruct Hes as [-> | (x & rest & _ & -> & _)]; [|by vm_compute].
    rewrite emit_all_nil. destruct c; by vm_compute.
Qed.

(** C8, as the code has it.  The pool of this module registers [evPing] as
    the persistent handler of ["evPing"] in its constructor.  An instance of
    the earlier class has no handler when it is constructed, so that a ping
    it receives is dispatched to nobody and nothing is posted; its
    [synchronize] registers the handler.  In both classes, when a ready pool
    whose only handler for ["evPing"] is that one receives a ping, the
    handler is applied once and one ["evPong"] message is posted, to the
    pool's own window [platform], whoever sent the ping.  The pool of this
    module posts through [postMessage], here in its first branch; the earlier
    class calls [platform.postMessage] itself. *)
Theorem ping_is_answered_to_own_window (event : MessageEvent) :
  JSON_parse (data event) = Some (VArr [VStr evPing]) →
  (persistent_handlers new_cMessagePool evPing = [FnPing] ∧
   ∀ w r,
     bReady (pool w) = Some true →
     oMessages (pool w) !! evPing = Some r → array w r = [Some FnPing] →
     oMessagesOnce (pool w) !! evPing = None →
     ∃ w' es, onMessage event w = (Normal tt, w') ∧
       trace w' = trace w ++ es ∧
       calls es = [(FnPing, [])] ∧
       posts es = [(platform, JSON_stringify [VStr evPong])]) ∧
  ((∀ sName' fnLog',
      oMessages (pool (MessagePool.base (MessagePool.constructor sName' fnLog'))) = ∅ ∧
      oMessagesOnce (pool (MessagePool.base (MessagePool.constructor sName' fnLog')))
        = ∅) ∧
   (∀ st,
      bReady (pool (MessagePool.base st)) = Some true →
      oMessages (pool (MessagePool.base st)) !! evPing = None →
      oMessagesOnce (pool (MessagePool.base st)) !! evPing = None →
      ∃ es, MessagePool.onMessage event st
            = (Normal tt, MessagePool.set_base (emit_all es) st) ∧
        calls es = [] ∧ posts es = []) ∧
   (∀ st fnCallback' st',
      well_formed (MessagePool.base st) →
      MessagePool.synchronize fnCallback' st = (Normal tt, st') →
      FnPing ∈ persistent_handlers (MessagePool.base st') evPing) ∧
   (∀ st r,
      bReady (pool (MessagePool.base st)) = Some true →
      oMessages (pool (MessagePool.base st)) !! evPing = Some r →
      array (MessagePool.base st) r = [Some FnPing] →
      oMessagesOnce (pool (MessagePool.base st)) !! evPing = None →
      ∃ st' es, MessagePool.onMessage event st = (Normal tt, st') ∧
        trace (MessagePool.base st') = trace (MessagePool.base st) ++ es ∧
        calls es = [(FnPing, [])] ∧
        posts es = [(platform, JSON_stringify [VStr evPong])])).
Proof.
  intros Hparse. split; [split; [done|]|split; [done|split; [|split]]].
  - intros w r Hready Hr Ha Ho.
    unfold onMessage. rewrite Hparse, decide_True by done.
    unfold recv_apply, arguments_of, recv. rewrite !bind_run.
    change (default VUndefined ([VStr evPing] !! 0)) with (VStr evPing).
    change (recv_key [VStr evPing]) with evPing.
    change (tail [VStr evPing]) with (@nil value).
    unfold recv_log. destruct (excluded _ _).
    + rewrite bind_run. unfold recv_persistent. rewrite Hr, Ha.
      change (keys [Some FnPing]) with [0]. cbn [for_in]. rewrite Ha.
      change (get_index [Some FnPing] (to_int32 0)) with (Some FnPing).
      cbv [mbind M_bind mret M_ret modify call apply_fn onPing post postMessage].
      unfold recv_once. cbn -[evPing]. rewrite Ho.
      rewrite !emit_emit_all, !emit_all_app. simpl app.
      eexists _, _. split; [reflexivity|]. by repeat split.
    + rewrite bind_run. unfold recv_persistent. cbn -[evPing]. rewrite Hr.
      replace (array (emit _ w) r) with [Some FnPing] by done.
      change (keys [Some FnPing]) with [0]. cbn [for_in].
      replace (array (emit _ w) r) with [Some FnPing] by done.
      change (get_index [Some FnPing] (to_int32 0)) with (Some FnPing).
      cbv [mbind M_bind mret M_ret modify call apply_fn onPing post postMessage].
      unfold recv_once. cbn -[evPing]. rewrite Ho.
      rewrite !emit_emit_all, !emit_all_app. simpl app.
      eexists _, _. split; [reflexivity|]. by repeat split.
  - intros st Hready Hm Ho.
    destruct (ping_is_dispatched event st Hparse Hready) as (es & Hc & Hp & ->).
    exists es. split; [|done].
    unfold mbind, MessagePool.MO_bind, MessagePool.call_persistent.
    cbn [MessagePool.base MessagePool.set_base pool emit_all]. rewrite Hm.
    unfold MessagePool.call_once.
    cbn [MessagePool.base MessagePool.set_base pool emit_all]. by rewrite Ho.
  - intros st fnCallback' st' Hwf Hsync.
    unfold MessagePool.synchronize in Hsync.
    unfold mbind at 1, MessagePool.MO_bind at 1, MessagePool.update at 1 in Hsync.
    unfold mbind at 1, MessagePool.MO_bind at 1 in Hsync.
    unfold MessagePool.registerOnce, MessagePool.lift at 1 in Hsync.
    cbn [MessagePool.base MessagePool.set_closures] in Hsync.
    pose proof (registerOnce_well_formed evPong (FnPong (length (MessagePool.closures st)))
                  _ Hwf) as Hwf1.
    destruct (registerOnce evPong _ (MessagePool.base st)) as [[[]|e] w1];
      [|done]. cbn [snd] in Hwf1.
    unfold mbind at 1, MessagePool.MO_bind at 1 in Hsync.
    unfold MessagePool.register, MessagePool.lift at 1 in Hsync.
    cbn [MessagePool.base MessagePool.set_base] in Hsync.
    destruct (register evPing FnPing w1) as [[[]|e] w2] eqn:Hreg; [|done].
    destruct (register_spec evPing FnPing w1 w2 Hwf1 Hreg) as (Hp & _ & _).
    assert (FnPing ∈ persistent_handlers w2 evPing) as Hin.
    { rewrite Hp. destruct (decide _); [done|]. apply elem_of_app. right. by left. }
    match type of Hsync with
    | MessagePool.fnPingPong ?s ?st2 = _ =>
        pose proof (fnPingPong_registry s st2) as (Ha & Hm & _);
        rewrite Hsync in Ha, Hm
    end.
    cbn [snd MessagePool.base MessagePool.set_base] in Ha, Hm.
    unfold persistent_handlers, array in *. by rewrite Hm, Ha.
  - intros st r Hready Hr Ha Ho.
    destruct (ping_is_dispatched event st Hparse Hready) as (es & Hc & Hp & ->).
    unfold mbind at 1, MessagePool.MO_bind at 1. unfold MessagePool.call_persistent.
    cbn [MessagePool.base MessagePool.set_base pool emit_all]. rewrite Hr.
    change (array (emit_all es (MessagePool.base st)) r)
      with (array (MessagePool.base st) r). rewrite Ha.
    change (keys [Some FnPing]) with [0]. cbn [MessagePool.for_in].
    cbn [MessagePool.base MessagePool.set_base].
    change (array (emit_all es (MessagePool.base st)) r)
      with (array (MessagePool.base st) r). rewrite Ha.
    change (hasOwnProperty [Some FnPing] 0) with true. cbv iota.
    change (get_index [Some FnPing] (to_int32 0)) with (Some FnPing). cbv iota.
    cbv [mbind MessagePool.MO_bind mret MessagePool.MO_ret MessagePool.call
         MessagePool.apply_fn MessagePool.onPing MessagePool.recv MessagePool.lift
         modify].
    cbn [MessagePool.base MessagePool.set_base].
    unfold MessagePool.call_once.
    cbn [MessagePool.base MessagePool.set_base pool emit emit_all]. rewrite Ho.
    eexists _, (es ++ [Call FnPing []; PostMessage platform (JSON_stringify [VStr evPong])]).
    split; [reflexivity|].
    split; [simpl; by rewrite <- !app_assoc|].
    rewrite calls_app, posts_app, Hc, Hp. by split.
Qed.

End PingHandler.

(** A ping of the parent window 1 reaches the ready pool of window 0, and a
    ready instance of the earlier class before and after [synchronize]. *)
Lemma ping_is_answered_to_own_window_witness :
  (∃ w' es, onMessage (H := plain_host) ping_from_parent ready_pool = (Normal tt, w') ∧
     trace w' = trace ready_pool ++ es ∧
     calls es = [(FnPing, [])] ∧
     posts es = [(0, wire_pong)]) ∧
  (∃ es, MessagePool.onMessage (H := plain_host) (H0 := plain_app) ping_from_parent
           (earlier_ready (H := plain_host) (H0 := plain_app) None None)
         = (Normal tt,
            MessagePool.set_base (emit_all es)
              (earlier_ready (H := plain_host) (H0 := plain_app) None None)) ∧
     calls es = [] ∧ posts es = []) ∧
  FnPing ∈ persistent_handlers
             (MessagePool.base
                (snd (MessagePool.synchronize (H := plain_host) 7
                        (earlier_ready (H := plain_host) (H0 := plain_app) None None))))
             evPing.
Proof.
  destruct (ping_is_answered_to_own_window (H := plain_host) (H0 := plain_app)
              ping_from_parent eq_refl) as ((_ & Hnew) & _ & Hnone & Hsync & _).
  split; [|split].
  - destruct (Hnew ready_pool 0 eq_refl eq_refl eq_refl eq_refl)
      as (w' & es & Hrun & Ht & Hc & Hp).
    by exists w', es.
  - apply Hnone; reflexivity.
  - apply (Hsync (earlier_ready (H := plain_host) (H0 := plain_app) None None) 7).
    + split; [split; [|split]|split]; intros ? ? Hx; vm_compute in Hx; discriminate.
    + reflexivity.
Defined.

(** Against C8 as stated: the ping came from window 1, and the only message
    posted went to window 0; and a ready instance of the earlier class that
    has not called [synchronize] posts nothing at all. *)
Lemma pong_is_not_posted_to_the_sender :
  source ping_from_parent = Some 1 ∧
  posts (trace (snd (onMessage (H := plain_host) ping_from_parent ready_pool)))
    = [(0, wire_pong)] ∧
  ¬ (∃ m, (1, m) ∈ posts (trace (snd (onMessage (H := plain_host) ping_from_parent
                                         ready_pool)))) ∧
  persistent_handlers
    (MessagePool.base (earlier_ready (H := plain_host) (H0 := plain_app) None None))
    evPing = [] ∧
  posts (trace (MessagePool.base
                  (snd (MessagePool.onMessage (H := plain_host) (H0 := plain_app)
                          ping_from_parent
                          (earlier_ready (H := plain_host) (H0 := plain_app)
                             None None)))))
    = [].
Proof.
  split; [reflexivity|].
  assert (posts (trace (snd (onMessage (H := plain_host) ping_from_parent ready_pool)))
          = [(0, wire_pong)]) as Hposts by (by vm_compute).
  split; [exact Hposts|]. split; [|split; by vm_compute].
  rewrite Hposts. intros (m & Hm).
  apply list_elem_of_singleton in Hm. discriminate.
Qed.

(** * Further properties of the module *)

(** ** The exclusion list *)

Lemma exclude_fold (va_args start : list string) :
  ∃ added,
    foldl (fun l a => if decide (a ∈ l) then l else l ++ [a]) start va_args
      = start ++ added ∧
    NoDup added ∧
    ∀ s, s ∈ added ↔ s ∈ va_args ∧ s ∉ start.
Proof.
  revert start. induction va_args as [|a va_args IH]; intros start.
  { exists []. rewrite app_nil_r. split; [done|]. split; [constructor|].
    intros s. split; [by intros ?%elem_of_nil|by intros [?%elem_of_nil _]]. }
  simpl. destruct (decide (a ∈ start)) as [Ha|Ha].
  - destruct (IH start) as (added & -> & Hnd & Hin). exists added.
    split; [done|]. split; [done|]. intros s. rewrite Hin, elem_of_cons.
    split; [tauto|]. intros [[->|Hs] Hn]; [done|tauto].
  - destruct (IH (start ++ [a])) as (added & -> & Hnd & Hin). exists (a :: added).
    split; [by rewrite <- app_assoc|]. split.
    + constructor; [|done]. rewrite Hin, elem_of_app, list_elem_of_singleton. tauto.
    + intros s. rewrite !elem_of_cons, Hin, elem_of_app, list_elem_of_singleton.
      destruct (decide (s = a)) as [->|Hne]; tauto.
Qed.

Lemma exclude_fold_known (va_args l : list string) :
  (∀ a, a ∈ va_args → a ∈ l) →
  foldl (fun l a => if decide (a ∈ l) then l else l ++ [a]) l va_args = l.
Proof.
  induction va_args as [|a va_args IH]; intros Hin; [done|]. simpl.
  rewrite decide_True by (apply Hin; by left).
  apply IH. intros b Hb. apply Hin. by right.
Qed.

(** X1.  [excludeLog(bReset, ...names)] keeps the list it starts from, the
    default list after a reset and the current one otherwise, in its order,
    and appends the names given that are not on it yet, each once.  Nothing
    else of the pool changes. *)
Theorem excludeLog_appends_new_names (bReset : bool) (va_args : list string)
    (w : World) :
  ∃ added,
    aExcludeLog (pool (excludeLog bReset va_args w))
      = exclusions_from bReset w ++ added ∧
    NoDup added ∧
    (∀ s, s ∈ added ↔ s ∈ va_args ∧ s ∉ exclusions_from bReset w) ∧
    oMessages (pool (excludeLog bReset va_args w)) = oMessages (pool w) ∧
    oMessagesOnce (pool (excludeLog bReset va_args w)) = oMessagesOnce (pool w) ∧
    bReady (pool (excludeLog bReset va_args w)) = bReady (pool w) ∧
    sName (pool (excludeLog bReset va_args w)) = sName (pool w) ∧
    fnLog (pool (excludeLog bReset va_args w)) = fnLog (pool w) ∧
    arrays (excludeLog bReset va_args w) = arrays w ∧
    trace (excludeLog bReset va_args w) = trace w.
Proof.
  destruct (exclude_fold va_args (exclusions_from bReset w)) as (added & Heq & Hnd & Hin).
  exists added. unfold excludeLog. simpl.
  change (if bReset then defaultExcludeList else aExcludeLog (pool w))
    with (exclusions_from bReset w).
  by rewrite Heq.
Qed.

Lemma excludeLog_list (bReset : bool) (va_args : list string) (w : World) :
  aExcludeLog (pool (excludeLog bReset va_args w))
  = foldl (fun l a => if decide (a ∈ l) then l else l ++ [a])
      (exclusions_from bReset w) va_args.
Proof. reflexivity. Qed.

Lemma excludeLog_elem (bReset : bool) (va_args : list string) (w : World) (s : string) :
  s ∈ aExcludeLog (pool (excludeLog bReset va_args w))
  ↔ s ∈ exclusions_from bReset w ∨ s ∈ va_args.
Proof.
  rewrite excludeLog_list.
  destruct (exclude_fold va_args (exclusions_from bReset w)) as (added & -> & _ & Hin).
  rewrite elem_of_app, Hin.
  destruct (decide (s ∈ exclusions_from bReset w)); tauto.
Qed.

(** X2.  Calls of [excludeLog] compose as follows: repeating a call without
    the reset changes nothing; a call with the reset gives the same list
    whatever the calls before it were; a call without reset and without names
    leaves the pool as it is. *)
Theorem excludeLog_composes (bReset b' : bool) (va_args earlier : list string)
    (w : World) :
  excludeLog false va_args (excludeLog bReset va_args w) = excludeLog bReset va_args w ∧
  excludeLog true va_args (excludeLog b' earlier w) = excludeLog true va_args w ∧
  pool (excludeLog false [] w) = pool w.
Proof.
  split; [|split].
  - unfold excludeLog at 1. cbv zeta.
    change (aExcludeLog (pool (excludeLog bReset va_args w)))
      with (foldl (fun l a => if decide (a ∈ l) then l else l ++ [a])
              (exclusions_from bReset w) va_args).
    rewrite exclude_fold_known; [done|].
    intros a Ha. rewrite <- excludeLog_list. apply excludeLog_elem. by right.
  - reflexivity.
  - by destruct w as [[] ? ? ? ? ? ?].
Qed.


Section Silence.
Context `{Host}.

Lemma recv_log_excluded (s : string) (args : list value) (w : World) :
  s ∈ aExcludeLog (pool w) → recv_log (VStr s) args w = (Normal tt, w).
Proof. intros Hs. unfold recv_log. simpl. by rewrite bool_decide_true. Qed.

Lemma messageLog_excluded (s : string) (rest : list value) (sPrefix : string)
    (w : World) :
  s ∈ aExcludeLog (pool w) →
  messageLog (VArr (VStr s :: rest)) sPrefix w = (Normal tt, w).
Proof.
  intros Hs. rewrite messageLog_array. rewrite decide_True; [done|]. by right.
Qed.

(** X3.  A name given to [excludeLog] is logged at none of the three places
    that log messages: a dispatch of it goes straight to its handlers, a
    message of that name that arrives while the pool is not ready is skipped
    without a trace, and so is one sent to a target that resolves to no
    window. *)
Theorem excluded_name_is_not_logged (bReset : bool) (va_args : list string)
    (s : string) (w : World) :
  s ∈ va_args →
  (∀ args,
     recv (VStr s :: args) (excludeLog bReset va_args w)
     = (recv_persistent s args;; recv_once s args) (excludeLog bReset va_args w)) ∧
  (∀ event rest,
     bReady (pool w) ≠ Some true →
     JSON_parse (data event) = Some (VArr (VStr s :: rest)) →
     onMessage event (excludeLog bReset va_args w)
     = (Normal tt, excludeLog bReset va_args w)) ∧
  (∀ oTarget' rest,
     resolve oTarget' = None →
     send oTarget' (VStr s :: rest) (excludeLog bReset va_args w)
     = (Normal tt, excludeLog bReset va_args w)).
Proof.
  intros Hs.
  assert (s ∈ aExcludeLog (pool (excludeLog bReset va_args w))) as Hex
    by (apply excludeLog_elem; by right).
  split; [|split].
  - intros args. unfold recv. change (recv_key (VStr s :: args)) with s.
    cbn [lookup list_lookup default tail id]. rewrite bind_run.
    by rewrite recv_log_excluded.
  - intros event rest Hready Hparse. unfold onMessage. rewrite Hparse.
    rewrite decide_False by done. by apply messageLog_excluded.
  - intros oTarget' rest Hres. unfold send. rewrite Hres.
    by apply messageLog_excluded.
Qed.

(** *** The control events stay exempt *)

Lemma controls_frame (w w' : World) :
  aExcludeLog (pool w') = aExcludeLog (pool w) →
  controls_excluded w → controls_excluded w'.
Proof. unfold controls_excluded. by intros ->. Qed.

Lemma register_exclusions (n : string) (f : Function) (w : World) :
  aExcludeLog (pool (snd (register n f w))) = aExcludeLog (pool w).
Proof. unfold register. by repeat case_match. Qed.

Lemma registerOnce_exclusions (n : string) (f : Function) (w : World) :
  aExcludeLog (pool (snd (registerOnce n f w))) = aExcludeLog (pool w).
Proof. unfold registerOnce. by repeat case_match. Qed.

Lemma unregister_exclusions (n : string) (f : option Function) (w : World) :
  aExcludeLog (pool (snd (unregister n f w))) = aExcludeLog (pool w).
Proof.
  apply (preserves_unregister
           (fun w' => aExcludeLog (pool w') = aExcludeLog (pool w)) n f); [| |done];
    intros w0 Hw0; [unfold unregister_persistent|unfold unregister_once];
    unfold unregister_inherited; repeat case_match; simpl; done.
Qed.

Lemma onSync_exclusions (s : nat) (w : World) :
  aExcludeLog (pool (snd (onSync s w))) = aExcludeLog (pool w).
Proof.
  unfold onSync. destruct (sessions w !! s) as [o|]; [|done].
  rewrite bind_run.
  by destruct (send_effects (oTarget o) [VStr evPing] w) as (es & -> & _).
Qed.

Lemma synchronize_controls (oTarget' : Target) (fnCallback' : nat) :
  preserves controls_excluded (synchronize oTarget' fnCallback').
Proof.
  unfold synchronize, new_Synchronization. intros w Hw.
  apply preserves_bind; [| |done].
  { apply preserves_modify. intros w'. by apply controls_frame. }
  intros _. apply preserves_bind.
  { intros w'. apply controls_frame, registerOnce_exclusions. }
  intros _. apply preserves_bind.
  { intros w'. apply controls_frame, onSync_exclusions. }
  intros _. by intros w'.
Qed.

Lemma exec_controls (c : Cmd) : preserves controls_excluded (exec c).
Proof.
  destruct c; simpl.
  - intros w. by apply controls_frame.
  - intros w Hw. by destruct (has sMessage w).
  - intros w. apply controls_frame, register_exclusions.
  - intros w. apply controls_frame, registerOnce_exclusions.
  - apply preserves_bind; [|intros _; apply preserves_ret].
    intros w. apply controls_frame, unregister_exclusions.
  - intros w [Hping Hpong]. split; apply excludeLog_elem; left;
      unfold exclusions_from; destruct bReset; try done;
      apply (bool_decide_unpack _); by vm_compute.
  - intros w. by apply controls_frame.
  - intros w. destruct (send_effects oTarget0 arguments w) as (es & -> & _).
    by apply controls_frame.
  - intros w. apply controls_frame. unfold modify, ready. cbn [snd].
    destruct (decide _); [done|]. by destruct (decide _).
  - intros w. by apply controls_frame.
  - apply preserves_bind; [apply synchronize_controls|]. intros _. by intros w.
  - intros w. apply controls_frame. unfold modify, cancel. cbn [snd].
    destruct (sessions w !! session) as [o|]; [|done].
    destruct (iSync o) as [i|]; [|done].
    change (aExcludeLog (pool (snd (unregister evPong (Some (FnPong session))
                                      (clearTimeout (Some i) w))))
            = aExcludeLog (pool w)).
    by rewrite unregister_exclusions.
  - by intros w Hw.
Qed.

Lemma controls_stable :
  Stable controls_excluded (fun _ => True) (fun _ => True) (fun _ => True).
Proof.
  split; try done.
  - intros c _. apply exec_controls.
  - intros w i. apply controls_frame. by destruct i.
  - intros s _ w. apply controls_frame, onSync_exclusions.
Qed.

(** X4.  Whatever the application and the transport do, [evPing] and
    [evPong] stay on the exclusion list: no method takes a name off it, and a
    reset puts both back.  So the handshake is never logged: a ping or a pong
    is dispatched without a call of the log function, and one that is skipped
    or dropped leaves no trace. *)
Theorem control_events_stay_excluded (steps : list Step) (s : string) :
  s = evPing ∨ s = evPong →
  s ∈ aExcludeLog (pool (run steps new_cMessagePool)) ∧
  (∀ args, recv_log (VStr s) args (run steps new_cMessagePool)
           = (Normal tt, run steps new_cMessagePool)) ∧
  (∀ sPrefix rest, messageLog (VArr (VStr s :: rest)) sPrefix (run steps new_cMessagePool)
                   = (Normal tt, run steps new_cMessagePool)).
Proof.
  intros Hs.
  assert (controls_excluded (run steps new_cMessagePool)) as [Hping Hpong].
  { apply (preserves_run controls_excluded _ _ _ controls_stable).
    - intros st _. by destruct st.
    - split; apply (bool_decide_unpack _); by vm_compute. }
  assert (s ∈ aExcludeLog (pool (run steps new_cMessagePool))) as Hin
    by (by destruct Hs as [-> | ->]).
  split; [done|]. split.
  - intros args. by apply recv_log_excluded.
  - intros sPrefix rest. by apply messageLog_excluded.
Qed.

End Silence.

(** ["greet"] is taken out of the log: a greeting that arrives before the
    pool is ready, and one sent to the missing parent of a top window, leave
    the pool as it was. *)
Lemma excluded_name_is_not_logged_witness :
  onMessage (H := plain_host) greet_event discreet_pool = (Normal tt, discreet_pool) ∧
  send (H := plain_top_host) TNull [VStr "greet"; VStr "world"] discreet_pool
    = (Normal tt, discreet_pool).
Proof.
  assert ("greet" ∈ ["greet"]) as Hin by (by left).
  split.
  - destruct (excluded_name_is_not_logged (H := plain_host) false ["greet"] "greet"
                greeting_pool Hin) as (_ & Hskip & _).
    apply (Hskip greet_event [VStr "world"]); [discriminate|reflexivity].
  - destruct (excluded_name_is_not_logged (H := plain_top_host) false ["greet"] "greet"
                greeting_pool Hin) as (_ & _ & Hdrop).
    apply (Hdrop TNull [VStr "world"]). reflexivity.
Defined.

(** After a reset of the list and a ping, [evPing] is still exempt. *)
Lemma control_events_stay_excluded_witness :
  evPing ∈ aExcludeLog
             (pool (run (H := plain_host)
                      [s_do (c_excludeLog true ["greet"]); s_message ping_from_parent]
                      new_cMessagePool)).
Proof.
  apply (control_events_stay_excluded (H := plain_host)
           [s_do (c_excludeLog true ["greet"]); s_message ping_from_parent] evPing).
  left. reflexivity.
Defined.

(** ** What [unregister] reports and leaves *)

Section Removal.
Context `{Host}.

Lemma unregister_persistent_spec (n : string) (fo : option Function) (w : World) :
  (fst (unregister_persistent n fo w) = Normal true ↔
     match fo with
     | Some f => f ∈ persistent_handlers w n
     | None => is_Some (oMessages (pool w) !! n) ∨ is_Some (inherited n)
     end) ∧
  (fst (unregister_persistent n fo w) ≠ Normal true →
   snd (unregister_persistent n fo w) = w) ∧
  oMessagesOnce (pool (snd (unregister_persistent n fo w))) = oMessagesOnce (pool w) ∧
  trace (snd (unregister_persistent n fo w)) = trace w ∧
  (∀ m, m ≠ n → oMessages (pool (snd (unregister_persistent n fo w))) !! m
                 = oMessages (pool w) !! m) ∧
  (inherited n = None → ∃ b, fst (unregister_persistent n fo w) = Normal b).
Proof.
  unfold unregister_persistent, persistent_handlers.
  destruct (oMessages (pool w) !! n) as [r|] eqn:Hn.
  - destruct fo as [f|].
    + destruct (lastIndexOf f (array w r)) as [i|] eqn:Hi; simpl.
      * repeat split; try done; eauto. intros _. apply elem_of_present.
        eapply list_elem_of_lookup_2. by apply lastIndexOf_Some.
      * repeat split; try done; eauto. intros Hin%elem_of_present.
        by apply lastIndexOf_None in Hi.
    + simpl. repeat split; try done; eauto. intros m Hm. by rewrite lookup_delete_ne.
  - destruct (inherited n) as [x|] eqn:Hi.
    + destruct fo as [f|]; simpl; repeat split; try done; eauto.
      by intros ?%elem_of_nil.
    + simpl. repeat split; try done; eauto.
      destruct fo; [by intros ?%elem_of_nil|by intros [[? ?]|[? ?]]].
Qed.

Lemma unregister_once_spec (n : string) (fo : option Function) (w : World) :
  (fst (unregister_once n fo w) = Normal true ↔
     match fo with
     | Some f => f ∈ once_handlers w n
     | None => is_Some (oMessagesOnce (pool w) !! n) ∨ is_Some (inherited n)
     end) ∧
  (fst (unregister_once n fo w) ≠ Normal true → snd (unregister_once n fo w) = w) ∧
  oMessages (pool (snd (unregister_once n fo w))) = oMessages (pool w) ∧
  arrays (snd (unregister_once n fo w)) = arrays w ∧
  trace (snd (unregister_once n fo w)) = trace w ∧
  (∀ m, m ≠ n → oMessagesOnce (pool (snd (unregister_once n fo w))) !! m
                 = oMessagesOnce (pool w) !! m) ∧
  (inherited n = None → ∃ b, fst (unregister_once n fo w) = Normal b).
Proof.
  unfold unregister_once, once_handlers.
  destruct (oMessagesOnce (pool w) !! n) as [a|] eqn:Hn.
  - destruct fo as [f|].
    + destruct (lastIndexOf f a) as [i|] eqn:Hi; simpl.
      * repeat split; try done; eauto.
        -- intros _. apply elem_of_present.
           eapply list_elem_of_lookup_2. by apply lastIndexOf_Some.
        -- intros m Hm. by rewrite lookup_insert_ne.
      * repeat split; try done; eauto. intros Hin%elem_of_present.
        by apply lastIndexOf_None in Hi.
    + simpl. repeat split; try done; eauto. intros m Hm. by rewrite lookup_delete_ne.
  - destruct (inherited n) as [x|] eqn:Hi.
    + destruct fo as [f|]; simpl; repeat split; try done; eauto.
      by intros ?%elem_of_nil.
    + simpl. repeat split; try done; eauto.
      destruct fo; [by intros ?%elem_of_nil|by intros [[? ?]|[? ?]]].
Qed.

(** What [unregister] leaves alone, whatever the name. *)
Lemma unregister_frame (n : string) (fo : option Function) (w : World) :
  trace (snd (unregister n fo w)) = trace w ∧
  (∀ m, m ≠ n →
     oMessages (pool (snd (unregister n fo w))) !! m = oMessages (pool w) !! m ∧
     oMessagesOnce (pool (snd (unregister n fo w))) !! m
       = oMessagesOnce (pool w) !! m).
Proof.
  unfold unregister. rewrite bind_run.
  destruct (unregister_persistent_spec n fo w) as (_ & _ & P3 & P4 & P5 & _).
  destruct (unregister_persistent n fo w) as [[b1|e] w1]; cbn [snd] in *.
  - rewrite bind_run.
    destruct (unregister_once_spec n fo w1) as (_ & _ & O3 & _ & O5 & O6 & _).
    destruct (unregister_once n fo w1) as [[b2|e] w2]; cbn [snd mret M_ret] in *;
      (split; [congruence|]); intros m Hm;
      by rewrite O3, (P5 m Hm), (O6 m Hm), P3.
  - split; [done|]. intros m Hm. by rewrite (P5 m Hm), P3.
Qed.

(** What [unregister] returns for a name that reads no inherited member. *)
Lemma unregister_result (n : string) (fo : option Function) (w : World) :
  inherited n = None →
  ∃ b, fst (unregister n fo w) = Normal b ∧
    (b = true ↔
       match fo with
       | Some f => f ∈ persistent_handlers w n ∨ f ∈ once_handlers w n
       | None => is_Some (oMessages (pool w) !! n) ∨
                 is_Some (oMessagesOnce (pool w) !! n)
       end).
Proof.
  intros Hi. unfold unregister. rewrite bind_run.
  destruct (unregister_persistent_spec n fo w) as (P1 & _ & P3 & _ & _ & P6).
  destruct (P6 Hi) as [b1 Hb1].
  destruct (unregister_persistent n fo w) as [c1 w1]; cbn [fst snd] in *. subst c1.
  rewrite bind_run.
  destruct (unregister_once_spec n fo w1) as (O1 & _ & _ & _ & _ & _ & O7).
  destruct (O7 Hi) as [b2 Hb2].
  destruct (unregister_once n fo w1) as [c2 w2]; cbn [fst snd] in *. subst c2.
  exists (b1 || b2). split; [done|].
  rewrite orb_true_iff.
  assert (b1 = true ↔ Normal b1 = Normal true) as -> by (split; congruence).
  assert (b2 = true ↔ Normal b2 = Normal true) as -> by (split; congruence).
  rewrite P1, O1. unfold once_handlers. rewrite P3, Hi.
  destruct fo; [done|]. split.
  - intros [[?|[? ?]]|[?|[? ?]]]; auto; discriminate.
  - intros [?|?]; auto.
Qed.

(** X5.  For a name that reads no inherited member, [unregister] returns,
    and returns [true] exactly when it removed something: with a handler,
    when the handler was registered for the name, persistently or once;
    without one, when the name had an entry in either registry.  For the name
    of a member inherited from [Object.prototype], in a world the methods can
    produce, [unregister(n)] returns [true] though it removes nothing, and
    [unregister(n, h)] throws a TypeError; the pool is as before in both
    cases.  Whatever the name, the pool is as before when [unregister]
    returns [false]; [unregister] logs nothing, applies nothing, and leaves
    the entries of every other name where they were. *)
Theorem unregister_reports_removal (n : string) (w : World) :
  (inherited n = None →
     (∀ fo, ∃ b, fst (unregister n fo w) = Normal b) ∧
     (∀ f, fst (unregister n (Some f) w) = Normal true
           ↔ f ∈ persistent_handlers w n ∨ f ∈ once_handlers w n) ∧
     (fst (unregister n None w) = Normal true
      ↔ is_Some (oMessages (pool w) !! n) ∨ is_Some (oMessagesOnce (pool w) !! n))) ∧
  (well_formed w → inherited n ≠ None →
     unregister n None w = (Normal true, w) ∧
     ∀ f, unregister n (Some f) w = (Throw TypeError, w)) ∧
  (∀ fo, fst (unregister n fo w) = Normal false → snd (unregister n fo w) = w) ∧
  (∀ fo, trace (snd (unregister n fo w)) = trace w) ∧
  (∀ fo m, m ≠ n →
     oMessages (pool (snd (unregister n fo w))) !! m = oMessages (pool w) !! m ∧
     oMessagesOnce (pool (snd (unregister n fo w))) !! m
       = oMessagesOnce (pool w) !! m).
Proof.
  split; [|split; [|split; [|split]]].
  - intros Hi. split; [|split].
    + intros fo. destruct (unregister_result n fo w Hi) as (b & Hb & _). by exists b.
    + intros f. destruct (unregister_result n (Some f) w Hi) as (b & -> & Hb).
      rewrite <- Hb. split; congruence.
    + destruct (unregister_result n None w Hi) as (b & -> & Hb).
      rewrite <- Hb. split; congruence.
  - intros [_ [N1 N2]] Hi.
    assert (oMessages (pool w) !! n = None) as Hm.
    { destruct (oMessages (pool w) !! n) as [r|] eqn:Hr; [|done].
      by rewrite (N1 n r Hr) in Hi. }
    assert (oMessagesOnce (pool w) !! n = None) as Ho.
    { destruct (oMessagesOnce (pool w) !! n) as [a|] eqn:Ha; [|done].
      by rewrite (N2 n a Ha) in Hi. }
    destruct (inherited n) as [x|] eqn:Hx; [|done].
    split; [|intros f]; unfold unregister; rewrite bind_run;
      unfold unregister_persistent at 1; rewrite Hm, Hx; [|done].
    simpl. rewrite bind_run. unfold unregister_once. by rewrite Ho, Hx.
  - intros fo Hfalse. unfold unregister in *. rewrite bind_run in *.
    destruct (unregister_persistent_spec n fo w) as (_ & P2 & _).
    destruct (unregister_persistent n fo w) as [[b1|e] w1]; [|done].
    rewrite bind_run in *.
    destruct (unregister_once_spec n fo w1) as (_ & O2 & _).
    destruct (unregister_once n fo w1) as [[b2|e] w2]; [|done].
    cbn [fst snd] in *. injection Hfalse as [-> ->]%orb_false_iff.
    rewrite O2 by done. by apply P2.
  - intros fo. apply unregister_frame.
  - intros fo. apply unregister_frame.
Qed.

(** X6.  After [unregister(n)] without a handler the name has no array in
    either registry, and a dispatch of [n] returns normally and applies no
    function.  For a name that reads no inherited member, [has(n)] is then
    [false] and a later [register(n, h)] starts a new array that holds [h]
    alone.  For the name of a member inherited from [Object.prototype],
    [has(n)] tells whether that member has a positive [length], and a later
    [register(n, h)] throws a TypeError and registers nothing. *)
Theorem unregister_all_clears_name (n : string) (w : World) :
  (∃ b, fst (unregister n None w) = Normal b) ∧
  oMessages (pool (snd (unregister n None w))) !! n = None ∧
  oMessagesOnce (pool (snd (unregister n None w))) !! n = None ∧
  has n (snd (unregister n None w))
    = Normal (from_option length_positive false (inherited n)) ∧
  (∀ args, ∃ es,
     recv (VStr n :: args) (snd (unregister n None w))
       = (Normal tt, emit_all es (snd (unregister n None w))) ∧
     calls es = []) ∧
  (∀ h, inherited n = None →
        fst (register n h (snd (unregister n None w))) = Normal tt ∧
        persistent_handlers (snd (register n h (snd (unregister n None w)))) n = [h]) ∧
  (∀ h, inherited n ≠ None →
        register n h (snd (unregister n None w))
        = (Throw TypeError, snd (unregister n None w))).
Proof.
  assert (∃ b w', unregister n None w = (Normal b, w') ∧
            oMessages (pool w') !! n = None ∧ oMessagesOnce (pool w') !! n = None)
    as (b & w' & Hun & Hm & Ho).
  { unfold unregister. rewrite bind_run. unfold unregister_persistent at 1.
    destruct (oMessages (pool w) !! n) as [r|] eqn:Hn;
      [|destruct (inherited n) as [x|] eqn:Hx]; simpl; rewrite bind_run;
      unfold unregister_once; cbn [pool set_pool set_oMessages oMessagesOnce];
      rewrite ?Hx;
      destruct (oMessagesOnce (pool w) !! n) as [a|] eqn:Hn'; simpl;
      try (destruct (inherited n) as [y|] eqn:Hy; simpl);
      eexists _, _; (split; [reflexivity|]); simpl;
      rewrite ?lookup_delete_eq; by split. }
  rewrite Hun. cbn [fst snd]. split; [by exists b|].
  split; [done|]. split; [done|]. split; [|split; [|split]].
  - unfold has. rewrite Hm, Ho. destruct (inherited n) as [x|]; [|done].
    simpl. by destruct (length_positive x).
  - intros args. unfold recv. change (recv_key (VStr n :: args)) with n.
    cbn [lookup list_lookup default tail id]. rewrite bind_run.
    destruct (recv_log_spec (VStr n) args w') as (es & -> & Hes).
    exists es. split; [|done]. rewrite bind_run.
    unfold recv_persistent. cbn [pool emit_all]. rewrite Hm.
    unfold recv_once. cbn [pool emit_all]. by rewrite Ho.
  - intros h Hi. unfold register. rewrite Hm, Hi. split; [done|].
    unfold persistent_handlers. simpl. rewrite lookup_insert_eq.
    unfold array. simpl. by rewrite list_lookup_middle.
  - intros h Hi. unfold register. rewrite Hm. by destruct (inherited n).
Qed.

End Removal.

(** ** [has] and the handlers a name has *)

Section HasAndHandlers.
Context `{Host}.

(** X7.  [has(n)] does not tell whether a dispatch of [n] would apply a
    handler.  In a world the methods can produce, a name with once-handlers
    only is reported as absent, though the handler waits in [oMessagesOnce];
    a name whose only handler was unregistered is still reported as present,
    though no handler of it is left; and the name of an inherited function
    with parameters, as ["constructor"] is, is reported as present though it
    has no handler and [register] and [registerOnce] refuse it with a
    TypeError. *)
Theorem has_is_not_about_handlers (n : string) (h : Function) (w : World) :
  well_formed w →
  (oMessages (pool w) !! n = None → ∀ w1,
     registerOnce n h w = (Normal tt, w1) →
     has n w1 = Normal false ∧ h ∈ once_handlers w1 n) ∧
  (persistent_handlers w n = [h] → once_handlers w n = [] →
     ∃ w1, unregister n (Some h) w = (Normal true, w1) ∧
       has n w1 = Normal true ∧
       persistent_handlers w1 n = [] ∧ once_handlers w1 n = []) ∧
  (∀ x, inherited n = Some x → length_positive x = true →
     has n w = Normal true ∧
     persistent_handlers w n = [] ∧ once_handlers w n = [] ∧
     register n h w = (Throw TypeError, w) ∧
     registerOnce n h w = (Throw TypeError, w)).
Proof.
  intros Hwf. split; [|split].
  - intros Hn w1 Hreg.
    destruct (registerOnce_spec n h w w1 Hreg) as (Ho & Hm & Ha & _).
    pose proof (registerOnce_well_formed n h w Hwf) as Hwf1. rewrite Hreg in Hwf1.
    split.
    + rewrite has_own_names by done. rewrite Hm, Hn.
      rewrite bool_decide_false by (by intros [? ?]).
      destruct (inherited n) as [x|] eqn:Hx; [|done]. exfalso.
      destruct (well_formed_inherited n w1 Hwf1) as [_ Hnone]; [by rewrite Hx|].
      assert (h ∈ once_handlers w1 n) as Hin.
      { rewrite Ho. destruct (decide _); [done|]. apply elem_of_app. right. by left. }
      unfold once_handlers in Hin. rewrite Hnone in Hin. by apply elem_of_nil in Hin.
    + rewrite Ho. destruct (decide _); [done|].
      apply elem_of_app. right. by left.
  - intros Hp Ho.
    destruct (oMessages (pool w) !! n) as [r|] eqn:Hn;
      [|unfold persistent_handlers in Hp; by rewrite Hn in Hp].
    assert (Some h ∈ array w r) as Hin.
    { apply elem_of_present. unfold persistent_handlers in Hp. rewrite Hn in Hp.
      rewrite Hp. by left. }
    destruct (unregister_handler_spec n h w r) as
      (i & w1 & Hun & _ & Hm & _ & Hp1 & Ho1 & _); try done.
    { rewrite Hp. apply NoDup_singleton. }
    { rewrite Ho. constructor. }
    exists w1. split; [done|]. split; [|split].
    + rewrite has_own_names.
      * rewrite Hm, Hn. by rewrite bool_decide_true.
      * pose proof (unregister_well_formed n (Some h) w Hwf) as Hwf1.
        by rewrite Hun in Hwf1.
    + rewrite Hp1, Hp. simpl. rewrite filter_cons_False, filter_nil; [done|].
      by intros Hne.
    + by rewrite Ho1, Ho.
  - intros x Hx Hlen.
    destruct (well_formed_inherited n w Hwf) as [Hm Ho]; [by rewrite Hx|].
    split; [|split; [|split; [|split]]].
    + rewrite has_own_names by done. rewrite Hm, Hx.
      rewrite bool_decide_false by (by intros [? ?]). simpl. by rewrite Hlen.
    + unfold persistent_handlers. by rewrite Hm.
    + unfold once_handlers. by rewrite Ho.
    + unfold register. by rewrite Hm, Hx.
    + unfold registerOnce. by rewrite Ho, Hx.
Qed.

(** X8.  A hole is never filled again.  Unregistering a handler and
    registering it anew appends it: the array of the name is one longer than
    before, and the handler is now the last of the name to be applied. *)
Theorem reregistered_handler_moves_last (n : string) (h : Function) (w : World)
    (r : nat) :
  well_formed w →
  NoDup (persistent_handlers w n) → NoDup (once_handlers w n) →
  oMessages (pool w) !! n = Some r → h ∈ persistent_handlers w n →
  full (array w r) = false →
  ∃ w1 w2,
    unregister n (Some h) w = (Normal true, w1) ∧
    register n h w1 = (Normal tt, w2) ∧
    oMessages (pool w2) !! n = Some r ∧
    length (array w2 r) = S (length (array w r)) ∧
    persistent_handlers w2 n
      = filter (fun g => g ≠ h) (persistent_handlers w n) ++ [h].
Proof.
  intros Hwf Hndp Hndo Hn Hin Hfull.
  assert (Some h ∈ array w r) as Hin'.
  { apply elem_of_present. unfold persistent_handlers in Hin. by rewrite Hn in Hin. }
  destruct (unregister_handler_spec n h w r) as
    (i & w1 & Hun & _ & Hm & Ha & Hp1 & _ & _ & _); try done.
  assert (r < length (arrays w)) as Hr by (destruct Hwf as [(_ & H2 & _) _]; by apply (H2 n)).
  assert (array w1 r = delete_index i (array w r)) as Harr.
  { unfold array at 1. rewrite Ha. by rewrite list_lookup_insert_eq. }
  assert (h ∉ persistent_handlers w1 n) as Hnot.
  { rewrite Hp1. intros [Hne _]%list_elem_of_filter. by apply Hne. }
  assert (indexOf h (array w1 r) = None) as Hidx.
  { apply indexOf_None. intros Hx%elem_of_present. apply Hnot.
    unfold persistent_handlers. by rewrite Hm, Hn. }
  exists w1, (set_arrays <[r := push h (array w1 r)]> w1).
  split; [done|].
  assert (register n h w1
          = (Normal tt, set_arrays <[r := push h (array w1 r)]> w1)) as Hreg.
  { unfold register. rewrite Hm, Hn, Hidx.
    unfold full in *. rewrite Harr, length_delete_index. by rewrite Hfull. }
  split; [done|]. cbn [pool set_arrays]. rewrite Hm. split; [done|].
  assert (array (set_arrays <[r := push h (array w1 r)]> w1) r = push h (array w1 r))
    as Harr2.
  { unfold array at 1. cbn [arrays set_arrays].
    rewrite list_lookup_insert_eq; [done|]. rewrite Ha, length_insert. done. }
  split.
  - by rewrite Harr2, length_push, Harr, length_delete_index.
  - unfold persistent_handlers at 1. cbn [pool set_arrays]. rewrite Hm, Hn, Harr2.
    rewrite present_push. f_equal. rewrite <- Hp1.
    unfold persistent_handlers. by rewrite Hm, Hn.
Qed.

End HasAndHandlers.

(** ["greet"] with a once-handler only, and ["greet"] after its only handler
    was unregistered. *)
Lemma has_is_not_about_handlers_witness :
  has "greet" relay_pool = Normal false ∧
  (∃ w1, unregister "greet" (Some (FnUser 0)) greeting_pool = (Normal true, w1) ∧
     has "greet" w1 = Normal true ∧
     persistent_handlers w1 "greet" = [] ∧ once_handlers w1 "greet" = []) ∧
  has "constructor" greeting_pool = Normal true ∧
  register "constructor" (FnUser 0) greeting_pool = (Throw TypeError, greeting_pool).
Proof.
  split; [|split].
  - destruct (has_is_not_about_handlers "greet" (FnUser 0) new_cMessagePool
                new_cMessagePool_well_formed) as (Honce & _ & _).
    apply (Honce eq_refl relay_pool eq_refl).
  - destruct (has_is_not_about_handlers "greet" (FnUser 0) greeting_pool)
      as (_ & Hhole & _).
    + apply register_well_formed, new_cMessagePool_well_formed.
    + apply Hhole; reflexivity.
  - destruct (has_is_not_about_handlers "constructor" (FnUser 0) greeting_pool)
      as (_ & _ & Hctor).
    + apply register_well_formed, new_cMessagePool_well_formed.
    + destruct (Hctor (builtin_function 1) eq_refl eq_refl) as (Hhas & _ & _ & Hreg & _).
      by split.
Defined.

(** The first of three handlers is unregistered and registered again: it is
    now the last. *)
Lemma reregistered_handler_moves_last_witness :
  ∃ w1 w2,
    unregister "greet" (Some (FnUser 0)) trio_pool = (Normal true, w1) ∧
    register "greet" (FnUser 0) w1 = (Normal tt, w2) ∧
    length (array w2 1) = 4 ∧
    persistent_handlers w2 "greet" = [FnUser 1; FnUser 2; FnUser 0].
Proof.
  destruct (reregistered_handler_moves_last "greet" (FnUser 0) trio_pool 1)
    as (w1 & w2 & Hun & Hreg & _ & Hlen & Hp).
  - apply trio_pool_well_formed.
  - change (NoDup [FnUser 0; FnUser 1; FnUser 2]).
    apply (bool_decide_unpack (NoDup [FnUser 0; FnUser 1; FnUser 2])). vm_compute. exact I.
  - change (NoDup (@nil Function)). constructor.
  - reflexivity.
  - change (FnUser 0 ∈ [FnUser 0; FnUser 1; FnUser 2]). left.
  - reflexivity.
  - exists w1, w2. split; [exact Hun|]. split; [exact Hreg|]. split; [exact Hlen|].
    exact Hp.
Defined.

(** ** A handler that throws *)

Section Throwing.
Context `{Host}.

Lemma call_failing (f : Function) (e : Exn) (args : list value) (w : World) :
  failing f e →
  ∃ w' es, call f args w = (Throw e, w') ∧
    oMessages (pool w') = oMessages (pool w) ∧
    oMessagesOnce (pool w') = oMessagesOnce (pool w) ∧
    arrays w' = arrays w ∧
    trace w' = trace w ++ es ∧ calls es = [(f, args)].
Proof.
  intros Hf. destruct (Hf args (emit (Call f args) w))
    as (w' & es & Happ & Hm & Ho & Ha & Ht & Hc).
  exists w', (Call f args :: es). unfold call. rewrite bind_run. simpl.
  rewrite Happ. repeat split; try done.
  - rewrite Ht. simpl. by rewrite <- app_assoc.
  - simpl. by rewrite Hc.
Qed.

(** A loop over an array that stays as it is stops at the first function
    that throws. *)
Lemma for_in_failing (lst : World → Array) (a : Array) (f : Function) (e : Exn)
    (args : list value) :
  failing f e → (∀ g, g ∈ present a → g ≠ f → inert g) →
  ∀ (ks : list nat) (w : World),
    (∀ w', arrays w' = arrays w → lst w' = a) →
    (∀ i, i ∈ ks → (Z.of_nat i < 2 ^ 31)%Z) →
    f ∈ omap (fun i => mjoin (a !! i)) ks →
    ∃ w' es hs1 hs2, for_in lst ks args w = (Throw e, w') ∧
      oMessages (pool w') = oMessages (pool w) ∧
      oMessagesOnce (pool w') = oMessagesOnce (pool w) ∧
      arrays w' = arrays w ∧
      trace w' = trace w ++ es ∧
      omap (fun i => mjoin (a !! i)) ks = hs1 ++ f :: hs2 ∧ (f ∉ hs1) ∧
      calls es = (fun g => (g, args)) <$> (hs1 ++ [f]).
Proof.
  intros Hf Hothers. induction ks as [|i ks IH]; intros w Hlst Hks Hin.
  { by apply elem_of_nil in Hin. }
  simpl for_in. rewrite (Hlst w eq_refl).
  assert (Hi : (Z.of_nat i < 2 ^ 31)%Z) by (apply Hks; left).
  assert (Hks' : ∀ j, j ∈ ks → (Z.of_nat j < 2 ^ 31)%Z)
    by (intros j Hj; apply Hks; by right).
  rewrite to_int32_small, get_index_of_nat by done.
  simpl omap in *. unfold hasOwnProperty.
  destruct (a !! i) as [[g|]|] eqn:Hai; simpl in *.
  - destruct (decide (g = f)) as [->|Hne].
    + destruct (call_failing f e args w Hf) as (w1 & es1 & Hcall & Hm1 & Ho1 & Ha1 & Ht1 & Hc1).
      rewrite bind_run, Hcall.
      exists w1, es1, [], (omap (fun i => mjoin (a !! i)) ks).
      repeat split; try done. by intros ?%elem_of_nil.
    + assert (inert g) as Hg.
      { apply Hothers; [|done]. apply elem_of_present. by eapply list_elem_of_lookup_2. }
      destruct (call_inert g args w Hg) as (w1 & es1 & Hcall & Hm1 & Ho1 & Ha1 & Ht1 & Hc1).
      rewrite bind_run, Hcall.
      destruct (IH w1) as (w2 & es2 & hs1 & hs2 & Hfor & Hm2 & Ho2 & Ha2 & Ht2 & Hsplit & Hnot & Hc2);
        try done.
      { intros w' Hw'. apply Hlst. congruence. }
      { apply elem_of_cons in Hin as [Heq|Hin]; [by subst|done]. }
      exists w2, (es1 ++ es2), (g :: hs1), hs2. rewrite Hfor.
      repeat split; try congruence.
      * rewrite Ht2, Ht1. by rewrite app_assoc.
      * simpl. f_equal. exact Hsplit.
      * intros [Heq|Hin']%elem_of_cons; [by subst|done].
      * rewrite calls_app, Hc1, Hc2. done.
  - by apply IH.
  - by apply IH.
Qed.

(** X9.  When a persistent handler of a name throws, the dispatch ends there:
    [recv] throws what the handler threw, the handlers before it in index
    order have been applied, those after it and the once-handlers of the name
    have not, and the once-handlers keep their registration. *)
Theorem throwing_handler_ends_dispatch (n : string) (f : Function) (e : Exn)
    (args : list value) (w : World) (r : nat) :
  oMessages (pool w) !! n = Some r → short (array w r) →
  f ∈ persistent_handlers w n → failing f e →
  (∀ g, g ∈ persistent_handlers w n → g ≠ f → inert g) →
  ∃ w' es hs1 hs2,
    recv (VStr n :: args) w = (Throw e, w') ∧
    trace w' = trace w ++ es ∧
    persistent_handlers w n = hs1 ++ f :: hs2 ∧ (f ∉ hs1) ∧
    calls es = (fun g => (g, args)) <$> (hs1 ++ [f]) ∧
    oMessages (pool w') = oMessages (pool w) ∧ arrays w' = arrays w ∧
    oMessagesOnce (pool w') = oMessagesOnce (pool w).
Proof.
  intros Hn Hshort Hin Hf Hothers. unfold persistent_handlers in *. rewrite Hn in *.
  unfold recv. change (recv_key (VStr n :: args)) with n.
  cbn [lookup list_lookup default tail id]. rewrite bind_run.
  destruct (recv_log_spec (VStr n) args w) as (es0 & -> & Hc0).
  rewrite bind_run. unfold recv_persistent. cbn [pool emit_all]. rewrite Hn.
  change (array (emit_all es0 w) r) with (array w r).
  destruct (for_in_failing (fun w' => array w' r) (array w r) f e args Hf Hothers
              (keys (array w r)) (emit_all es0 w))
    as (w1 & es1 & hs1 & hs2 & -> & Hm1 & Ho1 & Ha1 & Ht1 & Hsplit & Hnot & Hc1).
  { intros w' Hw'. unfold array. by rewrite Hw'. }
  { intros i Hi. by eapply keys_small. }
  { by rewrite omap_keys. }
  rewrite omap_keys in Hsplit.
  exists w1, (es0 ++ es1), hs1, hs2. repeat split; try done.
  - rewrite Ht1. simpl. by rewrite app_assoc.
  - by rewrite calls_app, Hc0, Hc1.
Qed.

(** X10.  When a once-handler of a name throws, [recv] throws what it threw,
    after the persistent handlers and the once-handlers before it have been
    applied.  The once-handlers behind it are not applied, and they are lost:
    the name has no once-handlers any more, since its entry was deleted
    before the first of them ran. *)
Theorem throwing_once_handler_loses_the_rest (n : string) (f : Function) (e : Exn)
    (args : list value) (w : World) (a : Array) :
  oMessagesOnce (pool w) !! n = Some a → short a →
  f ∈ present a → failing f e →
  (∀ g, g ∈ present a → g ≠ f → inert g) →
  (∀ r, oMessages (pool w) !! n = Some r →
        short (array w r) ∧ ∀ g, g ∈ present (array w r) → inert g) →
  ∃ w' es hs1 hs2,
    recv (VStr n :: args) w = (Throw e, w') ∧
    trace w' = trace w ++ es ∧
    once_handlers w n = hs1 ++ f :: hs2 ∧ (f ∉ hs1) ∧
    calls es = (fun g => (g, args)) <$> (persistent_handlers w n ++ hs1 ++ [f]) ∧
    oMessagesOnce (pool w') !! n = None ∧ once_handlers w' n = [].
Proof.
  intros Hn Hshort Hin Hf Hothers Hp.
  unfold recv. change (recv_key (VStr n :: args)) with n.
  cbn [lookup list_lookup default tail id]. rewrite bind_run.
  destruct (recv_log_spec (VStr n) args w) as (es0 & -> & Hc0).
  rewrite bind_run.
  destruct (recv_persistent_inert n args (emit_all es0 w))
    as (w1 & es1 & -> & Hm1 & Ho1 & Ha1 & Ht1 & Hc1); [exact Hp|].
  simpl in Hm1, Ho1, Ha1, Ht1.
  change (persistent_handlers (emit_all es0 w) n) with (persistent_handlers w n) in Hc1.
  unfold recv_once. rewrite Ho1, Hn.
  destruct (for_in_failing (fun _ => a) a f e args Hf Hothers (keys a)
              (set_pool (set_oMessagesOnce (delete n)) w1))
    as (w2 & es2 & hs1 & hs2 & -> & Hm2 & Ho2 & Ha2 & Ht2 & Hsplit & Hnot & Hc2).
  { done. }
  { intros i Hi. by eapply keys_small. }
  { by rewrite omap_keys. }
  rewrite omap_keys in Hsplit. simpl in Ho2, Ht2.
  exists w2, (es0 ++ es1 ++ es2), hs1, hs2.
  assert (oMessagesOnce (pool w2) !! n = None) as Hgone
    by (rewrite Ho2; apply lookup_delete_eq).
  repeat split; try done.
  - rewrite Ht2, Ht1. by rewrite <- !app_assoc.
  - unfold once_handlers. by rewrite Hn.
  - rewrite !calls_app, Hc0, Hc1, Hc2. cbn [app]. symmetry. apply fmap_app.
  - unfold once_handlers. by rewrite Hgone.
Qed.

(** A callable whose body makes passive calls and then throws. *)
Lemma throwing_body (id : nat) :
  (∀ args, ∃ pre post, body id args = pre ++ c_throw :: post ∧
                       forallb passive pre = true) →
  failing (FnUser id) Thrown.
Proof.
  intros Hid args w. simpl. destruct (Hid args) as (pre & post & -> & Hpre).
  clear Hid. revert w. induction pre as [|c pre IH]; intros w.
  { exists w, []. rewrite app_nil_r. by repeat split. }
  simpl in Hpre. apply andb_true_iff in Hpre as [Hc Hpre].
  destruct (exec_passive c w Hc) as (w1 & es1 & He & Hm1 & Ho1 & Ha1 & Ht1 & Hc1).
  destruct (IH Hpre w1) as (w2 & es2 & He2 & Hm2 & Ho2 & Ha2 & Ht2 & Hc2).
  exists w2, (es1 ++ es2). simpl. rewrite bind_run, He, He2.
  repeat split; try congruence.
  - rewrite Ht2, Ht1. by rewrite app_assoc.
  - by rewrite calls_app, Hc1, Hc2.
Qed.

End Throwing.


Lemma faulty_failing : failing (H := faulty_host) (FnUser 9) Thrown.
Proof.
  apply (throwing_body (H := faulty_host)). intros args.
  by exists [c_log (VStr "about to fail")], [].
Qed.

Lemma faulty_inert (id : nat) : id ≠ 9 → inert (H := faulty_host) (FnUser id).
Proof.
  intros Hid. apply (passive_inert (H := faulty_host)). intros args.
  do 10 (destruct id as [|id]; try done).
Qed.

(** Callable 9 is the second of three persistent handlers of ["greet"]. *)
Lemma throwing_handler_ends_dispatch_witness :
  ∃ w' es hs1 hs2,
    recv (H := faulty_host) [VStr "greet"; VStr "world"] faulty_pool = (Throw Thrown, w') ∧
    trace w' = trace faulty_pool ++ es ∧
    [FnUser 0; FnUser 9; FnUser 1] = hs1 ++ FnUser 9 :: hs2 ∧ (FnUser 9 ∉ hs1) ∧
    calls es = (fun g => (g, [VStr "world"])) <$> (hs1 ++ [FnUser 9]) ∧
    once_handlers w' "greet" = [FnUser 2].
Proof.
  destruct (throwing_handler_ends_dispatch (H := faulty_host) "greet" (FnUser 9) Thrown
              [VStr "world"] faulty_pool 1)
    as (w' & es & hs1 & hs2 & Hrecv & Ht & Hsplit & Hnot & Hc & _ & _ & Ho).
  - reflexivity.
  - by vm_compute.
  - change (FnUser 9 ∈ [FnUser 0; FnUser 9; FnUser 1]). right. left.
  - apply faulty_failing.
  - intros g Hg Hne. change (g ∈ [FnUser 0; FnUser 9; FnUser 1]) in Hg.
    apply list_elem_of_In in Hg. simpl in Hg.
    destruct Hg as [<-|[<-|[<-|[]]]]; try done; by apply faulty_inert.
  - exists w', es, hs1, hs2. split; [exact Hrecv|]. split; [exact Ht|].
    split; [exact Hsplit|]. split; [exact Hnot|]. split; [exact Hc|].
    unfold once_handlers. rewrite Ho. reflexivity.
Defined.

(** Callable 9 is the second of three once-handlers of ["greet"]: the third
    is never applied. *)
Lemma throwing_once_handler_loses_the_rest_witness :
  ∃ w' es hs1 hs2,
    recv (H := faulty_host) [VStr "greet"; VStr "world"] faulty_once_pool
      = (Throw Thrown, w') ∧
    [FnUser 0; FnUser 9; FnUser 1] = hs1 ++ FnUser 9 :: hs2 ∧ (FnUser 9 ∉ hs1) ∧
    calls es = (fun g => (g, [VStr "world"])) <$> (hs1 ++ [FnUser 9]) ∧
    once_handlers w' "greet" = [].
Proof.
  destruct (throwing_once_handler_loses_the_rest (H := faulty_host) "greet" (FnUser 9)
              Thrown [VStr "world"] faulty_once_pool
              [Some (FnUser 0); Some (FnUser 9); Some (FnUser 1)])
    as (w' & es & hs1 & hs2 & Hrecv & _ & Hsplit & Hnot & Hc & _ & Hgone).
  - reflexivity.
  - by vm_compute.
  - right. left.
  - apply faulty_failing.
  - intros g Hg Hne. change (g ∈ [FnUser 0; FnUser 9; FnUser 1]) in Hg.
    apply list_elem_of_In in Hg. simpl in Hg.
    destruct Hg as [<-|[<-|[<-|[]]]]; try done; by apply faulty_inert.
  - intros r Hr. vm_compute in Hr. discriminate.
  - exists w', es, hs1, hs2. split; [exact Hrecv|]. split; [exact Hsplit|].
    split; [exact Hnot|]. split; [exact Hc|]. exact Hgone.
Defined.

(** ** Payloads that are not arrays of the wire format *)

Section Payloads.
Context `{Host}.

(** X11.  What a ready pool does with a payload that parses but is not a
    non-empty array.  A number, a boolean or a string is refused by
    [recv.apply] with a TypeError, and nothing else happens.  [null] and the
    empty array are dispatched as a message without a name: the log function
    is called with the text of [undefined] where the name belongs, which no
    exclusion list can prevent, and the handlers registered under that text
    are applied to no arguments. *)
Theorem nameless_payload_when_ready (event : MessageEvent) (w : World) (v : value) :
  bReady (pool w) = Some true →
  JSON_parse (data event) = Some v →
  ((∃ b, v = VBool b) ∨ (∃ x, v = VNum x) ∨ (∃ s, v = VStr s) →
     onMessage event w = (Throw TypeError, w)) ∧
  (v = VNull ∨ v = VArr [] →
     onMessage event w
     = (recv_persistent (ToString VUndefined) [];;
        recv_once (ToString VUndefined) [])
         (emit (Log (fnLog (pool w))
                  [log_head (sName (pool w)) "" (ToString VUndefined) []]) w)).
Proof.
  intros Hready Hparse. unfold onMessage. rewrite Hparse, decide_True by done.
  split.
  - intros [[b ->] | [[x ->] | [s ->]]]; reflexivity.
  - intros [-> | ->]; reflexivity.
Qed.

(** X12.  What a pool that is not ready does with a payload that parses but
    is not an array.  A number, a boolean, [null] and the empty string are
    ignored.  A non-empty string is taken for a message named by its first
    UTF-16 code unit, which is its first character when that is no higher
    than U+FFFF: unless that name is on the exclusion list, [messageLog]
    throws a TypeError, because a string has no [shift]; nothing is logged
    and the pool is unchanged. *)
Theorem scalar_payload_when_not_ready (event : MessageEvent) (w : World) (v : value) :
  bReady (pool w) ≠ Some true →
  JSON_parse (data event) = Some v →
  (v = VNull ∨ v = VStr "" ∨ (∃ b, v = VBool b) ∨ (∃ x, v = VNum x) →
     onMessage event w = (Normal tt, w)) ∧
  (∀ c s, v = VStr (String c s) →
     onMessage event w
     = (if decide (first_unit c s ∈ aExcludeLog (pool w)) then Normal tt
        else Throw TypeError, w)) ∧
  (∀ c s, v = VStr (String c s) → (N_of_ascii c < 128)%N →
     onMessage event w
     = (if decide (String c "" ∈ aExcludeLog (pool w)) then Normal tt
        else Throw TypeError, w)).
Proof.
  intros Hready Hparse. unfold onMessage. rewrite Hparse, decide_False by done.
  assert (∀ c s, messageLog (VStr (String c s)) "SKIP " w
                 = (if decide (first_unit c s ∈ aExcludeLog (pool w)) then Normal tt
                    else Throw TypeError, w)) as Hstring.
  { intros c s. unfold messageLog. cbn [index0].
    destruct (first_unit_cons c s) as (c' & s' & Heq). rewrite Heq. simpl.
    by destruct (decide _). }
  split; [|split].
  - intros [-> | [-> | [[b ->] | [x ->]]]]; reflexivity.
  - intros c s ->. apply Hstring.
  - intros c s -> Hc. rewrite Hstring. by rewrite first_unit_ascii.
Qed.

(** X14.  [init(sName, fnLog)] redirects all three kinds of log call, and a
    missing [fnLog] turns logging off rather than back to [console.log]: after
    it, [log], the log call of a dispatch and the SKIP and DROP reports go to
    the function given, or to the empty function, under the new name.  The
    registries, the exclusion list and the readiness flag stay as they
    are. *)
Theorem init_redirects_logging (sName' : string) (fnLog' : option nat) (w : World) :
  fnLog (pool (init sName' fnLog' w))
    = match fnLog' with Some id => user_log id | None => empty_function end ∧
  (∀ oMessage,
     log oMessage (init sName' fnLog' w)
     = emit (Log (fnLog (pool (init sName' fnLog' w)))
               (VStr ("[" +:+ sName' +:+ "]:")
                  :: match oMessage with VUndefined => [] | _ => [oMessage] end))
         (init sName' fnLog' w)) ∧
  (∀ s args, s ∉ aExcludeLog (pool w) →
     recv_log (VStr s) args (init sName' fnLog' w)
     = (Normal tt,
        emit (Log (fnLog (pool (init sName' fnLog' w)))
                (log_head sName' "" s args :: args)) (init sName' fnLog' w))) ∧
  (∀ s rest sPrefix, s ≠ "" → s ∉ aExcludeLog (pool w) →
     messageLog (VArr (VStr s :: rest)) sPrefix (init sName' fnLog' w)
     = (Normal tt,
        emit (Log (fnLog (pool (init sName' fnLog' w)))
                (log_head sName' sPrefix s rest :: rest)) (init sName' fnLog' w))) ∧
  oMessages (pool (init sName' fnLog' w)) = oMessages (pool w) ∧
  oMessagesOnce (pool (init sName' fnLog' w)) = oMessagesOnce (pool w) ∧
  aExcludeLog (pool (init sName' fnLog' w)) = aExcludeLog (pool w) ∧
  bReady (pool (init sName' fnLog' w)) = bReady (pool w) ∧
  arrays (init sName' fnLog' w) = arrays w ∧
  trace (init sName' fnLog' w) = trace w.
Proof.
  split; [done|]. split.
  { intros oMessage. unfold log. cbn [init pool set_pool sName fnLog].
    by destruct oMessage. }
  split.
  { intros s args Hs. unfold recv_log. cbn [excluded init pool set_pool aExcludeLog].
    by rewrite bool_decide_false. }
  split; [|done].
  intros s rest sPrefix Hne Hs. rewrite messageLog_array.
  cbn [init pool set_pool aExcludeLog]. rewrite decide_False; [done|].
  intros [?|?]; done.
Qed.

End Payloads.

(** The payloads [7] and [null] on the ready pool. *)
Lemma nameless_payload_when_ready_witness :
  onMessage (H := plain_host) {| data := "7"; source := Some 1 |} ready_pool
    = (Throw TypeError, ready_pool) ∧
  trace (snd (onMessage (H := plain_host) {| data := "null"; source := Some 1 |}
                ready_pool))
    = trace ready_pool ++ [Log console_log [VStr "[MessagePool]: undefined"]].
Proof.
  split.
  - destruct (nameless_payload_when_ready (H := plain_host)
                {| data := "7"; source := Some 1 |} ready_pool (VNum "7")
                eq_refl eq_refl) as [Hscalar _].
    apply Hscalar. right. left. by exists "7".
  - destruct (nameless_payload_when_ready (H := plain_host)
                {| data := "null"; source := Some 1 |} ready_pool VNull
                eq_refl eq_refl) as [_ Hnull].
    rewrite Hnull by (by left). reflexivity.
Defined.

(** The payload ["hello"], a JSON string, on the pool that is not ready; and
    the payload ["élan"] once ["é"], two bytes and one code unit, is exempt
    from logging. *)
Lemma scalar_payload_when_not_ready_witness :
  onMessage (H := plain_host) {| data := quoted "hello"; source := Some 1 |}
    new_cMessagePool
  = (Throw TypeError, new_cMessagePool) ∧
  onMessage (H := plain_host) {| data := quoted "élan"; source := Some 1 |}
    (excludeLog false ["é"] new_cMessagePool)
  = (Normal tt, excludeLog false ["é"] new_cMessagePool).
Proof.
  split.
  - destruct (scalar_payload_when_not_ready (H := plain_host)
                {| data := quoted "hello"; source := Some 1 |} new_cMessagePool
                (VStr "hello")) as (_ & _ & Hascii).
    + discriminate.
    + reflexivity.
    + rewrite (Hascii "h"%char "ello" eq_refl); [reflexivity|]. by vm_compute.
  - destruct (scalar_payload_when_not_ready (H := plain_host)
                {| data := quoted "élan"; source := Some 1 |}
                (excludeLog false ["é"] new_cMessagePool)
                (VStr "élan")) as (_ & Hstring & _).
    + discriminate.
    + reflexivity.
    + rewrite (Hstring "195"%char (String "169"%char "lan") eq_refl). reflexivity.
Defined.

(** ** Sessions: cancelling twice, and answers that come too early *)

Section Cancelling.
Context `{Host}.

Lemma unregister_sessions (n : string) (fo : option Function) (w : World) :
  sessions (snd (unregister n fo w)) = sessions w.
Proof.
  apply (preserves_unregister (fun w' => sessions w' = sessions w) n fo); [| |done];
    intros w0 Hw0; [unfold unregister_persistent|unfold unregister_once];
    unfold unregister_inherited; repeat case_match; simpl; done.
Qed.

Lemma unregister_once_handlers (n : string) (f : Function) (w : World) :
  inherited n = None →
  NoDup (once_handlers w n) → f ∉ once_handlers (snd (unregister n (Some f) w)) n.
Proof.
  intros Hi Hnd. unfold unregister. rewrite bind_run.
  destruct (unregister_persistent_spec n (Some f) w) as (_ & _ & P3 & _ & _ & P6).
  destruct (P6 Hi) as [b1 Hb1].
  destruct (unregister_persistent n (Some f) w) as [c1 w1]. cbn [fst snd] in *.
  subst c1. rewrite bind_run.
  unfold unregister_once, once_handlers in *. rewrite P3, Hi.
  destruct (oMessagesOnce (pool w) !! n) as [a|] eqn:Ha.
  - destruct (lastIndexOf f a) as [j|] eqn:Hj;
      cbn [snd pool set_pool set_oMessagesOnce oMessagesOnce mret M_ret].
    + rewrite lookup_insert_eq, (present_delete_last _ _ _ Hnd Hj).
      intros [Hne _]%list_elem_of_filter. by apply Hne.
    + rewrite P3, Ha. intros Hin%elem_of_present. by apply lastIndexOf_None in Hj.
  - cbn [snd mret M_ret]. rewrite P3, Ha. by intros ?%elem_of_nil.
Qed.

Lemma unregister_timers (n : string) (fo : option Function) (w : World) :
  timers (snd (unregister n fo w)) = timers w.
Proof.
  apply (preserves_unregister (fun w' => timers w' = timers w) n fo); [| |done];
    intros w0 Hw0; [unfold unregister_persistent|unfold unregister_once];
    unfold unregister_inherited; repeat case_match; simpl; done.
Qed.

(** X15.  [cancel()] can be called again: the second call finds [iSync]
    [null] and does nothing.  A cancel of a session that has a timeout id
    leaves no timeout with that id pending and removes the session's pong
    handler from the once-handlers of [evPong]; afterwards the session has no
    timeout id. *)
Theorem cancel_is_idempotent (s : nat) (w : World) :
  cancel s (cancel s w) = cancel s w ∧
  (∀ o, sessions (cancel s w) !! s = Some o → iSync o = None) ∧
  (∀ o i, sessions w !! s = Some o → iSync o = Some i →
     (∀ t, t ∈ timers (cancel s w) → timer_id t ≠ i) ∧
     (NoDup (once_handlers w evPong) →
        FnPong s ∉ once_handlers (cancel s w) evPong)).
Proof.
  destruct (sessions w !! s) as [o|] eqn:Hs.
  - destruct (iSync o) as [i|] eqn:Hi.
    + assert (cancel s w
              = set_iSync s None
                  (snd (unregister evPong (Some (FnPong s)) (clearTimeout (Some i) w))))
        as Hc by (unfold cancel; by rewrite Hs, Hi).
      assert (sessions (cancel s w) !! s
              = Some {| oTarget := oTarget o; fnCallback := fnCallback o;
                        iSync := None |}) as Hs'.
      { rewrite Hc. cbn [set_iSync sessions set_sessions]. rewrite unregister_sessions.
        cbn [clearTimeout sessions set_timers]. by rewrite list_lookup_alter, decide_True, Hs. }
      split; [|split].
      * unfold cancel at 1. by rewrite Hs'.
      * intros o'. rewrite Hs'. by intros [= <-].
      * intros o' i' [= <-] Hi'. rewrite Hi in Hi'. injection Hi' as <-. split.
        -- intros t. rewrite Hc. cbn [set_iSync timers set_sessions].
           rewrite unregister_timers. cbn [clearTimeout timers set_timers].
           by intros [Hne _]%list_elem_of_filter.
        -- intros Hnd. rewrite Hc.
           change (FnPong s ∉ once_handlers
                     (snd (unregister evPong (Some (FnPong s))
                             (clearTimeout (Some i) w))) evPong).
           by apply unregister_once_handlers.
    + assert (cancel s w = w) as Hc by (unfold cancel; by rewrite Hs, Hi).
      rewrite !Hc. split; [done|]. split.
      * intros o'. rewrite Hs. by intros [= <-].
      * intros o' i' [= <-] Hi'. congruence.
  - assert (cancel s w = w) as Hc by (unfold cancel; by rewrite Hs).
    rewrite !Hc. split; [done|]. split; [by rewrite Hs|]. by intros o' i'.
Qed.

End Cancelling.

Section Answers.
Context `{Host}.
Context (oTarget' : Target) (fnCallback' : nat) (win : Window).
Hypothesis resolved : resolve oTarget' = Some win.

Lemma elapsed_app (l1 l2 : list Step) : elapsed (l1 ++ l2) = elapsed l1 + elapsed l2.
Proof.
  induction l1 as [|[c|event|] l1 IH]; simpl; try done. by rewrite IH.
Qed.

Lemma waited_S (t : nat) :
  waited oTarget' fnCallback' (S t) = tick (waited oTarget' fnCallback' t).
Proof.
  unfold waited. replace (S t) with (t + 1) by lia.
  by rewrite replicate_add, run_app.
Qed.

Lemma waited_is_syncing (t : nat) :
  syncing oTarget' fnCallback' win (t / 1000) (1000 - t mod 1000)
    (waited oTarget' fnCallback' t).
Proof.
  pose proof (Nat.mod_upper_bound t 1000 ltac:(lia)) as Hj.
  rewrite (Nat.div_mod_eq t 1000) at 3.
  by apply (waited_syncing oTarget' fnCallback' win resolved).
Qed.

Lemma waited_pool (t : nat) :
  pool (waited oTarget' fnCallback' t)
  = set_oMessagesOnce <[evPong := [Some (FnPong 0)]]> (pool new_cMessagePool).
Proof.
  destruct (waited_is_syncing t) as (Hp & _). rewrite Hp.
  by destruct (synchronize_starts oTarget' fnCallback' win resolved new_cMessagePool)
    as (-> & _).
Qed.

Lemma onMessage_pong_skipped (event : MessageEvent) (w : World) :
  is_pong event → bReady (pool w) ≠ Some true → evPong ∈ aExcludeLog (pool w) →
  onMessage event w = (Normal tt, w).
Proof.
  intros Hpong Hready Hex. unfold onMessage. rewrite Hpong, decide_False by done.
  by apply messageLog_excluded.
Qed.

(** X16.  A pong that arrives before [ready(true)] is lost.  On a pool that
    is not ready, a session whose pongs arrive, in any number and at any
    time, is in the state of a session nobody answers: the pongs leave no
    trace, the callback is not applied, and the pings go on, one when the
    session is created and one per interval of 1000 ms since. *)
Theorem pong_before_ready_is_lost (steps : list Step) :
  (∀ st, st ∈ steps → st = s_tick ∨ ∃ event, st = s_message event ∧ is_pong event) →
  run steps (snd (synchronize oTarget' fnCallback' new_cMessagePool))
    = waited oTarget' fnCallback' (elapsed steps) ∧
  invocations (FnUser fnCallback')
    (trace (run steps (snd (synchronize oTarget' fnCallback' new_cMessagePool)))) = 0 ∧
  posts (trace (run steps (snd (synchronize oTarget' fnCallback' new_cMessagePool))))
    = replicate (S (elapsed steps / 1000)) (win, JSON_stringify [VStr evPing]).
Proof.
  intros Hsteps.
  assert (run steps (snd (synchronize oTarget' fnCallback' new_cMessagePool))
          = waited oTarget' fnCallback' (elapsed steps)) as Hrun.
  { induction steps as [|st steps IH] using rev_ind; [done|].
    rewrite run_app, elapsed_app, IH.
    2: { intros st' Hst'. apply Hsteps. apply elem_of_app. by left. }
    destruct (Hsteps st) as [-> | (event & -> & Hpong)].
    { apply elem_of_app. right. by left. }
    - simpl. rewrite Nat.add_1_r. by rewrite waited_S.
    - simpl. rewrite Nat.add_0_r.
      change (run [s_message event] ?w) with (snd (onMessage event w)).
      rewrite onMessage_pong_skipped; try done.
      + by rewrite waited_pool.
      + rewrite waited_pool. apply (bool_decide_unpack _). by vm_compute. }
  rewrite Hrun. split; [done|].
  destruct (waited_is_syncing (elapsed steps)) as (_ & _ & _ & _ & _ & Htr & _).
  rewrite Htr. split.
  - rewrite invocations_post, invocations_pings. by rewrite decide_False.
  - by rewrite posts_post, posts_pings.
Qed.

Lemma invocations_call (f g : Function) (args : list value) :
  invocations f [Call g args] = if decide (g = f) then 1 else 0.
Proof.
  unfold invocations. simpl. destruct (decide (g = f)) as [->|Hne].
  - by rewrite filter_cons_True.
  - by rewrite filter_cons_False.
Qed.

Lemma bind_ret_unit (m : M unit) (w : World) : (m ≫= fun _ => mret tt) w = m w.
Proof. rewrite bind_run. by destruct (m w) as [[[]|e] w']. Qed.

(** Passive calls return, and leave everything but the trace and the
    pool's name, log function, exclusion list and flag as it is. *)
Lemma exec_all_passive (cs : list Cmd) (w : World) :
  forallb passive cs = true →
  ∃ w' es, exec_all cs w = (Normal tt, w') ∧
    trace w' = trace w ++ es ∧ calls es = [] ∧
    oMessages (pool w') = oMessages (pool w) ∧
    oMessagesOnce (pool w') = oMessagesOnce (pool w) ∧
    arrays w' = arrays w ∧ sessions w' = sessions w ∧ timers w' = timers w.
Proof.
  revert w. induction cs as [|c cs IH]; intros w Hcs.
  { exists w, []. rewrite app_nil_r. by repeat split. }
  simpl in Hcs. apply andb_true_iff in Hcs as [Hc Hcs].
  assert (∃ w1 es1, exec c w = (Normal tt, w1) ∧
            trace w1 = trace w ++ es1 ∧ calls es1 = [] ∧
            oMessages (pool w1) = oMessages (pool w) ∧
            oMessagesOnce (pool w1) = oMessagesOnce (pool w) ∧
            arrays w1 = arrays w ∧ sessions w1 = sessions w ∧ timers w1 = timers w)
    as (w1 & es1 & He & Ht1 & Hc1 & Hm1 & Ho1 & Ha1 & Hs1 & Hti1).
  { destruct c; try discriminate; simpl.
    - eexists _, []. rewrite app_nil_r. by repeat split.
    - eexists _, []. rewrite app_nil_r. by repeat split.
    - eexists _, [_]. by repeat split.
    - destruct (send_effects oTarget0 arguments w) as (es & -> & Hes).
      by exists (emit_all es w), es.
    - unfold modify, ready. destruct (decide _).
      + exists w, []. rewrite app_nil_r. by repeat split.
      + destruct (decide _).
        * eexists _, [_]. by repeat split.
        * eexists _, []. rewrite app_nil_r. by repeat split.
    - eexists _, [_]. by repeat split. }
  destruct (IH w1 Hcs) as (w2 & es2 & He2 & Ht2 & Hc2 & Hm2 & Ho2 & Ha2 & Hs2 & Hti2).
  exists w2, (es1 ++ es2). simpl. rewrite bind_run, He, He2.
  repeat split; try congruence.
  - rewrite Ht2, Ht1. by rewrite app_assoc.
  - by rewrite calls_app, Hc1, Hc2.
Qed.

(** A pong on a ready pool whose only once-handler for [evPong] is that of
    session 0: the timeout is cleared and the callback applied. *)
Lemma pong_runs_onPong (event : MessageEvent) (w : World) (o : Synchronization) :
  is_pong event → bReady (pool w) = Some true → evPong ∈ aExcludeLog (pool w) →
  oMessages (pool w) !! evPong = None →
  oMessagesOnce (pool w) !! evPong = Some [Some (FnPong 0)] →
  sessions w !! 0 = Some o →
  onMessage event w
  = exec_all (body (fnCallback o) [])
      (emit (Call (FnUser (fnCallback o)) [])
         (clearTimeout (iSync o)
            (emit (Call (FnPong 0) [])
               (set_pool (set_oMessagesOnce (delete evPong)) w)))).
Proof.
  intros Hpong Hready Hex Hm Ho Hs. unfold onMessage. rewrite Hpong.
  rewrite decide_True by done. unfold recv_apply, arguments_of, recv.
  change (recv_key [VStr evPong]) with evPong.
  cbn [lookup list_lookup default tail id]. rewrite bind_run.
  rewrite recv_log_excluded by done. rewrite bind_run.
  unfold recv_persistent. rewrite Hm. unfold recv_once. rewrite Ho.
  change (keys [Some (FnPong 0)]) with [0]. cbn [for_in].
  change (hasOwnProperty [Some (FnPong 0)] 0) with true. cbv iota.
  change (get_index [Some (FnPong 0)] (to_int32 0)) with (Some (FnPong 0)). cbv iota.
  rewrite bind_ret_unit. unfold call. rewrite bind_run. unfold modify at 1.
  cbv beta iota. cbn [apply_fn]. unfold onPong.
  cbn [sessions emit set_pool]. rewrite Hs.
  rewrite bind_run. unfold modify at 1. cbv beta iota.
  rewrite bind_run. unfold modify at 1. cbv beta iota. done.
Qed.

(** X17.  A pong that arrives at a ready pool completes the session: the
    pending timeout is cleared and the callback is applied, once and without
    arguments.  From then on the session is over: whatever arrives later,
    further pongs included, and however much time passes, the callback is not
    applied again and the session sends no further ping.  (The callback, and
    the application afterwards, may call [ready], [post], [send], [log],
    [init] and [excludeLog].) *)
Theorem pong_completes_session (k j : nat) (event : MessageEvent) :
  j < 1000 →
  (∀ args, forallb passive (body fnCallback' args) = true) →
  is_pong event →
  ∃ w' es,
    onMessage event (ready (Some true) (waited oTarget' fnCallback' (1000 * k + j)))
      = (Normal tt, w') ∧
    trace w' = trace (ready (Some true) (waited oTarget' fnCallback' (1000 * k + j))) ++ es ∧
    calls es = [(FnPong 0, []); (FnUser fnCallback', [])] ∧
    timers w' = [] ∧
    oMessagesOnce (pool w') !! evPong = None ∧
    (∀ steps, (∀ cmd, s_do cmd ∈ steps → passive cmd = true) →
       invocations (FnUser fnCallback') (trace (run steps w')) = 1 ∧
       invocations (FnSync 0) (trace (run steps w')) = k).
Proof.
  intros Hj Hbody Hpong.
  pose proof (waited_syncing oTarget' fnCallback' win resolved k j Hj)
    as (Hp & Ha & Hs & Ht & Hi & Htr & Hd).
  pose proof (waited_pool (1000 * k + j)) as Hpool.
  set (W := waited oTarget' fnCallback' (1000 * k + j)) in *. clearbody W.
  assert (ready (Some true) W = emit BindEvent (set_pool (set_bReady (Some true)) W))
    as Hready.
  { unfold ready. rewrite Hpool. rewrite decide_False by done.
    by rewrite decide_True. }
  rewrite Hready.
  rewrite (pong_runs_onPong event _
             {| oTarget := oTarget'; fnCallback := fnCallback'; iSync := Some (S k) |});
    try done.
  2: { cbn [pool emit set_pool set_bReady aExcludeLog]. rewrite Hpool.
       apply (bool_decide_unpack _). by vm_compute. }
  2: { cbn [pool emit set_pool set_bReady oMessages]. by rewrite Hpool. }
  2: { cbn [pool emit set_pool set_bReady oMessagesOnce]. rewrite Hpool.
       cbn [oMessagesOnce set_oMessagesOnce]. by rewrite lookup_insert_eq. }
  2: { cbn [sessions emit set_pool]. by rewrite Hs. }
  cbn [fnCallback iSync].
  set (w0 := emit (Call (FnUser fnCallback') [])
               (clearTimeout (Some (S k))
                  (emit (Call (FnPong 0) [])
                     (set_pool (set_oMessagesOnce (delete evPong))
                        (emit BindEvent (set_pool (set_bReady (Some true)) W)))))).
  assert (idle (FnUser fnCallback') (FnSync 0) 1 k w0) as Hidle.
  { split; [|split; [|split; [|split]]].
    - cbn. rewrite Ht. rewrite filter_cons_False; [done|]. intros Hn. by apply Hn.
    - cbn. rewrite Ha. intros r a x Hr Hx. destruct r as [|r]; [|done].
      injection Hr as <-. apply list_elem_of_singleton in Hx. by injection Hx.
    - cbn. rewrite Hpool. cbn. intros m a x Hm.
      apply lookup_delete_Some in Hm as [Hne Hm].
      rewrite lookup_insert_ne in Hm by done.
      change (oMessagesOnce (pool new_cMessagePool)) with (∅ : gmap string Array) in Hm.
      by rewrite lookup_empty in Hm.
    - change (trace w0) with (((trace W ++ [BindEvent]) ++ [Call (FnPong 0) []])
                                ++ [Call (FnUser fnCallback') []]).
      rewrite !invocations_app, Htr, invocations_post, invocations_pings.
      rewrite !invocations_call, !decide_False, decide_True by done. done.
    - change (trace w0) with (((trace W ++ [BindEvent]) ++ [Call (FnPong 0) []])
                                ++ [Call (FnUser fnCallback') []]).
      rewrite !invocations_app, Htr, invocations_post, invocations_pings.
      rewrite !invocations_call, decide_True, !decide_False by done.
      change (invocations (FnSync 0) [BindEvent]) with 0. lia. }
  destruct (exec_all_passive (body fnCallback' []) w0 (Hbody []))
    as (w' & es & Hexec & Htr' & Hcalls & Hm' & Ho' & Ha' & Hs' & Hti').
  assert (idle (FnUser fnCallback') (FnSync 0) 1 k w') as Hidle'.
  { pose proof (preserves_exec_all _ _ _ _
                  (idle_stable (FnUser fnCallback') (FnSync 0) 1 k
                     ltac:(discriminate) ltac:(discriminate))
                  (body fnCallback' []) ) as Hpres.
    assert (∀ c, c ∈ body fnCallback' [] → passive c = true) as Hall.
    { intros c Hc%list_elem_of_In.
      by apply (proj1 (forallb_forall passive _) (Hbody [])). }
    specialize (Hpres Hall w0 Hidle). by rewrite Hexec in Hpres. }
  exists w', ([Call (FnPong 0) []; Call (FnUser fnCallback') []] ++ es).
  split; [done|]. split; [|split; [|split; [|split]]].
  - rewrite Htr'. cbn [trace emit clearTimeout set_timers set_pool w0].
    by rewrite <- !app_assoc.
  - rewrite calls_app, Hcalls. done.
  - by destruct Hidle'.
  - rewrite Ho'. cbn. apply lookup_delete_eq.
  - intros steps Hsteps.
    assert (idle (FnUser fnCallback') (FnSync 0) 1 k (run steps w'))
      as (_ & _ & _ & Hc & Hk); [|done].
    refine (preserves_run _ _ _ _
              (idle_stable (FnUser fnCallback') (FnSync 0) 1 k _ _)
              steps _ _ Hidle'); [done|done|].
    intros st Hst. destruct st as [cmd| |]; simpl; [|done|done].
    by apply Hsteps.
Qed.

End Answers.


(** Two pongs of the parent window, a millisecond apart, before the pool is
    ready. *)
Lemma pong_before_ready_is_lost_witness :
  run (H := plain_host) [s_message pong_from_parent; s_tick; s_message pong_from_parent]
    (snd (synchronize (H := plain_host) TNull 7 new_cMessagePool))
  = waited (H := plain_host) TNull 7 1.
Proof.
  apply (pong_before_ready_is_lost (H := plain_host) TNull 7 1 eq_refl
           [s_message pong_from_parent; s_tick; s_message pong_from_parent]).
  intros st Hst. apply list_elem_of_In in Hst. simpl in Hst.
  destruct Hst as [<-|[<-|[<-|[]]]].
  - right. exists pong_from_parent. split; reflexivity.
  - left. reflexivity.
  - right. exists pong_from_parent. split; reflexivity.
Defined.

(** The parent window answers five milliseconds after the session was
    created. *)
Lemma pong_completes_session_witness :
  ∃ w' es,
    onMessage (H := plain_host) pong_from_parent
      (ready (Some true) (waited (H := plain_host) TNull 7 (1000 * 0 + 5)))
      = (Normal tt, w') ∧
    calls es = [(FnPong 0, []); (FnUser 7, [])] ∧
    timers w' = [] ∧
    ∀ steps, (∀ cmd, s_do cmd ∈ steps → passive cmd = true) →
      invocations (FnUser 7) (trace (run (H := plain_host) steps w')) = 1.
Proof.
  destruct (pong_completes_session (H := plain_host) TNull 7 1 eq_refl 0 5
              pong_from_parent)
    as (w' & es & Hrun & _ & Hcalls & Htimers & _ & Hlater).
  - lia.
  - reflexivity.
  - reflexivity.
  - exists w', es. split; [exact Hrun|]. split; [exact Hcalls|]. split; [exact Htimers|].
    intros steps Hsteps. by destruct (Hlater steps Hsteps).
Defined.

(** ** Two sessions and one pong *)

Section TwoSessions.
Context `{Host}.
Context (oTarget1 : Target) (fnCallback1 : nat) (win1 : Window).
Context (oTarget2 : Target) (fnCallback2 : nat) (win2 : Window).
Hypothesis resolved1 : resolve oTarget1 = Some win1.
Hypothesis resolved2 : resolve oTarget2 = Some win2.

(** [synchronize] on a pool that has sessions already. *)
Lemma synchronize_next (w : World) (a : Array) :
  oMessagesOnce (pool w) !! evPong = Some a →
  indexOf (FnPong (length (sessions w))) a = None → full a = false →
  synchronize oTarget2 fnCallback2 w =
    (Normal (length (sessions w)),
     set_iSync (length (sessions w)) (Some (iTimer w))
       (set_iTimer (S (iTimer w))
          (set_timers (fun ts => ts ++ [{| timer_id := iTimer w;
                                           timer_due := now w + 1000;
                                           timer_fn := FnSync (length (sessions w)) |}])
             (emit (PostMessage win2 (JSON_stringify [VStr evPing]))
                (set_pool (set_oMessagesOnce
                             <[evPong := push (FnPong (length (sessions w))) a]>)
                   (set_sessions (fun l => l ++
                      [{| oTarget := oTarget2; fnCallback := fnCallback2;
                          iSync := None |}]) w)))))).
Proof.
  intros Ho Hidx Hfull. unfold synchronize, new_Synchronization.
  rewrite bind_run. unfold modify at 1. cbv beta iota.
  rewrite bind_run. unfold registerOnce. cbn [pool set_sessions].
  rewrite Ho, Hidx, Hfull.
  rewrite bind_run. unfold onSync.
  cbn [sessions set_sessions set_pool].
  rewrite list_lookup_middle by done. cbn [oTarget].
  rewrite !bind_run. unfold send. rewrite resolved2.
  unfold postMessage, modify, setTimeout. cbn -[Nat.add]. done.
Qed.

Lemma synchronize_next_fields (w : World) (a : Array) :
  oMessagesOnce (pool w) !! evPong = Some a →
  indexOf (FnPong (length (sessions w))) a = None → full a = false →
  pool (snd (synchronize oTarget2 fnCallback2 w))
    = set_oMessagesOnce <[evPong := push (FnPong (length (sessions w))) a]> (pool w) ∧
  arrays (snd (synchronize oTarget2 fnCallback2 w)) = arrays w ∧
  sessions (snd (synchronize oTarget2 fnCallback2 w))
    = sessions w ++ [{| oTarget := oTarget2; fnCallback := fnCallback2;
                        iSync := Some (iTimer w) |}] ∧
  timers (snd (synchronize oTarget2 fnCallback2 w))
    = timers w ++ [{| timer_id := iTimer w; timer_due := now w + 1000;
                      timer_fn := FnSync (length (sessions w)) |}] ∧
  trace (snd (synchronize oTarget2 fnCallback2 w))
    = trace w ++ [PostMessage win2 (JSON_stringify [VStr evPing])].
Proof.
  intros Ho Hidx Hfull. rewrite (synchronize_next w a Ho Hidx Hfull).
  cbn -[Nat.add]. repeat split; try done.
  replace (length (sessions w)) with (length (sessions w) + 0) at 1 by lia.
  by rewrite alter_app_r.
Qed.

Lemma two_sessions_fields :
  pool (two_sessions oTarget1 fnCallback1 oTarget2 fnCallback2)
    = set_bReady (Some true)
        (set_oMessagesOnce <[evPong := [Some (FnPong 0); Some (FnPong 1)]]>
           (pool new_cMessagePool)) ∧
  arrays (two_sessions oTarget1 fnCallback1 oTarget2 fnCallback2)
    = arrays new_cMessagePool ∧
  sessions (two_sessions oTarget1 fnCallback1 oTarget2 fnCallback2)
    = [{| oTarget := oTarget1; fnCallback := fnCallback1; iSync := Some 1 |};
       {| oTarget := oTarget2; fnCallback := fnCallback2; iSync := Some 2 |}] ∧
  timers (two_sessions oTarget1 fnCallback1 oTarget2 fnCallback2)
    = [{| timer_id := 1; timer_due := 1000; timer_fn := FnSync 0 |};
       {| timer_id := 2; timer_due := 1000; timer_fn := FnSync 1 |}] ∧
  trace (two_sessions oTarget1 fnCallback1 oTarget2 fnCallback2)
    = [PostMessage win1 (JSON_stringify [VStr evPing]);
       PostMessage win2 (JSON_stringify [VStr evPing]); BindEvent].
Proof.
  destruct (synchronize_starts oTarget1 fnCallback1 win1 resolved1 new_cMessagePool)
    as (Hp1 & Ha1 & Hs1 & Ht1 & Hi1 & Hn1 & Htr1); try reflexivity.
  set (w1 := snd (synchronize oTarget1 fnCallback1 new_cMessagePool)) in *.
  destruct (synchronize_next_fields w1 [Some (FnPong 0)])
    as (Hp2 & Ha2 & Hs2 & Ht2 & Htr2).
  { rewrite Hp1. cbn [oMessagesOnce set_oMessagesOnce]. by rewrite lookup_insert_eq. }
  { by rewrite Hs1. }
  { reflexivity. }
  unfold two_sessions. fold w1.
  set (w2 := snd (synchronize oTarget2 fnCallback2 w1)) in *.
  assert (ready (Some true) w2 = emit BindEvent (set_pool (set_bReady (Some true)) w2))
    as ->.
  { unfold ready. rewrite Hp2, Hp1. by rewrite decide_False, decide_True. }
  cbn [pool arrays sessions timers trace emit set_pool].
  rewrite Hp2, Ha2, Hs2, Ht2, Htr2, Hp1, Ha1, Hs1, Ht1, Htr1, Hi1, Hn1.
  repeat split; try done.
Qed.

(** The pong handler of a session whose callback makes passive calls. *)
Lemma call_onPong (s i : nat) (o : Synchronization) (w : World) :
  sessions w !! s = Some o → iSync o = Some i →
  (∀ args, forallb passive (body (fnCallback o) args) = true) →
  ∃ w' es, call (FnPong s) [] w = (Normal tt, w') ∧
    trace w' = trace w ++ [Call (FnPong s) []; Call (FnUser (fnCallback o)) []] ++ es ∧
    calls es = [] ∧
    oMessages (pool w') = oMessages (pool w) ∧
    oMessagesOnce (pool w') = oMessagesOnce (pool w) ∧
    arrays w' = arrays w ∧ sessions w' = sessions w ∧
    timers w' = filter (fun t => timer_id t ≠ i) (timers w).
Proof.
  intros Hs Hi Hbody. unfold call. rewrite bind_run. unfold modify at 1.
  cbv beta iota. cbn [apply_fn]. unfold onPong. cbn [sessions emit]. rewrite Hs, Hi.
  rewrite bind_run. unfold modify at 1. cbv beta iota.
  rewrite bind_run. unfold modify at 1. cbv beta iota.
  destruct (exec_all_passive (body (fnCallback o) [])
              (emit (Call (FnUser (fnCallback o)) [])
                 (clearTimeout (Some i) (emit (Call (FnPong s) []) w))) (Hbody []))
    as (w' & es & -> & Ht & Hc & Hm & Ho & Ha & Hss & Hti).
  exists w', es. split; [done|]. rewrite Ht, Hm, Ho, Ha, Hss, Hti.
  cbn [trace emit clearTimeout set_timers]. rewrite <- !app_assoc. done.
Qed.

(** X18.  The once-handlers of [evPong] do not tell sessions apart, and
    [onMessage] does not look at the sender.  With two sessions pending, on
    whatever targets, a single pong completes both: both timeouts are
    cleared and both callbacks applied, in the order the sessions were
    created.  Afterwards no function but the ping handler is applied again,
    so neither session pings any more.  (The callbacks, and the application
    afterwards, may call [ready], [post], [send], [log], [init] and
    [excludeLog].) *)
Theorem one_pong_completes_every_session (event : MessageEvent) :
  (∀ args, forallb passive (body fnCallback1 args) = true) →
  (∀ args, forallb passive (body fnCallback2 args) = true) →
  is_pong event →
  posts (trace (two_sessions oTarget1 fnCallback1 oTarget2 fnCallback2))
    = [(win1, JSON_stringify [VStr evPing]); (win2, JSON_stringify [VStr evPing])] ∧
  length (timers (two_sessions oTarget1 fnCallback1 oTarget2 fnCallback2)) = 2 ∧
  ∃ w' es,
    onMessage event (two_sessions oTarget1 fnCallback1 oTarget2 fnCallback2)
      = (Normal tt, w') ∧
    trace w' = trace (two_sessions oTarget1 fnCallback1 oTarget2 fnCallback2) ++ es ∧
    calls es = [(FnPong 0, []); (FnUser fnCallback1, []);
                (FnPong 1, []); (FnUser fnCallback2, [])] ∧
    timers w' = [] ∧
    oMessagesOnce (pool w') !! evPong = None ∧
    (∀ steps f, (∀ cmd, s_do cmd ∈ steps → passive cmd = true) → f ≠ FnPing →
       invocations f (trace (run steps w')) = invocations f (trace w')).
Proof.
  intros Hbody1 Hbody2 Hpong.
  destruct two_sessions_fields as (Hp & Ha & Hs & Ht & Htr).
  set (W := two_sessions oTarget1 fnCallback1 oTarget2 fnCallback2) in *. clearbody W.
  split; [by rewrite Htr|]. split; [by rewrite Ht|].
  unfold onMessage. rewrite Hpong, decide_True by (by rewrite Hp).
  unfold recv_apply, arguments_of, recv.
  change (recv_key [VStr evPong]) with evPong.
  cbn [lookup list_lookup default tail id]. rewrite bind_run.
  rewrite recv_log_excluded
    by (rewrite Hp; apply (bool_decide_unpack _); by vm_compute).
  rewrite bind_run. unfold recv_persistent.
  assert (oMessages (pool W) !! evPong = None) as -> by (by rewrite Hp).
  unfold recv_once.
  assert (oMessagesOnce (pool W) !! evPong = Some [Some (FnPong 0); Some (FnPong 1)])
    as ->.
  { rewrite Hp. cbn [oMessagesOnce set_oMessagesOnce set_bReady].
    by rewrite lookup_insert_eq. }
  change (keys [Some (FnPong 0); Some (FnPong 1)]) with [0; 1]. cbn [for_in].
  change (hasOwnProperty [Some (FnPong 0); Some (FnPong 1)] 0) with true.
  change (hasOwnProperty [Some (FnPong 0); Some (FnPong 1)] 1) with true. cbv iota.
  change (get_index [Some (FnPong 0); Some (FnPong 1)] (to_int32 0))
    with (Some (FnPong 0)).
  change (get_index [Some (FnPong 0); Some (FnPong 1)] (to_int32 1))
    with (Some (FnPong 1)). cbv iota.
  rewrite bind_run.
  destruct (call_onPong 0 1 {| oTarget := oTarget1; fnCallback := fnCallback1;
                               iSync := Some 1 |}
              (set_pool (set_oMessagesOnce (delete evPong)) W))
    as (wA & esA & -> & HtrA & HcA & HmA & HoA & HaA & HsA & HtiA); try done.
  { cbn [sessions set_pool]. by rewrite Hs. }
  rewrite bind_ret_unit.
  destruct (call_onPong 1 2 {| oTarget := oTarget2; fnCallback := fnCallback2;
                               iSync := Some 2 |} wA)
    as (wB & esB & -> & HtrB & HcB & HmB & HoB & HaB & HsB & HtiB); try done.
  { rewrite HsA. cbn [sessions set_pool]. by rewrite Hs. }
  cbn [fnCallback] in *. cbn [timers trace pool arrays set_pool] in *.
  assert (timers wB = []) as Htimers.
  { rewrite HtiB, HtiA, Ht. reflexivity. }
  assert (oMessagesOnce (pool wB) !! evPong = None) as Hgone.
  { rewrite HoB, HoA. cbn. apply lookup_delete_eq. }
  exists wB, ([Call (FnPong 0) []; Call (FnUser fnCallback1) []] ++ esA ++
              [Call (FnPong 1) []; Call (FnUser fnCallback2) []] ++ esB).
  split; [done|]. split; [|split; [|split; [|split]]]; try done.
  - rewrite HtrB, HtrA. by rewrite <- !app_assoc.
  - rewrite !calls_app, HcA, HcB. reflexivity.
  - intros steps f Hsteps Hf.
    assert (idle f f (invocations f (trace wB)) (invocations f (trace wB)) wB) as Hidle.
    { split; [done|]. split; [|split; [|done]].
      - rewrite HaB, HaA, Ha. intros r a x Hr Hx. destruct r as [|r]; [|done].
        injection Hr as <-. apply list_elem_of_singleton in Hx. by injection Hx.
      - rewrite HoB, HoA, Hp. cbn. intros m a x Hm.
        apply lookup_delete_Some in Hm as [Hne Hm].
        rewrite lookup_insert_ne in Hm by done.
        change (oMessagesOnce (pool new_cMessagePool)) with (∅ : gmap string Array) in Hm.
        by rewrite lookup_empty in Hm. }
    assert (idle f f (invocations f (trace wB)) (invocations f (trace wB))
              (run steps wB)) as (_ & _ & _ & Hc & _); [|done].
    refine (preserves_run _ _ _ _ (idle_stable f f _ _ Hf Hf) steps _ _ Hidle).
    intros st Hst. destruct st as [cmd| |]; simpl; [|done|done].
    by apply Hsteps.
Qed.

End TwoSessions.


(** A session on the parent window and one on window 5; the parent
    answers. *)
Lemma one_pong_completes_every_session_witness :
  ∃ w' es,
    onMessage (H := plain_host) pong_from_parent
      (two_sessions (H := plain_host) TNull 7 (TWindow 5) 8) = (Normal tt, w') ∧
    calls es = [(FnPong 0, []); (FnUser 7, []); (FnPong 1, []); (FnUser 8, [])] ∧
    timers w' = [].
Proof.
  destruct (one_pong_completes_every_session (H := plain_host) TNull 7 1 (TWindow 5) 8 5
              eq_refl eq_refl pong_from_parent)
    as (_ & _ & w' & es & Hrun & _ & Hcalls & Htimers & _).
  - reflexivity.
  - reflexivity.
  - reflexivity.
  - exists w', es. split; [exact Hrun|]. split; [exact Hcalls|]. exact Htimers.
Defined.

(** ** Unregistering during a dispatch *)

Section UnregisterDuringDispatch.
Context `{Host}.

Lemma array_stored (w : World) (r : nat) (a : Array) :
  array w r = a → a ≠ [] → arrays w !! r = Some a.
Proof.
  unfold array. destruct (arrays w !! r) as [a'|]; simpl; [by intros ->|].
  by intros <-.
Qed.

(** X19.  A handler that calls [unregister(n, h2)] while [n] is being
    dispatched.  Among the persistent handlers this takes effect at once:
    [h2], which comes later in the same array, is not applied by this
    dispatch.  Among the once-handlers it has no effect: the array being
    dispatched is no longer in the registry, and [h2] is applied all the
    same.  This is so in every world the methods can produce. *)
Theorem unregister_during_dispatch (n : string) (i : nat) (h2 : Function)
    (args : list value) (w : World) :
  well_formed w →
  (∀ args', body i args' = [c_unregister n (Some h2)]) →
  h2 ≠ FnUser i → inert h2 →
  (∀ r, oMessages (pool w) !! n = Some r →
        array w r = [Some (FnUser i); Some h2] →
        oMessagesOnce (pool w) !! n = None →
        ∃ w' es, recv (VStr n :: args) w = (Normal tt, w') ∧
          trace w' = trace w ++ es ∧
          calls es = [(FnUser i, args)] ∧
          array w' r = [Some (FnUser i); None]) ∧
  (oMessages (pool w) !! n = None →
   oMessagesOnce (pool w) !! n = Some [Some (FnUser i); Some h2] →
   ∃ w' es, recv (VStr n :: args) w = (Normal tt, w') ∧
     trace w' = trace w ++ es ∧
     calls es = [(FnUser i, args); (h2, args)] ∧
     oMessagesOnce (pool w') !! n = None).
Proof.
  intros Hwf Hbody Hne Hinert. split.
  - intros r Hn Harr Ho.
    pose proof (proj1 (proj2 Hwf) n r Hn) as Hplain.
    unfold recv. change (recv_key (VStr n :: args)) with n.
    cbn [lookup list_lookup default tail id]. rewrite bind_run.
    destruct (recv_log_spec (VStr n) args w) as (es0 & -> & Hc0).
    rewrite bind_run. unfold recv_persistent. cbn [pool emit_all]. rewrite Hn.
    change (array (emit_all es0 w) r) with (array w r). rewrite Harr.
    change (keys [Some (FnUser i); Some h2]) with [0; 1]. cbn [for_in].
    change (array (emit_all es0 w) r) with (array w r). rewrite Harr.
    change (hasOwnProperty [Some (FnUser i); Some h2] 0) with true. cbv iota.
    change (get_index [Some (FnUser i); Some h2] (to_int32 0)) with (Some (FnUser i)).
    cbv iota. rewrite bind_run.
    unfold call at 1. rewrite bind_run. unfold modify at 1. cbv beta iota.
    cbn [apply_fn]. rewrite Hbody. cbn [exec_all exec]. rewrite !bind_run.
    assert (lastIndexOf h2 [Some (FnUser i); Some h2] = Some 1) as Hlast.
    { simpl. rewrite decide_True by done. done. }
    rewrite (unregister_persistent_only n h2
               (emit (Call (FnUser i) args) (emit_all es0 w)) r 1 Hplain Hn Ho)
      by (change (array (emit (Call (FnUser i) args) (emit_all es0 w)) r)
            with (array w r); by rewrite Harr).
    change (array (emit (Call (FnUser i) args) (emit_all es0 w)) r) with (array w r).
    rewrite Harr.
    cbv beta iota. cbn [mret M_ret].
    assert (arrays w !! r = Some [Some (FnUser i); Some h2]) as Hstored
      by (by apply array_stored).
    assert (r < length (arrays w)) as Hr by (by eapply lookup_lt_Some).
    set (w1 := set_arrays _ _).
    assert (array w1 r = [Some (FnUser i); None]) as Harr1.
    { unfold array, w1. cbn [arrays set_arrays emit emit_all].
      by rewrite list_lookup_insert_eq. }
    rewrite Harr1.
    change (hasOwnProperty [Some (FnUser i); None] 1) with false. cbv iota.
    change (@mret M _ unit tt w1) with (@Normal unit tt, w1). cbv iota.
    unfold recv_once.
    assert (oMessagesOnce (pool w1) !! n = None) as -> by done.
    exists w1, (es0 ++ [Call (FnUser i) args]).
    split; [done|]. split; [|split; [|done]].
    + unfold w1. cbn [trace set_arrays emit emit_all]. by rewrite <- app_assoc.
    + by rewrite calls_app, Hc0.
  - intros Hn Ho.
    pose proof (proj2 (proj2 Hwf) n _ Ho) as Hplain.
    unfold recv. change (recv_key (VStr n :: args)) with n.
    cbn [lookup list_lookup default tail id]. rewrite bind_run.
    destruct (recv_log_spec (VStr n) args w) as (es0 & -> & Hc0).
    rewrite bind_run. unfold recv_persistent. cbn [pool emit_all]. rewrite Hn.
    unfold recv_once. cbn [pool emit_all]. rewrite Ho.
    change (keys [Some (FnUser i); Some h2]) with [0; 1]. cbn [for_in].
    change (hasOwnProperty [Some (FnUser i); Some h2] 0) with true.
    change (hasOwnProperty [Some (FnUser i); Some h2] 1) with true. cbv iota.
    change (get_index [Some (FnUser i); Some h2] (to_int32 0)) with (Some (FnUser i)).
    change (get_index [Some (FnUser i); Some h2] (to_int32 1)) with (Some h2).
    cbv iota. rewrite bind_run.
    unfold call at 1. rewrite bind_run. unfold modify at 1. cbv beta iota.
    cbn [apply_fn]. rewrite Hbody. cbn [exec_all exec]. rewrite !bind_run.
    rewrite (unregister_absent n (Some h2)
               (emit (Call (FnUser i) args)
                  (set_pool (set_oMessagesOnce (delete n)) (emit_all es0 w)))
               Hplain Hn) by apply lookup_delete_eq.
    cbv beta iota. cbn [mret M_ret].
    rewrite bind_ret_unit.
    set (w1 := emit _ _).
    destruct (call_inert h2 args w1 Hinert) as (w2 & es2 & -> & Hm2 & Ho2 & Ha2 & Ht2 & Hc2).
    exists w2, (es0 ++ [Call (FnUser i) args] ++ es2).
    split; [done|]. split; [|split].
    + rewrite Ht2. unfold w1. cbn [trace emit set_pool emit_all].
      by rewrite <- !app_assoc.
    + rewrite !calls_app, Hc0, Hc2. done.
    + rewrite Ho2. unfold w1. cbn. apply lookup_delete_eq.
Qed.

(** X20.  A handler that calls [unregister(n)], without a handler, while [n]
    is being dispatched.  The persistent handlers behind it are still
    applied by this dispatch, since the loop holds the array and only the
    entry of the name was deleted; the once-handlers of the name are not
    applied, since their entry is gone when [recv] looks for it.  Afterwards
    the name has no handlers. *)
Theorem unregister_all_during_dispatch (n : string) (i : nat) (h2 : Function)
    (args : list value) (w : World) (r : nat) (a : Array) :
  (∀ args', body i args' = [c_unregister n None]) →
  inert h2 →
  oMessages (pool w) !! n = Some r →
  array w r = [Some (FnUser i); Some h2] →
  oMessagesOnce (pool w) !! n = Some a →
  ∃ w' es, recv (VStr n :: args) w = (Normal tt, w') ∧
    trace w' = trace w ++ es ∧
    calls es = [(FnUser i, args); (h2, args)] ∧
    oMessages (pool w') !! n = None ∧
    oMessagesOnce (pool w') !! n = None.
Proof.
  intros Hbody Hinert Hn Harr Ho.
  unfold recv. change (recv_key (VStr n :: args)) with n.
  cbn [lookup list_lookup default tail id]. rewrite bind_run.
  destruct (recv_log_spec (VStr n) args w) as (es0 & -> & Hc0).
  rewrite bind_run. unfold recv_persistent. cbn [pool emit_all]. rewrite Hn.
  change (array (emit_all es0 w) r) with (array w r). rewrite Harr.
  change (keys [Some (FnUser i); Some h2]) with [0; 1]. cbn [for_in].
  change (array (emit_all es0 w) r) with (array w r). rewrite Harr.
  change (hasOwnProperty [Some (FnUser i); Some h2] 0) with true. cbv iota.
  change (get_index [Some (FnUser i); Some h2] (to_int32 0)) with (Some (FnUser i)).
  cbv iota. rewrite bind_run.
  unfold call at 1. rewrite bind_run. unfold modify at 1. cbv beta iota.
  cbn [apply_fn]. rewrite Hbody. cbn [exec_all exec]. rewrite !bind_run.
  rewrite (unregister_all_both n (emit (Call (FnUser i) args) (emit_all es0 w)) r a)
    by done.
  cbv beta iota. cbn [mret M_ret].
  set (w1 := set_pool _ _).
  assert (array w1 r = [Some (FnUser i); Some h2]) as Harr1 by exact Harr.
  rewrite Harr1.
  change (hasOwnProperty [Some (FnUser i); Some h2] 1) with true. cbv iota.
  change (get_index [Some (FnUser i); Some h2] (to_int32 1)) with (Some h2).
  cbv iota. rewrite bind_ret_unit.
  destruct (call_inert h2 args w1 Hinert) as (w2 & es2 & -> & Hm2 & Ho2 & Ha2 & Ht2 & Hc2).
  assert (oMessages (pool w2) !! n = None) as Hm.
  { rewrite Hm2. unfold w1. cbn. apply lookup_delete_eq. }
  assert (oMessagesOnce (pool w2) !! n = None) as Ho'.
  { rewrite Ho2. unfold w1. cbn. apply lookup_delete_eq. }
  unfold recv_once. rewrite Ho'.
  exists w2, (es0 ++ [Call (FnUser i) args] ++ es2).
  split; [done|]. split; [|split; [|done]].
  - rewrite Ht2. unfold w1. cbn [trace emit set_pool emit_all].
    by rewrite <- !app_assoc.
  - rewrite !calls_app, Hc0, Hc2. done.
Qed.

End UnregisterDuringDispatch.


Lemma jealous_inert (id : nat) : id ≠ 0 → id ≠ 2 → inert (H := jealous_host) (FnUser id).
Proof.
  intros H0 H2. apply (passive_inert (H := jealous_host)). intros args.
  do 3 (destruct id as [|id]; try done).
Qed.

(** Callable 0 unregisters callable 1, which is behind it. *)
Lemma unregister_during_dispatch_witness :
  (∃ w' es, recv (H := jealous_host) [VStr "greet"] (pair_pool 0) = (Normal tt, w') ∧
     calls es = [(FnUser 0, [])] ∧ array w' 1 = [Some (FnUser 0); None]) ∧
  (∃ w' es, recv (H := jealous_host) [VStr "greet"] (pair_once_pool 0)
              = (Normal tt, w') ∧
     calls es = [(FnUser 0, []); (FnUser 1, [])]).
Proof.
  split.
  - destruct (unregister_during_dispatch (H := jealous_host) "greet" 0 (FnUser 1) []
                (pair_pool 0)) as [Hpers _].
    + do 2 apply register_well_formed. apply new_cMessagePool_well_formed.
    + reflexivity.
    + discriminate.
    + by apply jealous_inert.
    + destruct (Hpers 1 eq_refl eq_refl eq_refl) as (w' & es & Hrecv & _ & Hc & Ha).
      by exists w', es.
  - destruct (unregister_during_dispatch (H := jealous_host) "greet" 0 (FnUser 1) []
                (pair_once_pool 0)) as [_ Honce].
    + do 2 apply registerOnce_well_formed. apply new_cMessagePool_well_formed.
    + reflexivity.
    + discriminate.
    + by apply jealous_inert.
    + destruct (Honce eq_refl eq_refl) as (w' & es & Hrecv & _ & Hc & _).
      by exists w', es.
Defined.

(** Callable 2 unregisters ["greet"]; callable 1 is behind it, callable 3
    waits as a once-handler. *)
Lemma unregister_all_during_dispatch_witness :
  ∃ w' es,
    recv (H := jealous_host) [VStr "greet"]
      (snd (registerOnce "greet" (FnUser 3) (pair_pool 2))) = (Normal tt, w') ∧
    calls es = [(FnUser 2, []); (FnUser 1, [])] ∧
    oMessages (pool w') !! "greet" = None ∧
    oMessagesOnce (pool w') !! "greet" = None.
Proof.
  destruct (unregister_all_during_dispatch (H := jealous_host) "greet" 2 (FnUser 1) []
              (snd (registerOnce "greet" (FnUser 3) (pair_pool 2))) 1
              [Some (FnUser 3)])
    as (w' & es & Hrecv & _ & Hc & Hm & Ho).
  - reflexivity.
  - by apply jealous_inert.
  - reflexivity.
  - reflexivity.
  - reflexivity.
  - by exists w', es.
Defined.

(** ** The earlier class [MessagePool] *)

Section Earlier.
Context `{Host} `{MessagePool.App}.

(** X21.  An instance of the earlier class sends to the target set last.
    After [target(w)] for a window, or for a frame that has a content
    window, [send] posts the encoded arguments to that window and does
    nothing else.  After [target()] without an argument, or for a frame
    without content window, and on a new instance, [send] posts nothing: the
    message goes to [messageLog] with the prefix ["DROP "]. *)
Theorem earlier_send_follows_target (oTarget' : Target) (arguments : list value)
    (st : MessagePool.State) :
  (∀ win, oTarget' = TWindow win ∨ oTarget' = TIFrame (Some win) →
     MessagePool.send arguments (snd (MessagePool.target oTarget' st))
     = (Normal tt,
        MessagePool.set_base (emit (PostMessage win (JSON_stringify arguments)))
          (snd (MessagePool.target oTarget' st)))) ∧
  (oTarget' = TNull ∨ oTarget' = TIFrame None →
     MessagePool.send arguments (snd (MessagePool.target oTarget' st))
     = MessagePool.messageLog (VArr arguments) "DROP "
         (snd (MessagePool.target oTarget' st)) ∧
     posts (trace (MessagePool.base
                     (snd (MessagePool.send arguments
                             (snd (MessagePool.target oTarget' st))))))
     = posts (trace (MessagePool.base st))) ∧
  (∀ sName' fnLog',
     MessagePool.send arguments (MessagePool.constructor sName' fnLog')
     = MessagePool.messageLog (VArr arguments) "DROP "
         (MessagePool.constructor sName' fnLog')).
Proof.
  split; [|split].
  - intros win [-> | ->]; reflexivity.
  - intros Hnone.
    assert (MessagePool.oTarget (snd (MessagePool.target oTarget' st)) = None) as Ht
      by (by destruct Hnone as [-> | ->]).
    unfold MessagePool.send. rewrite Ht. split; [done|].
    unfold MessagePool.messageLog, MessagePool.lift.
    destruct (messageLog_effects (VArr arguments) "DROP "
                (MessagePool.base (snd (MessagePool.target oTarget' st))))
      as (c & es & -> & Hes).
    cbn [snd MessagePool.base MessagePool.set_base trace emit_all].
    rewrite posts_app.
    destruct Hes as [-> | (s & rest & _ & _ & _ & _ & ->)]; simpl;
      rewrite app_nil_r; by destruct Hnone as [-> | ->].
  - reflexivity.
Qed.

(** X22.  An instance of the earlier class has no ping handler until
    [synchronize] is called.  On a new instance that is ready, a ping is
    dispatched to nobody: it leaves the instance as it is, and no pong is
    sent.  [synchronize] registers the ping handler; from then on a ping is
    answered with one pong, posted to the instance's own window. *)
Theorem earlier_ping_needs_synchronize (sName' : option string) (fnLog' : option nat)
    (fnCallback' : nat) (event : MessageEvent) :
  JSON_parse (data event) = Some (VArr [VStr evPing]) →
  MessagePool.onMessage event (earlier_ready sName' fnLog')
    = (Normal tt, earlier_ready sName' fnLog') ∧
  ∃ st1 st2,
    MessagePool.synchronize fnCallback' (earlier_ready sName' fnLog') = (Normal tt, st1) ∧
    MessagePool.onMessage event st1 = (Normal tt, st2) ∧
    trace (MessagePool.base st2)
      = trace (MessagePool.base st1)
          ++ [Call FnPing []; PostMessage platform (JSON_stringify [VStr evPong])].
Proof.
  intros Hparse. split.
  - unfold MessagePool.onMessage. rewrite Hparse. by vm_compute.
  - exists (snd (MessagePool.synchronize fnCallback' (earlier_ready sName' fnLog'))),
      (snd (MessagePool.onMessage event
              (snd (MessagePool.synchronize fnCallback'
                      (earlier_ready sName' fnLog'))))).
    unfold MessagePool.onMessage. rewrite Hparse.
    split; [by vm_compute|]. split; by vm_compute.
Qed.

(** *** The ping loop of the earlier [synchronize] *)

Lemma earlier_run_app (l1 l2 : list MessagePool.Step) (st : MessagePool.State) :
  MessagePool.run (l1 ++ l2) st = MessagePool.run l2 (MessagePool.run l1 st).
Proof. unfold MessagePool.run. by rewrite foldl_app. Qed.

Lemma earlier_started_syncing (win : Window) (fnCallback' : nat) :
  earlier_syncing win fnCallback' 0 1000 (earlier_started win fnCallback').
Proof. unfold earlier_syncing. repeat split; try reflexivity; lia. Qed.

Lemma earlier_tick_wait (win : Window) (fnCallback' : nat) (k d : nat)
    (st : MessagePool.State) :
  earlier_syncing win fnCallback' k (S (S d)) st →
  earlier_syncing win fnCallback' k (S d) (MessagePool.tick st).
Proof.
  intros (Ho & Hc & Hp & Ha & Ht & Hi & Htr & Hd).
  unfold MessagePool.tick.
  cbn [MessagePool.base MessagePool.set_base timers set_now now]. rewrite Ht.
  rewrite filter_cons_False by (simpl; lia). simpl foldl.
  unfold earlier_syncing.
  cbn [MessagePool.base MessagePool.set_base MessagePool.oTarget MessagePool.closures
       pool arrays timers iTimer trace now set_now].
  rewrite Ht. repeat split; try done; try lia. do 2 f_equal. lia.
Qed.

Lemma earlier_tick_fire (win : Window) (fnCallback' : nat) (k : nat)
    (st : MessagePool.State) :
  earlier_syncing win fnCallback' k 1 st →
  earlier_syncing win fnCallback' (S k) 1000 (MessagePool.tick st).
Proof.
  intros (Ho & Hc & Hp & Ha & Ht & Hi & Htr & Hd).
  unfold MessagePool.tick.
  cbn [MessagePool.base MessagePool.set_base timers set_now now]. rewrite Ht.
  rewrite filter_cons_True by (simpl; lia). rewrite filter_nil. cbn [foldl].
  unfold MessagePool.fire.
  cbn [MessagePool.base MessagePool.set_base timers set_now timer_id timer_fn].
  rewrite Ht. cbn [fmap list_fmap timer_id].
  rewrite decide_True by (by apply list_elem_of_singleton).
  unfold MessagePool.call, MessagePool.apply_fn, MessagePool.fnPingPong,
    MessagePool.send, MessagePool.lift, MessagePool.update, modify, setTimeout,
    mbind, MessagePool.MO_bind.
  cbn -[Nat.add]. rewrite Ho. cbn -[Nat.add].
  unfold earlier_syncing. cbn -[Nat.add earlier_started]. rewrite Ht, Hc, Hi, Htr.
  rewrite filter_cons_False by (intros Hn; by apply Hn).
  cbn -[Nat.add earlier_started].
  repeat split; try done; try lia.
  rewrite <- !app_assoc. simpl. do 2 f_equal.
  apply (join_replicate_end [Call (FnSync 0) [];
                             PostMessage win (JSON_stringify [VStr evPing])] k).
Qed.

Lemma earlier_ticks (win : Window) (fnCallback' : nat) (k d j : nat)
    (st : MessagePool.State) :
  j < d → earlier_syncing win fnCallback' k d st →
  earlier_syncing win fnCallback' k (d - j)
    (MessagePool.run (replicate j MessagePool.s_tick) st).
Proof.
  revert d st. induction j as [|j IH]; intros d st Hj Hst.
  - by rewrite Nat.sub_0_r.
  - destruct d as [|[|d]]; [lia|lia|].
    change (replicate (S j) MessagePool.s_tick)
      with ([MessagePool.s_tick] ++ replicate j MessagePool.s_tick).
    rewrite earlier_run_app. replace (S (S d) - S j) with (S d - j) by lia.
    apply IH; [lia|]. by apply earlier_tick_wait.
Qed.

Lemma earlier_intervals (win : Window) (fnCallback' : nat) (k : nat) :
  earlier_syncing win fnCallback' k 1000 (earlier_waited win fnCallback' (1000 * k)).
Proof.
  induction k as [|k IH]; [apply earlier_started_syncing|].
  unfold earlier_waited in *.
  replace (1000 * S k) with (1000 * k + (999 + 1)) by lia.
  rewrite !replicate_add, !earlier_run_app.
  apply (earlier_tick_fire win fnCallback' k). replace 1 with (1000 - 999) at 1 by lia.
  apply earlier_ticks; [lia|done].
Qed.

Lemma earlier_waited_syncing (win : Window) (fnCallback' : nat) (k j : nat) :
  j < 1000 →
  earlier_syncing win fnCallback' k (1000 - j)
    (earlier_waited win fnCallback' (1000 * k + j)).
Proof.
  intros Hj. pose proof (earlier_intervals win fnCallback' k) as Hk.
  unfold earlier_waited in *. rewrite replicate_add, earlier_run_app.
  by apply earlier_ticks.
Qed.

(** X23.  The ping loop of the earlier [synchronize] runs until a pong
    arrives, and nothing else stops it: the instance has no [cancel].  With
    a window as target and no message arriving, [k] intervals of 1000 ms and
    [j < 1000] further milliseconds after the call exactly [k + 1] pings
    have gone to the target, one timeout is pending, and the callback has
    not been applied. *)
Theorem earlier_synchronize_keeps_pinging (win : Window) (fnCallback' : nat)
    (k j : nat) :
  j < 1000 →
  posts (trace (MessagePool.base (earlier_waited win fnCallback' (1000 * k + j))))
    = replicate (S k) (win, JSON_stringify [VStr evPing]) ∧
  invocations (FnUser fnCallback')
    (trace (MessagePool.base (earlier_waited win fnCallback' (1000 * k + j)))) = 0 ∧
  length (timers (MessagePool.base (earlier_waited win fnCallback' (1000 * k + j)))) = 1.
Proof.
  intros Hj.
  destruct (earlier_waited_syncing win fnCallback' k j Hj)
    as (Ho & Hc & Hp & Ha & Ht & Hi & Htr & Hd).
  rewrite Htr, Ht. split; [|split; [|done]].
  - rewrite posts_app, posts_pings. done.
  - rewrite invocations_app, invocations_pings. by rewrite decide_False.
Qed.

Lemma earlier_ticks_idle (t : nat) (st : MessagePool.State) :
  timers (MessagePool.base st) = [] →
  trace (MessagePool.base (MessagePool.run (replicate t MessagePool.s_tick) st))
  = trace (MessagePool.base st).
Proof.
  revert st. induction t as [|t IH]; intros st Ht; [done|].
  change (replicate (S t) MessagePool.s_tick)
    with ([MessagePool.s_tick] ++ replicate t MessagePool.s_tick).
  rewrite earlier_run_app.
  assert (MessagePool.run [MessagePool.s_tick] st
          = MessagePool.set_base (set_now (S (now (MessagePool.base st)))) st) as ->.
  { unfold MessagePool.run. cbn [foldl MessagePool.step]. unfold MessagePool.tick.
    cbn [MessagePool.base MessagePool.set_base timers set_now]. by rewrite Ht. }
  by rewrite IH.
Qed.

(** X24.  In the earlier class too a pong completes the handshake: the
    function [synchronize] registered once for [evPong] clears the pending
    timeout and applies the callback, once and without arguments, and as
    time passes no further ping is sent.  (The callback is taken to make no
    call on the instance.) *)
Theorem earlier_pong_completes (win : Window) (fnCallback' : nat) (k j : nat)
    (event : MessageEvent) :
  j < 1000 → MessagePool.body fnCallback' [] = [] → is_pong event →
  ∃ st',
    MessagePool.onMessage event (earlier_waited win fnCallback' (1000 * k + j))
      = (Normal tt, st') ∧
    trace (MessagePool.base st')
      = trace (MessagePool.base (earlier_waited win fnCallback' (1000 * k + j)))
          ++ [Call (FnPong 0) []; Call (FnUser fnCallback') []] ∧
    timers (MessagePool.base st') = [] ∧
    oMessagesOnce (pool (MessagePool.base st')) !! evPong = None ∧
    ∀ t, trace (MessagePool.base
                  (MessagePool.run (replicate t MessagePool.s_tick) st'))
         = trace (MessagePool.base st').
Proof.
  intros Hj Hbody Hpong.
  destruct (earlier_waited_syncing win fnCallback' k j Hj)
    as (Ho & Hc & Hp & Ha & Ht & Hi & Htr & Hd).
  set (st := earlier_waited win fnCallback' (1000 * k + j)) in *. clearbody st.
  assert (bReady (pool (MessagePool.base st)) = Some true) as Hready
    by (by rewrite Hp).
  assert (evPong ∈ aExcludeLog (pool (MessagePool.base st))) as Hex.
  { rewrite Hp. apply (bool_decide_unpack _). by vm_compute. }
  assert (oMessages (pool (MessagePool.base st)) !! evPong = None) as Hm
    by (by rewrite Hp).
  assert (oMessagesOnce (pool (MessagePool.base st)) !! evPong
          = Some [Some (FnPong 0)]) as Honce by (by rewrite Hp).
  unfold MessagePool.onMessage. rewrite Hpong, decide_True by done.
  unfold arguments_of, MessagePool.callMessage.
  change (recv_key [VStr evPong]) with evPong.
  cbn [lookup list_lookup default tail id].
  unfold mbind at 1, MessagePool.MO_bind at 1.
  unfold MessagePool.lift at 1. rewrite recv_log_excluded by done.
  assert (MessagePool.set_base (fun _ => MessagePool.base st) st = st) as ->
    by (by destruct st).
  unfold mbind at 1, MessagePool.MO_bind at 1.
  unfold MessagePool.call_persistent. rewrite Hm.
  unfold MessagePool.call_once. rewrite Honce.
  change (keys [Some (FnPong 0)]) with [0]. cbn [MessagePool.for_in].
  change (hasOwnProperty [Some (FnPong 0)] 0) with true. cbv iota.
  change (get_index [Some (FnPong 0)] (to_int32 0)) with (Some (FnPong 0)). cbv iota.
  unfold MessagePool.call, MessagePool.apply_fn, MessagePool.onPong,
    MessagePool.lift, modify, mbind, MessagePool.MO_bind.
  cbn [MessagePool.closures MessagePool.set_base MessagePool.base fst snd].
  rewrite Hc. cbn [lookup list_lookup MessagePool.fnCallback MessagePool.oPingPong].
  rewrite Hbody. cbn [MessagePool.exec_all mret MessagePool.MO_ret].
  eexists. split; [reflexivity|].
  cbn [MessagePool.base MessagePool.set_base trace timers pool emit clearTimeout
       set_timers set_pool set_oMessagesOnce oMessagesOnce].
  assert (filter (fun t => timer_id t ≠ S k) (timers (MessagePool.base st)) = [])
    as Hcleared.
  { rewrite Ht. rewrite filter_cons_False; [done|]. intros Hn. by apply Hn. }
  split; [by rewrite <- app_assoc|]. split; [done|]. split; [apply lookup_delete_eq|].
  intros t. by rewrite earlier_ticks_idle.
Qed.

End Earlier.


(** A ping on a new instance, and on one that has called [synchronize]. *)
Lemma earlier_ping_needs_synchronize_witness :
  MessagePool.onMessage (H := plain_host) (H0 := plain_app) ping_from_parent
    (earlier_ready (H := plain_host) (H0 := plain_app) (Some "left") None)
  = (Normal tt, earlier_ready (H := plain_host) (H0 := plain_app) (Some "left") None).
Proof.
  apply (@earlier_ping_needs_synchronize plain_host plain_app (Some "left") None 7
           ping_from_parent).
  reflexivity.
Defined.

(** Two and a half seconds after [synchronize] three pings have gone to
    window 4. *)
Lemma earlier_synchronize_keeps_pinging_witness :
  posts (trace (MessagePool.base
                  (earlier_waited (H := plain_host) (H0 := plain_app) 4 7
                     (1000 * 2 + 500))))
  = replicate 3 (4, wire_ping).
Proof.
  apply (@earlier_synchronize_keeps_pinging plain_host plain_app 4 7 2 500). lia.
Defined.

(** Window 4 answers half a second after the call. *)
Lemma earlier_pong_completes_witness :
  ∃ st',
    MessagePool.onMessage (H := plain_host) (H0 := plain_app) pong_from_parent
      (earlier_waited (H := plain_host) (H0 := plain_app) 4 7 (1000 * 0 + 500))
      = (Normal tt, st') ∧
    timers (MessagePool.base st') = [].
Proof.
  destruct (@earlier_pong_completes plain_host plain_app 4 7 0 500 pong_from_parent)
    as (st' & Hrun & _ & Htimers & _).
  - lia.
  - reflexivity.
  - reflexivity.
  - exists st'. split; [exact Hrun | exact Htimers].
Defined.

(** ** No handler is registered twice *)

Section DuplicateFree.
Context `{Host}.

Lemma duplicate_free_frame (w w' : World) :
  same_registry w w' → duplicate_free w → duplicate_free w'.
Proof. intros (Ha & _ & Ho) [H1 H2]. split; by rewrite ?Ha, ?Ho. Qed.

Lemma present_delete_sublist (i : nat) (a : Array) :
  sublist (present (delete_index i a)) (present a).
Proof.
  unfold delete_index. revert i. induction a as [|x a IH]; intros i; [done|].
  destruct i as [|i].
  - change (<[0:=None]> (x :: a)) with (None :: a). rewrite !present_cons.
    destruct x; [by apply sublist_cons|done].
  - change (<[S i:=None]> (x :: a)) with (x :: <[i:=None]> a). rewrite !present_cons.
    destruct x; [by apply sublist_skip|by apply IH].
Qed.

Lemma NoDup_delete_index (i : nat) (a : Array) :
  NoDup (present a) → NoDup (present (delete_index i a)).
Proof.
  intros Hnd. apply (sublist_NoDup _ _ Hnd), present_delete_sublist.
Qed.

Lemma NoDup_push (f : Function) (a : Array) :
  indexOf f a = None → NoDup (present a) → NoDup (present (push f a)).
Proof.
  intros Hidx Hnd. rewrite present_push. apply NoDup_app. split; [done|]. split.
  - intros x Hx ->%list_elem_of_singleton. apply indexOf_None in Hidx.
    by apply Hidx, elem_of_present.
  - apply NoDup_singleton.
Qed.

Lemma register_duplicate_free (n : string) (f : Function) :
  preserves duplicate_free (register n f).
Proof.
  intros w [H1 H2]. unfold register.
  destruct (oMessages (pool w) !! n) as [r|] eqn:Hn.
  - destruct (indexOf f (array w r)) as [i|] eqn:Hidx; [done|].
    destruct (full (array w r)); [done|]. split; [|done]. cbn [snd arrays set_arrays].
    intros r' a Ha. destruct (decide (r' = r)) as [->|Hne].
    + destruct (decide (r < length (arrays w))) as [Hr|Hr].
      * rewrite list_lookup_insert_eq in Ha by done. injection Ha as <-.
        apply NoDup_push; [done|]. apply (H1 r). by apply array_lookup.
      * rewrite list_insert_ge in Ha by lia. by apply (H1 r).
    + rewrite list_lookup_insert_ne in Ha by done. by apply (H1 r').
  - destruct (inherited n); [done|].
    split; [|done]. cbn [snd arrays set_arrays set_pool]. intros r a Ha.
    apply lookup_app_Some in Ha as [Ha|[_ Ha]]; [by apply (H1 r)|].
    destruct (r - length (arrays w)) as [|j]; [|done]. injection Ha as <-.
    apply NoDup_singleton.
Qed.

Lemma registerOnce_duplicate_free (n : string) (f : Function) :
  preserves duplicate_free (registerOnce n f).
Proof.
  intros w [H1 H2]. unfold registerOnce.
  destruct (oMessagesOnce (pool w) !! n) as [a|] eqn:Hn.
  - destruct (indexOf f a) as [i|] eqn:Hidx; [done|].
    destruct (full a); [done|]. split; [done|].
    cbn [snd pool set_pool set_oMessagesOnce oMessagesOnce].
    intros k a' Hk. destruct (decide (n = k)) as [->|Hne].
    + rewrite lookup_insert_eq in Hk. injection Hk as <-.
      apply NoDup_push; [done|]. by apply (H2 k).
    + rewrite lookup_insert_ne in Hk by done. by apply (H2 k).
  - destruct (inherited n); [done|].
    split; [done|]. cbn [snd pool set_pool set_oMessagesOnce oMessagesOnce].
    intros k a' Hk. destruct (decide (n = k)) as [->|Hne].
    + rewrite lookup_insert_eq in Hk. injection Hk as <-. apply NoDup_singleton.
    + rewrite lookup_insert_ne in Hk by done. by apply (H2 k).
Qed.

Lemma unregister_duplicate_free (n : string) (fo : option Function) (w : World) :
  duplicate_free w → duplicate_free (snd (unregister n fo w)).
Proof.
  revert w. apply (preserves_unregister duplicate_free).
  { intros w [H1 H2]. unfold unregister_persistent.
    destruct (oMessages (pool w) !! n) as [r|];
      [|unfold unregister_inherited; by repeat case_match].
    destruct fo as [f|]; [|done].
    destruct (lastIndexOf f (array w r)) as [i|]; [|done].
    split; [|done]. cbn [snd arrays set_arrays]. intros r' a Ha.
    destruct (decide (r' = r)) as [->|Hne].
    - destruct (decide (r < length (arrays w))) as [Hr|Hr].
      + rewrite list_lookup_insert_eq in Ha by done. injection Ha as <-.
        apply NoDup_delete_index. apply (H1 r). by apply array_lookup.
      + rewrite list_insert_ge in Ha by lia. by apply (H1 r).
    - rewrite list_lookup_insert_ne in Ha by done. by apply (H1 r'). }
  intros w1 [G1 G2]. unfold unregister_once.
  destruct (oMessagesOnce (pool w1) !! n) as [a|] eqn:Hn;
    [|unfold unregister_inherited; by repeat case_match].
  destruct fo as [f|].
  - destruct (lastIndexOf f a) as [i|]; [|done]. split; [done|].
    cbn [snd pool set_pool set_oMessagesOnce oMessagesOnce].
    intros k a' Hk. destruct (decide (n = k)) as [->|Hne].
    + rewrite lookup_insert_eq in Hk. injection Hk as <-.
      apply NoDup_delete_index. by apply (G2 k).
    + rewrite lookup_insert_ne in Hk by done. by apply (G2 k).
  - split; [done|]. cbn [snd pool set_pool set_oMessagesOnce oMessagesOnce].
    intros k a' Hk. apply lookup_delete_Some in Hk as [_ Hk]. by apply (G2 k).
Qed.

Lemma exec_duplicate_free (c : Cmd) : preserves duplicate_free (exec c).
Proof.
  destruct c; simpl.
  - intros w. by apply duplicate_free_frame.
  - intros w Hw. by destruct (has sMessage w).
  - apply register_duplicate_free.
  - apply registerOnce_duplicate_free.
  - apply preserves_bind; [intros w; apply unregister_duplicate_free|].
    intros _. apply preserves_ret.
  - intros w. by apply duplicate_free_frame.
  - intros w. by apply duplicate_free_frame.
  - intros w. apply duplicate_free_frame, send_same_registry.
  - intros w. apply duplicate_free_frame, ready_same_registry.
  - intros w. by apply duplicate_free_frame.
  - apply preserves_bind; [|intros _; by intros w].
    unfold synchronize, new_Synchronization. intros w Hw.
    apply preserves_bind; [| |done].
    { apply preserves_modify. intros w'. by apply duplicate_free_frame. }
    intros _. apply preserves_bind; [apply registerOnce_duplicate_free|].
    intros _. apply preserves_bind.
    { intros w'. apply duplicate_free_frame, onSync_same_registry. }
    intros _. by intros w'.
  - intros w Hw. unfold modify, cancel. cbn [snd].
    destruct (sessions w !! session) as [o|]; [|done].
    destruct (iSync o) as [i|]; [|done].
    eapply duplicate_free_frame; [|apply unregister_duplicate_free;
      eapply duplicate_free_frame; [|exact Hw]]; done.
  - by intros w Hw.
Qed.

Lemma duplicate_free_stable :
  Stable duplicate_free (fun _ => True) (fun _ => True) (fun _ => True).
Proof.
  split; try done.
  - intros c _. apply exec_duplicate_free.
  - intros w k a [H1 H2] _ Hk. split; [|done]. split; [done|].
    cbn [pool set_pool set_oMessagesOnce oMessagesOnce].
    intros k' a' Hk'. apply lookup_delete_Some in Hk' as [_ Hk']. by apply (H2 k').
  - intros w i. apply duplicate_free_frame. by destruct i.
  - intros s _ w. apply duplicate_free_frame, onSync_same_registry.
Qed.

(** X25.  No handler is ever registered twice under a name.  In every state
    the pool can reach, whatever the application's callables do and
    whatever arrives, the persistent handlers of a name are pairwise
    different functions, and so are its once-handlers; so a dispatch applies
    a function at most once as a persistent handler and at most once as a
    once-handler. *)
Theorem registries_stay_duplicate_free (steps : list Step) (n : string) :
  NoDup (persistent_handlers (run steps new_cMessagePool) n) ∧
  NoDup (once_handlers (run steps new_cMessagePool) n).
Proof.
  assert (duplicate_free (run steps new_cMessagePool)) as [H1 H2].
  { apply (preserves_run duplicate_free _ _ _ duplicate_free_stable).
    - intros st _. by destruct st.
    - apply register_duplicate_free. split; simpl.
      + intros r a Ha. by rewrite lookup_nil in Ha.
      + intros k a Hk. by rewrite lookup_empty in Hk. }
  split.
  - unfold persistent_handlers.
    destruct (oMessages (pool (run steps new_cMessagePool)) !! n) as [r|];
      [|constructor].
    unfold array.
    destruct (arrays (run steps new_cMessagePool) !! r) as [a|] eqn:Ha;
      [by apply (H1 r)|constructor].
  - unfold once_handlers.
    destruct (oMessagesOnce (pool (run steps new_cMessagePool)) !! n) as [a|] eqn:Ha;
      [by apply (H2 n)|constructor].
Qed.

End DuplicateFree.

(** ** A session on a target that resolves to no window *)

Section Unresolved.
Context `{Host}.
Context (oTarget' : Target) (fnCallback' : nat).
Hypothesis unresolved : resolve oTarget' = None.

Lemma send_ping_dropped (w : World) :
  evPing ∈ aExcludeLog (pool w) → send oTarget' [VStr evPing] w = (Normal tt, w).
Proof. intros Hex. unfold send. rewrite unresolved. by apply messageLog_excluded. Qed.

Lemma synchronize_run_unresolved (w : World) :
  oMessagesOnce (pool w) !! evPong = None → sessions w = [] →
  evPing ∈ aExcludeLog (pool w) →
  synchronize oTarget' fnCallback' w =
    (Normal 0,
     set_iSync 0 (Some (iTimer w))
       (set_iTimer (S (iTimer w))
          (set_timers (fun ts => ts ++ [{| timer_id := iTimer w;
                                           timer_due := now w + 1000;
                                           timer_fn := FnSync 0 |}])
             (set_pool (set_oMessagesOnce <[evPong := [Some (FnPong 0)]]>)
                (set_sessions (fun l => l ++
                   [{| oTarget := oTarget'; fnCallback := fnCallback';
                       iSync := None |}]) w))))).
Proof.
  intros Ho Hs Hex. unfold synchronize, new_Synchronization.
  rewrite bind_run. unfold modify at 1. cbv beta iota.
  rewrite bind_run. unfold registerOnce. cbn [pool set_sessions].
  rewrite Ho, inherited_evPong.
  rewrite bind_run. unfold onSync. rewrite Hs.
  cbn [sessions set_sessions set_pool length app lookup list_lookup].
  rewrite Hs. cbn [app lookup list_lookup oTarget].
  rewrite !bind_run. rewrite send_ping_dropped by done.
  cbv beta iota. rewrite ?bind_run. unfold modify, setTimeout. cbn -[Nat.add]. done.
Qed.

Lemma synchronize_unresolved :
  synchronize oTarget' fnCallback' new_cMessagePool =
    (Normal 0,
     set_iSync 0 (Some 1)
       (set_iTimer 2
          (set_timers (fun ts => ts ++ [{| timer_id := 1; timer_due := 1000;
                                           timer_fn := FnSync 0 |}])
             (set_pool (set_oMessagesOnce <[evPong := [Some (FnPong 0)]]>)
                (set_sessions (fun l => l ++
                   [{| oTarget := oTarget'; fnCallback := fnCallback';
                       iSync := None |}]) new_cMessagePool))))).
Proof.
  rewrite synchronize_run_unresolved; try reflexivity.
  apply (bool_decide_unpack _). by vm_compute.
Qed.

Lemma synchronize_muted :
  muted oTarget' fnCallback' 0 1000
    (snd (synchronize oTarget' fnCallback' new_cMessagePool)).
Proof.
  unfold muted. rewrite synchronize_unresolved. cbn [snd].
  repeat split; try reflexivity; lia.
Qed.

Lemma muted_pool (k d : nat) (w : World) :
  muted oTarget' fnCallback' k d w →
  pool w = set_oMessagesOnce <[evPong := [Some (FnPong 0)]]> (pool new_cMessagePool).
Proof. intros (Hp & _). rewrite Hp, synchronize_unresolved. reflexivity. Qed.

Lemma tick_muted_wait (k d : nat) (w : World) :
  muted oTarget' fnCallback' k (S (S d)) w →
  muted oTarget' fnCallback' k (S d) (tick w).
Proof.
  intros (Hp & Ha & Hs & Ht & Hi & Htr & Hd).
  rewrite (tick_waiting w _ Ht) by (simpl; lia).
  unfold muted. cbn [pool arrays sessions timers iTimer trace now set_now].
  rewrite Ht. repeat split; try done; try lia. do 2 f_equal. lia.
Qed.

Lemma tick_muted_fire (k : nat) (w : World) :
  muted oTarget' fnCallback' k 1 w →
  muted oTarget' fnCallback' (S k) 1000 (tick w).
Proof.
  intros Hw. pose proof (muted_pool k 1 w Hw) as Hpool.
  destruct Hw as (Hp & Ha & Hs & Ht & Hi & Htr & Hd).
  rewrite (tick_due w _ Ht) by (simpl; lia).
  unfold fire. cbn [timers set_now timer_id timer_fn]. rewrite Ht.
  cbn [fmap list_fmap timer_id].
  rewrite decide_True by (by apply list_elem_of_singleton).
  unfold call. rewrite bind_run. unfold modify at 1. cbv beta iota.
  cbn [apply_fn]. unfold onSync.
  cbn [sessions emit clearTimeout set_timers set_now]. rewrite Hs.
  cbn [lookup list_lookup oTarget]. rewrite !bind_run.
  rewrite send_ping_dropped.
  2: { cbn [pool emit set_timers set_now]. rewrite Hpool.
       apply (bool_decide_unpack _). by vm_compute. }
  cbv beta iota. rewrite bind_run. unfold modify, setTimeout. cbn -[Nat.add].
  unfold muted. cbn -[Nat.add]. rewrite Hs, Ht, Hi, Htr.
  rewrite filter_cons_False by (intros Hn; by apply Hn).
  repeat split; try done; try lia.
  change (Call (FnSync 0) [] :: replicate k (Call (FnSync 0) []))
    with (replicate (S k) (Call (FnSync 0) [])).
  by rewrite replicate_S_end.
Qed.

Lemma ticks_muted (k d j : nat) (w : World) :
  j < d → muted oTarget' fnCallback' k d w →
  muted oTarget' fnCallback' k (d - j) (run (replicate j s_tick) w).
Proof.
  revert d w. induction j as [|j IH]; intros d w Hj Hw.
  - by rewrite Nat.sub_0_r.
  - destruct d as [|[|d]]; [lia|lia|].
    change (replicate (S j) s_tick) with ([s_tick] ++ replicate j s_tick).
    rewrite run_app. replace (S (S d) - S j) with (S d - j) by lia.
    apply IH; [lia|]. by apply tick_muted_wait.
Qed.

Lemma intervals_muted (k : nat) :
  muted oTarget' fnCallback' k 1000 (waited oTarget' fnCallback' (1000 * k)).
Proof.
  induction k as [|k IH]; [apply synchronize_muted|].
  unfold waited in *. replace (1000 * S k) with (1000 * k + (999 + 1)) by lia.
  rewrite !replicate_add, !run_app.
  apply (tick_muted_fire k). replace 1 with (1000 - 999) at 1 by lia.
  apply ticks_muted; [lia|done].
Qed.

(** X26.  A session on a target that resolves to no window fails in
    silence.  Every ping is dropped, and as [evPing] is exempt from logging
    the drop is not reported: after any time nothing has been posted and the
    log function has not been called.  Yet the session goes on: its timeout
    function has run once per elapsed interval of 1000 ms, a timeout is
    pending, and the callback has not been applied. *)
Theorem unresolved_session_is_silent (k j : nat) :
  j < 1000 →
  trace (waited oTarget' fnCallback' (1000 * k + j))
    = replicate k (Call (FnSync 0) []) ∧
  posts (trace (waited oTarget' fnCallback' (1000 * k + j))) = [] ∧
  invocations (FnUser fnCallback') (trace (waited oTarget' fnCallback' (1000 * k + j)))
    = 0 ∧
  length (timers (waited oTarget' fnCallback' (1000 * k + j))) = 1.
Proof.
  intros Hj.
  assert (muted oTarget' fnCallback' k (1000 - j)
            (waited oTarget' fnCallback' (1000 * k + j)))
    as (Hp & Ha & Hs & Ht & Hi & Htr & Hd).
  { pose proof (intervals_muted k) as Hk. unfold waited in *.
    rewrite replicate_add, run_app. by apply ticks_muted. }
  rewrite Htr, Ht. split; [done|]. split; [|split; [|done]].
  - clear. induction k as [|k IH]; [done|]. exact IH.
  - clear. induction k as [|k IH]; [done|]. simpl.
    unfold invocations in *. simpl. by rewrite filter_cons_False.
Qed.

End Unresolved.


(** A top window synchronizes with the parent it does not have: two and a
    half seconds later. *)
Lemma unresolved_session_is_silent_witness :
  trace (waited (H := plain_top_host) TNull 7 (1000 * 2 + 500))
    = [Call (FnSync 0) []; Call (FnSync 0) []].
Proof.
  apply (unresolved_session_is_silent (H := plain_top_host) TNull 7 eq_refl 2 500). lia.
Defined.

(** ** Names do not share handlers *)

Section Separate.
Context `{Host}.

Lemma bind_ret_world {A : Type} (m : M A) (w : World) :
  snd ((m ≫= fun _ => mret tt) w) = snd (m w).
Proof. rewrite bind_run. by destruct (m w) as [[a|e] w']. Qed.

Lemma tidy_frame (w w' : World) : same_registry w w' → tidy w → tidy w'.
Proof.
  intros Hreg [Hwf Hsep]. split; [by eapply well_formed_frame|].
  destruct Hreg as (_ & Hm & _). unfold separate. by rewrite Hm.
Qed.

Lemma registerOnce_same (n : string) (f : Function) (w : World) :
  oMessages (pool (snd (registerOnce n f w))) = oMessages (pool w) ∧
  arrays (snd (registerOnce n f w)) = arrays w.
Proof. unfold registerOnce. by repeat case_match. Qed.

Lemma register_tidy (n : string) (f : Function) : preserves tidy (register n f).
Proof.
  intros w [Hwf Hsep]. split; [by apply register_well_formed|].
  unfold separate, register.
  destruct (oMessages (pool w) !! n) as [r|] eqn:Hn.
  { destruct (indexOf f (array w r)); [done|]. by destruct (full (array w r)). }
  destruct (inherited n); [done|].
  cbn [snd pool set_pool set_oMessages oMessages set_arrays].
  destruct Hwf as [(_ & H2 & _) _].
  intros a b r Ha Hb.
  destruct (decide (a = n)) as [->|Hane]; destruct (decide (b = n)) as [->|Hbne];
    try done.
  - rewrite lookup_insert_eq in Ha. rewrite lookup_insert_ne in Hb by done.
    injection Ha as <-. apply H2 in Hb. lia.
  - rewrite lookup_insert_eq in Hb. rewrite lookup_insert_ne in Ha by done.
    injection Hb as <-. apply H2 in Ha. lia.
  - rewrite lookup_insert_ne in Ha, Hb by done. by eapply Hsep.
Qed.

Lemma unregister_tidy (n : string) (fo : option Function) (w : World) :
  tidy w → tidy (snd (unregister n fo w)).
Proof.
  intros [Hwf Hsep]. split; [by apply unregister_well_formed|].
  clear Hwf. revert w Hsep. apply (preserves_unregister separate).
  - intros w Hsep. unfold separate, unregister_persistent, unregister_inherited.
    destruct (oMessages (pool w) !! n) as [r|] eqn:Hn; [|by repeat case_match].
    destruct fo as [f|]; [by destruct (lastIndexOf f (array w r))|].
    cbn [snd pool set_pool set_oMessages oMessages].
    intros a b r' [_ Ha]%lookup_delete_Some [_ Hb]%lookup_delete_Some. by eapply Hsep.
  - intros w Hsep. unfold separate, unregister_once, unregister_inherited.
    by repeat case_match.
Qed.

Lemma exec_tidy (c : Cmd) : preserves tidy (exec c).
Proof.
  destruct c; simpl.
  - intros w. by apply tidy_frame.
  - intros w Hw. by destruct (has sMessage w).
  - apply register_tidy.
  - intros w [Hwf Hsep]. split; [by apply registerOnce_well_formed|].
    unfold separate. by destruct (registerOnce_same sMessage fnHandler w) as [-> _].
  - apply preserves_bind; [intros w; apply unregister_tidy|].
    intros _. apply preserves_ret.
  - intros w. by apply tidy_frame.
  - intros w. by apply tidy_frame.
  - intros w. apply tidy_frame, send_same_registry.
  - intros w. apply tidy_frame, ready_same_registry.
  - intros w. by apply tidy_frame.
  - intros w [Hwf Hsep]. split.
    + by apply (exec_well_formed (c_synchronize oTarget0 fnCallback0)).
    + unfold separate.
      assert (oMessages (pool (snd ((synchronize oTarget0 fnCallback0;; mret tt) w)))
              = oMessages (pool w)) as ->; [|done].
      rewrite bind_ret_world. unfold synchronize, new_Synchronization.
      rewrite bind_run. unfold modify at 1. cbv beta iota. rewrite bind_run.
      destruct (registerOnce_same evPong (FnPong (length (sessions w)))
                  (set_sessions (fun l => l ++
                     [{| oTarget := oTarget0; fnCallback := fnCallback0;
                         iSync := None |}]) w)) as [Hm _].
      destruct (registerOnce evPong (FnPong (length (sessions w))) _) as [[[]|e] w1];
        cbn [snd] in Hm; [|done].
      rewrite bind_run.
      destruct (onSync_same_registry (length (sessions w)) w1) as (_ & Hm2 & _).
      change (oMessages (pool (set_sessions _ w))) with (oMessages (pool w)) in Hm.
      destruct (onSync (length (sessions w)) w1) as [[[]|e] w2]; cbn [snd] in Hm2;
        [unfold mret, M_ret|]; cbn [snd]; congruence.
  - intros w Hw. unfold modify, cancel. cbn [snd].
    destruct (sessions w !! session) as [o|]; [|done].
    destruct (iSync o) as [i|]; [|done].
    eapply tidy_frame; [|apply unregister_tidy; eapply tidy_frame; [|exact Hw]]; done.
  - by intros w Hw.
Qed.

Lemma tidy_stable : Stable tidy (fun _ => True) (fun _ => True) (fun _ => True).
Proof.
  split; try done.
  - intros c _. apply exec_tidy.
  - intros w k a [Hwf Hsep] _ Hk. split; [|done]. split; [|done].
    by apply (st_once _ _ _ _ well_formed_stable w k a).
  - intros w i. apply tidy_frame. by destruct i.
  - intros s _ w. apply tidy_frame, onSync_same_registry.
Qed.

Lemma reachable_tidy (steps : list Step) : tidy (run steps new_cMessagePool).
Proof.
  apply (preserves_run tidy _ _ _ tidy_stable).
  - intros st _. by destruct st.
  - split; [apply new_cMessagePool_well_formed|].
    intros n m r Hn Hm.
    destruct (decide (n = evPing)) as [->|Hne1];
      destruct (decide (m = evPing)) as [->|Hne2]; try done.
    + change (oMessages (pool new_cMessagePool))
        with (<[evPing := 0]> (∅ : gmap string nat)) in Hm.
      rewrite lookup_insert_ne, lookup_empty in Hm; done.
    + change (oMessages (pool new_cMessagePool))
        with (<[evPing := 0]> (∅ : gmap string nat)) in Hn.
      rewrite lookup_insert_ne, lookup_empty in Hn; done.
    + change (oMessages (pool new_cMessagePool))
        with (<[evPing := 0]> (∅ : gmap string nat)) in Hn.
      rewrite lookup_insert_ne, lookup_empty in Hn; done.
Qed.

Lemma register_untouched (n m : string) (h : Function) (w : World) :
  tidy w → m ≠ n → untouched m w (snd (register n h w)).
Proof.
  intros [Hwf Hsep] Hne. destruct Hwf as [(_ & H2 & _) _].
  unfold untouched, persistent_handlers, once_handlers, register.
  destruct (oMessages (pool w) !! n) as [r|] eqn:Hn.
  - destruct (indexOf h (array w r)); [done|]. destruct (full (array w r)); [done|].
    cbn [snd pool set_arrays]. split; [|done].
    destruct (oMessages (pool w) !! m) as [r'|] eqn:Hm; [|done].
    assert (r' ≠ r) as Hr by (intros ->; apply Hne; by eapply Hsep).
    unfold array. cbn [arrays set_arrays]. by rewrite list_lookup_insert_ne.
  - destruct (inherited n); [done|].
    cbn [snd pool set_pool set_oMessages oMessages oMessagesOnce set_arrays].
    rewrite lookup_insert_ne by done. split; [|done].
    destruct (oMessages (pool w) !! m) as [r'|] eqn:Hm; [|done].
    unfold array. cbn [arrays set_arrays set_pool].
    rewrite lookup_app_l; [done|]. by apply (H2 m).
Qed.

Lemma registerOnce_untouched (n m : string) (h : Function) (w : World) :
  m ≠ n → untouched m w (snd (registerOnce n h w)).
Proof.
  intros Hne. unfold untouched, persistent_handlers, once_handlers, registerOnce.
  destruct (oMessagesOnce (pool w) !! n) as [a|] eqn:Hn.
  - destruct (indexOf h a); [done|]. destruct (full a); [done|].
    cbn [snd pool set_pool set_oMessagesOnce oMessages oMessagesOnce].
    by rewrite lookup_insert_ne.
  - destruct (inherited n); [done|].
    cbn [snd pool set_pool set_oMessagesOnce oMessages oMessagesOnce].
    by rewrite lookup_insert_ne.
Qed.

Lemma unregister_untouched (n m : string) (fo : option Function) (w : World) :
  tidy w → m ≠ n → untouched m w (snd (unregister n fo w)).
Proof.
  intros [Hwf Hsep] Hne. unfold unregister. rewrite bind_run.
  assert (untouched m w (snd (unregister_persistent n fo w))) as [P1 P2].
  { unfold unregister_persistent.
    destruct (oMessages (pool w) !! n) as [r|] eqn:Hn;
      [|destruct (inherited n); [destruct fo|]; by split].
    unfold untouched, persistent_handlers, once_handlers.
    destruct fo as [f|].
    - destruct (lastIndexOf f (array w r)); [|done].
      cbn [snd pool set_arrays]. split; [|done].
      destruct (oMessages (pool w) !! m) as [r'|] eqn:Hm; [|done].
      assert (r' ≠ r) as Hr by (intros ->; apply Hne; by eapply Hsep).
      unfold array. cbn [arrays set_arrays]. by rewrite list_lookup_insert_ne.
    - cbn [snd pool set_pool set_oMessages oMessages oMessagesOnce].
      by rewrite lookup_delete_ne. }
  destruct (unregister_persistent n fo w) as [[b1|e] w1]; cbn [snd] in P1, P2;
    [|by split].
  rewrite bind_run.
  destruct (unregister_once_spec n fo w1) as (_ & _ & O3 & O4 & _ & O6 & _).
  destruct (unregister_once n fo w1) as [[b2|e] w2]; cbn [snd mret M_ret] in *;
    (split; [rewrite <- P1|rewrite <- P2]);
    unfold persistent_handlers, once_handlers, array;
    by rewrite ?O3, ?O4, ?(O6 m Hne).
Qed.

(** X27.  Names do not share handlers.  In every state the pool can reach,
    each name of [oMessages] has an array of its own, so [register],
    [registerOnce] and [unregister] for one name, whether they succeed or
    not, leave the persistent handlers and the once-handlers of every other
    name as they were. *)
Theorem names_do_not_interfere (steps : list Step) (n m : string) (h : Function)
    (fo : option Function) :
  m ≠ n →
  untouched m (run steps new_cMessagePool)
    (snd (register n h (run steps new_cMessagePool))) ∧
  untouched m (run steps new_cMessagePool)
    (snd (registerOnce n h (run steps new_cMessagePool))) ∧
  untouched m (run steps new_cMessagePool)
    (snd (unregister n fo (run steps new_cMessagePool))).
Proof.
  intros Hne. pose proof (reachable_tidy steps) as Htidy.
  split; [by apply register_untouched|].
  split; [by apply registerOnce_untouched|by apply unregister_untouched].
Qed.

End Separate.

(** ["greet"] comes and goes; the ping handler stays. *)
Lemma names_do_not_interfere_witness :
  persistent_handlers
    (snd (unregister "greet" None
            (run (H := plain_host) [s_do (c_register "greet" (FnUser 0))]
               new_cMessagePool))) evPing
  = [FnPing].
Proof.
  destruct (names_do_not_interfere (H := plain_host)
              [s_do (c_register "greet" (FnUser 0))] "greet" evPing (FnUser 0) None)
    as (_ & _ & [Hp _]).
  - discriminate.
  - rewrite Hp. reflexivity.
Defined.

